(* ===== verification/_CoqProject ===== *)
-Q . S2P
Prelude.v
Buf.v
Utf8.v
Bits.v
Varint.v
ErrorCode.v
Frame.v
Settings.v
Capsule.v
HuffmanTable.v
Huffman.v
PrefixInt.v
StaticTable.v
Qpack.v
Connect.v
Fuzz.v
Streams.v
QuinnStreams.v
QuinnCapsules.v
QuinnSession.v
QuinnHandshake.v
QuinnClient.v
QuinnBuilders.v
Tls.v
QuionStreams.v
QuionTask.v
QuionSession.v
Accepting.v
Interop.v
QuionHandshake.v
QuionBuilders.v
WasmStreams.v
WasmSession.v
Sessions.v
Examples.v
Servers.v
Setup.v
Demo.v
ProtoTests.v
BackendTests.v
