(* ===== verification/Prelude.v ===== *)
(** * Verification of webtrans (WebTransport over HTTP/3, in Rust)

    webtrans is a protocol core without I/O (webtrans-proto), traits for sessions and
    streams (webtrans-trait), and three backends that implement them: over the QUIC
    library Quinn (webtrans-quinn), over Quion (webtrans-quion), and in the browser
    (webtrans-wasm).  This development models the core, the traits and the backends,
    one Rocq definition per Rust function, and proves what makes them correct.

    ** How the program hangs together

    A client checks a URL, resolves its host and opens a QUIC connection ([client.rs]);
    both sides exchange HTTP/3 SETTINGS on unidirectional streams ([settings.rs]), and
    the client sends an extended CONNECT on a bidirectional one, which the server's
    user accepts or refuses ([connect.rs], [server.rs]).  The streams of a session
    begin with a header that names the session, datagrams with its identifier, and an
    accept loop sorts what arrives ([session.rs]).  The CONNECT stream stays open and
    carries capsules; a background task watches it and closes the session when either
    side says so.  Settings, CONNECT messages, frames and capsules are encoded by the
    core, with QUIC varints, QPACK (static table, Huffman strings) and the mapping of
    application error codes into the HTTP/3 code space.

    ** Files

    - [Prelude] outcomes, the state-and-error monad, machine integers, byte strings;
      [Buf] the buffer and stream traits of the bytes and tokio crates as type
      classes with their documented behaviour; [Utf8] Rust's string functions;
      [Bits] bit strings.
    - webtrans-proto: [Varint] varint.rs; [ErrorCode] error.rs; [Frame] grease.rs,
      frame.rs, stream.rs; [Settings] settings.rs; [Capsule] capsule.rs;
      [HuffmanTable], [Huffman] huffman.rs; [PrefixInt], [StaticTable], [Qpack]
      qpack.rs; [Connect] connect.rs; [Fuzz] lib.rs and the fuzz targets, which call
      its decoders on any bytes.
    - webtrans-trait: [Streams] the provided methods of the stream traits, over
      classes of the required ones, with the contract their documentation states.
    - webtrans-quinn: [QuinnStreams] send.rs, recv.rs, error.rs; [QuinnCapsules] the
      CONNECT stream and the background task of session.rs; [QuinnSession] sessions,
      the accept loops, datagrams and close; [QuinnHandshake] settings.rs, connect.rs,
      server.rs; [QuinnClient] client.rs; [QuinnBuilders] the builders, crypto.rs and
      the certificate verifiers; [Tls] tls/ (certificates, keys, configurations).
    - webtrans-quion: [QuionStreams], [QuionTask], [QuionSession], [QuionHandshake],
      [QuionBuilders], likewise; [QuionHandshake] has the client and the guard of
      lib.rs, [QuionTask] the end of the task and [closed], [QuionBuilders] also tls/,
      which does what Quinn's does (from [Tls] it takes the errors and the paths).
    - Across the backends: [Accepting] the calls of [accept_uni] and [accept_bi] that
      wait on the one loop of a session, with their wakers; [Interop] what one
      endpoint opens, at the other.
    - webtrans-wasm: [WasmStreams] send.rs, recv.rs, error.rs; [WasmSession]
      session.rs and client.rs.
    - [Sessions] the Session trait of webtrans-trait as a class, and its three
      implementations, with [closed].
    - Programs over the trait: [Examples] the echo server and client and the sessions
      of the browser test server; [Servers] the loops of the two servers, which take a
      request and start its session, over Quinn's [Session::new]; [Setup] their
      certificates and whom they trust; [Demo] webtrans-wasm-demo.
    - The unit tests and the benchmarks, run on the model: [ProtoTests] those of
      webtrans-proto and the seeds of its fuzzer; [BackendTests] those of
      webtrans-trait (with its test doubles) and of the three backends.

    A Rust type [T] with methods is a Record or Inductive [T] and a Module of its
    methods (or names that begin with it); a method that takes [&mut self] is a
    computation over the state ([M S E A]), one that can fail returns an [outcome],
    in which a panic is a value of its own.  The definitions keep the names of the
    source; where a name is a keyword, is used for two things in one file or differs
    between the backends only, a word is put in front ([sv_], [rq_], [trait_], or [n]
    for Quion's).  Integers are [Z] with the width, the wrapping or the overflow
    panic written out; [usize] has 32 or 64 bits ([Platform]).

    ** What the theorems show

    - The codecs: encoders write and decoders read back exactly what they should
      ([varint_roundtrip], [settings_roundtrip], [capsule_roundtrip],
      [headers_roundtrip], [connect_request_roundtrip], [error_code_roundtrip]); on
      any input decoders return, without a panic, with the result or the error that a
      grammar of the bytes calls for ([settings_decode_sound],
      [headers_decode_valid], [connect_request_decode_exact],
      [prefix_decode_bounds], [frame_read_skips_grease]); the fuzz targets never panic ([fuzz_targets_safe]);
      [huffman_decode_exact] gives the accepted inputs
      exactly, over the table as the code lists it; reading off a stream agrees with
      decoding its bytes ([connect_read_decode]).
    - The stream traits: over any stream that honours the contract, the helpers send
      and read all, and only, what they should ([write_all_complete],
      [read_all_complete]); the wrappers of each backend honour it
      ([quinn_honours_contracts], [quion_honours_contracts]) and keep application
      codes from end to end ([quion_codes]); the browser streams account for every
      byte under polls, partial writes and dropped futures ([wasm_send_accounts],
      [wasm_write_fulfilled], [wasm_recv_complete]).
    - Connecting: the two sides reach a session for the same URL, or the error that
      was answered ([session_established], [quion_handshake], [client_connect]); whom
      a client trusts and what a server proves itself with ([quinn_client_trust],
      [quion_client_trust], [quinn_server_certificates]); a connection is admitted
      when there is room for it, a handshake's result is returned when it is done, and
      a request answered once ([server_admission], [request_answered_once]).
    - Sessions: headers name the session to the peer, also when the stream is reset
      ([stream_headers_match], [reliable_reset_attributed]); accept loops lose nothing
      in any order of events ([accept_loses_nothing]); with any number of handles that
      call, poll and drop their calls, each stream is returned once and the call that
      polled last is woken ([accept_exactly_once], [accept_never_forgets]), an earlier
      one is not ([accept_second_call_forgotten]); what one endpoint sends on a stream
      the other receives ([streams_delivered]), and an echo comes back whole
      ([echo_end_to_end]); datagrams ([datagram_roundtrip]); the browser's shared
      readers ([wasm_shared_reads]).
    - Closing: capsules are put together across frames ([capsule_reassembly]), the
      task never panics and ends ([run_closed_safe]), a close reaches the peer
      ([close_reaches_peer]), [closed] always returns and with the reason published
      ([closed_returns], [close_published]), which the trait's method gives over Quion
      and in the browser ([closed_reports]) but not over Quinn
      ([quinn_close_unreported]).
    - The programs: [examples_trust] and [demo_pins] say whom the examples and the
      demo take for their peer; [servers_answer] what the two servers answer to each
      request.
    - The tests: [proto_tests_pass] and [backend_tests_pass], by computation, say that
      the model does what the tests of the code assert; [corpus_outcomes] what the
      decoders make of the fuzzer's seeds.
    - The two QUIC backends do the same where they share their logic
      ([quion_matches_quinn] and the agreement lemmas of [QuionHandshake]).

    Theorems with hypotheses come with a witness that runs them on a concrete input.

    ** Loops, schedules and fuel

    A [loop] is a Fixpoint with fuel.  Decoders over a buffer take the length of their
    input, which each round consumes, so that they never run out ([Huffman.collect],
    [Qpack.decode_loop], [Settings.decode_loop], [Utf8]); the loops of the prefix
    integers take one round per bit of [usize].  Loops over streams take any fuel, and
    the theorems say how much is enough: above the number of frames, or of bytes,
    that the stream yields.  [select!] is a list of the branches that turn out ready,
    over which the theorems quantify; a poll that is not ready is [None]; concurrent
    calls are the steps of a labelled system in any interleaving.  The futures of a
    [try_join!] are lists of what they do between suspensions ([thread]), and a list
    says which goes on next.  A future that may be dropped is a computation with a
    parameter that says how far it is driven, if it is polled at all.

    ** Parameters

    What is not in the repository is a type class of the operations used, and its
    documented behaviour, where a theorem relies on it, another class of laws: the
    bytes, tokio, url and http crates; Quinn and Quion (connections, streams,
    endpoints, their errors); rustls and its configuration builders; the Web Streams
    and WebTransport objects of the browser; name resolution, timers, files.  A
    HashMap is a finite map with an arbitrary order of iteration.  Each class of laws
    has an instance, used by the witnesses.

    ** Not modelled

    Log output, [Debug] and [Display] (but for addresses, which the client uses as
    names), the tokio and futures adapters that only delegate, getters that only
    forward to the QUIC library, the comparison of session handles by identity and the
    bounds of the traits: no logic of the program's own.  The facade crate re-exports
    one backend; the tool that makes the test certificate only calls a library.  Tests
    that run over sockets or in a browser, and the two that make certificates, are
    left out, as their outcome is that of the libraries under them.  Of the programs,
    the command line and the elements of the page are left out.  Wake-ups are modelled where
    calls share a loop or a notification ([Accepting], [QuionTask]), elsewhere by their
    effect (whoever waits may run again).  Memory is not modelled. *)
From stdpp Require Export base list gmap strings.
From Stdlib Require Export ZArith Lia.

#[global] Open Scope Z_scope.
#[export] Set Warnings "-clear-no-such-hyp".

(** ** Outcomes

    Every operation of the source is a state transformer that ends in one of
    four ways: a value, an error value, a panic (a failed [assert!], an
    [unreachable!], an [unwrap] of nothing, an arithmetic overflow, a shift by
    the width, an index out of range), or no more fuel for a [loop] whose
    iterations Rocq has to count.  Every definition that takes fuel comes with
    a theorem that enough fuel never gives [OutOfFuel]. *)
Inductive outcome (E A : Type) : Type :=
| Ok (a : A)
| Err (e : E)
| Panic
| OutOfFuel.
Arguments Ok {E A} a.
Arguments Err {E A} e.
Arguments Panic {E A}.
Arguments OutOfFuel {E A}.

#[export] Instance outcome_eq_dec `{EqDecision E, EqDecision A} : EqDecision (outcome E A).
Proof. solve_decision. Defined.

(** A computation over a mutable state [S] (a buffer, a stream, an output
    vector), with errors [E]; the state survives an error, as it does behind a
    [&mut] borrow. *)
Definition M (S E A : Type) : Type := S -> outcome E A * S.

Definition ret {S E A} (a : A) : M S E A := fun s => (Ok a, s).
Definition throw {S E A} (e : E) : M S E A := fun s => (Err e, s).
Definition panic {S E A} : M S E A := fun s => (Panic, s).
Definition out_of_fuel {S E A} : M S E A := fun s => (OutOfFuel, s).

Definition bind {S E A B} (m : M S E A) (k : A -> M S E B) : M S E B :=
  fun s =>
    match m s with
    | (Ok a, s') => k a s'
    | (Err e, s') => (Err e, s')
    | (Panic, s') => (Panic, s')
    | (OutOfFuel, s') => (OutOfFuel, s')
    end.

(** [m.map_err(f)?] and the [From] conversions of the [?] operator. *)
Definition map_err {S E F A} (f : E -> F) (m : M S E A) : M S F A :=
  fun s =>
    match m s with
    | (Ok a, s') => (Ok a, s')
    | (Err e, s') => (Err (f e), s')
    | (Panic, s') => (Panic, s')
    | (OutOfFuel, s') => (OutOfFuel, s')
    end.

(** [o.ok_or(e)?] *)
Definition ok_or {S E A} (e : E) (o : option A) : M S E A :=
  match o with Some a => ret a | None => throw e end.

(** [o.unwrap()] / [o.expect(..)] *)
Definition unwrap {S E A} (o : option A) : M S E A :=
  match o with Some a => ret a | None => panic end.

(** [assert!(b)] *)
Definition assert_ {S E} (b : bool) : M S E unit :=
  if b then ret () else panic.

(** Run a state-free piece of code inside [M]. *)
Definition lift {S E A} (o : outcome E A) : M S E A := fun s => (o, s).

Declare Scope wt_scope.
Delimit Scope wt_scope with wt.
Notation "'let*' p ':=' m 'in' k" := (bind m (fun p => k))
  (at level 10, p as pattern, m at level 100, k at level 200) : wt_scope.
Notation "m ;;; k" := (bind m (fun _ => k))
  (at level 100, right associativity) : wt_scope.
#[global] Open Scope wt_scope.

(** [outcome] without a state: the pure fallible functions. *)
Definition obind {E A B} (o : outcome E A) (k : A -> outcome E B) : outcome E B :=
  match o with
  | Ok a => k a
  | Err e => Err e
  | Panic => Panic
  | OutOfFuel => OutOfFuel
  end.
Notation "'let?' p ':=' m 'in' k" := (obind m (fun p => k))
  (at level 10, p as pattern, m at level 100, k at level 200) : wt_scope.

Definition panics {E A} (o : outcome E A) : Prop := o = Panic \/ o = OutOfFuel.
Definition completes {E A} (o : outcome E A) : Prop := ~ panics o.
Lemma completes_Ok {E A} (a : A) : completes (E:=E) (Ok a).
Proof. by intros [?|?]. Qed.
Lemma completes_Err {E A} (e : E) : completes (A:=A) (Err e).
Proof. by intros [?|?]. Qed.
Lemma completes_cases {E A} (o : outcome E A) : completes o -> (exists a, o = Ok a) \/ exists e, o = Err e.
Proof. unfold completes, panics. destruct o; intros; eauto; exfalso; tauto. Qed.
#[export] Hint Resolve completes_Ok completes_Err : core.

(** ** Machine integers

    An unsigned [w]-bit integer is the [Z] of its value; casts wrap. *)
Definition is_u (w x : Z) : Prop := 0 <= x < 2 ^ w.
Abbreviation is_u8 := (is_u 8).
Abbreviation is_u16 := (is_u 16).
Abbreviation is_u32 := (is_u 32).
Abbreviation is_u64 := (is_u 64).
#[export] Instance is_u_dec w x : Decision (is_u w x).
Proof. unfold is_u. apply _. Defined.
Definition as_u (w x : Z) : Z := x mod 2 ^ w.
Abbreviation as_u8 := (as_u 8).
Abbreviation as_u16 := (as_u 16).
Abbreviation as_u32 := (as_u 32).
Abbreviation as_u64 := (as_u 64).

Abbreviation bytes := (list Z).
Abbreviation is_bytes := (Forall (is_u 8)).

(** [u16::from_be_bytes] and its siblings, and the [put_u16] family. *)
Definition from_be_bytes (l : bytes) : Z := fold_left (fun acc b => acc * 256 + b) l 0.
Fixpoint to_be_bytes (n : nat) (x : Z) : bytes :=
  match n with
  | O => []
  | S k => (x / 256 ^ Z.of_nat k) mod 256 :: to_be_bytes k x
  end.

(** The length of a vector, string or slice. *)
Definition len {A} (l : list A) : Z := Z.of_nat (length l).
Arguments len {A} l : simpl never.

(** A string literal of the source, as the bytes it stands for. *)
Fixpoint lit (s : string) : bytes :=
  match s with
  | EmptyString => []
  | String a s' => Z.of_N (Ascii.N_of_ascii a) :: lit s'
  end.

(** The width of [usize]: 64 bits on the servers, 32 bits on wasm32. *)
Class Platform := {
  usize_bits : Z;
  usize_bits_cases : usize_bits = 32 \/ usize_bits = 64
}.
Definition usize_max `{Platform} : Z := 2 ^ usize_bits - 1.
(** [isize::MAX], the most bytes an allocation may have. *)
Definition isize_max `{Platform} : Z := 2 ^ (usize_bits - 1) - 1.
(** [usize::try_from(x)] for an unsigned [x]. *)
Definition usize_try_from `{Platform} (x : Z) : option Z :=
  if x <=? usize_max then Some x else None.

#[refine] Definition Platform64 : Platform := {| usize_bits := 64 |}.
Proof. right. reflexivity. Defined.
#[refine] Definition Platform32 : Platform := {| usize_bits := 32 |}.
Proof. left. reflexivity. Defined.

(** A function that can only panic, called where errors exist. *)
Definition never {E A} (o : outcome Empty_set A) : outcome E A :=
  match o with
  | Ok a => Ok a
  | Err e => match e with end
  | Panic => Panic
  | OutOfFuel => OutOfFuel
  end.

(** [usize] addition: an overflow panics. *)
Definition usize_add `{Platform} (a b : Z) : outcome Empty_set Z :=
  if a + b <=? usize_max then Ok (a + b) else Panic.

(** [std::collections::HashMap]: a finite map, together with the order its
    iteration happens to follow, of which nothing is promised but that every
    entry comes once. *)
Class HashMapIter (K V : Type) `{Countable K} := {
  hm_iter : gmap K V -> list (K * V);
  hm_iter_perm m : hm_iter m ≡ₚ map_to_list m
}.
Definition hm_iter_list K V `{Countable K} : HashMapIter K V :=
  {| hm_iter := map_to_list; hm_iter_perm m := Permutation_refl _ |}.
Definition hm_iter_rev K V `{Countable K} : HashMapIter K V :=
  {| hm_iter m := reverse (map_to_list m); hm_iter_perm m := reverse_Permutation _ |}.

Lemma NoDup_fst_filter {K V} (P : K * V -> Prop) `{!forall kv, Decision (P kv)} (l : list (K * V)) :
  NoDup l.*1 -> NoDup (filter P l).*1.
Proof.
  induction l as [|kv l IH]; intros Hnd; [done|].
  cbn [fmap list_fmap] in Hnd. apply NoDup_cons in Hnd as [Hni Hnd].
  rewrite filter_cons. case_decide; [|auto]. cbn [fmap list_fmap].
  apply NoDup_cons. split; [|auto].
  intros Hin. apply list_elem_of_fmap in Hin as (kv' & Heq & Hin).
  apply list_elem_of_filter in Hin as [_ Hin]. apply Hni. rewrite Heq.
  apply list_elem_of_fmap. eauto.
Qed.

Lemma usize_max_ge `{Platform} : 2 ^ 32 - 1 <= usize_max.
Proof. unfold usize_max. destruct usize_bits_cases as [-> | ->]; lia. Qed.
Lemma isize_max_range `{Platform} : 2 ^ 31 - 1 <= isize_max <= usize_max.
Proof. unfold isize_max, usize_max. destruct usize_bits_cases as [-> | ->]; lia. Qed.
Lemma usize_try_from_ok `{Platform} x : x <= usize_max -> usize_try_from x = Some x.
Proof. intros. unfold usize_try_from. by rewrite (proj2 (Z.leb_le _ _)). Qed.
Lemma usize_try_from_Some `{Platform} x y : usize_try_from x = Some y -> y = x /\ x <= usize_max.
Proof. unfold usize_try_from. destruct (Z.leb_spec x usize_max); intros; by simplify_eq. Qed.
Lemma usize_try_from_Some_eq `{Platform} x y : usize_try_from x = Some y -> y = x.
Proof. by intros [-> _]%usize_try_from_Some. Qed.
Lemma usize_try_from_small `{Platform} x : x <= 2 ^ 32 - 1 -> usize_try_from x = Some x.
Proof. intros. apply usize_try_from_ok. pose proof usize_max_ge. lia. Qed.
Lemma usize_add_ok `{Platform} a b :
  0 <= a -> 0 <= b -> a + b <= 2 ^ 32 - 1 -> usize_add a b = Ok (a + b).
Proof.
  intros. unfold usize_add. pose proof usize_max_ge. by rewrite (proj2 (Z.leb_le _ _)) by lia.
Qed.

(** ** Running the monad *)
Section Running.
Context {S E F A B : Type}.
Lemma bind_Ok {m : M S E A} {k : A -> M S E B} {s a s'} :
  m s = (Ok a, s') -> bind m k s = k a s'.
Proof. unfold bind. by intros ->. Qed.
Lemma bind_Err {m : M S E A} {k : A -> M S E B} {s e s'} :
  m s = (Err e, s') -> bind m k s = (Err e, s').
Proof. unfold bind. by intros ->. Qed.
Lemma map_err_Ok {f : E -> F} {m : M S E A} {s a s'} :
  m s = (Ok a, s') -> map_err f m s = (Ok a, s').
Proof. unfold map_err. by intros ->. Qed.
Lemma map_err_Err {f : E -> F} {m : M S E A} {s e s'} :
  m s = (Err e, s') -> map_err f m s = (Err (f e), s').
Proof. unfold map_err. by intros ->. Qed.
Lemma bind_ret_l (a : A) (k : A -> M S E B) s : bind (ret a) k s = k a s.
Proof. reflexivity. Qed.
Lemma bind_throw_l (e : E) (k : A -> M S E B) s : bind (throw e) k s = (Err e, s).
Proof. reflexivity. Qed.
End Running.
#[global] Arguments bind : simpl never.
#[global] Arguments map_err : simpl never.

(** One step of a computation whose first action is known from [H]. *)
Tactic Notation "mstep" uconstr(H) :=
  first [rewrite (bind_Ok H) | rewrite (bind_Err H)
        | rewrite (bind_Ok (map_err_Ok H)) | rewrite (bind_Err (map_err_Err H))
        | rewrite (map_err_Ok H) | rewrite (map_err_Err H)];
  cbv beta.

(** ** Lemmas on lengths and bytes *)
Create HintDb wt discriminated.
Create Rewrite HintDb wt.

Lemma len_nil {A} : len (@nil A) = 0.
Proof. reflexivity. Qed.
Lemma len_cons {A} (x : A) l : len (x :: l) = 1 + len l.
Proof. unfold len. cbn [length]. lia. Qed.
Lemma len_app {A} (l1 l2 : list A) : len (l1 ++ l2) = len l1 + len l2.
Proof. unfold len. rewrite length_app. lia. Qed.
Lemma len_nonneg {A} (l : list A) : 0 <= len l.
Proof. unfold len. lia. Qed.
Lemma len_zero_nil {A} (l : list A) : len l <= 0 -> l = [].
Proof. destruct l; [done|]. rewrite len_cons. pose proof (len_nonneg l). lia. Qed.
Lemma len_to_nat {A} (l : list A) : Z.to_nat (len l) = length l.
Proof. unfold len. lia. Qed.
Lemma len_take {A} (n : Z) (l : list A) :
  0 <= n <= len l -> len (take (Z.to_nat n) l) = n.
Proof. unfold len. intros. rewrite length_take. lia. Qed.
Lemma len_drop {A} (n : Z) (l : list A) :
  0 <= n <= len l -> len (drop (Z.to_nat n) l) = len l - n.
Proof. unfold len. intros. rewrite length_drop. lia. Qed.
Lemma take_len_app {A} (l1 l2 : list A) : take (Z.to_nat (len l1)) (l1 ++ l2) = l1.
Proof. rewrite len_to_nat. apply take_app_length. Qed.
Lemma drop_len_app {A} (l1 l2 : list A) : drop (Z.to_nat (len l1)) (l1 ++ l2) = l2.
Proof. rewrite len_to_nat. apply drop_app_length. Qed.
Lemma take_len_all {A} (l : list A) : take (Z.to_nat (len l)) l = l.
Proof. rewrite len_to_nat. apply firstn_all. Qed.
Lemma drop_len_all {A} (l : list A) : drop (Z.to_nat (len l)) l = [].
Proof. rewrite len_to_nat. apply drop_all. Qed.
Lemma split_at {A} (n : Z) (l : list A) :
  0 <= n <= len l -> exists l1 l2, l = l1 ++ l2 /\ len l1 = n.
Proof.
  intros. exists (take (Z.to_nat n) l), (drop (Z.to_nat n) l).
  by rewrite take_drop, len_take.
Qed.
#[export] Hint Rewrite @len_nil @len_cons @len_app @len_to_nat @take_len_app
  @drop_len_app @take_len_all @drop_len_all : wt.

(** [lia] with every length known to be non-negative. *)
Ltac pose_len :=
  repeat match goal with
  | |- context [len ?l] =>
      lazymatch goal with
      | _ : 0 <= len l |- _ => fail
      | _ => pose proof (len_nonneg l)
      end
  | _ : context [len ?l] |- _ =>
      lazymatch goal with
      | _ : 0 <= len l |- _ => fail
      | _ => pose proof (len_nonneg l)
      end
  end.
Ltac len_lia := rewrite ?len_app, ?len_cons, ?len_nil in *; pose_len; lia.

Lemma is_bytes_app l1 l2 : is_bytes (l1 ++ l2) <-> is_bytes l1 /\ is_bytes l2.
Proof. apply Forall_app. Qed.

Lemma length_to_be_bytes n x : length (to_be_bytes n x) = n.
Proof. induction n; simpl; auto. Qed.
Lemma len_to_be_bytes n x : len (to_be_bytes n x) = Z.of_nat n.
Proof. unfold len. by rewrite length_to_be_bytes. Qed.
Lemma to_be_bytes_is_bytes n x : is_bytes (to_be_bytes n x).
Proof.
  induction n; simpl; constructor; auto.
  unfold is_u. change (2 ^ 8) with 256. apply Z.mod_pos_bound. lia.
Qed.
#[export] Hint Resolve to_be_bytes_is_bytes : wt.

Lemma from_be_bytes_acc l : forall acc,
  fold_left (fun acc b => acc * 256 + b) l acc
  = acc * 256 ^ Z.of_nat (length l) + from_be_bytes l.
Proof.
  unfold from_be_bytes. induction l as [|b l IH]; intros acc; cbn [fold_left length].
  - change (256 ^ Z.of_nat 0) with 1. lia.
  - rewrite IH, (IH (0 * 256 + b)), Nat2Z.inj_succ, Z.pow_succ_r by lia. ring.
Qed.
Lemma from_be_bytes_cons b l :
  from_be_bytes (b :: l) = b * 256 ^ Z.of_nat (length l) + from_be_bytes l.
Proof. unfold from_be_bytes at 1. cbn [fold_left]. rewrite from_be_bytes_acc. ring. Qed.

Lemma from_be_bytes_bound l :
  is_bytes l -> 0 <= from_be_bytes l < 256 ^ Z.of_nat (length l).
Proof.
  induction 1 as [|b l Hb _ IH]; [cbn; lia|].
  rewrite from_be_bytes_cons. cbn [length].
  rewrite Nat2Z.inj_succ, Z.pow_succ_r by lia.
  unfold is_u in Hb. change (2 ^ 8) with 256 in Hb. nia.
Qed.

Lemma from_to_be_bytes n x :
  from_be_bytes (to_be_bytes n x) = x mod 256 ^ Z.of_nat n.
Proof.
  induction n as [|n IH]; cbn [to_be_bytes].
  - change (256 ^ Z.of_nat 0) with 1. by rewrite Z.mod_1_r.
  - rewrite from_be_bytes_cons, length_to_be_bytes, IH.
    rewrite Nat2Z.inj_succ, Z.pow_succ_r, (Z.mul_comm 256) by lia.
    rewrite Z.rem_mul_r by (try apply Z.pow_nonzero; lia). ring.
Qed.

Lemma to_be_bytes_high k m b y :
  (k <= m)%nat -> to_be_bytes k (b * 256 ^ Z.of_nat m + y) = to_be_bytes k y.
Proof.
  induction k as [|k IHk]; intros Hk; [done|].
  cbn [to_be_bytes]. f_equal; [|apply IHk; lia].
  replace (Z.of_nat m) with ((Z.of_nat m - Z.of_nat k - 1) + 1 + Z.of_nat k) by lia.
  rewrite !Z.pow_add_r by lia. change (256 ^ 1) with 256.
  rewrite !Z.mul_assoc, Z.div_add_l by (apply Z.pow_nonzero; lia).
  by rewrite Z.add_comm, Z_mod_plus_full.
Qed.

Lemma to_from_be_bytes l :
  is_bytes l -> to_be_bytes (length l) (from_be_bytes l) = l.
Proof.
  induction 1 as [|b l Hb Hl IH]; [done|].
  pose proof (from_be_bytes_bound l Hl) as B.
  unfold is_u in Hb. change (2 ^ 8) with 256 in Hb.
  cbn [length to_be_bytes]. rewrite from_be_bytes_cons.
  assert (E : (b * 256 ^ Z.of_nat (length l) + from_be_bytes l) / 256 ^ Z.of_nat (length l) = b).
  { rewrite Z.div_add_l by lia. rewrite (Z.div_small (from_be_bytes l)) by lia. lia. }
  rewrite E, Z.mod_small by lia. f_equal.
  rewrite to_be_bytes_high by lia. exact IH.
Qed.

(** A tag in the top bits and a value below them are added. *)
Lemma lor_tag_add a x k :
  0 <= a -> 0 <= k -> 0 <= x < 2 ^ k -> Z.lor (Z.shiftl a k) x = a * 2 ^ k + x.
Proof.
  intros Ha Hk Hx. rewrite <- Z.shiftl_mul_pow2 by lia.
  rewrite <- Z.add_lor_land.
  assert (Z.land (Z.shiftl a k) x = 0) as ->; [|lia].
  apply Z.bits_inj'; intros n Hn. rewrite Z.land_spec, Z.bits_0.
  destruct (Z.lt_ge_cases n k).
  - by rewrite Z.shiftl_spec_low by lia.
  - rewrite <- (Z.mod_small x (2 ^ k)), Z.mod_pow2_bits_high by lia. apply andb_false_r.
Qed.

Lemma land_mask x k : 0 <= k -> Z.land x (2 ^ k - 1) = x mod 2 ^ k.
Proof. intros. by rewrite <- Z.land_ones, Z.ones_equiv, Z.sub_1_r by lia. Qed.
Lemma to_be_bytes_1 x : 0 <= x < 256 -> to_be_bytes 1 x = [x].
Proof. intros. cbn [to_be_bytes]. change (256 ^ Z.of_nat 0) with 1. by rewrite Z.div_1_r, Z.mod_small. Qed.
Lemma from_be_bytes_1 x : from_be_bytes [x] = x.
Proof. reflexivity. Qed.
#[global] Arguments from_be_bytes : simpl never.
#[global] Arguments to_be_bytes : simpl never.

(** Closed propositions: conjunctions, [Forall] on a literal list, comparisons
    and equations between closed terms. *)
Ltac by_eval :=
  repeat first [ apply conj | apply List.Forall_nil | apply List.Forall_cons ];
  vm_compute; first [ discriminate | reflexivity | by repeat constructor ].
