(* ===== verification/Buf.v ===== *)
(** * Buffers and streams

    The codecs of webtrans-proto are generic in [bytes::Buf], [bytes::BufMut],
    [tokio::io::AsyncRead] and [tokio::io::AsyncWrite].  Those traits are not
    part of the repository, so each is a type class here: the definitions of the
    other files take the class as a parameter.  The documented behaviour of an
    implementation is a simulation with a plain byte sequence ([BufSim],
    [TakeSim], [ChainSim], [ReadSim]); the concrete instances at the end (a byte
    slice, its [take] and [chain] adaptors, a finite incoming stream, a growable
    vector) are the sequences themselves. *)
From S2P Require Import Prelude.

(** ** [bytes::Buf] *)

(** [consume n b]: read the next [n] bytes and advance; [None] is the panic of
    every [Buf] method asked for more than [remaining] bytes. *)
Class Buf (B : Type) := {
  remaining : B -> Z;
  consume : Z -> B -> option (bytes * B)
}.

(** [buf.take(limit)] on a borrowed buffer, and the end of the borrow. *)
Class TakeBuf (B T : Type) := {
  buf_take : Z -> B -> T;
  take_into_inner : T -> B
}.

(** [array.chain(buf)] and the second half of [chain.into_inner()]. *)
Class ChainBuf (B C : Type) := {
  buf_chain : bytes -> B -> C;
  chain_into_inner : C -> B
}.

Section BufMethods.
Context {B : Type} `{Buf B} {E : Type}.

Definition has_remaining (b : B) : bool := 0 <? remaining b.
Definition get_remaining : M B E Z := fun b => (Ok (remaining b), b).
Definition copy_to_bytes (n : Z) : M B E bytes := fun b =>
  match consume n b with
  | Some (l, b') => (Ok l, b')
  | None => (Panic, b)
  end.
Definition copy_to_slice (n : Z) : M B E bytes := copy_to_bytes n.
Definition get_u8 : M B E Z := let* l := copy_to_bytes 1 in ret (from_be_bytes l).
Definition get_u32 : M B E Z := let* l := copy_to_bytes 4 in ret (from_be_bytes l).
Definition advance (n : Z) : M B E unit := copy_to_bytes n ;;; ret ().
End BufMethods.

(** Run [m] on [buf.take(n)] and come back to the buffer. *)
Definition with_take {B T E A} `{TakeBuf B T} (n : Z) (m : M T E A) : M B E A := fun b =>
  let '(r, t) := m (buf_take n b) in (r, take_into_inner t).
(** Run [m] on [first.chain(buf)] and come back to the buffer. *)
Definition with_chain {B C E A} `{ChainBuf B C} (first : bytes) (m : M C E A) : M B E A := fun b =>
  let '(r, c) := m (buf_chain first b) in (r, chain_into_inner c).

(** ** [bytes::BufMut]: [None] is the panic on a full fixed-size buffer. *)
Class BufMut (W : Type) := { put : bytes -> W -> option W }.

Section BufMutMethods.
Context {W : Type} `{BufMut W} {E : Type}.
Definition put_slice (l : bytes) : M W E unit := fun w =>
  match put l w with Some w' => (Ok (), w') | None => (Panic, w) end.
Definition put_u8 (x : Z) : M W E unit := put_slice (to_be_bytes 1 x).
Definition put_u16 (x : Z) : M W E unit := put_slice (to_be_bytes 2 x).
Definition put_u32 (x : Z) : M W E unit := put_slice (to_be_bytes 4 x).
Definition put_u64 (x : Z) : M W E unit := put_slice (to_be_bytes 8 x).
End BufMutMethods.

(** ** I/O errors and the asynchronous traits

    An [async fn] is modelled by the sequence of its awaited operations; what the
    executor does between two of them does not change the result, since the
    stream is borrowed mutably throughout. *)
Inductive ErrorKind :=
| UnexpectedEof | BrokenPipe | ConnectionReset | ConnectionAborted | NotConnected
| OtherKind (n : Z).
#[export] Instance ErrorKind_eq_dec : EqDecision ErrorKind.
Proof. solve_decision. Defined.

(** [std::io::Error]: its [kind()] and its [to_string()]. *)
Record io_error := IoError { io_kind : ErrorKind; io_message : bytes }.

(** [AsyncReadExt::read_exact] *)
Class AsyncRead (S : Type) := { read_exact : Z -> M S io_error bytes }.
(** [AsyncWriteExt::write_all] and [write_all_buf] *)
Class AsyncWrite (S : Type) := { write_all : bytes -> M S io_error unit }.

(** ** Concrete instances *)

#[export] Instance slice_buf : Buf bytes := {|
  remaining l := len l;
  consume n l :=
    if (0 <=? n) && (n <=? len l) then Some (take (Z.to_nat n) l, drop (Z.to_nat n) l)
    else None
|}.

(** A buffer limited to its next [lim] bytes. *)
Record Take (B : Type) := MkTake { tk_inner : B; tk_lim : Z }.
Arguments MkTake {B}. Arguments tk_inner {B}. Arguments tk_lim {B}.
#[export] Instance take_buf {B} `{Buf B} : Buf (Take B) := {|
  remaining t := Z.min (remaining (tk_inner t)) (tk_lim t);
  consume n t :=
    if n <=? tk_lim t then
      match consume n (tk_inner t) with
      | Some (l, b) => Some (l, MkTake b (tk_lim t - n))
      | None => None
      end
    else None
|}.
#[export] Instance take_takebuf {B} : TakeBuf B (Take B) := {|
  buf_take n b := MkTake b n;
  take_into_inner t := tk_inner t
|}.

(** An array followed by a buffer. *)
Record Chain (B : Type) := MkChain { ch_first : bytes; ch_inner : B }.
Arguments MkChain {B}. Arguments ch_first {B}. Arguments ch_inner {B}.
#[export] Instance chain_buf {B} `{Buf B} : Buf (Chain B) := {|
  remaining c := len (ch_first c) + remaining (ch_inner c);
  consume n c :=
    let k := Z.min n (len (ch_first c)) in
    if 0 <=? n then
      match consume (n - k) (ch_inner c) with
      | Some (l, b) =>
          Some (take (Z.to_nat k) (ch_first c) ++ l,
                MkChain (drop (Z.to_nat k) (ch_first c)) b)
      | None => None
      end
    else None
|}.
#[export] Instance chain_chainbuf {B} : ChainBuf B (Chain B) := {|
  buf_chain l b := MkChain l b;
  chain_into_inner c := ch_inner c
|}.

(** [Vec<u8>] and [BytesMut]: they grow. *)
#[export] Instance vec_bufmut : BufMut bytes := {| put l w := Some (w ++ l) |}.

(** [&mut [u8]]: what was written and the bytes left. *)
Record SliceMut := MkSliceMut { sm_written : bytes; sm_left : Z }.
#[export] Instance slice_bufmut : BufMut SliceMut := {|
  put l w :=
    if len l <=? sm_left w
    then Some (MkSliceMut (sm_written w ++ l) (sm_left w - len l))
    else None
|}.

(** The bytes a stream will still deliver, and the error every read past them
    ends in (the end of the stream, a reset, a lost connection). *)
Record Incoming := MkIncoming { in_bytes : bytes; in_end : io_error }.
#[export] Instance incoming_read : AsyncRead Incoming := {|
  read_exact n s :=
    if n <=? len (in_bytes s) then
      (Ok (take (Z.to_nat n) (in_bytes s)), MkIncoming (drop (Z.to_nat n) (in_bytes s)) (in_end s))
    else (Err (in_end s), MkIncoming [] (in_end s))
|}.

(** What was written to a stream, and the error a write will meet, if any. *)
Record Outgoing := MkOutgoing { out_bytes : bytes; out_fail : option io_error }.
#[export] Instance outgoing_write : AsyncWrite Outgoing := {|
  write_all l s :=
    match out_fail s with
    | None => (Ok (), MkOutgoing (out_bytes s ++ l) None)
    | Some e => (Err e, s)
    end
|}.

(** ** Laws: simulation between two implementations *)

Class BufSim {B1 B2} `{Buf B1} `{Buf B2} (R : B1 -> B2 -> Prop) : Prop := {
  sim_remaining b1 b2 : R b1 b2 -> remaining b1 = remaining b2;
  sim_consume n b1 b2 : R b1 b2 ->
    match consume n b1, consume n b2 with
    | Some (l1, b1'), Some (l2, b2') => l1 = l2 /\ R b1' b2'
    | None, None => True
    | _, _ => False
    end
}.
Class TakeSim {B1 T1 B2 T2} `{TakeBuf B1 T1} `{TakeBuf B2 T2}
    (RB : B1 -> B2 -> Prop) (RT : T1 -> T2 -> Prop) : Prop := {
  sim_take n b1 b2 : RB b1 b2 -> RT (buf_take n b1) (buf_take n b2);
  sim_untake t1 t2 : RT t1 t2 -> RB (take_into_inner t1) (take_into_inner t2)
}.
Class ChainSim {B1 C1 B2 C2} `{ChainBuf B1 C1} `{ChainBuf B2 C2}
    (RB : B1 -> B2 -> Prop) (RC : C1 -> C2 -> Prop) : Prop := {
  sim_chain l b1 b2 : RB b1 b2 -> RC (buf_chain l b1) (buf_chain l b2);
  sim_unchain c1 c2 : RC c1 c2 -> RB (chain_into_inner c1) (chain_into_inner c2)
}.
Class ReadSim {S1 S2} `{AsyncRead S1} `{AsyncRead S2} (R : S1 -> S2 -> Prop) : Prop := {
  sim_read_exact n s1 s2 : R s1 s2 ->
    fst (read_exact n s1) = fst (read_exact n s2) /\
    R (snd (read_exact n s1)) (snd (read_exact n s2))
}.

(** Two computations over related states have the same outcome and stay related. *)
Definition simM {S1 S2 E A} (R : S1 -> S2 -> Prop) (m1 : M S1 E A) (m2 : M S2 E A) : Prop :=
  forall s1 s2, R s1 s2 -> fst (m1 s1) = fst (m2 s2) /\ R (snd (m1 s1)) (snd (m2 s2)).

Create HintDb sim discriminated.

Section SimMonad.
Context {S1 S2 : Type} (R : S1 -> S2 -> Prop) {E F A B : Type}.

Lemma sim_ret (a : A) : simM (E:=E) R (ret a) (ret a).
Proof. by intros s1 s2. Qed.
Lemma sim_throw (e : E) : simM (A:=A) R (throw e) (throw e).
Proof. by intros s1 s2. Qed.
Lemma sim_panic : simM (E:=E) (A:=A) R panic panic.
Proof. by intros s1 s2. Qed.
Lemma sim_out_of_fuel : simM (E:=E) (A:=A) R out_of_fuel out_of_fuel.
Proof. by intros s1 s2. Qed.
Lemma sim_ok_or (e : E) (o : option A) : simM R (ok_or e o) (ok_or e o).
Proof. destruct o; [apply sim_ret|apply sim_throw]. Qed.
Lemma sim_unwrap (o : option A) : simM (E:=E) R (unwrap o) (unwrap o).
Proof. destruct o; [apply sim_ret|apply sim_panic]. Qed.
Lemma sim_lift (o : outcome E A) : simM R (lift o) (lift o).
Proof. by intros s1 s2. Qed.
Lemma sim_bind (m1 : M S1 E A) m2 (k1 : A -> M S1 E B) k2 :
  simM R m1 m2 -> (forall a, simM R (k1 a) (k2 a)) -> simM R (bind m1 k1) (bind m2 k2).
Proof.
  intros Hm Hk s1 s2 HR. specialize (Hm s1 s2 HR). unfold bind.
  destruct (m1 s1) as [[a|e| |] s1'], (m2 s2) as [[a'|e'| |] s2'];
    cbn in *; destruct Hm as [Heq HR']; simplify_eq; auto.
  by apply Hk.
Qed.
Lemma sim_map_err (f : E -> F) (m1 : M S1 E A) m2 :
  simM R m1 m2 -> simM R (map_err f m1) (map_err f m2).
Proof.
  intros Hm s1 s2 HR. specialize (Hm s1 s2 HR). unfold map_err.
  destruct (m1 s1) as [[a|e| |] s1'], (m2 s2) as [[a'|e'| |] s2'];
    cbn in *; destruct Hm as [Heq HR']; simplify_eq; auto.
Qed.
End SimMonad.

Section SimBuf.
Context `{BufSim B1 B2 R} {E A : Type}.

Lemma sim_get_remaining : simM (E:=E) R get_remaining get_remaining.
Proof. intros s1 s2 HR. cbn. by rewrite (sim_remaining _ _ HR). Qed.
Lemma sim_copy_to_bytes n : simM (E:=E) R (copy_to_bytes n) (copy_to_bytes n).
Proof.
  intros s1 s2 HR. pose proof (sim_consume n _ _ HR) as Hc. unfold copy_to_bytes.
  destruct (consume n s1) as [[l1 b1]|], (consume n s2) as [[l2 b2]|]; try done.
  by destruct Hc as [-> ?].
Qed.
Lemma sim_copy_to_slice n : simM (E:=E) R (copy_to_slice n) (copy_to_slice n).
Proof. apply sim_copy_to_bytes. Qed.
Lemma sim_get_u8 : simM (E:=E) R get_u8 get_u8.
Proof. apply sim_bind; [apply sim_copy_to_bytes|intros; apply sim_ret]. Qed.
Lemma sim_get_u32 : simM (E:=E) R get_u32 get_u32.
Proof. apply sim_bind; [apply sim_copy_to_bytes|intros; apply sim_ret]. Qed.
Lemma sim_advance n : simM (E:=E) R (advance n) (advance n).
Proof. apply sim_bind; [apply sim_copy_to_bytes|intros; apply sim_ret]. Qed.
Lemma sim_with_take {T1 T2} `{TakeBuf B1 T1} `{TakeBuf B2 T2}
    `{!TakeSim (B1:=B1) (B2:=B2) R (RT : T1 -> T2 -> Prop)} n (m1 : M T1 E A) m2 :
  simM RT m1 m2 -> simM R (with_take n m1) (with_take n m2).
Proof.
  intros Hm s1 s2 HR. specialize (Hm _ _ (sim_take n _ _ HR)). unfold with_take.
  destruct (m1 _), (m2 _); cbn in *. destruct Hm; split; auto. by apply sim_untake.
Qed.
Lemma sim_with_chain {C1 C2} `{ChainBuf B1 C1} `{ChainBuf B2 C2}
    `{!ChainSim (B1:=B1) (B2:=B2) R (RC : C1 -> C2 -> Prop)} l (m1 : M C1 E A) m2 :
  simM RC m1 m2 -> simM R (with_chain l m1) (with_chain l m2).
Proof.
  intros Hm s1 s2 HR. specialize (Hm _ _ (sim_chain l _ _ HR)). unfold with_chain.
  destruct (m1 _), (m2 _); cbn in *. destruct Hm; split; auto. by apply sim_unchain.
Qed.
End SimBuf.

Lemma sim_read `{ReadSim S1 S2 R} n : simM R (read_exact n) (read_exact n).
Proof. intros s1 s2 HR. by apply sim_read_exact. Qed.

#[export] Hint Resolve sim_ret sim_throw sim_panic sim_out_of_fuel sim_ok_or sim_unwrap
  sim_lift sim_get_remaining sim_copy_to_bytes sim_copy_to_slice sim_get_u8 sim_get_u32
  sim_advance sim_read : sim.

(** Proves [simM R m m] for a computation built from the operations above. *)
Ltac solve_sim :=
  repeat first
    [ progress intros
    | solve [eauto with sim]
    | apply sim_bind
    | apply sim_map_err
    | match goal with |- simM _ (if ?c then _ else _) _ => destruct c end
    | match goal with |- simM _ (match ?c with _ => _ end) _ => destruct c end ].

(** ** Evaluation on the concrete instances *)

Lemma consume_slice (l1 l2 : bytes) : consume (len l1) (l1 ++ l2) = Some (l1, l2).
Proof.
  cbn. rewrite (proj2 (Z.leb_le _ _)) by apply len_nonneg.
  rewrite (proj2 (Z.leb_le _ _)) by len_lia.
  by rewrite take_len_app, drop_len_app.
Qed.
Lemma consume_slice_n n (l1 l2 : bytes) : n = len l1 -> consume n (l1 ++ l2) = Some (l1, l2).
Proof. intros ->. apply consume_slice. Qed.
Lemma consume_take_slice n (l1 l2 : bytes) lim :
  n = len l1 -> n <= lim ->
  consume n (MkTake (l1 ++ l2) lim) = Some (l1, MkTake l2 (lim - n)).
Proof.
  intros Hn Hl. unfold consume, take_buf; cbn [tk_lim tk_inner].
  rewrite (proj2 (Z.leb_le _ _)) by lia. by rewrite (consume_slice_n n) by done.
Qed.
Lemma read_exact_incoming n (l1 l2 : bytes) e :
  n = len l1 -> read_exact n (MkIncoming (l1 ++ l2) e) = (Ok l1, MkIncoming l2 e).
Proof.
  intros ->. cbn. rewrite (proj2 (Z.leb_le _ _)) by len_lia.
  by rewrite take_len_app, drop_len_app.
Qed.

(** [get_u8] and friends on a slice. *)
Lemma copy_to_bytes_slice {E} n (l1 l2 : bytes) :
  n = len l1 -> copy_to_bytes (E:=E) n (l1 ++ l2) = (Ok l1, l2).
Proof. intros. unfold copy_to_bytes. by rewrite (consume_slice_n n). Qed.
Lemma copy_to_bytes_slice_take {E} n (l : bytes) :
  0 <= n <= len l ->
  copy_to_bytes (E:=E) n l = (Ok (take (Z.to_nat n) l), drop (Z.to_nat n) l).
Proof.
  intros Hn. rewrite <- (take_drop (Z.to_nat n) l) at 1.
  apply copy_to_bytes_slice. by rewrite len_take.
Qed.
Lemma get_u8_slice {E} b (l : bytes) : get_u8 (E:=E) (b :: l) = (Ok b, l).
Proof.
  unfold get_u8, bind. change (b :: l) with ([b] ++ l).
  by rewrite (copy_to_bytes_slice 1 [b] l).
Qed.
Lemma get_remaining_slice {E} (l : bytes) : get_remaining (E:=E) l = (Ok (len l), l).
Proof. reflexivity. Qed.

(** A [take] of a slice is the shorter slice with the rest of it put aside. *)
Definition take_rel (rest : bytes) (t : Take bytes) (l : bytes) : Prop :=
  tk_inner t = l ++ rest /\ tk_lim t = len l.
#[export] Instance take_rel_sim rest : BufSim (take_rel rest).
Proof.
  split.
  - intros [i lim] l [Hi Hl]; cbn in *. subst. len_lia.
  - intros n [i lim] l [Hi Hl]; cbn in *; subst.
    destruct (Z.leb_spec 0 n), (Z.leb_spec n (len l)); cbn [andb]; try done.
    + rewrite (proj2 (Z.leb_le n (len (l ++ rest)))) by len_lia.
      unfold len in *. rewrite take_app_le, drop_app_le by lia. split; [done|].
      split; cbn; [done|]. unfold len. rewrite length_drop. lia.
Qed.
Lemma with_take_slice {E A} (m : forall B, Buf B -> M B E A) (l rest : bytes) :
  simM (take_rel rest) (m (Take bytes) _) (m bytes _) ->
  with_take (len l) (m (Take bytes) _) (l ++ rest)
  = (fst (m bytes _ l), snd (m bytes _ l) ++ rest).
Proof.
  intros Hm. specialize (Hm (MkTake (l ++ rest) (len l)) l (conj eq_refl eq_refl)).
  unfold with_take. cbn [buf_take take_takebuf].
  destruct (m (Take bytes) _ _) as [r t], (m bytes _ l) as [r' l']; cbn in *.
  destruct Hm as [-> [Ht _]]. cbn. by rewrite Ht.
Qed.

(** A one-byte [chain] in front of a slice is the longer slice. *)
Definition chain_rel (peek : Z) (orig : bytes) (c : Chain bytes) (l : bytes) : Prop :=
  (ch_first c = [peek] /\ ch_inner c = orig /\ l = peek :: orig) \/ (ch_first c = [] /\ ch_inner c = l).
#[export] Instance chain_rel_sim peek orig : BufSim (chain_rel peek orig).
Proof.
  split.
  - intros [f i] l [(Hf & Hi & ->)|[Hf Hi]]; cbn in *; subst; len_lia.
  - intros n [f i] l [(Hf & Hi & ->)|[Hf Hi]]; cbn in *; subst.
    + change (len [peek]) with 1. rewrite (len_cons peek orig).
      destruct (Z.leb_spec 0 n) as [Hn|Hn]; cbn [andb]; [|done].
      destruct (Z.leb_spec n (1 + len orig)) as [Hle|Hle].
      * rewrite (proj2 (Z.leb_le 0 _)), (proj2 (Z.leb_le (n - Z.min n 1) _)) by (pose_len; lia). cbn [andb].
        destruct (Z.eqb_spec n 0) as [->|Hn0].
        -- cbn. split; [done|]. by left.
        -- replace (Z.min n 1) with 1 by lia.
           replace (Z.to_nat n) with (S (Z.to_nat (n - 1))) by lia. split; [done|]. by right.
      * by rewrite (proj2 (Z.leb_gt (n - Z.min n 1) _)), andb_false_r by (pose_len; lia).
    + change (len []) with 0. destruct (Z.leb_spec 0 n) as [Hn|Hn]; cbn [andb]; [|done].
      replace (Z.min n 0) with 0 by lia. rewrite Z.sub_0_r, (proj2 (Z.leb_le 0 n)) by lia. cbn [andb].
      destruct (n <=? len l); [|done]. split; [done|]. by right.
Qed.
Lemma with_chain_slice {E A} (m : forall B, Buf B -> M B E A) peek orig o l' :
  simM (chain_rel peek orig) (m (Chain bytes) _) (m bytes _) ->
  m bytes _ (peek :: orig) = (o, l') ->
  fst (with_chain (C:=Chain bytes) [peek] (m (Chain bytes) _) orig) = o /\
  (len l' <= len orig -> with_chain (C:=Chain bytes) [peek] (m (Chain bytes) _) orig = (o, l')).
Proof.
  intros Hm E'. specialize (Hm (MkChain [peek] orig) (peek :: orig) ltac:(by left)).
  unfold with_chain. cbn [buf_chain chain_chainbuf]. rewrite E' in Hm.
  destruct (m (Chain bytes) _ _) as [r c]. cbn in Hm. destruct Hm as [-> Hc].
  split; [done|]. intros Hl. destruct Hc as [(_ & _ & ->)|[_ <-]]; [|done].
  rewrite len_cons in Hl. lia.
Qed.

(** Chains over two related buffers are related. *)
Section ChainLift.
Context `{BufSim B1 B2 R}.
Definition chain_lift (c1 : Chain B1) (c2 : Chain B2) : Prop :=
  ch_first c1 = ch_first c2 /\ R (ch_inner c1) (ch_inner c2).
#[export] Instance chain_lift_sim : BufSim chain_lift.
Proof.
  split.
  - intros [f1 i1] [f2 i2] [Hf Hi]; cbn in *; subst. by rewrite (sim_remaining _ _ Hi).
  - intros n [f1 i1] [f2 i2] [Hf Hi]; cbn in *; subst.
    destruct (0 <=? n); [|done].
    pose proof (sim_consume (n - Z.min n (len f2)) i1 i2 Hi) as Hc.
    destruct (consume _ i1) as [[l1 b1]|], (consume _ i2) as [[l2 b2]|]; try done.
    destruct Hc as [-> ?]. split; [done|]. by split.
Qed.
#[export] Instance chain_lift_chain : ChainSim R chain_lift.
Proof. split; [by intros|by intros c1 c2 [_ ?]]. Qed.
End ChainLift.
