(* ===== verification/Utf8.v ===== *)
(** * Strings

    A [String] of the source is the list of its UTF-8 bytes.  This file models
    the standard library's UTF-8 functions that the crates call
    ([from_utf8], [from_utf8_lossy], [pop], [trim], [eq_ignore_ascii_case]) over
    one decoding step: the length of the first well-formed character (Unicode
    table 3-7), or of the maximal ill-formed part that the lossy conversion
    replaces. *)
From S2P Require Import Prelude.

Definition in_range (lo hi b : Z) : bool := (lo <=? b) && (b <=? hi).
Definition is_cont (b : Z) : bool := in_range 0x80 0xBF b.
(** The second byte of three- and four-byte characters. *)
Definition second3 (b0 b1 : Z) : bool :=
  if b0 =? 0xE0 then in_range 0xA0 0xBF b1
  else if b0 =? 0xED then in_range 0x80 0x9F b1
  else is_cont b1.
Definition second4 (b0 b1 : Z) : bool :=
  if b0 =? 0xF0 then in_range 0x90 0xBF b1
  else if b0 =? 0xF4 then in_range 0x80 0x8F b1
  else is_cont b1.

(** How many bytes of continuation follow, and how many are wanted. *)
Fixpoint cont_run (n : nat) (l : bytes) : nat :=
  match n, l with
  | S n, b :: l => if is_cont b then S (cont_run n l) else O
  | _, _ => O
  end.
(** [want] bytes follow the first one; the first of them satisfies [ok]. *)
Definition follow (want : nat) (ok : Z -> bool) (r : bytes) : bool * nat :=
  match want, r with
  | S n, b1 :: r1 =>
      if ok b1 then
        let k := cont_run n r1 in (bool_decide (k = n), S (S k))
      else (false, 1%nat)
  | _, _ => (false, 1%nat)
  end.
Definition utf8_step (b0 : Z) (r : bytes) : bool * nat :=
  if b0 <? 0x80 then (true, 1%nat)
  else if in_range 0xC2 0xDF b0 then follow 1 is_cont r
  else if in_range 0xE0 0xEF b0 then follow 2 (second3 b0) r
  else if in_range 0xF0 0xF4 b0 then follow 3 (second4 b0) r
  else (false, 1%nat).

Fixpoint utf8_chunks_fuel (fuel : nat) (l : bytes) : list (bool * bytes) :=
  match fuel, l with
  | S fuel, b0 :: r =>
      let '(ok, n) := utf8_step b0 r in
      (ok, take n l) :: utf8_chunks_fuel fuel (drop n l)
  | _, _ => []
  end.
Definition utf8_chunks (l : bytes) : list (bool * bytes) := utf8_chunks_fuel (length l) l.

(** [str::from_utf8] *)
Definition valid_utf8 (l : bytes) : bool := forallb fst (utf8_chunks l).
Definition from_utf8 (l : bytes) : option bytes := if valid_utf8 l then Some l else None.
(** [String::from_utf8_lossy] *)
Definition replacement : bytes := [0xEF; 0xBF; 0xBD].
Definition from_utf8_lossy (l : bytes) : bytes :=
  concat (map (fun ch : bool * bytes => if fst ch then snd ch else replacement) (utf8_chunks l)).
(** The characters of a string, and [String::pop]. *)
Definition chars (s : bytes) : list bytes := map snd (utf8_chunks s).
Definition pop (s : bytes) : bytes := concat (removelast (chars s)).

(** [str::trim]: the characters with the White_Space property. *)
Definition is_whitespace (c : bytes) : bool :=
  match c with
  | [b] => in_range 9 13 b || (b =? 32)
  | [0xC2; b] => (b =? 0x85) || (b =? 0xA0)
  | [0xE1; 0x9A; 0x80] => true
  | [0xE2; 0x80; b] => in_range 0x80 0x8A b || (b =? 0xA8) || (b =? 0xA9) || (b =? 0xAF)
  | [0xE2; 0x81; 0x9F] => true
  | [0xE3; 0x80; 0x80] => true
  | _ => false
  end.
Fixpoint trim_start_chars (cs : list bytes) : list bytes :=
  match cs with
  | c :: cs' => if is_whitespace c then trim_start_chars cs' else cs
  | [] => []
  end.
Definition trim (s : bytes) : bytes :=
  concat (reverse (trim_start_chars (reverse (trim_start_chars (chars s))))).

Definition to_ascii_lowercase (s : bytes) : bytes :=
  map (fun b => if in_range 65 90 b then b + 32 else b) s.
Definition eq_ignore_ascii_case (a b : bytes) : bool :=
  bool_decide (to_ascii_lowercase a = to_ascii_lowercase b).

(** [str::contains] *)
Fixpoint is_prefix (p s : bytes) : bool :=
  match p, s with
  | [], _ => true
  | a :: p, b :: s => (a =? b) && is_prefix p s
  | _ :: _, [] => false
  end.
Fixpoint contains (p s : bytes) : bool :=
  is_prefix p s || match s with [] => false | _ :: s => contains p s end.

(** ** The decoding step *)
Lemma follow_len want ok r :
  (1 <= snd (follow want ok r) <= S want)%nat /\ (snd (follow want ok r) <= S (length r))%nat.
Proof.
  assert (Hc : forall n l, (cont_run n l <= n)%nat /\ (cont_run n l <= length l)%nat).
  { induction n as [|n IH]; intros [|b l]; cbn; try lia.
    destruct (is_cont b); [specialize (IH l)|]; cbn; lia. }
  destruct want, r; cbn; try lia. destruct (ok z); cbn; [|lia].
  pose proof (Hc want r). lia.
Qed.
Lemma utf8_step_len b0 r :
  (1 <= snd (utf8_step b0 r) <= 4)%nat /\ (snd (utf8_step b0 r) <= S (length r))%nat.
Proof.
  unfold utf8_step. pose proof (follow_len 1 is_cont r). pose proof (follow_len 2 (second3 b0) r).
  pose proof (follow_len 3 (second4 b0) r).
  repeat case_match; cbn [snd] in *; lia.
Qed.

(** A complete character is recognised whatever follows it. *)
Lemma cont_run_full n l rest : cont_run n l = n -> cont_run n (take n l ++ rest) = n.
Proof.
  revert l. induction n as [|n IH]; intros [|b l]; cbn; try done.
  destruct (is_cont b); [|done]. intros [= H]. by rewrite IH.
Qed.
Lemma follow_full want ok r n rest :
  follow want ok r = (true, n) -> follow want ok (take (pred n) r ++ rest) = (true, n).
Proof.
  destruct want as [|w], r as [|b1 r1]; cbn; try done.
  destruct (ok b1) eqn:Hok; [|done].
  case_bool_decide as Hk; [|done]. rewrite Hk. intros [= <-]. cbn. rewrite Hok.
  by rewrite cont_run_full, bool_decide_eq_true_2.
Qed.
Lemma utf8_step_full b0 r n rest :
  utf8_step b0 r = (true, n) -> utf8_step b0 (take (pred n) r ++ rest) = (true, n).
Proof.
  unfold utf8_step. repeat case_match; intros; try done; eauto using follow_full.
Qed.

Lemma utf8_chunks_fuel_irrel n1 : forall n2 l,
  (length l <= n1)%nat -> (length l <= n2)%nat -> utf8_chunks_fuel n1 l = utf8_chunks_fuel n2 l.
Proof.
  induction n1 as [|n1 IH]; intros n2 [|b l] H1 H2; cbn [length] in *; try lia; destruct n2; try lia; try done.
  cbn [utf8_chunks_fuel]. pose proof (utf8_step_len b l) as [Hs _].
  destruct (utf8_step b l) as [ok k]. cbn [snd] in Hs. f_equal.
  apply IH; rewrite length_drop; cbn [length]; lia.
Qed.
Lemma utf8_chunks_cons b0 r ok n :
  utf8_step b0 r = (ok, n) ->
  utf8_chunks (b0 :: r) = (ok, take n (b0 :: r)) :: utf8_chunks (drop n (b0 :: r)).
Proof.
  intros E. unfold utf8_chunks at 1. cbn [length utf8_chunks_fuel]. rewrite E. f_equal.
  pose proof (utf8_step_len b0 r) as [Hs _]. rewrite E in Hs. cbn [snd] in Hs.
  apply utf8_chunks_fuel_irrel; rewrite ?length_drop; cbn [length]; lia.
Qed.

(** The chunks of a byte string put together again give it back. *)
Lemma utf8_chunks_concat l : concat (map snd (utf8_chunks l)) = l.
Proof.
  remember (length l) as n eqn:Hn. assert (length l <= n)%nat as Hl by lia. clear Hn.
  revert l Hl. induction n as [|n IH]; intros [|b l] Hl; cbn [length] in Hl; try lia; try done.
  destruct (utf8_step b l) as [ok k] eqn:E. rewrite (utf8_chunks_cons b l ok k E).
  pose proof (utf8_step_len b l) as [Hs _]. rewrite E in Hs. cbn [snd] in Hs.
  cbn [map concat snd]. rewrite IH by (rewrite length_drop; cbn [length]; lia).
  apply take_drop.
Qed.

(** A character: what one valid step consumes. *)
Definition is_char (c : bytes) : Prop :=
  exists b0 r, c = b0 :: r /\ utf8_step b0 r = (true, length c).

Lemma is_char_len c : is_char c -> 1 <= len c <= 4.
Proof.
  intros (b0 & r & -> & E). pose proof (utf8_step_len b0 r) as [Hs _].
  rewrite E in Hs. unfold len. cbn [snd length] in *. lia.
Qed.
Lemma utf8_chunks_char c l : is_char c -> utf8_chunks (c ++ l) = (true, c) :: utf8_chunks l.
Proof.
  intros (b0 & r & -> & E). cbn [length app] in *.
  assert (E' : utf8_step b0 (r ++ l) = (true, S (length r))).
  { rewrite <- (firstn_all r) at 1. by apply (utf8_step_full b0 r (S (length r)) l). }
  rewrite (utf8_chunks_cons _ _ _ _ E'). cbn [take drop].
  by rewrite take_app_length, drop_app_length.
Qed.
Lemma utf8_chunks_chars cs l :
  Forall is_char cs -> utf8_chunks (concat cs ++ l) = map (pair true) cs ++ utf8_chunks l.
Proof.
  induction 1 as [|c cs Hc _ IH]; [done|]. cbn [concat map app].
  by rewrite <- app_assoc, utf8_chunks_char, IH.
Qed.
Lemma utf8_chunks_valid l : Forall (fun ch => fst ch = true -> is_char (snd ch)) (utf8_chunks l).
Proof.
  remember (length l) as n eqn:Hn. assert (length l <= n)%nat as Hl by lia. clear Hn.
  revert l Hl. induction n as [|n IH]; intros [|b l] Hl; cbn [length] in Hl; try lia; try (by constructor).
  destruct (utf8_step b l) as [ok k] eqn:E. rewrite (utf8_chunks_cons b l ok k E).
  pose proof (utf8_step_len b l) as [Hs Hs']. rewrite E in Hs, Hs'. cbn [snd] in Hs, Hs'.
  constructor; [|apply IH; rewrite length_drop; cbn [length]; lia].
  cbn [fst snd]. intros ->. destruct k as [|k]; [lia|]. exists b, (take k l). cbn [take].
  split; [done|]. pose proof (utf8_step_full b l (S k) [] E) as Hf. cbn [pred] in Hf.
  rewrite app_nil_r in Hf. rewrite Hf. f_equal. cbn [length]. rewrite length_take. lia.
Qed.

Lemma valid_chars l : valid_utf8 l = true -> Forall is_char (chars l) /\ concat (chars l) = l.
Proof.
  intros Hv. split; [|apply utf8_chunks_concat].
  unfold chars. apply Forall_map. pose proof (utf8_chunks_valid l) as Hc.
  unfold valid_utf8 in Hv. rewrite List.forallb_forall in Hv.
  rewrite List.Forall_forall in *. auto.
Qed.
Lemma concat_chars cs : Forall is_char cs -> utf8_chunks (concat cs) = map (pair true) cs.
Proof.
  intros Hcs. pose proof (utf8_chunks_chars cs [] Hcs) as H0. rewrite !app_nil_r in H0. exact H0.
Qed.
Lemma concat_chars_valid cs : Forall is_char cs -> valid_utf8 (concat cs) = true.
Proof.
  intros Hcs. unfold valid_utf8. rewrite concat_chars by done.
  apply forallb_forall. intros [ok c] Hin. apply in_map_iff in Hin as (? & [= <- <-] & _). done.
Qed.
Lemma chars_concat cs : Forall is_char cs -> chars (concat cs) = cs.
Proof.
  intros Hcs. unfold chars. rewrite concat_chars by done. rewrite map_map. cbn. apply map_id.
Qed.

Lemma valid_utf8_iff l : valid_utf8 l = true <-> exists cs, Forall is_char cs /\ l = concat cs.
Proof.
  split.
  - intros Hv. destruct (valid_chars l Hv). eauto.
  - intros (cs & Hcs & ->). by apply concat_chars_valid.
Qed.
Lemma valid_utf8_app a b : valid_utf8 a = true -> valid_utf8 b = true -> valid_utf8 (a ++ b) = true.
Proof.
  rewrite !valid_utf8_iff. intros (ca & Ha & ->) (cb & Hb & ->).
  exists (ca ++ cb). split; [by apply Forall_app|]. by rewrite concat_app.
Qed.
Lemma ascii_valid l : Forall (fun b => 0 <= b < 0x80) l -> valid_utf8 l = true.
Proof.
  intros Hl. apply valid_utf8_iff. exists (map (fun b => [b]) l). split.
  - apply Forall_map. eapply Forall_impl; [exact Hl|]. intros b Hb. exists b, []. split; [done|].
    unfold utf8_step. cbn in Hb. by rewrite (proj2 (Z.ltb_lt b 0x80)) by lia.
  - clear Hl. induction l; cbn; congruence.
Qed.

(** ** Lossy conversion and [pop] *)
Lemma replacement_char : is_char replacement.
Proof. exists 0xEF, [0xBF; 0xBD]. split; reflexivity. Qed.

Lemma from_utf8_lossy_valid l : valid_utf8 (from_utf8_lossy l) = true.
Proof.
  apply valid_utf8_iff. unfold from_utf8_lossy. eexists. split; [|reflexivity].
  apply Forall_map. eapply Forall_impl; [apply utf8_chunks_valid|].
  intros [[] c] Hc; cbn in *; [by apply Hc|apply replacement_char].
Qed.
Lemma from_utf8_lossy_id l : valid_utf8 l = true -> from_utf8_lossy l = l.
Proof.
  intros Hv. pose proof (valid_chars l Hv) as [Hc He]. rewrite <- He at 1.
  unfold from_utf8_lossy. rewrite concat_chars, map_map by done. cbn. by rewrite map_id, He.
Qed.

Lemma pop_concat cs : Forall is_char cs -> pop (concat cs) = concat (removelast cs).
Proof. intros. unfold pop. by rewrite chars_concat. Qed.
Lemma Forall_removelast {A} (P : A -> Prop) l : Forall P l -> Forall P (removelast l).
Proof. induction 1 as [|x [|y l]]; cbn in *; auto. Qed.
