(* ===== verification/Bits.v ===== *)
(** * Bit strings

    The bits of a byte string, most significant first, and the value of a bit
    string: the reference the bit reader of the Huffman decoder is compared with. *)
From S2P Require Import Prelude.

Abbreviation bits := (list bool).

Fixpoint bits_val (l : bits) : Z :=
  match l with
  | [] => 0
  | b :: l => Z.b2z b * 2 ^ len l + bits_val l
  end.
Fixpoint to_bits (n : nat) (x : Z) : bits :=
  match n with
  | O => []
  | S k => Z.testbit x (Z.of_nat k) :: to_bits k x
  end.
Definition bits_of (src : bytes) : bits := concat (map (to_bits 8) src).

Lemma length_to_bits n x : length (to_bits n x) = n.
Proof. induction n; cbn; auto. Qed.
Lemma len_bits_of src : len (bits_of src) = 8 * len src.
Proof.
  unfold bits_of. induction src as [|b src IH]; [done|]. cbn [map concat].
  rewrite len_app, len_cons, IH. unfold len at 1. rewrite length_to_bits. lia.
Qed.
Lemma bits_of_app a b : bits_of (a ++ b) = bits_of a ++ bits_of b.
Proof. unfold bits_of. by rewrite map_app, concat_app. Qed.
Lemma bits_of_cons b l : bits_of (b :: l) = to_bits 8 b ++ bits_of l.
Proof. reflexivity. Qed.

Lemma bits_val_bound l : 0 <= bits_val l < 2 ^ len l.
Proof.
  induction l as [|b l IH]; [by_eval|]. cbn [bits_val]. rewrite len_cons, Z.pow_add_r by len_lia.
  change (2 ^ 1) with 2. destruct b; cbn [Z.b2z]; lia.
Qed.
Lemma bits_val_app a b : bits_val (a ++ b) = bits_val a * 2 ^ len b + bits_val b.
Proof.
  induction a as [|x a IH]; [cbn; lia|]. cbn [app bits_val]. rewrite IH, len_app, Z.pow_add_r by len_lia. ring.
Qed.
Lemma bits_val_to_bits n x : bits_val (to_bits n x) = x mod 2 ^ Z.of_nat n.
Proof.
  induction n as [|n IH]; [cbn; by rewrite Z.mod_1_r|]. cbn [to_bits bits_val].
  rewrite IH. unfold len. rewrite length_to_bits, Nat2Z.inj_succ, Z.pow_succ_r, (Z.mul_comm 2) by lia.
  rewrite Z.rem_mul_r by (try apply Z.pow_nonzero; lia).
  rewrite Z.testbit_spec' by lia. lia.
Qed.
Lemma to_bits_split a b x : to_bits (a + b) x = to_bits a (x / 2 ^ Z.of_nat b) ++ to_bits b x.
Proof.
  induction a as [|a IH]; [done|]. cbn [Nat.add to_bits app]. rewrite IH. f_equal.
  rewrite <- Z.shiftr_div_pow2, Z.shiftr_spec by lia. f_equal. lia.
Qed.
Lemma to_bits_mod n k x : (n <= k)%nat -> to_bits n (x mod 2 ^ Z.of_nat k) = to_bits n x.
Proof.
  induction n as [|n IH]; intros Hn; [done|]. cbn [to_bits]. rewrite IH by lia. f_equal.
  by rewrite Z.mod_pow2_bits_low by lia.
Qed.
Lemma to_bits_bits_val l : to_bits (length l) (bits_val l) = l.
Proof.
  induction l as [|b l IH]; [done|]. cbn [length to_bits].
  pose proof (bits_val_bound l) as Hb.
  assert (Hm : bits_val (b :: l) mod 2 ^ Z.of_nat (length l) = bits_val l).
  { cbn [bits_val]. rewrite Z.add_comm. unfold len. rewrite Z_mod_plus_full. apply Z.mod_small. exact Hb. }
  f_equal.
  - apply Z.b2z_inj. rewrite Z.testbit_spec' by lia. cbn [bits_val]. unfold len in *.
    rewrite Z.div_add_l by (apply Z.pow_nonzero; lia). rewrite Z.div_small by done.
    by destruct b.
  - rewrite <- (to_bits_mod _ (length l)) by lia. by rewrite Hm.
Qed.

(** A window of the bits of a number. *)
Lemma bits_window W o n x :
  (o + n <= W)%nat ->
  bits_val (take n (drop o (to_bits W x))) = (x / 2 ^ (Z.of_nat W - Z.of_nat o - Z.of_nat n)) mod 2 ^ Z.of_nat n.
Proof.
  intros Hon. replace W with (o + (n + (W - o - n)))%nat by lia.
  rewrite to_bits_split, drop_app_length' by (by rewrite length_to_bits).
  rewrite to_bits_split, take_app_length' by (by rewrite length_to_bits).
  rewrite bits_val_to_bits. do 3 f_equal. lia.
Qed.
(** The same window by a left shift in [W] bits and a right shift. *)
Lemma shift_window W o n x :
  0 <= o -> 0 <= n -> o + n <= W ->
  ((x * 2 ^ o) mod 2 ^ W) / 2 ^ (W - n) = (x / 2 ^ (W - o - n)) mod 2 ^ n.
Proof.
  intros Ho Hn Hw.
  replace (2 ^ W) with (2 ^ (W - o) * 2 ^ o) by (rewrite <- Z.pow_add_r by lia; f_equal; lia).
  rewrite Z.mul_mod_distr_r by (apply Z.pow_nonzero; lia).
  replace (2 ^ (W - n)) with (2 ^ (W - o - n) * 2 ^ o) by (rewrite <- Z.pow_add_r by lia; f_equal; lia).
  rewrite Z.div_mul_cancel_r by (apply Z.pow_nonzero; lia).
  apply Z.bits_inj'. intros i Hi. rewrite <- !Z.shiftr_div_pow2 by lia.
  rewrite Z.shiftr_spec by lia. destruct (Z.lt_ge_cases i n).
  - rewrite !Z.mod_pow2_bits_low by lia. by rewrite Z.shiftr_spec by lia.
  - by rewrite !Z.mod_pow2_bits_high by lia.
Qed.
Lemma to_bits_two a b : is_u8 b -> to_bits 8 a ++ to_bits 8 b = to_bits 16 (a * 256 + b).
Proof.
  unfold is_u. intros Hb. change 16%nat with (8 + 8)%nat. rewrite to_bits_split. f_equal.
  - change (2 ^ Z.of_nat 8) with 256. rewrite Z.div_add_l by lia.
    rewrite (Z.div_small b) by lia. f_equal. lia.
  - rewrite <- (to_bits_mod 8 8 (a * 256 + b)) by lia. change (2 ^ Z.of_nat 8) with 256.
    by rewrite Z.add_comm, Z_mod_plus_full, Z.mod_small by lia.
Qed.

(** Packing whole bytes of bits. *)
Fixpoint pack (n : nat) (l : bits) : bytes :=
  match n with
  | O => []
  | S n => bits_val (take 8 l) :: pack n (drop 8 l)
  end.
Lemma bits_of_pack n : forall l, length l = (8 * n)%nat -> bits_of (pack n l) = l.
Proof.
  induction n as [|n IH]; intros l Hl; [by destruct l|].
  cbn [pack]. rewrite bits_of_cons, IH by (rewrite length_drop; lia).
  assert (length (take 8 l) = 8%nat) as H8 by (rewrite length_take; lia).
  rewrite <- H8 at 1. rewrite to_bits_bits_val. apply take_drop.
Qed.
Lemma pack_is_bytes n l : is_bytes (pack n l).
Proof.
  revert l. induction n as [|n IH]; intros l; cbn [pack]; constructor; auto.
  pose proof (bits_val_bound (take 8 l)) as Hb.
  assert (len (take 8 l) <= 8) by (unfold len; rewrite length_take; lia).
  unfold is_u. split; [lia|]. assert (2 ^ len (take 8 l) <= 2 ^ 8) by (apply Z.pow_le_mono_r; lia). lia.
Qed.
