(* ===== verification/Varint.v ===== *)
(** * QUIC variable-length integers (webtrans-proto/src/varint.rs) *)
From S2P Require Import Prelude Buf.

(** [pub struct VarInt(pub(crate) u64)] *)
Record VarInt := MkVarInt { into_inner : Z }.

#[export] Instance VarInt_eq_dec : EqDecision VarInt.
Proof. solve_decision. Defined.
#[export] Instance VarInt_countable : Countable VarInt :=
  inj_countable' into_inner MkVarInt (fun '(MkVarInt x) => eq_refl).

Inductive VarIntBoundsExceeded := MkVarIntBoundsExceeded.
Inductive VarIntUnexpectedEnd := MkVarIntUnexpectedEnd.

Module VarInt.
(** [(1 << 62) - 1] *)
Definition MAX : VarInt := MkVarInt (Z.shiftl 1 62 - 1).
Definition MAX_SIZE : Z := 8.

Definition from_u32 (x : Z) : VarInt := MkVarInt x.
Definition from_u64_unchecked (x : Z) : VarInt := MkVarInt x.
(** The conversions from the narrower integers, and back. *)
Definition from_u8 (x : Z) : VarInt := MkVarInt (as_u64 x).
Definition from_u16 (x : Z) : VarInt := MkVarInt (as_u64 x).
Definition from_u32_trait (x : Z) : VarInt := MkVarInt (as_u64 x).
Definition into_u64 (v : VarInt) : Z := into_inner v.

Definition from_u64 (x : Z) : outcome VarIntBoundsExceeded VarInt :=
  if x <=? into_inner MAX then Ok (MkVarInt x) else Err MkVarIntBoundsExceeded.

Definition try_from_u64 (x : Z) : outcome VarIntBoundsExceeded VarInt := from_u64 x.
(** The [u128] conversion fails first when the value does not fit 64 bits. *)
Definition try_from_u128 (x : Z) : outcome VarIntBoundsExceeded VarInt :=
  if x <? 2 ^ 64 then from_u64 x else Err MkVarIntBoundsExceeded.
Definition try_from_usize (x : Z) : outcome VarIntBoundsExceeded VarInt := try_from_u64 (as_u64 x).

(** [unreachable!] is a panic. *)
Definition size (v : VarInt) : outcome Empty_set Z :=
  let x := into_inner v in
  if x <? Z.shiftl 1 6 then Ok 1
  else if x <? Z.shiftl 1 14 then Ok 2
  else if x <? Z.shiftl 1 30 then Ok 4
  else if x <=? into_inner MAX then Ok 8
  else Panic.

Definition decode {B} `{Buf B} : M B VarIntUnexpectedEnd VarInt :=
  let* r := get_remaining in
  if negb (0 <? r) then throw MkVarIntUnexpectedEnd else
  let* b0 := get_u8 in
  let tag := Z.shiftr b0 6 in
  let b0 := Z.land b0 63 in
  let* x :=
    match tag with
    | 0 => ret b0
    | 1 =>
        let* r := get_remaining in
        if r <? 1 then throw MkVarIntUnexpectedEnd else
        let* l := copy_to_slice 1 in ret (from_be_bytes (b0 :: l))
    | 2 =>
        let* r := get_remaining in
        if r <? 3 then throw MkVarIntUnexpectedEnd else
        let* l := copy_to_slice 3 in ret (from_be_bytes (b0 :: l))
    | 3 =>
        let* r := get_remaining in
        if r <? 7 then throw MkVarIntUnexpectedEnd else
        let* l := copy_to_slice 7 in ret (from_be_bytes (b0 :: l))
    | _ => panic
    end in
  ret (MkVarInt x).

(** [Ok] of the in-memory decoder, or the panic of its [expect]. *)
Definition expect_decoded (o : outcome VarIntUnexpectedEnd VarInt) : outcome VarIntUnexpectedEnd VarInt :=
  match o with Ok v => Ok v | OutOfFuel => OutOfFuel | _ => Panic end.

Definition read {S} `{AsyncRead S} : M S VarIntUnexpectedEnd VarInt :=
  let* first := map_err (fun _ => MkVarIntUnexpectedEnd) (read_exact 1) in
  let size := Z.shiftl 1 (Z.shiftr (from_be_bytes first) 6) in
  let* rest := map_err (fun _ => MkVarIntUnexpectedEnd) (read_exact (size - 1)) in
  let slice := first ++ rest in
  lift (expect_decoded (fst (decode slice))).

Definition encode {W E} `{BufMut W} (v : VarInt) : M W E unit :=
  let x := into_inner v in
  if x <? Z.shiftl 1 6 then put_u8 (as_u8 x)
  else if x <? Z.shiftl 1 14 then put_u16 (Z.lor (Z.shiftl 1 14) (as_u16 x))
  else if x <? Z.shiftl 1 30 then put_u32 (Z.lor (Z.shiftl 2 30) (as_u32 x))
  else if x <=? into_inner MAX then put_u64 (Z.lor (Z.shiftl 3 62) x)
  else panic.

(** The stack buffer of eight bytes, then one write of its filled prefix. *)
Definition write {S} `{AsyncWrite S} (v : VarInt) : M S VarIntUnexpectedEnd unit :=
  let '(r, cursor) := encode (E:=VarIntUnexpectedEnd) v (MkSliceMut [] 8) in
  let* _ := lift r in
  let size := 8 - sm_left cursor in
  map_err (fun _ => MkVarIntUnexpectedEnd)
    (write_all (take (Z.to_nat size) (sm_written cursor))).
End VarInt.

(** The type's invariant, which only [from_u64_unchecked] could break. *)
Definition varint_ok (v : VarInt) : Prop := 0 <= into_inner v <= into_inner VarInt.MAX.

#[export] Instance varint_ok_dec v : Decision (varint_ok v).
Proof. unfold varint_ok. apply _. Defined.

(** ** The wire image of a VarInt *)
Definition varint_bytes (v : VarInt) : bytes :=
  let x := into_inner v in
  if x <? 2 ^ 6 then [x]
  else if x <? 2 ^ 14 then to_be_bytes 2 (1 * 2 ^ 14 + x)
  else if x <? 2 ^ 30 then to_be_bytes 4 (2 * 2 ^ 30 + x)
  else to_be_bytes 8 (3 * 2 ^ 62 + x).

Lemma varint_max_val : into_inner VarInt.MAX = 2 ^ 62 - 1.
Proof. reflexivity. Qed.

(** The infallible conversions keep the value and the invariant; the unchecked one
    does exactly for what the checked one accepts. *)
Lemma varint_from_narrow x :
  (is_u8 x -> VarInt.into_u64 (VarInt.from_u8 x) = x /\ varint_ok (VarInt.from_u8 x)) /\
  (is_u16 x -> VarInt.into_u64 (VarInt.from_u16 x) = x /\ varint_ok (VarInt.from_u16 x)) /\
  (is_u32 x -> VarInt.from_u32_trait x = VarInt.from_u32 x /\ varint_ok (VarInt.from_u32 x)).
Proof.
  unfold VarInt.into_u64, VarInt.from_u8, VarInt.from_u16, VarInt.from_u32_trait, VarInt.from_u32.
  unfold varint_ok, as_u, is_u. cbn [into_inner]. rewrite varint_max_val.
  split_and!; intros; rewrite Z.mod_small by lia; by split; [|lia].
Qed.
Lemma varint_unchecked x :
  0 <= x -> varint_ok (VarInt.from_u64_unchecked x) <-> VarInt.from_u64 x = Ok (VarInt.from_u64_unchecked x).
Proof.
  intros Hx. unfold varint_ok, VarInt.from_u64, VarInt.from_u64_unchecked. cbn [into_inner].
  destruct (Z.leb_spec x (into_inner VarInt.MAX)); split; try done; lia.
Qed.

Ltac varint_range H := unfold varint_ok in H; rewrite varint_max_val in H.

Lemma encode_put {W E} `{BufMut W} v w :
  varint_ok v -> VarInt.encode (E:=E) v w = put_slice (varint_bytes v) w.
Proof.
  intros Hv. varint_range Hv. unfold VarInt.encode, varint_bytes.
  rewrite !(Z.shiftl_mul_pow2 1), !Z.mul_1_l by lia.
  rewrite varint_max_val.
  destruct (Z.ltb_spec (into_inner v) (2 ^ 6)).
  { unfold put_u8, as_u. rewrite Z.mod_small by lia. by rewrite to_be_bytes_1 by lia. }
  destruct (Z.ltb_spec (into_inner v) (2 ^ 14)).
  { unfold put_u16, as_u. rewrite Z.mod_small by lia.
    change (2 ^ 14) with (1 * 2 ^ 14) at 1. rewrite <- Z.shiftl_mul_pow2 by lia.
    by rewrite lor_tag_add by lia. }
  destruct (Z.ltb_spec (into_inner v) (2 ^ 30)).
  { unfold put_u32, as_u. rewrite Z.mod_small by lia. by rewrite lor_tag_add by lia. }
  rewrite (proj2 (Z.leb_le _ _)) by lia.
  unfold put_u64. by rewrite lor_tag_add by lia.
Qed.

Lemma encode_vec {E} v (w : bytes) :
  varint_ok v -> VarInt.encode (E:=E) v w = (Ok (), w ++ varint_bytes v).
Proof. intros. by rewrite encode_put. Qed.

Lemma len_varint_bytes v :
  varint_ok v ->
  len (varint_bytes v) =
    if into_inner v <? 2 ^ 6 then 1 else if into_inner v <? 2 ^ 14 then 2
    else if into_inner v <? 2 ^ 30 then 4 else 8.
Proof. intros. unfold varint_bytes. repeat case_match; by rewrite ?len_to_be_bytes. Qed.

Lemma varint_bytes_is_bytes v : varint_ok v -> is_bytes (varint_bytes v).
Proof.
  intros Hv. varint_range Hv. unfold varint_bytes.
  destruct (Z.ltb_spec (into_inner v) (2 ^ 6)); [|repeat case_match; auto with wt].
  repeat constructor; unfold is_u; lia.
Qed.
#[export] Hint Resolve varint_bytes_is_bytes : wt.

(** ** What the decoder does on a slice, on every input *)
Definition varint_len (b0 : Z) : Z := Z.shiftl 1 (Z.shiftr b0 6).
Definition varint_decode_spec (l : bytes) : outcome VarIntUnexpectedEnd VarInt * bytes :=
  match l with
  | [] => (Err MkVarIntUnexpectedEnd, [])
  | b0 :: r =>
      let n := varint_len b0 - 1 in
      if len r <? n then (Err MkVarIntUnexpectedEnd, r)
      else (Ok (MkVarInt (from_be_bytes (Z.land b0 63 :: take (Z.to_nat n) r))),
            drop (Z.to_nat n) r)
  end.

Lemma tag_cases b0 : is_u8 b0 ->
  Z.shiftr b0 6 = 0 \/ Z.shiftr b0 6 = 1 \/ Z.shiftr b0 6 = 2 \/ Z.shiftr b0 6 = 3.
Proof.
  unfold is_u. intros. rewrite Z.shiftr_div_pow2 by lia.
  change (2 ^ 6) with 64. change (2 ^ 8) with 256 in *.
  pose proof (Z.div_lt_upper_bound b0 64 4). pose proof (Z.div_pos b0 64). lia.
Qed.

Ltac decode_tail r n :=
  unfold bind at 1; mstep (get_remaining_slice r);
  destruct (Z.ltb_spec (len r) n); [done|];
  unfold copy_to_slice; mstep (copy_to_bytes_slice_take n r ltac:(lia)); done.

Lemma decode_slice_cons b0 r :
  is_u8 b0 -> VarInt.decode (b0 :: r) = varint_decode_spec (b0 :: r).
Proof.
  intros Hb. unfold VarInt.decode, varint_decode_spec, varint_len.
  mstep (get_remaining_slice _). rewrite len_cons.
  rewrite (proj2 (Z.ltb_lt 0 _)) by (pose_len; lia). cbn [negb].
  mstep (get_u8_slice b0 r).
  destruct (tag_cases b0 Hb) as [T|[T|[T|T]]]; rewrite T; cbv zeta.
  - change (Z.shiftl 1 0 - 1) with 0.
    rewrite (proj2 (Z.ltb_ge (len r) 0)) by apply len_nonneg. done.
  - change (Z.shiftl 1 1 - 1) with 1. decode_tail r 1.
  - change (Z.shiftl 1 2 - 1) with 3. decode_tail r 3.
  - change (Z.shiftl 1 3 - 1) with 7. decode_tail r 7.
Qed.

Lemma decode_slice l : is_bytes l -> VarInt.decode l = varint_decode_spec l.
Proof.
  intros Hl. destruct l as [|b0 r]; [done|].
  inversion Hl; subst. by apply decode_slice_cons.
Qed.

Lemma decode_sim `{BufSim B1 B2 R} : simM R VarInt.decode VarInt.decode.
Proof. unfold VarInt.decode. solve_sim. Qed.
#[export] Hint Resolve decode_sim : sim.

(** ** Encoding then decoding *)
Lemma tagged_be_bytes m tag x :
  0 <= tag < 4 -> 0 <= x < 64 * 256 ^ Z.of_nat m ->
  exists hi, 0 <= hi < 64 /\ to_be_bytes (S m) (tag * (64 * 256 ^ Z.of_nat m) + x)
    = (tag * 64 + hi) :: to_be_bytes m x /\ from_be_bytes (hi :: to_be_bytes m x) = x.
Proof.
  intros Ht Hx. set (p := 256 ^ Z.of_nat m) in *.
  assert (Hp : 0 < p) by (apply Z.pow_pos_nonneg; lia).
  exists (x / p).
  assert (0 <= x / p < 64).
  { split; [apply Z.div_pos; lia|apply Z.div_lt_upper_bound; lia]. }
  split; [done|]. split.
  - unfold to_be_bytes; fold to_be_bytes. fold p. f_equal.
    + replace (tag * (64 * p) + x) with ((tag * 64) * p + x) by ring.
      rewrite Z.div_add_l by lia. apply Z.mod_small. lia.
    + replace (tag * (64 * p) + x) with ((tag * 64) * p + x) by ring.
      by apply to_be_bytes_high.
  - rewrite from_be_bytes_cons, length_to_be_bytes, from_to_be_bytes. fold p.
    rewrite Z.mul_comm. symmetry. apply Z.div_mod. lia.
Qed.

Lemma tag_byte tag hi :
  0 <= tag < 4 -> 0 <= hi < 64 ->
  is_u8 (tag * 64 + hi) /\ Z.shiftr (tag * 64 + hi) 6 = tag /\ Z.land (tag * 64 + hi) 63 = hi.
Proof.
  intros. split; [unfold is_u; lia|]. split.
  - rewrite Z.shiftr_div_pow2 by lia. change (2 ^ 6) with 64.
    rewrite Z.div_add_l by lia. rewrite Z.div_small; lia.
  - change 63 with (2 ^ 6 - 1). rewrite land_mask by lia. change (2 ^ 6) with 64.
    rewrite Z.add_comm, Z_mod_plus_full. apply Z.mod_small. lia.
Qed.

Lemma decode_tagged m tag x rest :
  0 <= tag < 4 -> Z.shiftl 1 tag = 1 + Z.of_nat m -> 0 <= x < 64 * 256 ^ Z.of_nat m ->
  VarInt.decode (to_be_bytes (S m) (tag * (64 * 256 ^ Z.of_nat m) + x) ++ rest)
  = (Ok (MkVarInt x), rest).
Proof.
  intros Ht Hm Hx. destruct (tagged_be_bytes m tag x Ht Hx) as (hi & Hhi & -> & Hx').
  destruct (tag_byte tag hi Ht Hhi) as (H8 & Hsh & Hla).
  cbn [app]. rewrite decode_slice_cons by done.
  unfold varint_decode_spec, varint_len. rewrite Hsh, Hm, Hla. cbv zeta.
  replace (1 + Z.of_nat m - 1) with (len (to_be_bytes m x)) by (rewrite len_to_be_bytes; lia).
  rewrite (proj2 (Z.ltb_ge _ _)) by len_lia.
  by rewrite take_len_app, drop_len_app, Hx'.
Qed.

Lemma decode_varint_bytes v rest :
  varint_ok v -> VarInt.decode (varint_bytes v ++ rest) = (Ok v, rest).
Proof.
  intros Hv. varint_range Hv. destruct v as [x]. unfold varint_bytes. cbn [into_inner] in *.
  destruct (Z.ltb_spec x (2 ^ 6)).
  { rewrite <- (to_be_bytes_1 x) by lia. apply (decode_tagged 0 0 x rest); [lia|reflexivity|cbn; lia]. }
  destruct (Z.ltb_spec x (2 ^ 14)); [apply (decode_tagged 1 1 x rest); [lia|reflexivity|cbn; lia]|].
  destruct (Z.ltb_spec x (2 ^ 30)); [apply (decode_tagged 3 2 x rest); [lia|reflexivity|cbn; lia]|].
  apply (decode_tagged 7 3 x rest); [lia|reflexivity|cbn; lia].
Qed.

(** ** The value decoded, its bound, and the length of its encoding *)
Lemma decoded_value_bound b0 r :
  is_bytes (b0 :: r) -> varint_len b0 - 1 <= len r ->
  let n := Z.to_nat (varint_len b0 - 1) in
  0 <= from_be_bytes (Z.land b0 63 :: take n r) < 64 * 256 ^ Z.of_nat n.
Proof.
  intros Hl Hn n. inversion Hl as [|? ? Hb Hr]; subst.
  assert (Hlen : length (take n r) = n).
  { unfold n, len in *. rewrite length_take. lia. }
  rewrite from_be_bytes_cons, Hlen.
  change 63 with (2 ^ 6 - 1). rewrite land_mask by lia. change (2 ^ 6) with 64.
  pose proof (Z.mod_pos_bound b0 64 ltac:(lia)).
  pose proof (from_be_bytes_bound (take n r)) as B. rewrite Hlen in B.
  specialize (B (Forall_take _ _ _ Hr)). nia.
Qed.

Lemma varint_len_cases b0 : is_u8 b0 ->
  varint_len b0 = 1 \/ varint_len b0 = 2 \/ varint_len b0 = 4 \/ varint_len b0 = 8.
Proof.
  intros Hb. unfold varint_len.
  destruct (tag_cases b0 Hb) as [T|[T|[T|T]]]; rewrite T; cbn; auto.
Qed.

Ltac norm_const H :=
  match type of H with
  | context [64 * ?p] => let v := eval vm_compute in (64 * p) in change (64 * p) with v in H
  end.

Lemma decode_Ok_inv l v rest :
  is_bytes l -> VarInt.decode l = (Ok v, rest) ->
  exists pre, l = pre ++ rest /\ varint_ok v /\ 1 <= len (varint_bytes v) <= len pre /\ len pre <= 8.
Proof.
  intros Hl. rewrite decode_slice by done. destruct l as [|b0 r]; [done|].
  unfold varint_decode_spec. destruct (Z.ltb_spec (len r) (varint_len b0 - 1)); [done|].
  intros [= <- <-]. inversion Hl as [|? ? Hb Hr]; subst.
  pose proof (decoded_value_bound b0 r Hl ltac:(lia)) as Hv. cbv zeta in Hv.
  set (n := varint_len b0 - 1) in *.
  exists (b0 :: take (Z.to_nat n) r). split; [cbn; by rewrite take_drop|].
  rewrite len_cons.
  pose proof (varint_len_cases b0 Hb) as Hc.
  assert (Hlt : len (take (Z.to_nat n) r) = n) by (apply len_take; lia). rewrite Hlt.
  set (x := from_be_bytes _) in *.
  assert (Hok : varint_ok (MkVarInt x)).
  { split; [cbn; lia|]. rewrite varint_max_val. cbn [into_inner].
    destruct Hc as [Hc|[Hc|[Hc|Hc]]]; unfold n in Hv; rewrite Hc in Hv; norm_const Hv; lia. }
  split; [done|]. rewrite len_varint_bytes by done. cbn [into_inner].
  destruct Hc as [Hc|[Hc|[Hc|Hc]]]; unfold n in *; rewrite Hc in *; norm_const Hv;
    repeat case_match; lia.
Qed.

Lemma decode_completes l : is_bytes l -> completes (fst (VarInt.decode l)).
Proof.
  intros Hl. rewrite decode_slice by done. unfold varint_decode_spec.
  destruct l; repeat case_match; cbn; intros []; done.
Qed.

(** ** The stream reader and writer *)
Lemma read_sim `{ReadSim S1 S2 R} : simM R VarInt.read VarInt.read.
Proof. unfold VarInt.read. solve_sim. Qed.
#[export] Hint Resolve read_sim : sim.

Lemma read_exact_all n s :
  n <= len (in_bytes s) -> 0 <= n ->
  read_exact n s = (Ok (take (Z.to_nat n) (in_bytes s)), MkIncoming (drop (Z.to_nat n) (in_bytes s)) (in_end s)).
Proof. intros. cbn. by rewrite (proj2 (Z.leb_le _ _)) by lia. Qed.
Lemma read_exact_short n s :
  len (in_bytes s) < n -> read_exact n s = (Err (in_end s), MkIncoming [] (in_end s)).
Proof. intros. cbn. by rewrite (proj2 (Z.leb_gt _ _)) by lia. Qed.

(** Reading a varint off a stream is decoding the bytes of the stream. *)
Lemma read_incoming l e :
  is_bytes l ->
  VarInt.read (MkIncoming l e) =
    match VarInt.decode l with
    | (Ok v, rest) => (Ok v, MkIncoming rest e)
    | (r, _) => (r, MkIncoming [] e)
    end.
Proof.
  intros Hl. rewrite decode_slice by done. unfold VarInt.read.
  destruct l as [|b0 r].
  { by mstep (read_exact_short 1 (MkIncoming [] e) eq_refl). }
  inversion Hl as [|? ? Hb Hr]; subst.
  change (b0 :: r) with ([b0] ++ r) at 1.
  mstep (read_exact_incoming 1 [b0] r e eq_refl). cbv zeta.
  rewrite from_be_bytes_1. unfold varint_decode_spec, varint_len.
  set (n := Z.shiftl 1 (Z.shiftr b0 6)).
  pose proof (varint_len_cases b0 Hb) as Hc. unfold varint_len in Hc. fold n in Hc.
  destruct (Z.ltb_spec (len r) (n - 1)) as [Hs|Hs].
  { by mstep (read_exact_short (n - 1) (MkIncoming r e) Hs). }
  mstep (read_exact_all (n - 1) (MkIncoming r e) Hs ltac:(lia)). cbn [in_bytes in_end].
  unfold lift. cbn [app]. rewrite decode_slice_cons by done.
  unfold varint_decode_spec, varint_len. fold n.
  assert (Hlt : len (take (Z.to_nat (n - 1)) r) = n - 1) by (apply len_take; lia).
  rewrite Hlt, Z.ltb_irrefl. cbn [fst VarInt.expect_decoded].
  rewrite (take_ge (take _ _)); [done|]. unfold len in Hlt. lia.
Qed.
Lemma read_varint_bytes v rest e :
  varint_ok v -> is_bytes rest ->
  VarInt.read (MkIncoming (varint_bytes v ++ rest) e) = (Ok v, MkIncoming rest e).
Proof.
  intros Hv Hr. rewrite read_incoming by (apply is_bytes_app; auto with wt). by rewrite decode_varint_bytes.
Qed.

Lemma write_outgoing v out fail :
  varint_ok v ->
  VarInt.write v (MkOutgoing out fail) =
    match fail with
    | None => (Ok (), MkOutgoing (out ++ varint_bytes v) None)
    | Some _ => (Err MkVarIntUnexpectedEnd, MkOutgoing out fail)
    end.
Proof.
  intros Hv. unfold VarInt.write. rewrite encode_put by done.
  pose proof (len_varint_bytes v Hv) as Hl.
  assert (len (varint_bytes v) <= 8) by (rewrite Hl; repeat case_match; lia).
  unfold put_slice. cbn [put slice_bufmut sm_left sm_written app].
  rewrite (proj2 (Z.leb_le _ _)) by done. cbn [sm_left sm_written].
  unfold lift, bind, map_err. replace (8 - (8 - len (varint_bytes v))) with (len (varint_bytes v)) by lia.
  rewrite take_len_all. cbn [write_all outgoing_write out_fail out_bytes]. by destruct fail.
Qed.

(** More bytes behind a complete varint change nothing. *)
Lemma decode_app l v rest more :
  is_bytes l -> is_bytes more ->
  VarInt.decode l = (Ok v, rest) -> VarInt.decode (l ++ more) = (Ok v, rest ++ more).
Proof.
  intros Hl Hm. rewrite !decode_slice by (done || by apply is_bytes_app).
  destruct l as [|b0 r]; [done|]. cbn [app]. unfold varint_decode_spec.
  destruct (Z.ltb_spec (len r) (varint_len b0 - 1)); [done|]. intros [= <- <-].
  rewrite (proj2 (Z.ltb_ge _ _)) by len_lia.
  unfold len in *. by rewrite take_app_le, drop_app_le by lia.
Qed.

(** The bytes of a varint decode to it whatever follows. *)
Lemma decode_local pre v l l' :
  is_bytes (pre ++ l) -> is_bytes l' -> 1 <= len pre ->
  VarInt.decode (pre ++ l) = (Ok v, l) -> VarInt.decode (pre ++ l') = (Ok v, l').
Proof.
  intros Hpl Hl' Hpre. apply is_bytes_app in Hpl as [Hp Hl].
  rewrite !decode_slice by by apply is_bytes_app. destruct pre as [|b0 r]; [rewrite len_nil in Hpre; lia|].
  apply Forall_cons in Hp as [Hb Hr]. pose proof (varint_len_cases b0 Hb). cbn [app]. unfold varint_decode_spec.
  destruct (Z.ltb_spec (len (r ++ l)) (varint_len b0 - 1)); [done|]. intros [= <- Hd].
  assert (Hlr : len r = varint_len b0 - 1).
  { apply (f_equal len) in Hd. rewrite len_drop, len_app in Hd by lia. lia. }
  rewrite (proj2 (Z.ltb_ge _ _)) by (rewrite len_app; pose_len; lia).
  rewrite !take_app_length', drop_app_length' by (unfold len in Hlr; lia). done.
Qed.

(** The bytes [p] are an encoding of [v], the shortest or not: the two leading
    bits of the first byte count the bytes, the rest is the value. *)
Definition varint_wire (p : bytes) (v : VarInt) : Prop :=
  match p with
  | [] => False
  | b0 :: r => len r = varint_len b0 - 1 /\ v = MkVarInt (from_be_bytes (Z.land b0 63 :: r))
  end.
Lemma decode_wire p v rest :
  is_bytes (p ++ rest) -> varint_wire p v -> VarInt.decode (p ++ rest) = (Ok v, rest).
Proof.
  intros Hl. destruct p as [|b0 r]; [done|]. intros [Hr ->].
  rewrite decode_slice by done. cbn [app]. unfold varint_decode_spec.
  rewrite (proj2 (Z.ltb_ge _ _)) by (rewrite len_app; pose_len; lia).
  by rewrite take_app_length', drop_app_length' by (unfold len in Hr; lia).
Qed.
Lemma decode_wire_inv l v rest :
  is_bytes l -> VarInt.decode l = (Ok v, rest) -> exists p, l = p ++ rest /\ varint_wire p v /\ varint_ok v /\ 1 <= len p.
Proof.
  intros Hl E. destruct (decode_Ok_inv l v rest Hl E) as (_ & _ & Hok & _).
  rewrite decode_slice in E by done. destruct l as [|b0 r]; [done|]. unfold varint_decode_spec in E.
  destruct (Z.ltb_spec (len r) (varint_len b0 - 1)); [done|]. injection E as <- <-.
  apply Forall_cons in Hl as [Hb _]. pose proof (varint_len_cases b0 Hb).
  exists (b0 :: take (Z.to_nat (varint_len b0 - 1)) r).
  split; [cbn; by rewrite take_drop|]. split; [|split; [done|len_lia]].
  split; [apply len_take; lia|done].
Qed.
Lemma varint_wire_ok p v : is_bytes p -> varint_wire p v -> varint_ok v.
Proof.
  intros Hp Hw. rewrite <- (app_nil_r p) in Hp. by destruct (decode_Ok_inv _ _ _ Hp (decode_wire p v [] Hp Hw)) as (_ & _ & Hv & _).
Qed.
(** [l] begins with no varint: it is empty or ends inside one. *)
Definition no_varint (l : bytes) : Prop := forall p v rest, l = p ++ rest -> ~ varint_wire p v.
Lemma decode_wire_err l e l' : is_bytes l -> VarInt.decode l = (Err e, l') -> no_varint l.
Proof. intros Hl E p v rest -> Hw. by rewrite (decode_wire p v rest Hl Hw) in E. Qed.
Lemma wire_unique p1 v1 r1 p2 v2 r2 :
  is_bytes (p1 ++ r1) -> p1 ++ r1 = p2 ++ r2 -> varint_wire p1 v1 -> varint_wire p2 v2 -> v1 = v2 /\ r1 = r2.
Proof.
  intros Hl E H1 H2. pose proof (decode_wire p1 v1 r1 Hl H1) as E1. rewrite E in Hl, E1.
  rewrite (decode_wire p2 v2 r2 Hl H2) in E1. by simplify_eq.
Qed.

(** The two outcomes of the decoder, and of the stream reader after it. *)
Lemma decode_split l :
  is_bytes l ->
  (exists l', VarInt.decode l = (Err MkVarIntUnexpectedEnd, l') /\
     forall e, VarInt.read (MkIncoming l e) = (Err MkVarIntUnexpectedEnd, MkIncoming [] e)) \/
  (exists v pre rest, l = pre ++ rest /\ VarInt.decode l = (Ok v, rest) /\ varint_ok v /\
     1 <= len pre /\ is_bytes rest /\
     forall e, VarInt.read (MkIncoming l e) = (Ok v, MkIncoming rest e)).
Proof.
  intros Hl. pose proof (decode_completes l Hl) as Hc. pose proof (read_incoming l) as Hr.
  destruct (VarInt.decode l) as [[v|[]| |] rest] eqn:E; cbn [fst] in Hc;
    [right|left|exfalso; apply Hc; red; auto..].
  - destruct (decode_Ok_inv l v rest Hl E) as (pre & -> & Hok & Hp & _).
    exists v, pre, rest. split_and!; auto; [lia|by apply is_bytes_app in Hl as [_ ?]].
  - exists rest. auto.
Qed.

(** ** Properties *)

(** C32: encoding a VarInt never panics and appends the bytes its [size] counts;
    decoding those bytes, whatever follows them, gives the VarInt back and leaves
    exactly what follows. *)
Theorem varint_roundtrip (v : VarInt) (Hv : varint_ok v) :
  exists bs, (forall E (w : bytes), VarInt.encode (E:=E) v w = (Ok (), w ++ bs)) /\
    VarInt.size v = Ok (len bs) /\ is_bytes bs /\
    (forall rest, VarInt.decode (bs ++ rest) = (Ok v, rest)).
Proof.
  exists (varint_bytes v). split_and!; auto with wt.
  - intros. by apply encode_vec.
  - rewrite len_varint_bytes by done. varint_range Hv. unfold VarInt.size.
    rewrite varint_max_val, !Z.shiftl_mul_pow2, !Z.mul_1_l by lia.
    repeat case_match; try done; lia.
  - intros. by apply decode_varint_bytes.
Qed.
Lemma varint_roundtrip_witness :
  exists bs, (forall E (w : bytes), VarInt.encode (E:=E) (MkVarInt 494878333) w = (Ok (), w ++ bs)) /\
    VarInt.size (MkVarInt 494878333) = Ok (len bs) /\ is_bytes bs /\
    (forall rest, VarInt.decode (bs ++ rest) = (Ok (MkVarInt 494878333), rest)).
Proof. apply (varint_roundtrip (MkVarInt 494878333)). vm_compute. split; discriminate. Defined.

(** On every byte string the decoder returns: it fails exactly when fewer
    bytes are there than the two top bits of the first one announce; otherwise it
    consumes that many bytes, the value is in range, the shortest encoding of the
    value is no longer than what was consumed, and bytes arriving later do not
    change the answer. *)
Theorem varint_decode_total (l : bytes) (Hl : is_bytes l) :
  match VarInt.decode l with
  | (Ok v, rest) =>
      exists b0 r, l = (b0 :: r) ++ rest /\ len (b0 :: r) = varint_len b0 /\
        varint_ok v /\ len (varint_bytes v) <= len (b0 :: r) <= VarInt.MAX_SIZE /\
        forall more, is_bytes more -> VarInt.decode (l ++ more) = (Ok v, rest ++ more)
  | (Err _, _) =>
      match l with [] => True | b0 :: _ => len l < varint_len b0 end
  | _ => False
  end.
Proof.
  pose proof (decode_slice l Hl) as Hd. destruct (VarInt.decode l) as [o rest] eqn:E.
  destruct l as [|b0 r]; cbn [varint_decode_spec] in Hd; [by injection Hd as -> ->|].
  unfold varint_decode_spec in Hd. rewrite len_cons.
  destruct (Z.ltb_spec (len r) (varint_len b0 - 1)); simplify_eq; [lia|].
  destruct (decode_Ok_inv _ _ _ Hl E) as (pre & Hpre & Hok & Hmin & Hmax).
  inversion Hl as [|? ? Hb Hr]; subst. pose proof (varint_len_cases b0 Hb).
  assert (Hlt : len (take (Z.to_nat (varint_len b0 - 1)) r) = varint_len b0 - 1) by (apply len_take; lia).
  exists b0, (take (Z.to_nat (varint_len b0 - 1)) r). rewrite len_cons, Hlt.
  assert (Hp : len pre = varint_len b0).
  { apply (f_equal len) in Hpre. rewrite len_app, len_cons, len_drop in Hpre by lia. lia. }
  split_and!; try done; try lia.
  - cbn [app]. by rewrite take_drop.
  - unfold VarInt.MAX_SIZE. lia.
  - intros. by apply decode_app.
Qed.
Lemma varint_decode_total_witness :
  is_bytes [64; 37; 9] /\ VarInt.decode [64; 37; 9] = (Ok (MkVarInt 37), [9]) /\
  exists b0 r, [64; 37; 9] = (b0 :: r) ++ [9] /\ len (b0 :: r) = varint_len b0 /\
    varint_ok (MkVarInt 37) /\ len (varint_bytes (MkVarInt 37)) <= len (b0 :: r) <= VarInt.MAX_SIZE /\
    forall more, is_bytes more -> VarInt.decode ([64; 37; 9] ++ more) = (Ok (MkVarInt 37), [9] ++ more).
Proof.
  assert (H : is_bytes [64; 37; 9]) by (repeat constructor; unfold is_u; lia).
  split; [exact H|]. split; [reflexivity|].
  exact (varint_decode_total [64; 37; 9] H).
Defined.

(** The stream codec agrees with the buffer codec: what [write] puts on a
    stream, [read] takes off it, and on every incoming byte sequence [read] gives
    the outcome of [decode] (no [expect] of it ever fails), the stream left just
    behind the varint, or drained when it ended too early. *)
Theorem varint_read_write (v : VarInt) (Hv : varint_ok v) (out : bytes) :
  (exists bs, VarInt.write v (MkOutgoing out None) = (Ok (), MkOutgoing (out ++ bs) None) /\
     forall rest e, is_bytes rest -> VarInt.read (MkIncoming (bs ++ rest) e) = (Ok v, MkIncoming rest e)) /\
  (forall e, VarInt.write v (MkOutgoing out (Some e)) = (Err MkVarIntUnexpectedEnd, MkOutgoing out (Some e))) /\
  (forall l e, is_bytes l ->
     VarInt.read (MkIncoming l e) =
       match VarInt.decode l with
       | (Ok v, rest) => (Ok v, MkIncoming rest e)
       | (r, _) => (r, MkIncoming [] e)
       end).
Proof.
  split; [|split].
  - exists (varint_bytes v). split; [by apply (write_outgoing v out None)|].
    intros. by apply read_varint_bytes.
  - intros. by apply (write_outgoing v out (Some e)).
  - intros. by apply read_incoming.
Qed.
Lemma varint_read_write_witness :
  VarInt.write (MkVarInt 15293) (MkOutgoing [] None) = (Ok (), MkOutgoing [123; 189] None) /\
  exists bs, VarInt.write (MkVarInt 15293) (MkOutgoing [] None) = (Ok (), MkOutgoing ([] ++ bs) None) /\
     forall rest e, is_bytes rest ->
       VarInt.read (MkIncoming (bs ++ rest) e) = (Ok (MkVarInt 15293), MkIncoming rest e).
Proof.
  split; [reflexivity|].
  apply (varint_read_write (MkVarInt 15293)). vm_compute. split; discriminate.
Defined.
