(* ===== verification/ErrorCode.v ===== *)
(** * The application error code space (webtrans-proto/src/error.rs)

    WebTransport application codes are 32-bit; on the wire they are HTTP/3 error
    codes of a reserved range, in which every 31st code point is a GREASE value
    that the mapping steps over. *)
From S2P Require Import Prelude.

Definition ERROR_FIRST : Z := 0x52e4a40fa8db.
Definition ERROR_LAST : Z := 0x52e5ac983162.

(** [code] is a [u64]; the last cast is to [u32]. *)
Definition error_from_http3 (code : Z) : option Z :=
  if (code <? ERROR_FIRST) || (ERROR_LAST <? code) then None
  else
    let code := code - ERROR_FIRST in
    let code := code - code / 0x1f in
    Some (as_u32 code).

(** [code] is a [u32]; the sum is a [u64]. *)
Definition error_to_http3 (code : Z) : Z := ERROR_FIRST + code + code / 0x1e.

(** The GREASE positions of the reserved range: HTTP/3 reserves the error codes
    [0x1f * n + 0x21]. *)
Definition reserved_http3_code (h : Z) : Prop := (h - 0x21) mod 0x1f = 0.

(** ** Arithmetic of the two maps *)
Lemma to_http3_range c : is_u32 c -> ERROR_FIRST <= error_to_http3 c <= ERROR_LAST.
Proof.
  unfold is_u, error_to_http3, ERROR_FIRST, ERROR_LAST. change (2 ^ 32) with 4294967296.
  intros. Z.to_euclidean_division_equations. lia.
Qed.

Lemma from_http3_in_range h :
  ERROR_FIRST <= h <= ERROR_LAST ->
  error_from_http3 h = Some (h - ERROR_FIRST - (h - ERROR_FIRST) / 31).
Proof.
  intros Hh. unfold error_from_http3.
  rewrite (proj2 (Z.ltb_ge h _)), (proj2 (Z.ltb_ge _ h)) by lia. cbn [orb].
  unfold as_u. rewrite Z.mod_small; [done|].
  unfold ERROR_FIRST, ERROR_LAST in *. change (2 ^ 32) with 4294967296.
  Z.to_euclidean_division_equations. lia.
Qed.

Lemma from_to_http3 c : is_u32 c -> error_from_http3 (error_to_http3 c) = Some c.
Proof.
  intros Hc. rewrite from_http3_in_range by by apply to_http3_range.
  f_equal. unfold error_to_http3. unfold is_u in Hc.
  Z.to_euclidean_division_equations. lia.
Qed.

Lemma to_http3_not_reserved c : is_u32 c -> ~ reserved_http3_code (error_to_http3 c).
Proof.
  unfold is_u, reserved_http3_code, error_to_http3, ERROR_FIRST. intros.
  Z.to_euclidean_division_equations. lia.
Qed.

(** The code points of the range that decode to a given code: its own image, and
    the reserved code point just below it when there is one. *)
Lemma from_http3_preimage h c :
  error_from_http3 h = Some c <->
  is_u32 c /\ (h = error_to_http3 c \/
    (h = error_to_http3 c - 1 /\ reserved_http3_code h /\ ERROR_FIRST <= h)).
Proof.
  split.
  - intros Hf. assert (Hr : ERROR_FIRST <= h <= ERROR_LAST).
    { unfold error_from_http3 in Hf.
      destruct (Z.ltb_spec h ERROR_FIRST), (Z.ltb_spec ERROR_LAST h); cbn in Hf; lia || done. }
    rewrite from_http3_in_range in Hf by done. injection Hf as Hf.
    unfold is_u, reserved_http3_code, error_to_http3, ERROR_FIRST, ERROR_LAST in *.
    change (2 ^ 32) with 4294967296.
    Z.to_euclidean_division_equations. lia.
  - intros [Hc [->|[Hh [Hres Hge]]]]; [by apply from_to_http3|].
    pose proof (to_http3_range c Hc).
    rewrite from_http3_in_range by lia. f_equal.
    unfold is_u, reserved_http3_code, error_to_http3, ERROR_FIRST, ERROR_LAST in *.
    Z.to_euclidean_division_equations. lia.
Qed.

(** ** Properties *)

(** C33: every 32-bit application code survives the trip through the HTTP/3 code
    space; its image lies in the reserved range, is never one of the code points
    HTTP/3 reserves for GREASE, and fits a QUIC varint.  The HTTP/3 codes read as
    that code are its image and, when the code point just below the image is a
    GREASE one of the range, that code point too; no others. *)
Theorem error_code_roundtrip (code : Z) (Hc : is_u32 code) :
  error_from_http3 (error_to_http3 code) = Some code /\
  ERROR_FIRST <= error_to_http3 code <= ERROR_LAST /\
  ~ reserved_http3_code (error_to_http3 code) /\
  0 <= error_to_http3 code <= 2 ^ 62 - 1 /\
  (forall h, error_from_http3 h = Some code <->
     h = error_to_http3 code \/
     (h = error_to_http3 code - 1 /\ reserved_http3_code h /\ ERROR_FIRST <= h)).
Proof.
  pose proof (to_http3_range code Hc) as Hr. split_and!; try lia.
  - by apply from_to_http3.
  - by apply to_http3_not_reserved.
  - unfold ERROR_FIRST in Hr. lia.
  - unfold ERROR_LAST in Hr. lia.
  - intros h. rewrite from_http3_preimage. naive_solver.
Qed.
Lemma error_code_roundtrip_witness :
  error_from_http3 (error_to_http3 4294967295) = Some 4294967295 /\
  ERROR_FIRST <= error_to_http3 4294967295 <= ERROR_LAST /\
  ~ reserved_http3_code (error_to_http3 4294967295) /\
  0 <= error_to_http3 4294967295 <= 2 ^ 62 - 1 /\
  (forall h, error_from_http3 h = Some 4294967295 <->
     h = error_to_http3 4294967295 \/
     (h = error_to_http3 4294967295 - 1 /\ reserved_http3_code h /\ ERROR_FIRST <= h)).
Proof. apply (error_code_roundtrip 4294967295). unfold is_u. lia. Defined.

(** The reserved code point [ERROR_FIRST + 30] is read as code 30. *)
Example reserved_code_accepted :
  error_from_http3 (ERROR_FIRST + 30) = Some 30 /\ error_to_http3 30 = ERROR_FIRST + 31.
Proof. split; reflexivity. Qed.
