(* ===== verification/Frame.v ===== *)
(** * Frame and stream types (webtrans-proto/src/grease.rs, frame.rs, stream.rs) *)
From S2P Require Import Prelude Buf Varint.

(** ** GREASE identifiers *)
Definition GREASE_START : Z := 0x21.
Definition GREASE_STEP : Z := 0x1f.
Definition is_grease_value (value : Z) : bool :=
  (GREASE_START <=? value) && ((value - GREASE_START) mod GREASE_STEP =? 0).

(** ** HTTP/3 frames *)
Record Frame := MkFrame { frame_type : VarInt }.
#[export] Instance Frame_eq_dec : EqDecision Frame.
Proof. solve_decision. Defined.

Module Frame.
Definition decode {B} `{Buf B} : M B VarIntUnexpectedEnd Frame :=
  let* typ := VarInt.decode in ret (MkFrame typ).
Definition encode {W E} `{BufMut W} (f : Frame) : M W E unit := VarInt.encode (frame_type f).
Definition is_grease (f : Frame) : bool := is_grease_value (into_inner (frame_type f)).
Definition from_u32 (value : Z) : Frame := MkFrame (VarInt.from_u32 value).

Definition DATA : Frame := from_u32 0x00.
Definition HEADERS : Frame := from_u32 0x01.
Definition SETTINGS : Frame := from_u32 0x04.
Definition WEBTRANSPORT : Frame := from_u32 0x41.

(** One iteration reads a header; a GREASE frame is skipped.  The result is the
    type and the size, the buffer being at the payload: [Buf::take(buf, size)]
    is formed by the caller, with [with_take]. *)
Fixpoint read_loop `{Platform} {B} `{Buf B} (fuel : nat) : M B VarIntUnexpectedEnd (Frame * Z) :=
  match fuel with
  | O => out_of_fuel
  | S fuel =>
      let* typ := decode in
      let* size := VarInt.decode in
      let* size := ok_or MkVarIntUnexpectedEnd (usize_try_from (into_inner size)) in
      let* r := get_remaining in
      if r <? size then throw MkVarIntUnexpectedEnd
      else if is_grease typ then
        advance size ;;; read_loop fuel
      else ret (typ, size)
  end.

(** Every iteration consumes two bytes at least: the bytes left are fuel enough. *)
Definition read `{Platform} {B} `{Buf B} : M B VarIntUnexpectedEnd (Frame * Z) :=
  let* r := get_remaining in read_loop (S (Z.to_nat r)).
End Frame.

(** ** Unidirectional stream types *)
Record UniStream := MkUniStream { stream_type : VarInt }.
#[export] Instance UniStream_eq_dec : EqDecision UniStream.
Proof. solve_decision. Defined.

Module UniStream.
Definition decode {B} `{Buf B} : M B VarIntUnexpectedEnd UniStream :=
  let* typ := VarInt.decode in ret (MkUniStream typ).
Definition encode {W E} `{BufMut W} (s : UniStream) : M W E unit := VarInt.encode (stream_type s).
Definition is_grease (s : UniStream) : bool := is_grease_value (into_inner (stream_type s)).
Definition from_u32 (value : Z) : UniStream := MkUniStream (VarInt.from_u32 value).

Definition CONTROL : UniStream := from_u32 0x00.
Definition PUSH : UniStream := from_u32 0x01.
Definition QPACK_ENCODER : UniStream := from_u32 0x02.
Definition QPACK_DECODER : UniStream := from_u32 0x03.
Definition WEBTRANSPORT : UniStream := from_u32 0x54.
End UniStream.

(** ** Simulation *)
Lemma frame_decode_sim `{BufSim B1 B2 R} : simM R Frame.decode Frame.decode.
Proof. unfold Frame.decode. solve_sim. Qed.
Lemma uni_decode_sim `{BufSim B1 B2 R} : simM R UniStream.decode UniStream.decode.
Proof. unfold UniStream.decode. solve_sim. Qed.
#[export] Hint Resolve frame_decode_sim uni_decode_sim : sim.
Lemma frame_read_loop_sim `{Platform} `{BufSim B1 B2 R} fuel :
  simM R (Frame.read_loop fuel) (Frame.read_loop fuel).
Proof. induction fuel; cbn [Frame.read_loop]; solve_sim. Qed.
#[export] Hint Resolve frame_read_loop_sim : sim.
Lemma frame_read_sim `{Platform} `{BufSim B1 B2 R} : simM R Frame.read Frame.read.
Proof. unfold Frame.read. solve_sim. Qed.
#[export] Hint Resolve frame_read_sim : sim.

(** ** Small facts *)
Lemma frame_decode_bytes f rest :
  varint_ok (frame_type f) ->
  Frame.decode (varint_bytes (frame_type f) ++ rest) = (Ok f, rest).
Proof.
  intros Hf. unfold Frame.decode. mstep (decode_varint_bytes _ rest Hf). by destruct f.
Qed.
Lemma uni_decode_bytes s rest :
  varint_ok (stream_type s) ->
  UniStream.decode (varint_bytes (stream_type s) ++ rest) = (Ok s, rest).
Proof.
  intros Hf. unfold UniStream.decode. mstep (decode_varint_bytes _ rest Hf). by destruct s.
Qed.

(** The image of a frame on the wire. *)
Definition frame_bytes (f : Frame) (payload : bytes) : bytes :=
  varint_bytes (frame_type f) ++ varint_bytes (MkVarInt (len payload)) ++ payload.
Definition payload_ok `{Platform} (payload : bytes) : Prop :=
  len payload <= usize_max /\ len payload <= into_inner VarInt.MAX.
Lemma payload_ok_varint `{Platform} p : payload_ok p -> varint_ok (MkVarInt (len p)).
Proof. intros [_ ?]. split; cbn [into_inner]; [apply len_nonneg|done]. Qed.
#[export] Hint Resolve payload_ok_varint : wt.

(** The first steps of an iteration on well-formed bytes. *)
Lemma read_loop_frame `{Platform} fuel f payload rest :
  varint_ok (frame_type f) -> payload_ok payload ->
  Frame.read_loop (S fuel) (frame_bytes f payload ++ rest) =
    if Frame.is_grease f then Frame.read_loop fuel rest
    else (Ok (f, len payload), payload ++ rest).
Proof.
  intros Hf Hp. cbn [Frame.read_loop]. unfold frame_bytes. rewrite <- !app_assoc.
  mstep (frame_decode_bytes f _ Hf).
  mstep (decode_varint_bytes _ _ (payload_ok_varint _ Hp)). cbn [into_inner].
  rewrite usize_try_from_ok by apply Hp. cbn [ok_or]. rewrite bind_ret_l.
  mstep (get_remaining_slice (payload ++ rest)).
  rewrite (proj2 (Z.ltb_ge _ _)) by len_lia.
  destruct (Frame.is_grease f); [|done].
  unfold advance. rewrite (bind_Ok (a:=()) (s':=rest)); [done|].
  by mstep (copy_to_bytes_slice (len payload) payload rest eq_refl).
Qed.

(** ** The grammar of frames

    The bytes [p] are a frame: its type, the length of its payload, which the
    address space can hold, and the payload. *)
Definition frame_wire `{Platform} (p : bytes) (f : Frame) (payload : bytes) : Prop :=
  exists pt pl, p = pt ++ pl ++ payload /\ varint_wire pt (frame_type f) /\
    varint_wire pl (MkVarInt (len payload)) /\ len payload <= usize_max.
(** [l] begins with no whole frame. *)
Definition no_frame `{Platform} (l : bytes) : Prop :=
  forall p f payload rest, l = p ++ rest -> ~ frame_wire p f payload.
(** Any number of GREASE frames. *)
Inductive grease_frames `{Platform} : bytes -> Prop :=
| grease_none : grease_frames []
| grease_some p f payload l :
    frame_wire p f payload -> Frame.is_grease f = true -> grease_frames l -> grease_frames (p ++ l).

(** One iteration, in general: it stops, or it goes on with a shorter buffer. *)
Inductive read_step `{Platform} (l : bytes) : Prop :=
| read_step_err l' :
    no_frame l ->
    (forall fuel, Frame.read_loop (S fuel) l = (Err MkVarIntUnexpectedEnd, l')) -> read_step l
| read_step_frame p f payload l' :
    l = p ++ l' -> frame_wire p f payload -> Frame.is_grease f = false -> varint_ok (frame_type f) ->
    (forall fuel, Frame.read_loop (S fuel) l = (Ok (f, len payload), payload ++ l')) ->
    read_step l
| read_step_skip p f payload l' :
    l = p ++ l' -> frame_wire p f payload -> Frame.is_grease f = true -> len l' < len l ->
    (forall fuel, Frame.read_loop (S fuel) l = Frame.read_loop fuel l') -> read_step l.

Lemma decode_Err_inv l e l' : VarInt.decode l = (Err e, l') -> e = MkVarIntUnexpectedEnd.
Proof. by destruct e. Qed.

(** A frame at the beginning of [l] is the one the two varints there announce. *)
Lemma frame_wire_at `{Platform} pt t pl sz l p f payload rest :
  is_bytes (pt ++ pl ++ l) -> varint_wire pt t -> varint_wire pl sz ->
  pt ++ pl ++ l = p ++ rest -> frame_wire p f payload ->
  len payload = into_inner sz /\ l = payload ++ rest /\ len payload <= usize_max.
Proof.
  intros Hl Ht Hsz E (pt' & pl' & -> & Ht' & Hpl' & Hmax). rewrite <- !app_assoc in E.
  destruct (wire_unique _ _ _ _ _ _ Hl E Ht Ht') as [_ E2]. apply is_bytes_app in Hl as [_ Hl].
  by destruct (wire_unique _ _ _ _ _ _ Hl E2 Hsz Hpl') as [-> ->].
Qed.
Lemma no_frame_type `{Platform} l : no_varint l -> no_frame l.
Proof.
  intros Hn p f payload rest -> (pt & pl & -> & Ht & _).
  apply (Hn pt (frame_type f) (pl ++ payload ++ rest)); [by rewrite <- !app_assoc|done].
Qed.
Lemma no_frame_length `{Platform} pt t l :
  is_bytes (pt ++ l) -> varint_wire pt t -> no_varint l -> no_frame (pt ++ l).
Proof.
  intros Hl Ht Hn p f payload rest E (pt' & pl & -> & Ht' & Hpl & _). rewrite <- !app_assoc in E.
  destruct (wire_unique _ _ _ _ _ _ Hl E Ht Ht') as [_ E2]. by apply (Hn _ _ _ E2 Hpl).
Qed.

Lemma read_loop_step `{Platform} l : is_bytes l -> read_step l.
Proof.
  intros Hl. pose proof (decode_completes l Hl) as Hc.
  destruct (VarInt.decode l) as [[v|[]| |] l1] eqn:E1; cbn [fst] in Hc;
    [|apply (read_step_err l l1); [by eapply no_frame_type, decode_wire_err|];
        intros; cbn [Frame.read_loop]; unfold Frame.decode, bind; by rewrite E1
     |exfalso; apply Hc; red; auto..].
  destruct (decode_wire_inv l v l1 Hl E1) as (p1 & -> & Hw1 & Hv1 & Hp1).
  pose proof Hl as [_ Hl1]%is_bytes_app.
  assert (Ed : Frame.decode (p1 ++ l1) = (Ok (MkFrame v), l1)) by (unfold Frame.decode; by mstep E1).
  pose proof (decode_completes l1 Hl1) as Hc1.
  destruct (VarInt.decode l1) as [[sz|[]| |] l2] eqn:E2; cbn [fst] in Hc1;
    [|apply (read_step_err _ l2); [by eapply no_frame_length, decode_wire_err|];
        intros; cbn [Frame.read_loop]; mstep Ed; unfold bind; by rewrite E2
     |exfalso; apply Hc1; red; auto..].
  destruct (decode_wire_inv l1 sz l2 Hl1 E2) as (p2 & -> & Hw2 & Hv2 & Hp2).
  pose proof (fun p f payload rest => frame_wire_at p1 v p2 sz l2 p f payload rest Hl Hw1 Hw2) as Hat.
  destruct (usize_try_from (into_inner sz)) as [n|] eqn:En.
  2: { apply (read_step_err _ l2); [|intros; cbn [Frame.read_loop]; mstep Ed; mstep E2; by rewrite En].
       intros p f payload rest E Hf. destruct (Hat p f payload rest E Hf) as (Hs & _ & Hmax).
       rewrite <- Hs, usize_try_from_ok in En by done. done. }
  pose proof (usize_try_from_Some _ _ En) as [-> Hmax].
  destruct (Z.ltb_spec (len l2) (into_inner sz)) as [Hs|Hs].
  { apply (read_step_err _ l2).
    - intros p f payload rest E Hf. destruct (Hat p f payload rest E Hf) as (Hs' & -> & _).
      rewrite len_app in Hs. pose_len. lia.
    - intros; cbn [Frame.read_loop]. mstep Ed. mstep E2. rewrite En.
      cbn [ok_or]. rewrite bind_ret_l. mstep (get_remaining_slice l2).
      by rewrite (proj2 (Z.ltb_lt _ _)) by lia. }
  assert (Hsz : 0 <= into_inner sz <= len l2) by (destruct Hv2; lia).
  destruct (split_at _ l2 Hsz) as (payload & l3 & -> & Hpay).
  assert (Hw : frame_wire (p1 ++ p2 ++ payload) (MkFrame v) payload).
  { exists p1, p2. rewrite <- Hpay in Hmax. split_and!; [done|done| |done]. rewrite Hpay. by destruct sz. }
  assert (Eapp : p1 ++ p2 ++ payload ++ l3 = (p1 ++ p2 ++ payload) ++ l3) by by rewrite <- !app_assoc.
  assert (Eloop : forall fuel, Frame.read_loop (S fuel) (p1 ++ p2 ++ payload ++ l3) =
    if Frame.is_grease (MkFrame v) then (advance (into_inner sz) ;;; Frame.read_loop fuel) (payload ++ l3)
    else (Ok (MkFrame v, into_inner sz), payload ++ l3)).
  { intros. cbn [Frame.read_loop]. mstep Ed. mstep E2. rewrite En. cbn [ok_or].
    rewrite bind_ret_l. mstep (get_remaining_slice (payload ++ l3)).
    rewrite (proj2 (Z.ltb_ge _ _)) by len_lia. by destruct (Frame.is_grease _). }
  destruct (Frame.is_grease (MkFrame v)) eqn:Eg.
  - apply (read_step_skip _ (p1 ++ p2 ++ payload) (MkFrame v) payload l3); [done..|len_lia|].
    intros. rewrite Eloop. unfold advance.
    rewrite (bind_Ok (a:=()) (s':=l3)); [done|].
    by mstep (copy_to_bytes_slice (into_inner sz) payload l3 (eq_sym Hpay)).
  - apply (read_step_frame _ (p1 ++ p2 ++ payload) (MkFrame v) payload l3); try done. by rewrite Hpay.
Qed.

Lemma suffix_is_bytes (l' l : bytes) : l' `suffix_of` l -> is_bytes l -> is_bytes l'.
Proof. intros [k ->] Hl. by apply is_bytes_app in Hl as [_ ?]. Qed.

(** Any two amounts of fuel above the length give the same result. *)
Lemma read_loop_fuel `{Platform} n1 : forall n2 l,
  is_bytes l -> len l < Z.of_nat n1 -> len l < Z.of_nat n2 ->
  Frame.read_loop n1 l = Frame.read_loop n2 l.
Proof.
  induction n1 as [|n1 IH]; intros n2 l Hl H1 H2; [pose_len; lia|].
  destruct n2 as [|n2]; [pose_len; lia|].
  destruct (read_loop_step l Hl) as [l' ? E|? f p l' ? ? ? ? E|? ? ? l' Hsuf ? ? Hlt E]; rewrite !E; try done.
  apply IH; [subst l; by apply is_bytes_app in Hl as [_ ?]|lia|lia].
Qed.

Lemma read_unfold `{Platform} n l :
  is_bytes l -> len l < Z.of_nat n -> Frame.read l = Frame.read_loop n l.
Proof.
  intros Hl Hn. unfold Frame.read. mstep (get_remaining_slice l).
  apply read_loop_fuel; [done| |lia]. pose_len. lia.
Qed.

(** Every outcome of [Frame::read], with what it leaves in the buffer: it finds
    the first frame that is not GREASE, or no whole frame after the GREASE ones. *)
Lemma read_wire `{Platform} l :
  is_bytes l ->
  (exists gs tail l', l = gs ++ tail /\ grease_frames gs /\ no_frame tail /\
     Frame.read l = (Err MkVarIntUnexpectedEnd, l')) \/
  (exists gs p f payload rest,
     l = gs ++ p ++ rest /\ grease_frames gs /\ frame_wire p f payload /\
     Frame.is_grease f = false /\ varint_ok (frame_type f) /\
     Frame.read l = (Ok (f, len payload), payload ++ rest)).
Proof.
  intros Hl. pose proof (len_nonneg l).
  rewrite (read_unfold (S (Z.to_nat (len l)))) by (done || lia).
  remember (S (Z.to_nat (len l))) as n eqn:Hn. assert (Hlt : len l < Z.of_nat n) by lia. clear Hn.
  revert l Hl H0 Hlt. induction n as [|n IH]; intros l Hl Hl0 Hlt; [lia|].
  destruct (read_loop_step l Hl) as [l' Hno E|p f payload l' -> Hw Hg Hv E|p f payload l' -> Hw Hg Hlen E]; rewrite E.
  - left. exists [], l, l'. by split_and!; [|constructor| |].
  - right. exists [], p, f, payload, l'. by split_and!; [|constructor| | | |].
  - apply is_bytes_app in Hl as [_ Hl']. pose proof (len_nonneg l').
    destruct (IH l' Hl' ltac:(done) ltac:(lia))
      as [(gs & tail & l1 & -> & Hgs & ?)|(gs & p' & f' & payload' & rest & -> & Hgs & ?)]; [left|right].
    + exists (p ++ gs), tail, l1. split; [by rewrite <- app_assoc|]. split; [by econstructor|done].
    + exists (p ++ gs), p', f', payload', rest. split; [by rewrite <- app_assoc|]. split; [by econstructor|done].
Qed.

Lemma read_cases `{Platform} l :
  is_bytes l ->
  (exists l', Frame.read l = (Err MkVarIntUnexpectedEnd, l')) \/
  (exists f payload rest,
     Frame.read l = (Ok (f, len payload), payload ++ rest) /\
     Frame.is_grease f = false /\ varint_ok (frame_type f) /\
     payload ++ rest `suffix_of` l).
Proof.
  intros Hl. destruct (read_wire l Hl) as [(_ & _ & l' & _ & _ & _ & E)|(gs & p & f & payload & rest & -> & _ & Hw & ? & ? & E)].
  - left. by exists l'.
  - right. exists f, payload, rest. split_and!; try done. destruct Hw as (pt & pl & -> & _).
    exists (gs ++ pt ++ pl). by rewrite <- !app_assoc.
Qed.

(** GREASE frames are skipped, whatever their number. *)
Definition frames_bytes (fs : list (Frame * bytes)) : bytes :=
  concat (map (fun fp => frame_bytes (fst fp) (snd fp)) fs).
Definition grease_frame `{Platform} (fp : Frame * bytes) : Prop :=
  varint_ok (frame_type (fst fp)) /\ payload_ok (snd fp) /\
  is_bytes (snd fp) /\ Frame.is_grease (fst fp) = true.

Lemma frame_bytes_is_bytes `{Platform} f p :
  varint_ok (frame_type f) -> payload_ok p -> is_bytes p -> is_bytes (frame_bytes f p).
Proof. intros. unfold frame_bytes. rewrite !is_bytes_app. split_and!; eauto with wt. Qed.

Lemma read_after_grease `{Platform} gs f payload rest :
  Forall grease_frame gs ->
  varint_ok (frame_type f) -> payload_ok payload -> Frame.is_grease f = false ->
  is_bytes payload -> is_bytes rest ->
  Frame.read (frames_bytes gs ++ frame_bytes f payload ++ rest)
  = (Ok (f, len payload), payload ++ rest).
Proof.
  intros Hgs Hf Hp Hng Hpb Hr.
  assert (Hfb : is_bytes (frame_bytes f payload ++ rest)).
  { apply is_bytes_app. split; [by apply frame_bytes_is_bytes|done]. }
  set (tail := frame_bytes f payload ++ rest) in *.
  assert (Ht : forall n, Frame.read_loop (S n) tail = (Ok (f, len payload), payload ++ rest)).
  { intros. unfold tail. rewrite read_loop_frame by done. by rewrite Hng. }
  clearbody tail. revert tail Hfb Ht.
  induction Hgs as [|[g gp] gs (Hg1 & Hg2 & Hg3 & Hg4) Hgs IH]; intros.
  - cbn. pose proof (len_nonneg tail).
    by rewrite (read_unfold (S (Z.to_nat (len tail)))) by (done || lia).
  - assert (Hgsb : is_bytes (frames_bytes gs)).
    { clear -Hgs. unfold frames_bytes. induction Hgs as [|[? ?] ? (? & ? & ? & ?)]; cbn; [constructor|].
      apply is_bytes_app. split; [by apply frame_bytes_is_bytes|done]. }
    cbn [fst snd] in *. unfold frames_bytes; cbn [map concat fst snd]; fold (frames_bytes gs).
    rewrite <- app_assoc.
    assert (Hall : is_bytes (frames_bytes gs ++ tail)) by by apply is_bytes_app.
    assert (Hfull : is_bytes (frame_bytes g gp ++ frames_bytes gs ++ tail)).
    { apply is_bytes_app. split; [by apply frame_bytes_is_bytes|done]. }
    set (l := frames_bytes gs ++ tail) in *.
    assert (Hlt : len l < len (frame_bytes g gp ++ l)).
    { unfold frame_bytes. rewrite !len_app. pose_len.
      pose proof (len_varint_bytes _ Hg1) as HH. repeat case_match; lia. }
    pose proof (len_nonneg l).
    rewrite (read_unfold (S (Z.to_nat (len (frame_bytes g gp ++ l))))) by (done || lia).
    assert (Hn : len l < Z.of_nat (Z.to_nat (len (frame_bytes g gp ++ l)))) by lia.
    generalize dependent (Z.to_nat (len (frame_bytes g gp ++ l))). intros n Hn.
    rewrite read_loop_frame, Hg4 by done.
    rewrite <- (read_unfold n l) by done. by apply IH.
Qed.

(** Frame types that the crate knows are not GREASE values. *)
Lemma known_frames_not_grease :
  Forall (fun f => Frame.is_grease f = false) [Frame.DATA; Frame.HEADERS; Frame.SETTINGS; Frame.WEBTRANSPORT].
Proof. repeat constructor. Qed.

(** ** Reading a frame off a stream

    The loop that [Settings::read] and [connect::read_frame] share: read a type
    and a length, refuse a frame longer than [max_size], read the payload, go on
    after a GREASE frame, and hand any other one to [finish]. *)
Section BoundedRead.
Context `{Platform} {E A : Type} (max_size : Z) (unexpected_end message_too_long : E)
  (io : io_error -> E) (finish : Frame -> Z -> bytes -> outcome E A).

Fixpoint bounded_read_loop {S} `{AsyncRead S} (fuel : nat) : M S E A :=
  match fuel with
  | O => out_of_fuel
  | Datatypes.S fuel =>
      let* typ := map_err (fun _ => unexpected_end) VarInt.read in
      let* length := map_err (fun _ => unexpected_end) VarInt.read in
      let* length := ok_or message_too_long (usize_try_from (into_inner length)) in
      if max_size <? length then throw message_too_long else
      let* payload := map_err io (read_exact length) in
      let typ := MkFrame typ in
      if Frame.is_grease typ then bounded_read_loop fuel
      else lift (finish typ length payload)
  end.

(** The ways a stream may fall short of a frame. *)
Definition short_error (e : io_error) (x : E) : Prop :=
  x = unexpected_end \/ x = io e \/ x = message_too_long.

(** It follows [Frame::read] on the bytes of the stream. *)
Lemma bounded_read_loop_spec fuel e : forall l,
  is_bytes l -> len l < Z.of_nat fuel ->
  (exists x s, bounded_read_loop fuel (MkIncoming l e) = (Err x, s) /\ short_error e x /\
     (len l <= max_size -> exists l', Frame.read_loop fuel l = (Err MkVarIntUnexpectedEnd, l'))) \/
  (exists f payload rest,
     Frame.read_loop fuel l = (Ok (f, len payload), payload ++ rest) /\ is_bytes payload /\
     varint_ok (frame_type f) /\ Frame.is_grease f = false /\ len payload <= max_size /\ payload_ok payload /\
     bounded_read_loop fuel (MkIncoming l e) = (finish f (len payload) payload, MkIncoming rest e)).
Proof.
  unfold short_error. induction fuel as [|fuel IH]; intros l Hl Hfuel; [pose_len; lia|].
  cbn [bounded_read_loop Frame.read_loop]. unfold Frame.decode.
  destruct (decode_split l Hl) as [(l' & E1 & Er)|(t & p1 & l1 & -> & E1 & Ht & Hp1 & Hl1 & Er1)].
  { left. eexists _, _. split; [by mstep (Er e)|]. split; [auto|].
    intros. exists l'. unfold bind. by rewrite E1. }
  assert (Ef : bind VarInt.decode (fun typ => ret (MkFrame typ)) (p1 ++ l1) = (Ok (MkFrame t), l1))
    by by mstep E1.
  destruct (decode_split l1 Hl1) as [(l' & E2 & Er)|(sz & p2 & l2 & -> & E2 & Hsz & Hp2 & Hl2 & Er2)].
  { left. eexists _, _. split; [mstep (Er1 e); by mstep (Er e)|]. split; [auto|].
    intros. exists l'. mstep Ef. by mstep E2. }
  mstep Ef. mstep E2. mstep (Er1 e). mstep (Er2 e). rewrite !len_app in *. pose_len.
  destruct (usize_try_from (into_inner sz)) as [n|] eqn:En;
    [|left; eexists _, _; split; [done|]; split; [auto|]; intros; by exists l2].
  apply usize_try_from_Some in En as [-> Hmax]. cbn [ok_or]. rewrite !bind_ret_l.
  mstep (get_remaining_slice l2).
  destruct (Z.ltb_spec max_size (into_inner sz)) as [Hbig|Hbig].
  { left. eexists _, _. split; [done|]. split; [auto|]. intros. exists l2.
    by rewrite (proj2 (Z.ltb_lt _ _)) by lia. }
  destruct (Z.ltb_spec (len l2) (into_inner sz)) as [Hs|Hs].
  { left. eexists _, _. split; [by mstep (read_exact_short (into_inner sz) (MkIncoming l2 e) Hs)|].
    split; [auto|]. intros. by exists l2. }
  assert (Hz : 0 <= into_inner sz <= len l2) by (destruct Hsz; lia).
  destruct (split_at _ l2 Hz) as (payload & rest & -> & Hpay).
  mstep (read_exact_incoming (into_inner sz) payload rest e (eq_sym Hpay)). cbv zeta.
  apply is_bytes_app in Hl2 as [Hpb Hrest]. rewrite len_app in *. pose_len.
  destruct (Frame.is_grease (MkFrame t)) eqn:Hg.
  - assert (Ea : advance (E:=VarIntUnexpectedEnd) (into_inner sz) (payload ++ rest) = (Ok (), rest)).
    { unfold advance. by mstep (copy_to_bytes_slice (E:=VarIntUnexpectedEnd) (into_inner sz) payload rest (eq_sym Hpay)). }
    mstep Ea. destruct (IH rest Hrest ltac:(lia)) as [(x & s & ? & ? & Hx)|?]; [left|right; done].
    exists x, s. split_and!; try done. intros. apply Hx. lia.
  - right. exists (MkFrame t), payload, rest. rewrite Hpay. split_and!; try done.
    split; destruct Hsz; lia.
Qed.

Lemma bounded_read_frame fuel f payload rest e :
  varint_ok (frame_type f) -> payload_ok payload -> len payload <= max_size ->
  is_bytes payload -> is_bytes rest ->
  bounded_read_loop (S fuel) (MkIncoming (frame_bytes f payload ++ rest) e) =
    if Frame.is_grease f then bounded_read_loop fuel (MkIncoming rest e)
    else (finish f (len payload) payload, MkIncoming rest e).
Proof.
  intros Hf Hp Hmax Hpb Hr. cbn [bounded_read_loop]. unfold frame_bytes. rewrite <- !app_assoc.
  pose proof (payload_ok_varint payload Hp) as Hv.
  assert (Hpr : is_bytes (payload ++ rest)) by by apply is_bytes_app.
  mstep (read_varint_bytes (frame_type f) (varint_bytes (MkVarInt (len payload)) ++ payload ++ rest) e Hf
    ltac:(apply is_bytes_app; eauto with wt)).
  mstep (read_varint_bytes (MkVarInt (len payload)) (payload ++ rest) e Hv Hpr). cbn [into_inner].
  rewrite usize_try_from_ok by apply Hp. cbn [ok_or]. rewrite bind_ret_l.
  rewrite (proj2 (Z.ltb_ge _ _)) by lia.
  mstep (read_exact_incoming (len payload) payload rest e eq_refl). cbv zeta. destruct f as [t].
  by destruct (Frame.is_grease _).
Qed.
Lemma bounded_read_frames gs fuel f payload rest e :
  Forall (fun fp => grease_frame fp /\ len fp.2 <= max_size) gs ->
  varint_ok (frame_type f) -> payload_ok payload -> len payload <= max_size -> Frame.is_grease f = false ->
  is_bytes payload -> is_bytes rest -> (length gs < fuel)%nat ->
  bounded_read_loop fuel (MkIncoming (frames_bytes gs ++ frame_bytes f payload ++ rest) e)
  = (finish f (len payload) payload, MkIncoming rest e).
Proof.
  intros Hgs Hf Hp Hmax Hng Hpb Hr. revert fuel.
  assert (Htail : is_bytes (frame_bytes f payload ++ rest)).
  { apply is_bytes_app. split; [by apply frame_bytes_is_bytes|done]. }
  induction Hgs as [|[g gp] gs [(Hg1 & Hg2 & Hg3 & Hg4) Hgm] Hgs IH]; intros fuel Hlt; destruct fuel as [|fuel];
    cbn [length] in Hlt; try lia.
  - unfold frames_bytes. cbn [map concat app]. rewrite bounded_read_frame by done. by rewrite Hng.
  - unfold frames_bytes. cbn [map concat fst snd] in *. fold (frames_bytes gs).
    rewrite <- app_assoc, bounded_read_frame, Hg4; try done; [apply IH; lia|].
    apply is_bytes_app. split; [|done]. clear -Hgs. unfold frames_bytes.
    induction Hgs as [|[? ?] ? [(? & ? & ? & ?) _] ? IH]; cbn; [constructor|].
    apply is_bytes_app. split; [by apply frame_bytes_is_bytes|exact IH].
Qed.
End BoundedRead.

(** ** Properties *)

(** [Frame::read] steps over any number of GREASE frames, each with a payload
    of any content, and stops at the payload of the first frame that is not one,
    with its type and its size, whatever follows.  And on every byte string it
    returns without a panic: it reports an unexpected end, or a frame that is not
    GREASE whose announced payload is entirely there, as a suffix of the input. *)
Theorem frame_read_skips_grease `{Platform} gs f payload rest l
  (Hgs : Forall grease_frame gs) (Hf : varint_ok (frame_type f))
  (Hp : payload_ok payload) (Hng : Frame.is_grease f = false)
  (Hpb : is_bytes payload) (Hr : is_bytes rest) (Hl : is_bytes l) :
  Frame.read (frames_bytes gs ++ frame_bytes f payload ++ rest)
  = (Ok (f, len payload), payload ++ rest) /\
  ((exists l', Frame.read l = (Err MkVarIntUnexpectedEnd, l')) \/
   (exists f payload rest,
      Frame.read l = (Ok (f, len payload), payload ++ rest) /\
      Frame.is_grease f = false /\ varint_ok (frame_type f) /\
      payload ++ rest `suffix_of` l)).
Proof. split; [by apply read_after_grease|by apply read_cases]. Qed.
Lemma frame_read_skips_grease_witness :
  Frame.read (H0:=slice_buf) (H:=Platform64)
    (frames_bytes [(MkFrame (MkVarInt 0x21), [7; 8]); (MkFrame (MkVarInt 0x40), [])]
     ++ frame_bytes Frame.HEADERS [1; 2; 3] ++ [9])
  = (Ok (Frame.HEADERS, 3), [1; 2; 3; 9]).
Proof.
  assert (Hb : is_bytes [0x21; 0; 1; 5; 6]) by (repeat constructor; unfold is_u; lia).
  refine (proj1 (frame_read_skips_grease (H:=Platform64)
    [(MkFrame (MkVarInt 0x21), [7; 8]); (MkFrame (MkVarInt 0x40), [])] Frame.HEADERS [1; 2; 3] [9] _ _ _ _ _ _ _ Hb));
    repeat (constructor || split); unfold is_u; try lia; try done; vm_compute; discriminate.
Defined.
