(* ===== verification/Settings.v ===== *)
(** * HTTP/3 SETTINGS (webtrans-proto/src/settings.rs) *)
From S2P Require Import Prelude Buf Varint Frame.

Definition MAX_SETTINGS_FRAME_SIZE : Z := 16 * 1024.

(** [pub struct Setting(pub VarInt)] *)
Record Setting := MkSetting { setting_id : VarInt }.
#[export] Instance Setting_eq_dec : EqDecision Setting.
Proof. solve_decision. Defined.
#[export] Instance Setting_countable : Countable Setting :=
  inj_countable' setting_id MkSetting (fun '(MkSetting x) => eq_refl).

Module Setting.
Definition decode {B} `{Buf B} : M B VarIntUnexpectedEnd Setting :=
  let* id := VarInt.decode in ret (MkSetting id).
Definition encode {W E} `{BufMut W} (s : Setting) : M W E unit := VarInt.encode (setting_id s).
Definition size (s : Setting) : outcome Empty_set Z := VarInt.size (setting_id s).
Definition is_grease (s : Setting) : bool := is_grease_value (into_inner (setting_id s)).
Definition from_u32 (value : Z) : Setting := MkSetting (VarInt.from_u32 value).

Definition QPACK_MAX_TABLE_CAPACITY : Setting := from_u32 0x1.
Definition MAX_FIELD_SECTION_SIZE : Setting := from_u32 0x6.
Definition QPACK_BLOCKED_STREAMS : Setting := from_u32 0x7.
Definition ENABLE_CONNECT_PROTOCOL : Setting := from_u32 0x8.
Definition ENABLE_DATAGRAM : Setting := from_u32 0x33.
Definition ENABLE_DATAGRAM_DEPRECATED : Setting := from_u32 0xFFD277.
Definition WEBTRANSPORT_ENABLE_DEPRECATED : Setting := from_u32 0x2b603742.
Definition WEBTRANSPORT_MAX_SESSIONS_DEPRECATED : Setting := from_u32 0x2b603743.
Definition WEBTRANSPORT_MAX_SESSIONS : Setting := from_u32 0xc671706a.
Definition WT_ENABLED : Setting := from_u32 0x2c7cf000.

(** The settings whose value must be 0 or 1. *)
Definition is_boolean (id : Setting) : bool :=
  bool_decide (id = ENABLE_CONNECT_PROTOCOL \/ id = ENABLE_DATAGRAM \/
               id = ENABLE_DATAGRAM_DEPRECATED \/ id = WEBTRANSPORT_ENABLE_DEPRECATED \/
               id = WT_ENABLED).
End Setting.

Inductive SettingsError :=
| SEUnexpectedEnd
| SEUnexpectedStreamType (typ : UniStream)
| SEUnexpectedFrame (typ : Frame)
| SEInvalidSize
| SEDuplicateSetting (id : Setting)
| SEInvalidValue (id : Setting) (value : VarInt)
| SEMessageTooLong
| SEIo (e : io_error).

(** [pub struct Settings(HashMap<Setting, VarInt>)] *)
Abbreviation Settings := (gmap Setting VarInt).

Module Settings.

(** The [while data.has_remaining()] loop. *)
Fixpoint decode_loop {B} `{Buf B} (fuel : nat) (settings : Settings) : M B SettingsError Settings :=
  match fuel with
  | O => out_of_fuel
  | S fuel =>
      let* r := get_remaining in
      if negb (0 <? r) then ret settings
      else
        let* id := map_err (fun _ => SEInvalidSize) Setting.decode in
        let* value := map_err (fun _ => SEInvalidSize) VarInt.decode in
        if negb (Setting.is_grease id) then
          if bool_decide (is_Some (settings !! id)) then throw (SEDuplicateSetting id)
          else if Setting.is_boolean id && (1 <? into_inner value)
          then throw (SEInvalidValue id value)
          else decode_loop fuel (<[id := value]> settings)
        else decode_loop fuel settings
  end.
Definition decode_payload {B} `{Buf B} : M B SettingsError Settings :=
  let* r := get_remaining in decode_loop (S (Z.to_nat r)) ∅.

Definition decode `{Platform} {B T} `{Buf B} `{TakeBuf B T} `{Buf T} : M B SettingsError Settings :=
  let* typ := map_err (fun _ => SEUnexpectedEnd) UniStream.decode in
  if negb (bool_decide (typ = UniStream.CONTROL)) then throw (SEUnexpectedStreamType typ) else
  let* (typ, size) := map_err (fun _ => SEUnexpectedEnd) Frame.read in
  if negb (bool_decide (typ = Frame.SETTINGS)) then throw (SEUnexpectedFrame typ) else
  with_take (T:=T) size decode_payload.

(** [VarInt::try_from(length).map_err(|_| err)?.encode(buf)] *)
Definition encode_len {W E} `{BufMut W} (err : E) (length : Z) : M W E unit :=
  let* v := map_err (fun _ => err) (lift (VarInt.try_from_usize length)) in VarInt.encode v.

(** The frame rebuilt in memory before it is decoded. *)
Definition rebuild (stream_type : UniStream) (typ : Frame) (length : Z) (payload : bytes)
  : M bytes SettingsError unit :=
  UniStream.encode stream_type ;;;
  Frame.encode typ ;;;
  encode_len SEMessageTooLong length ;;;
  put_slice payload.

(** What is done with a frame that is not GREASE. *)
Definition finish_frame `{Platform} (stream_type : UniStream) (typ : Frame) (length : Z) (payload : bytes)
  : outcome SettingsError Settings :=
  let '(r, frame) := rebuild stream_type typ length payload [] in
  let? _ := r in
  fst (decode (T:=Take bytes) frame).
Definition read_loop `{Platform} {S} `{AsyncRead S} (fuel : nat) (stream_type : UniStream)
  : M S SettingsError Settings :=
  bounded_read_loop MAX_SETTINGS_FRAME_SIZE SEUnexpectedEnd SEMessageTooLong SEIo
    (finish_frame stream_type) fuel.
Definition read `{Platform} {S} `{AsyncRead S} (fuel : nat) : M S SettingsError Settings :=
  let* stream_type := map_err (fun _ => SEUnexpectedEnd) VarInt.read in
  let stream_type := MkUniStream stream_type in
  if negb (bool_decide (stream_type = UniStream.CONTROL))
  then throw (SEUnexpectedStreamType stream_type)
  else read_loop fuel stream_type.

Definition entry_len `{Platform} (kv : Setting * VarInt) : outcome Empty_set Z :=
  let? a := Setting.size kv.1 in let? b := VarInt.size kv.2 in usize_add a b.
Definition payload_len `{Platform} `{!HashMapIter Setting VarInt} (s : Settings) : outcome Empty_set Z :=
  fold_left (fun acc kv => let? acc := acc in let? n := entry_len kv in usize_add acc n)
    (hm_iter s) (Ok 0).

Fixpoint encode_entries {W E} `{BufMut W} (kvs : list (Setting * VarInt)) : M W E unit :=
  match kvs with
  | [] => ret ()
  | (id, value) :: kvs =>
      Setting.encode id ;;; VarInt.encode value ;;; encode_entries kvs
  end.

(** [.expect(..)] of the conversion *)
Definition expect_varint {E} (o : outcome VarIntBoundsExceeded VarInt) : outcome E VarInt :=
  match o with Ok v => Ok v | OutOfFuel => OutOfFuel | _ => Panic end.

Definition encode `{Platform} {W E} `{BufMut W} `{!HashMapIter Setting VarInt} (s : Settings) : M W E unit :=
  UniStream.encode UniStream.CONTROL ;;;
  Frame.encode Frame.SETTINGS ;;;
  let* payload_len := lift (never (payload_len s)) in
  let* v := lift (expect_varint (VarInt.try_from_u64 payload_len)) in
  VarInt.encode v ;;;
  encode_entries (hm_iter s).

Definition encoded_len `{Platform} `{!HashMapIter Setting VarInt} (s : Settings) : outcome Empty_set Z :=
  let? payload_len := payload_len s in
  let? a := VarInt.size (stream_type UniStream.CONTROL) in
  let? b := VarInt.size (frame_type Frame.SETTINGS) in
  let? v := expect_varint (VarInt.try_from_u64 payload_len) in
  let? c := VarInt.size v in
  let? n := usize_add a b in
  let? n := usize_add n c in
  usize_add n payload_len.

Definition write `{Platform} {S} `{AsyncWrite S} `{!HashMapIter Setting VarInt} (s : Settings)
  : M S SettingsError unit :=
  lift (never (encoded_len s)) ;;;
  let '(r, buf) := encode (E:=SettingsError) s ([] : bytes) in
  lift r ;;;
  map_err SEIo (write_all buf).

Definition enable_webtransport_internal (max_sessions : Z) (include_deprecated : bool) (s : Settings) : Settings :=
  let max := VarInt.from_u32 max_sessions in
  let s := <[Setting.ENABLE_CONNECT_PROTOCOL := VarInt.from_u32 1]> s in
  let s := <[Setting.ENABLE_DATAGRAM := VarInt.from_u32 1]> s in
  let s := <[Setting.ENABLE_DATAGRAM_DEPRECATED := VarInt.from_u32 1]> s in
  let s := <[Setting.WT_ENABLED := VarInt.from_u32 1]> s in
  let s := <[Setting.WEBTRANSPORT_MAX_SESSIONS := max]> s in
  if include_deprecated then
    let s := <[Setting.WEBTRANSPORT_MAX_SESSIONS_DEPRECATED := max]> s in
    <[Setting.WEBTRANSPORT_ENABLE_DEPRECATED := VarInt.from_u32 1]> s
  else
    delete Setting.WEBTRANSPORT_ENABLE_DEPRECATED
      (delete Setting.WEBTRANSPORT_MAX_SESSIONS_DEPRECATED s).
Definition enable_webtransport (max_sessions : Z) : Settings -> Settings :=
  enable_webtransport_internal max_sessions true.
Definition enable_webtransport_latest (max_sessions : Z) : Settings -> Settings :=
  enable_webtransport_internal max_sessions false.

(** [self.get(&id).map(|v| v.into_inner())] *)
Definition get (id : Setting) (s : Settings) : option Z := into_inner <$> s !! id.

Definition supports_webtransport (s : Settings) : Z :=
  if bool_decide (get Setting.WT_ENABLED s = Some 1)
     && bool_decide (get Setting.ENABLE_DATAGRAM s = Some 1) then 1
  else
    let datagram :=
      match get Setting.ENABLE_DATAGRAM s with
      | Some v => Some v
      | None => get Setting.ENABLE_DATAGRAM_DEPRECATED s
      end in
    if negb (bool_decide (datagram = Some 1)) then 0
    else
      match get Setting.WEBTRANSPORT_MAX_SESSIONS s with
      | Some max => max
      | None =>
          if negb (bool_decide (get Setting.WEBTRANSPORT_ENABLE_DEPRECATED s = Some 1)) then 0
          else default 1 (get Setting.WEBTRANSPORT_MAX_SESSIONS_DEPRECATED s)
      end.

Definition supports_webtransport_server (s : Settings) : bool :=
  (bool_decide (get Setting.WT_ENABLED s = Some 1)
   && bool_decide (get Setting.ENABLE_CONNECT_PROTOCOL s = Some 1)
   && bool_decide (get Setting.ENABLE_DATAGRAM s = Some 1))
  || ((0 <? supports_webtransport s) && bool_decide (get Setting.WT_ENABLED s = None)).

Definition supports_webtransport_client (s : Settings) : bool :=
  (bool_decide (get Setting.WT_ENABLED s = Some 1)
   && bool_decide (get Setting.ENABLE_DATAGRAM s = Some 1))
  || ((0 <? supports_webtransport s) && bool_decide (get Setting.WT_ENABLED s = None)).
End Settings.

(** ** Simulation *)
Lemma setting_decode_sim `{BufSim B1 B2 R} : simM R Setting.decode Setting.decode.
Proof. unfold Setting.decode. solve_sim. Qed.
#[export] Hint Resolve setting_decode_sim : sim.
Lemma settings_decode_loop_sim `{BufSim B1 B2 R} fuel : forall s,
  simM R (Settings.decode_loop fuel s) (Settings.decode_loop fuel s).
Proof. induction fuel; intros; cbn [Settings.decode_loop]; solve_sim. Qed.
#[export] Hint Resolve settings_decode_loop_sim : sim.
Lemma settings_decode_payload_sim `{BufSim B1 B2 R} :
  simM R Settings.decode_payload Settings.decode_payload.
Proof. unfold Settings.decode_payload. solve_sim. Qed.
#[export] Hint Resolve settings_decode_payload_sim : sim.

(** ** Well-formed maps, and their entries on the wire *)
Definition value_ok (id : Setting) (v : VarInt) : Prop :=
  varint_ok (setting_id id) /\ varint_ok v /\
  (Setting.is_boolean id = true -> into_inner v <= 1).
Definition settings_wf (m : Settings) : Prop :=
  map_Forall (fun id v => value_ok id v /\ Setting.is_grease id = false) m.

Definition entry_bytes (kv : Setting * VarInt) : bytes :=
  varint_bytes (setting_id kv.1) ++ varint_bytes kv.2.
Definition entries_bytes (kvs : list (Setting * VarInt)) : bytes := concat (map entry_bytes kvs).
Definition entry_ok (kv : Setting * VarInt) : Prop :=
  varint_ok (setting_id kv.1) /\ varint_ok kv.2.
(** What a decoder may keep of an entry. *)
Definition kept (kv : Setting * VarInt) : Prop := Setting.is_grease kv.1 = false.
#[export] Instance kept_dec kv : Decision (kept kv).
Proof. unfold kept. apply _. Defined.

Lemma setting_decode_bytes id rest :
  varint_ok (setting_id id) -> Setting.decode (varint_bytes (setting_id id) ++ rest) = (Ok id, rest).
Proof. intros Hid. unfold Setting.decode. mstep (decode_varint_bytes _ rest Hid). by destruct id. Qed.

Lemma entries_bytes_cons kv kvs : entries_bytes (kv :: kvs) = entry_bytes kv ++ entries_bytes kvs.
Proof. reflexivity. Qed.
Lemma len_varint_pos v : varint_ok v -> 1 <= len (varint_bytes v) <= 8.
Proof. intros Hv. rewrite len_varint_bytes by done. repeat case_match; lia. Qed.
Lemma len_entry_bytes kv : entry_ok kv -> 2 <= len (entry_bytes kv) <= 16.
Proof.
  intros [H1 H2]. unfold entry_bytes. rewrite len_app.
  pose proof (len_varint_pos _ H1). pose proof (len_varint_pos _ H2). lia.
Qed.
Lemma len_entries_bytes kvs : Forall entry_ok kvs -> 2 * len kvs <= len (entries_bytes kvs).
Proof.
  induction 1 as [|kv kvs Hkv _ IH]; [done|]. rewrite entries_bytes_cons.
  pose proof (len_entry_bytes kv Hkv). len_lia.
Qed.
Lemma entry_bytes_is_bytes kv : entry_ok kv -> is_bytes (entry_bytes kv).
Proof. intros []. apply is_bytes_app. auto with wt. Qed.
Lemma entries_bytes_is_bytes kvs : Forall entry_ok kvs -> is_bytes (entries_bytes kvs).
Proof.
  induction 1; [constructor|]. rewrite entries_bytes_cons. apply is_bytes_app.
  by split; [apply entry_bytes_is_bytes|].
Qed.

(** ** The payload loop *)
Lemma decode_loop_cons fuel m id v rest :
  varint_ok (setting_id id) -> varint_ok v ->
  Settings.decode_loop (S fuel) m (entry_bytes (id, v) ++ rest) =
    if Setting.is_grease id then Settings.decode_loop fuel m rest
    else if bool_decide (is_Some (m !! id)) then (Err (SEDuplicateSetting id), rest)
    else if Setting.is_boolean id && (1 <? into_inner v) then (Err (SEInvalidValue id v), rest)
    else Settings.decode_loop fuel (<[id := v]> m) rest.
Proof.
  intros Hid Hv. cbn [Settings.decode_loop].
  pose proof (len_entry_bytes (id, v) (conj Hid Hv)).
  mstep (get_remaining_slice (entry_bytes (id, v) ++ rest)).
  rewrite (proj2 (Z.ltb_lt 0 _)) by len_lia. cbn [negb].
  unfold entry_bytes. rewrite <- app_assoc. cbn [fst snd].
  mstep (setting_decode_bytes id _ Hid). mstep (decode_varint_bytes v rest Hv).
  destruct (Setting.is_grease id); cbn [negb]; [done|].
  by repeat case_match.
Qed.

Lemma decode_loop_entries kvs : forall fuel m,
  Forall entry_ok kvs -> (length kvs < fuel)%nat ->
  Forall (fun kv => kept kv -> value_ok kv.1 kv.2 /\ m !! kv.1 = None) kvs ->
  NoDup kvs.*1 ->
  Settings.decode_loop fuel m (entries_bytes kvs)
  = (Ok (list_to_map (filter kept kvs) ∪ m), []).
Proof.
  induction kvs as [|[id v] kvs IH]; intros fuel m Hok Hfuel Hkeep Hnd;
    (destruct fuel as [|fuel]; [cbn in Hfuel; lia|]).
  - cbn. by rewrite (left_id_L ∅ (∪)).
  - inversion Hok as [|? ? [Hid Hv] Hok']; subst. inversion Hkeep as [|? ? Hk Hkeep']; subst.
    cbn [fmap list_fmap fst] in Hnd. apply NoDup_cons in Hnd as [Hni Hnd]. cbn [fst snd length] in *.
    rewrite entries_bytes_cons, decode_loop_cons by done.
    rewrite filter_cons. destruct (Setting.is_grease id) eqn:Hg.
    { rewrite decide_False by (unfold kept; cbn; congruence). apply IH; auto with lia. }
    rewrite decide_True by done. destruct (Hk Hg) as [(_ & _ & Hbool) Hnone].
    rewrite Hnone, bool_decide_eq_false_2 by (by intros []).
    assert ((Setting.is_boolean id && (1 <? into_inner v)) = false) as ->.
    { destruct (Setting.is_boolean id); [|done]. cbn. apply Z.ltb_ge. auto. }
    rewrite IH; auto with lia.
    + f_equal. f_equal. cbn [list_to_map foldr fst snd uncurry].
      rewrite <- insert_union_r, insert_union_l; [done|].
      apply not_elem_of_list_to_map. intros Hin. apply Hni.
      apply list_elem_of_fmap in Hin as (kv & -> & Hin). apply list_elem_of_fmap. exists kv.
      by apply list_elem_of_filter in Hin as [_ ?].
    + apply Forall_forall. intros kv Hin Hkp.
      rewrite Forall_forall in Hkeep'. destruct (Hkeep' kv Hin Hkp) as [? ?]. split; [done|].
      rewrite lookup_insert_ne; [done|]. intros ->. apply Hni. apply list_elem_of_fmap. eauto.
Qed.

(** ** The grammar of the payload

    Entries one after the other, each an identifier and a value. *)
Definition setting_line (p : bytes) (kv : Setting * VarInt) : Prop :=
  exists p1 p2, p = p1 ++ p2 /\ varint_wire p1 (setting_id kv.1) /\ varint_wire p2 kv.2.
Inductive setting_lines : bytes -> list (Setting * VarInt) -> Prop :=
| settings_none : setting_lines [] []
| settings_some p kv l kvs : setting_line p kv -> setting_lines l kvs -> setting_lines (p ++ l) (kv :: kvs).
Lemma setting_lines_snoc l kvs p kv :
  setting_lines l kvs -> setting_line p kv -> setting_lines (l ++ p) (kvs ++ [kv]).
Proof.
  intros Hl Hp. induction Hl as [|q kv' l kvs Hq Hl IH].
  - cbn. rewrite <- (app_nil_r p). constructor; [done|constructor].
  - rewrite <- app_assoc. cbn. by constructor.
Qed.

(** The entries a decoder accepts: no identifier twice and booleans at most one,
    the GREASE ones aside. *)
Definition accepted (kvs : list (Setting * VarInt)) : Prop :=
  NoDup (filter kept kvs).*1 /\
  Forall (fun kv => kept kv -> Setting.is_boolean kv.1 = true -> into_inner kv.2 <= 1) kvs.
Definition settings_of (kvs : list (Setting * VarInt)) : Settings := list_to_map (filter kept kvs).
(** Why [l], behind the accepted entries [kvs], is refused. *)
Definition refused (kvs : list (Setting * VarInt)) (l : bytes) (e : SettingsError) : Prop :=
  match e with
  | SEInvalidSize => l <> [] /\ forall p kv rest, l = p ++ rest -> ~ setting_line p kv
  | SEDuplicateSetting id =>
      exists p v rest, l = p ++ rest /\ setting_line p (id, v) /\ kept (id, v) /\ (id ∈ (filter kept kvs).*1)
  | SEInvalidValue id v =>
      exists p rest, l = p ++ rest /\ setting_line p (id, v) /\ kept (id, v) /\ (id ∉ (filter kept kvs).*1) /\
        Setting.is_boolean id = true /\ 1 < into_inner v
  | _ => False
  end.
(** What the payload [l] decodes to. *)
Definition payload_result (l : bytes) (r : outcome SettingsError Settings * bytes) : Prop :=
  match r with
  | (Ok m, rest) => rest = [] /\ exists kvs, setting_lines l kvs /\ accepted kvs /\ m = settings_of kvs
  | (Err e, _) => exists l1 kvs l2, l = l1 ++ l2 /\ setting_lines l1 kvs /\ accepted kvs /\ refused kvs l2 e
  | _ => False
  end.

Lemma accepted_grease kvs kv : accepted kvs -> Setting.is_grease kv.1 = true ->
  accepted (kvs ++ [kv]) /\ settings_of (kvs ++ [kv]) = settings_of kvs.
Proof.
  intros [Hnd Hb] Hg. unfold accepted, settings_of.
  assert (filter kept (kvs ++ [kv]) = filter kept kvs) as ->.
  { rewrite filter_app, filter_cons, decide_False, filter_nil by (unfold kept; congruence). by rewrite app_nil_r. }
  split; [|done]. split; [done|]. apply Forall_app. split; [done|]. constructor; [|done]. unfold kept. congruence.
Qed.
Lemma accepted_kept kvs kv : accepted kvs -> kept kv -> kv.1 ∉ (filter kept kvs).*1 ->
  (Setting.is_boolean kv.1 = true -> into_inner kv.2 <= 1) ->
  accepted (kvs ++ [kv]) /\ settings_of (kvs ++ [kv]) = <[kv.1 := kv.2]> (settings_of kvs).
Proof.
  intros [Hnd Hb] Hk Hni Hbool. unfold accepted, settings_of.
  assert (filter kept (kvs ++ [kv]) = filter kept kvs ++ [kv]) as ->.
  { by rewrite filter_app, filter_cons, decide_True, filter_nil. }
  split; [|destruct kv; by apply list_to_map_snoc].
  split; [|apply Forall_app; split; [done|constructor; auto]].
  rewrite fmap_app. apply NoDup_app. split; [done|]. split; [|cbn; apply NoDup_singleton].
  intros x Hx Hin. apply list_elem_of_singleton in Hin as ->. done.
Qed.
Lemma settings_of_None kvs id : settings_of kvs !! id = None <-> id ∉ (filter kept kvs).*1.
Proof. unfold settings_of. split; [apply not_elem_of_list_to_map_2|apply not_elem_of_list_to_map_1]. Qed.

(** Behind no whole entry. *)
Lemma no_setting_id l p kv rest : no_varint l -> l = p ++ rest -> ~ setting_line p kv.
Proof.
  intros Hn -> (p1 & p2 & -> & H1 & _). by apply (Hn p1 (setting_id kv.1) (p2 ++ rest)); [rewrite <- app_assoc|].
Qed.
Lemma no_setting_value q id l p kv rest :
  is_bytes (q ++ l) -> varint_wire q id -> no_varint l -> q ++ l = p ++ rest -> ~ setting_line p kv.
Proof.
  intros Hl Hq Hn E (p1 & p2 & -> & H1 & H2). rewrite <- app_assoc in E.
  destruct (wire_unique _ _ _ _ _ _ Hl E Hq H1) as [_ E2]. by apply (Hn _ _ _ E2 H2).
Qed.

(** Every outcome of the loop, behind the entries [kvs] it has accepted. *)
Lemma decode_loop_result fuel : forall l0 kvs l,
  is_bytes l -> len l < Z.of_nat fuel -> setting_lines l0 kvs -> accepted kvs ->
  payload_result (l0 ++ l) (Settings.decode_loop fuel (settings_of kvs) l).
Proof.
  induction fuel as [|fuel IH]; intros l0 kvs l Hl Hfuel Hl0 Hacc; [pose_len; lia|].
  cbn [Settings.decode_loop]. mstep (get_remaining_slice l).
  destruct (Z.ltb_spec 0 (len l)); cbn [negb].
  2: { rewrite (len_zero_nil l) by done. rewrite app_nil_r. split; [done|by exists kvs]. }
  assert (Hne : l <> []) by by intros ->.
  pose proof (decode_completes l Hl) as Hc.
  destruct (VarInt.decode l) as [[id|[]| |] l1] eqn:E1; cbn [fst] in Hc; [| |exfalso; apply Hc; red; auto..].
  2: { unfold Setting.decode, bind, map_err. rewrite E1. exists l0, kvs, l. do 4 (split; [done|]).
       intros. by eapply no_setting_id; [eapply decode_wire_err|]. }
  assert (Ed : Setting.decode l = (Ok (MkSetting id), l1)) by (unfold Setting.decode; by mstep E1).
  destruct (decode_wire_inv l id l1 Hl E1) as (p1 & -> & Hw1 & Hid & Hp1). mstep Ed. pose proof Hl as [_ Hl1]%is_bytes_app.
  pose proof (decode_completes l1 Hl1) as Hc1.
  destruct (VarInt.decode l1) as [[v|[]| |] l2] eqn:E2; cbn [fst] in Hc1; [| |exfalso; apply Hc1; red; auto..].
  2: { unfold bind, map_err. rewrite E2. exists l0, kvs, (p1 ++ l1). do 4 (split; [done|]).
       intros. by eapply no_setting_value; [| |eapply decode_wire_err|]. }
  destruct (decode_wire_inv l1 v l2 Hl1 E2) as (p2 & -> & Hw2 & Hv & Hp2). mstep E2.
  apply is_bytes_app in Hl1 as [_ Hl2]. rewrite !len_app in Hfuel.
  assert (Hline : setting_line (p1 ++ p2) (MkSetting id, v)) by by exists p1, p2.
  pose proof (setting_lines_snoc _ _ _ _ Hl0 Hline) as Hnext.
  replace (l0 ++ p1 ++ p2 ++ l2) with ((l0 ++ p1 ++ p2) ++ l2) by by rewrite <- !app_assoc.
  assert (Hhere : (l0 ++ p1 ++ p2) ++ l2 = l0 ++ (p1 ++ p2) ++ l2) by by rewrite <- !app_assoc.
  destruct (Setting.is_grease (MkSetting id)) eqn:Hg; cbn [negb].
  { destruct (accepted_grease kvs (MkSetting id, v) Hacc Hg) as [Hacc' <-]. apply IH; auto. lia. }
  case_bool_decide as Hin.
  { exists l0, kvs, ((p1 ++ p2) ++ l2). split_and!; try done. exists (p1 ++ p2), v, l2. split_and!; try done.
    destruct (decide (MkSetting id ∈ (filter kept kvs).*1)) as [|Hni]; [done|].
    apply settings_of_None in Hni. rewrite Hni in Hin. by destruct Hin. }
  apply eq_None_not_Some, settings_of_None in Hin.
  destruct (Setting.is_boolean (MkSetting id) && (1 <? into_inner v)) eqn:Hb.
  { apply andb_true_iff in Hb as [Hb Hv1%Z.ltb_lt]. exists l0, kvs, ((p1 ++ p2) ++ l2). split_and!; try done.
    exists (p1 ++ p2), l2. by split_and!. }
  destruct (accepted_kept kvs (MkSetting id, v) Hacc Hg Hin) as [Hacc' Hmap].
  { cbn [fst snd]. intros Hbool. rewrite Hbool in Hb. by apply Z.ltb_ge in Hb. }
  cbn [fst snd] in Hmap. rewrite <- Hmap. apply IH; auto. lia.
Qed.

Lemma decode_payload_result l : is_bytes l -> payload_result l (Settings.decode_payload l).
Proof.
  intros Hl. unfold Settings.decode_payload. mstep (get_remaining_slice l). pose_len.
  apply (decode_loop_result _ [] [] l Hl); [lia|constructor|]. split; constructor.
Qed.
Lemma setting_lines_ok l kvs : is_bytes l -> setting_lines l kvs -> Forall entry_ok kvs.
Proof.
  intros Hb Hl. induction Hl as [|p kv l kvs (p1 & p2 & -> & H1 & H2) _ IH]; [constructor|].
  apply is_bytes_app in Hb as [[Hb1 Hb2]%is_bytes_app Hb]. constructor; [|by apply IH].
  split; [by apply (varint_wire_ok p1)|by apply (varint_wire_ok p2)].
Qed.
Lemma settings_of_wf l kvs : is_bytes l -> setting_lines l kvs -> accepted kvs -> settings_wf (settings_of kvs).
Proof.
  intros Hl Hkvs [Hnd Hb] id v Hm. apply elem_of_list_to_map in Hm; [|done]. apply list_elem_of_filter in Hm as [Hk Hin].
  pose proof (setting_lines_ok l kvs Hl Hkvs) as Hok. rewrite Forall_forall in Hok, Hb.
  destruct (Hok _ Hin). split; [|done]. do 2 (split; [done|]). intros Hbool. exact (Hb _ Hin Hk Hbool).
Qed.

(** ** Decoding from memory *)
Lemma with_take_payload (payload rest : bytes) :
  with_take (T:=Take bytes) (len payload) Settings.decode_payload (payload ++ rest)
  = (fst (Settings.decode_payload payload), snd (Settings.decode_payload payload) ++ rest).
Proof.
  apply (with_take_slice (fun B HB => @Settings.decode_payload B HB)).
  apply settings_decode_payload_sim.
Qed.

Lemma settings_decode_control `{Platform} pre l :
  VarInt.decode (pre ++ l) = (Ok (stream_type UniStream.CONTROL), l) ->
  Settings.decode (T:=Take bytes) (pre ++ l) =
    match Frame.read l with
    | (Ok (f, size), l') =>
        if bool_decide (f = Frame.SETTINGS)
        then with_take (T:=Take bytes) size Settings.decode_payload l'
        else (Err (SEUnexpectedFrame f), l')
    | (Err _, l') => (Err SEUnexpectedEnd, l')
    | (Panic, l') => (Panic, l')
    | (OutOfFuel, l') => (OutOfFuel, l')
    end.
Proof.
  intros E. unfold Settings.decode.
  assert (Ed : UniStream.decode (pre ++ l) = (Ok UniStream.CONTROL, l)).
  { unfold UniStream.decode. by mstep E. }
  mstep Ed. rewrite bool_decide_eq_true_2 by done. cbn [negb].
  unfold bind at 1, map_err at 1. destruct (Frame.read l) as [[[f sz]|e| |] l']; try done.
  by case_bool_decide.
Qed.

(** The first frame of a control stream that is not GREASE: its type, its payload
    and what follows it. *)
Definition control_frame `{Platform} (l : bytes) (f : Frame) (payload rest : bytes) : Prop :=
  exists pt gs p, l = pt ++ gs ++ p ++ rest /\ varint_wire pt (stream_type UniStream.CONTROL) /\
    grease_frames gs /\ frame_wire p f payload /\ Frame.is_grease f = false.
(** What the bytes [l] decode to. *)
Definition settings_result `{Platform} (l : bytes) (r : outcome SettingsError Settings * bytes) : Prop :=
  match r with
  | (Ok m, rest) => exists payload, control_frame l Frame.SETTINGS payload rest /\ payload_result payload (Ok m, [])
  | (Err SEUnexpectedEnd, _) =>
      no_varint l \/
      exists pt gs tail, l = pt ++ gs ++ tail /\ varint_wire pt (stream_type UniStream.CONTROL) /\
        grease_frames gs /\ no_frame tail
  | (Err (SEUnexpectedStreamType t), _) =>
      t <> UniStream.CONTROL /\ exists pt rest, l = pt ++ rest /\ varint_wire pt (stream_type t)
  | (Err (SEUnexpectedFrame f), _) => f <> Frame.SETTINGS /\ exists payload rest, control_frame l f payload rest
  | (Err e, _) => exists payload rest, control_frame l Frame.SETTINGS payload rest /\ payload_result payload (Err e, [])
  | _ => False
  end.
Lemma settings_result_payload `{Platform} l payload rest e l' :
  control_frame l Frame.SETTINGS payload rest -> payload_result payload (Err e, []) -> settings_result l (Err e, l').
Proof.
  intros Hf Hp. destruct e; try (by exists payload, rest);
    cbn in Hp; by destruct Hp as (? & ? & ? & _ & _ & _ & []).
Qed.

Lemma settings_decode_result `{Platform} l : is_bytes l -> settings_result l (Settings.decode (T:=Take bytes) l).
Proof.
  intros Hl. pose proof (decode_completes l Hl) as Hc.
  destruct (VarInt.decode l) as [[t|[]| |] l1] eqn:E; cbn [fst] in Hc; [| |exfalso; apply Hc; red; auto..].
  2: { unfold Settings.decode, UniStream.decode, bind, map_err. rewrite E. left. by eapply decode_wire_err. }
  destruct (decode_wire_inv l t l1 Hl E) as (pt & -> & Hw & _).
  destruct (decide (MkUniStream t = UniStream.CONTROL)) as [Ht|Ht].
  2: { unfold Settings.decode.
       assert (Ed : UniStream.decode (pt ++ l1) = (Ok (MkUniStream t), l1)) by (unfold UniStream.decode; by mstep E).
       mstep Ed. rewrite bool_decide_eq_false_2 by done. split; [done|]. by exists pt, l1. }
  injection Ht as ->. rewrite settings_decode_control by exact E. apply is_bytes_app in Hl as [_ Hl1].
  destruct (read_wire l1 Hl1) as [(gs & tail & l' & -> & ? & ? & ->)|(gs & p & f & payload & rest & -> & Hgs & Hf & Hg & _ & ->)].
  { right. by exists pt, gs, tail. }
  assert (Hctl : control_frame (pt ++ gs ++ p ++ rest) f payload rest) by by exists pt, gs, p.
  case_bool_decide as Hset; [subst f|split; [done|]; by exists payload, rest]. rewrite with_take_payload.
  assert (Hpb : is_bytes payload).
  { destruct Hf as (? & ? & -> & _). rewrite !is_bytes_app in Hl1. tauto. }
  pose proof (decode_payload_result payload Hpb) as Hp.
  destruct (Settings.decode_payload payload) as [[m|e| |] l']; cbn [fst snd]; try done.
  - destruct Hp as [-> Hp]. by exists payload.
  - by eapply settings_result_payload.
Qed.

Lemma control_frame_payload `{Platform} l f payload rest :
  is_bytes l -> control_frame l f payload rest -> is_bytes payload /\ rest `suffix_of` l.
Proof.
  intros Hl (pt & gs & p & -> & _ & _ & (x & y & -> & _) & _). rewrite !is_bytes_app in Hl.
  split; [tauto|]. exists (pt ++ gs ++ x ++ y ++ payload). by rewrite <- !app_assoc.
Qed.
Lemma settings_decode_total `{Platform} l :
  is_bytes l ->
  match Settings.decode (T:=Take bytes) l with
  | (Ok m, rest) => settings_wf m /\ rest `suffix_of` l
  | (Err _, _) => True
  | _ => False
  end.
Proof.
  intros Hl. pose proof (settings_decode_result l Hl) as Hr.
  destruct (Settings.decode l) as [[m|e| |] rest]; try done.
  destruct Hr as (payload & Hf & _ & kvs & Hkvs & Hacc & ->).
  destruct (control_frame_payload l _ _ _ Hl Hf). split; [by eapply settings_of_wf|done].
Qed.

(** ** Encoding *)
Lemma varint_size v : varint_ok v -> VarInt.size v = Ok (len (varint_bytes v)).
Proof.
  intros Hv. rewrite len_varint_bytes by done. varint_range Hv. unfold VarInt.size.
  rewrite varint_max_val, !Z.shiftl_mul_pow2, !Z.mul_1_l by lia.
  repeat case_match; try done; lia.
Qed.

Lemma encode_entries_vec {E} kvs : forall w : bytes,
  Forall entry_ok kvs ->
  Settings.encode_entries (E:=E) kvs w = (Ok (), w ++ entries_bytes kvs).
Proof.
  induction kvs as [|[id v] kvs IH]; intros w Hok; cbn [Settings.encode_entries].
  { by rewrite app_nil_r. }
  inversion Hok as [|? ? [Hid Hv] Hok']; subst. unfold Setting.encode.
  mstep (encode_vec (E:=E) (setting_id id) w Hid). mstep (encode_vec (E:=E) v (w ++ varint_bytes (setting_id id)) Hv).
  rewrite IH by done. rewrite entries_bytes_cons. unfold entry_bytes; cbn [fst snd].
  by rewrite <- !app_assoc.
Qed.

Section Encode.
Context `{Platform} `{!HashMapIter Setting VarInt}.

Definition payload_of (s : Settings) : bytes := entries_bytes (hm_iter s).

(** A map whose entries can be written, in an address space. *)
Definition encodable (s : Settings) : Prop :=
  map_Forall (fun id v => entry_ok (id, v)) s /\ 16 * Z.of_nat (size s) <= 2 ^ 32 - 32.

Lemma hm_iter_entries s : encodable s -> Forall entry_ok (hm_iter s).
Proof.
  intros [Hs _]. apply map_Forall_to_list in Hs. rewrite hm_iter_perm.
  eapply Forall_impl; [exact Hs|]. by intros [].
Qed.
Lemma hm_iter_length s : length (hm_iter s) = size s.
Proof. by rewrite hm_iter_perm, length_map_to_list. Qed.
Lemma hm_iter_NoDup s : NoDup (hm_iter s).*1.
Proof. rewrite hm_iter_perm. apply NoDup_fst_map_to_list. Qed.
Lemma len_entries_bound kvs : Forall entry_ok kvs -> len (entries_bytes kvs) <= 16 * len kvs.
Proof.
  induction 1 as [|kv kvs Hkv _ IH]; [done|]. rewrite entries_bytes_cons.
  pose proof (len_entry_bytes kv Hkv). len_lia.
Qed.
Lemma payload_bound s : encodable s -> len (payload_of s) <= 2 ^ 32 - 32.
Proof.
  intros Hs. pose proof (len_entries_bound _ (hm_iter_entries s Hs)) as Hb.
  destruct Hs as [_ Hs]. unfold len at 2 in Hb. rewrite hm_iter_length in Hb.
  unfold payload_of. lia.
Qed.
Lemma payload_len_acc kvs : forall a,
  Forall entry_ok kvs -> 0 <= a -> a + len (entries_bytes kvs) <= 2 ^ 32 - 32 ->
  fold_left (fun acc kv => let? acc := acc in let? n := Settings.entry_len kv in usize_add acc n)
    kvs (Ok a) = Ok (a + len (entries_bytes kvs)).
Proof.
  induction kvs as [|[id v] kvs IH]; intros a Hok Ha Hb.
  { cbn. f_equal. rewrite len_nil. lia. }
  inversion Hok as [|? ? [Hid Hv] Hok']; subst.
  cbn [fold_left obind]. unfold Settings.entry_len at 2, Setting.size.
  rewrite entries_bytes_cons in Hb |- *. unfold entry_bytes in Hb |- *. cbn [fst snd] in *.
  rewrite !len_app in Hb. pose_len.
  rewrite !varint_size by done. cbn [obind]. rewrite usize_add_ok by lia. cbn [obind].
  rewrite usize_add_ok by lia. rewrite IH by (done || lia). f_equal. len_lia.
Qed.
Lemma payload_len_ok s : encodable s -> Settings.payload_len s = Ok (len (payload_of s)).
Proof.
  intros Hs. unfold Settings.payload_len.
  rewrite payload_len_acc; [done|by apply hm_iter_entries|lia|by apply payload_bound].
Qed.

Definition settings_bytes (s : Settings) : bytes :=
  varint_bytes (stream_type UniStream.CONTROL) ++ frame_bytes Frame.SETTINGS (payload_of s).

Lemma try_from_len (l : bytes) :
  len l <= 2 ^ 32 -> Settings.expect_varint (E:=Empty_set) (VarInt.try_from_u64 (len l)) = Ok (MkVarInt (len l))
  /\ varint_ok (MkVarInt (len l)).
Proof.
  intros. unfold VarInt.try_from_u64, VarInt.from_u64. rewrite varint_max_val.
  rewrite (proj2 (Z.leb_le _ _)) by lia. split; [done|]. split; cbn [into_inner]; [apply len_nonneg|].
  rewrite varint_max_val. lia.
Qed.

Lemma control_ok : varint_ok (stream_type UniStream.CONTROL).
Proof. by vm_compute. Qed.
Lemma settings_frame_ok : varint_ok (frame_type Frame.SETTINGS).
Proof. by vm_compute. Qed.

Lemma settings_encode_vec {E} s (w : bytes) :
  encodable s -> Settings.encode (E:=E) s w = (Ok (), w ++ settings_bytes s).
Proof.
  intros Hs. unfold Settings.encode, UniStream.encode, Frame.encode.
  mstep (encode_vec (E:=E) _ w control_ok).
  mstep (encode_vec (E:=E) _ (w ++ varint_bytes (stream_type UniStream.CONTROL)) settings_frame_ok).
  rewrite payload_len_ok by done. cbn [never]. unfold lift. unfold bind at 1.
  pose proof (payload_bound s Hs). destruct (try_from_len (payload_of s) ltac:(lia)) as [Ht Hok].
  destruct (VarInt.try_from_u64 (len (payload_of s))) as [v| | |]; try done.
  injection Ht as ->. cbn [Settings.expect_varint]. unfold bind at 1.
  unfold bind. rewrite encode_vec by done. rewrite encode_entries_vec by by apply hm_iter_entries.
  unfold settings_bytes, frame_bytes, payload_of. by rewrite <- !app_assoc.
Qed.

Lemma settings_encoded_len s :
  encodable s -> Settings.encoded_len s = Ok (len (settings_bytes s)).
Proof.
  intros Hs. unfold Settings.encoded_len. rewrite payload_len_ok by done. cbn [obind].
  pose proof (payload_bound s Hs). destruct (try_from_len (payload_of s) ltac:(lia)) as [-> Hok].
  rewrite !varint_size by first [apply control_ok|apply settings_frame_ok]. cbn [obind].
  rewrite varint_size by done. cbn [obind].
  unfold settings_bytes, frame_bytes.
  pose proof (len_varint_pos _ control_ok). pose proof (len_varint_pos _ settings_frame_ok).
  pose proof (len_varint_pos _ Hok). pose_len.
  rewrite usize_add_ok by lia. cbn [obind]. rewrite usize_add_ok by lia. cbn [obind].
  rewrite usize_add_ok by lia. f_equal. len_lia.
Qed.

Lemma settings_payload_ok s : encodable s -> payload_ok (payload_of s).
Proof.
  intros Hs. pose proof (payload_bound s Hs). pose proof usize_max_ge.
  split; [lia|]. rewrite varint_max_val. lia.
Qed.
Lemma payload_is_bytes s : encodable s -> is_bytes (payload_of s).
Proof. intros. by apply entries_bytes_is_bytes, hm_iter_entries. Qed.
Lemma settings_bytes_is_bytes s : encodable s -> is_bytes (settings_bytes s).
Proof.
  intros. apply is_bytes_app. split; [apply varint_bytes_is_bytes, control_ok|].
  apply frame_bytes_is_bytes; [apply settings_frame_ok|by apply settings_payload_ok|by apply payload_is_bytes].
Qed.

(** Booleans in range, for the entries a decoder looks at. *)
Definition booleans_ok (s : Settings) : Prop :=
  map_Forall (fun id v => kept (id, v) -> Setting.is_boolean id = true -> into_inner v <= 1) s.

Lemma decode_payload_of s :
  encodable s -> booleans_ok s ->
  Settings.decode_payload (payload_of s) = (Ok (filter kept s), []).
Proof.
  intros Hs Hb. pose proof (hm_iter_entries s Hs) as Hok.
  unfold Settings.decode_payload. mstep (get_remaining_slice (payload_of s)).
  unfold payload_of at 2. pose proof (len_entries_bytes _ Hok) as Hl. fold (payload_of s) in Hl.
  rewrite decode_loop_entries; [|done| | |by apply hm_iter_NoDup].
  - f_equal. f_equal. rewrite map_filter_alt, (right_id_L ∅ (∪)).
    assert (Hperm : filter kept (hm_iter s) ≡ₚ filter kept (map_to_list s)).
    { by rewrite hm_iter_perm. }
    apply list_to_map_proper; [|done].
    apply NoDup_fst_filter, hm_iter_NoDup.
  - unfold len in Hl at 1. lia.
  - apply Forall_forall. intros [id v] Hin Hk. cbn [fst snd]. rewrite lookup_empty. split; [|done].
    rewrite Forall_forall in Hok. destruct (Hok _ Hin) as [? ?]. split_and!; try done.
    rewrite hm_iter_perm in Hin. apply elem_of_map_to_list in Hin. intros. by apply (Hb id v).
Qed.

Lemma settings_decode_bytes s rest :
  encodable s -> booleans_ok s -> is_bytes rest ->
  Settings.decode (T:=Take bytes) (settings_bytes s ++ rest) = (Ok (filter kept s), rest).
Proof.
  intros Hs Hb Hr. unfold settings_bytes. rewrite <- app_assoc.
  rewrite settings_decode_control by (by apply decode_varint_bytes, control_ok).
  pose proof (read_after_grease [] Frame.SETTINGS (payload_of s) rest) as Hread.
  cbn [frames_bytes concat map app] in Hread. change ([] ++ ?l) with l in Hread.
  rewrite Hread by
    first [exact (List.Forall_nil _)|apply settings_frame_ok|by apply settings_payload_ok
          |done|by apply payload_is_bytes].
  rewrite bool_decide_eq_true_2 by done. rewrite with_take_payload, decode_payload_of by done. done.
Qed.

(** A boolean above one is written, and refused. *)
Lemma boolean_above_one_refused id v :
  Setting.is_boolean id = true -> Setting.is_grease id = false -> varint_ok (setting_id id) -> varint_ok v -> 1 < into_inner v ->
  exists l, (forall E (w : bytes), Settings.encode (E:=E) {[ id := v ]} w = (Ok (), w ++ l)) /\
    fst (Settings.decode (T:=Take bytes) l) = Err (SEInvalidValue id v).
Proof.
  intros Hbool Hg Hid Hv H1. set (s := {[ id := v ]} : Settings).
  assert (Hs : encodable s).
  { split; [by apply map_Forall_singleton|]. unfold s. rewrite map_size_singleton. lia. }
  exists (settings_bytes s). split; [intros; by apply settings_encode_vec|].
  assert (Hit : hm_iter s = [(id, v)]).
  { apply Permutation_singleton_r. rewrite hm_iter_perm. unfold s. by rewrite map_to_list_singleton. }
  unfold settings_bytes. rewrite <- (app_nil_r (varint_bytes _ ++ _)), <- app_assoc.
  rewrite settings_decode_control by (by apply decode_varint_bytes, control_ok).
  pose proof (read_after_grease [] Frame.SETTINGS (payload_of s) []) as Hread.
  change (frames_bytes [] ++ ?l) with l in Hread. rewrite Hread by
    first [exact (List.Forall_nil _)|apply settings_frame_ok|by apply settings_payload_ok
          |done|by apply payload_is_bytes].
  rewrite bool_decide_eq_true_2 by done. rewrite with_take_payload. cbn [fst].
  unfold payload_of, Settings.decode_payload. rewrite Hit. mstep (get_remaining_slice (entries_bytes [(id, v)])).
  rewrite entries_bytes_cons, decode_loop_cons, Hg, lookup_empty, Hbool by done.
  by rewrite bool_decide_eq_false_2, (proj2 (Z.ltb_lt _ _)) by (done || by intros []).
Qed.
End Encode.

(** ** Reading from a stream *)
Lemma rebuild_vec st f payload :
  varint_ok (stream_type st) -> varint_ok (frame_type f) -> len payload <= 2 ^ 32 ->
  Settings.rebuild st f (len payload) payload []
  = (Ok (), varint_bytes (stream_type st) ++ frame_bytes f payload).
Proof.
  intros Hst Hf Hp. unfold Settings.rebuild, UniStream.encode, Frame.encode, Settings.encode_len.
  mstep (encode_vec (E:=SettingsError) _ [] Hst). mstep (encode_vec (E:=SettingsError) _ ([] ++ varint_bytes (stream_type st)) Hf).
  unfold VarInt.try_from_usize, VarInt.try_from_u64, VarInt.from_u64, as_u, lift, map_err, bind.
  pose proof (len_nonneg payload). rewrite Z.mod_small by lia. rewrite varint_max_val.
  rewrite (proj2 (Z.leb_le _ _)) by lia.
  rewrite encode_vec by (split; rewrite ?varint_max_val; cbn [into_inner]; lia).
  unfold put_slice, frame_bytes. cbn. by rewrite <- !app_assoc.
Qed.

Lemma settings_decode_frame `{Platform} f payload :
  varint_ok (frame_type f) -> payload_ok payload -> Frame.is_grease f = false -> is_bytes payload ->
  fst (Settings.decode (T:=Take bytes) (varint_bytes (stream_type UniStream.CONTROL) ++ frame_bytes f payload))
  = if bool_decide (f = Frame.SETTINGS) then fst (Settings.decode_payload payload)
    else Err (SEUnexpectedFrame f).
Proof.
  intros Hf Hp Hg Hb.
  rewrite settings_decode_control by (by apply decode_varint_bytes, control_ok).
  pose proof (read_after_grease [] f payload []) as Hread.
  change (frames_bytes [] ++ ?l) with l in Hread. rewrite !app_nil_r in Hread.
  rewrite Hread by (done || exact (List.Forall_nil _)).
  case_bool_decide; [|done]. pose proof (with_take_payload payload []) as Ht.
  rewrite app_nil_r in Ht. by rewrite Ht.
Qed.

Abbreviation settings_short := (short_error SEUnexpectedEnd SEMessageTooLong SEIo).

Lemma finish_frame_control `{Platform} f payload :
  varint_ok (frame_type f) -> payload_ok payload -> Frame.is_grease f = false -> is_bytes payload ->
  len payload <= MAX_SETTINGS_FRAME_SIZE ->
  Settings.finish_frame UniStream.CONTROL f (len payload) payload
  = if bool_decide (f = Frame.SETTINGS) then fst (Settings.decode_payload payload)
    else Err (SEUnexpectedFrame f).
Proof.
  unfold MAX_SETTINGS_FRAME_SIZE. intros Hf Hp Hg Hb Hl. unfold Settings.finish_frame.
  rewrite rebuild_vec by (done || apply control_ok || lia). cbn [obind].
  by apply settings_decode_frame.
Qed.

Lemma settings_read_decode_control `{Platform} fuel pre l e :
  VarInt.read (MkIncoming (pre ++ l) e) = (Ok (stream_type UniStream.CONTROL), MkIncoming l e) ->
  Settings.read fuel (MkIncoming (pre ++ l) e) = Settings.read_loop fuel UniStream.CONTROL (MkIncoming l e).
Proof.
  intros E. unfold Settings.read. mstep E. cbv zeta.
  change (MkUniStream (stream_type UniStream.CONTROL)) with UniStream.CONTROL.
  by rewrite bool_decide_eq_true_2.
Qed.

(** The outcome of [read] against the outcome of [decode] on the same bytes. *)
Lemma settings_read_spec `{Platform} fuel l e :
  is_bytes l -> len l < Z.of_nat fuel ->
  (exists x s, Settings.read fuel (MkIncoming l e) = (Err x, s) /\ settings_short e x /\
     (len l <= MAX_SETTINGS_FRAME_SIZE ->
      exists l', Settings.decode (T:=Take bytes) l = (Err SEUnexpectedEnd, l'))) \/
  (exists rest l', Settings.read fuel (MkIncoming l e)
     = (fst (Settings.decode (T:=Take bytes) l), MkIncoming rest e) /\
     Settings.decode (T:=Take bytes) l = (fst (Settings.decode (T:=Take bytes) l), l') /\
     (forall m, fst (Settings.decode (T:=Take bytes) l) = Ok m -> l' = rest)).
Proof.
  intros Hl Hfuel.
  destruct (decode_split l Hl) as [(l' & E & Er)|(t & pre & l1 & -> & E & Ht & Hpre & Hl1 & Er)].
  { left. eexists _, _. split; [unfold Settings.read; by mstep (Er e)|]. split; [by left|].
    intros. exists l'. unfold Settings.decode, UniStream.decode, bind, map_err. by rewrite E. }
  rewrite len_app in Hfuel. pose_len.
  destruct (decide (MkUniStream t = UniStream.CONTROL)) as [Hc|Hc].
  2: { right. exists l1, l1.
       assert (Ed : Settings.decode (T:=Take bytes) (pre ++ l1) = (Err (SEUnexpectedStreamType (MkUniStream t)), l1)).
       { unfold Settings.decode. assert (Eu : UniStream.decode (pre ++ l1) = (Ok (MkUniStream t), l1))
           by (unfold UniStream.decode; by mstep E).
         mstep Eu. by rewrite bool_decide_eq_false_2. }
       rewrite Ed. split; [|by split]. unfold Settings.read. mstep (Er e). cbv zeta.
       by rewrite bool_decide_eq_false_2. }
  injection Hc as ->.
  rewrite (settings_decode_control pre l1 E), (settings_read_decode_control fuel pre l1 e (Er e)).
  rewrite (read_unfold fuel) by (done || lia).
  unfold Settings.read_loop.
  destruct (bounded_read_loop_spec MAX_SETTINGS_FRAME_SIZE SEUnexpectedEnd SEMessageTooLong SEIo
      (Settings.finish_frame UniStream.CONTROL) fuel e l1 Hl1 ltac:(lia))
    as [(x & s & -> & Hx & Hshort)|(f & p & rest & -> & Hp & Hf1 & Hg1 & Hlp & Hpo & ->)].
  - left. exists x, s. split_and!; try done. intros. rewrite len_app in *.
    destruct Hshort as [l' ->]; [lia|]. by exists l'.
  - right. rewrite finish_frame_control by done. case_bool_decide as Hf.
    + rewrite with_take_payload. cbn [fst snd].
      exists rest, (snd (Settings.decode_payload p) ++ rest). split_and!; try done.
      intros m Hm. pose proof (decode_payload_result p Hp) as Hd.
      destruct (Settings.decode_payload p) as [o l']; cbn in Hm; subst o.
      by destruct Hd as [-> _].
    + exists rest, (p ++ rest). by split_and!.
Qed.

(** ** Negotiation *)
Lemma enable_lookups max dep s :
  let s' := Settings.enable_webtransport_internal max dep s in
  Settings.get Setting.WT_ENABLED s' = Some 1 /\
  Settings.get Setting.ENABLE_DATAGRAM s' = Some 1 /\
  Settings.get Setting.ENABLE_CONNECT_PROTOCOL s' = Some 1 /\
  Settings.get Setting.WEBTRANSPORT_MAX_SESSIONS s' = Some max /\
  Settings.get Setting.WEBTRANSPORT_ENABLE_DEPRECATED s' = (if dep then Some 1 else None) /\
  Settings.get Setting.WEBTRANSPORT_MAX_SESSIONS_DEPRECATED s' = (if dep then Some max else None).
Proof.
  unfold Settings.enable_webtransport_internal, Settings.get. cbv zeta.
  destruct dep; split_and!;
    repeat first [ rewrite lookup_insert_eq | rewrite lookup_delete_eq
                 | rewrite lookup_insert_ne by done | rewrite lookup_delete_ne by done ];
    reflexivity.
Qed.

(** What makes a peer without [WT_ENABLED] acceptable. *)
Definition legacy_support (s : Settings) : Prop :=
  (Settings.get Setting.ENABLE_DATAGRAM s = Some 1 \/
   (Settings.get Setting.ENABLE_DATAGRAM s = None /\
    Settings.get Setting.ENABLE_DATAGRAM_DEPRECATED s = Some 1)) /\
  ((exists n, Settings.get Setting.WEBTRANSPORT_MAX_SESSIONS s = Some n /\ 0 < n) \/
   (Settings.get Setting.WEBTRANSPORT_MAX_SESSIONS s = None /\
    Settings.get Setting.WEBTRANSPORT_ENABLE_DEPRECATED s = Some 1 /\
    (forall n, Settings.get Setting.WEBTRANSPORT_MAX_SESSIONS_DEPRECATED s = Some n -> 0 < n))).

Lemma supports_legacy s :
  Settings.get Setting.WT_ENABLED s = None -> 0 < Settings.supports_webtransport s <-> legacy_support s.
Proof.
  intros Hw. unfold Settings.supports_webtransport, legacy_support.
  rewrite Hw, bool_decide_eq_false_2 by done. cbn [andb].
  destruct (Settings.get Setting.ENABLE_DATAGRAM s) as [d|];
    destruct (Settings.get Setting.ENABLE_DATAGRAM_DEPRECATED s) as [dd|];
    case_bool_decide as Hd; cbn [negb]; simplify_eq;
    destruct (Settings.get Setting.WEBTRANSPORT_MAX_SESSIONS s) as [n|];
    try (case_bool_decide as He; cbn [negb]);
    destruct (Settings.get Setting.WEBTRANSPORT_MAX_SESSIONS_DEPRECATED s) as [k|]; cbn [default];
    naive_solver lia.
Qed.

(** ** Properties *)

(** C18: for a map whose identifiers and values are varints in range, of at most
    2^28 - 2 entries ([encodable]), and whose boolean settings are 0 or 1
    ([booleans_ok]), and whatever order the map is iterated in, the encoder writes
    exactly [encoded_len] bytes, and the decoder reads them back, leaving what
    follows: the same settings but for the GREASE entries, which it drops.  The
    last hypothesis is needed: the encoder does not look at the values, so a
    [Settings] with a boolean above one is written and its bytes are refused. *)
Theorem settings_roundtrip `{Platform} `{!HashMapIter Setting VarInt} (s : Settings) (rest : bytes)
  (Hs : encodable s) (Hb : booleans_ok s) (Hr : is_bytes rest) :
  exists bs, (forall E (w : bytes), Settings.encode (E:=E) s w = (Ok (), w ++ bs)) /\
    Settings.encoded_len s = Ok (len bs) /\
    Settings.decode (T:=Take bytes) (bs ++ rest) = (Ok (filter kept s), rest) /\
    (settings_wf s -> filter kept s = s) /\
    (forall id v, Setting.is_boolean id = true -> Setting.is_grease id = false -> varint_ok (setting_id id) -> varint_ok v ->
       1 < into_inner v ->
       exists l, (forall E (w : bytes), Settings.encode (E:=E) {[ id := v ]} w = (Ok (), w ++ l)) /\
         fst (Settings.decode (T:=Take bytes) l) = Err (SEInvalidValue id v)).
Proof.
  exists (settings_bytes s). split_and!.
  - intros. by apply settings_encode_vec.
  - by apply settings_encoded_len.
  - by apply settings_decode_bytes.
  - intros Hwf. apply map_filter_id. intros i x Hi. exact (proj2 (Hwf i x Hi)).
  - intros id v Hbool Hg Hid Hv H1. by apply boolean_above_one_refused.
Qed.
Definition sample_settings : Settings :=
  {[ MkSetting (MkVarInt 0x21) := MkVarInt 77; Setting.ENABLE_DATAGRAM := MkVarInt 1;
     Setting.MAX_FIELD_SECTION_SIZE := MkVarInt 70000 ]}.
Lemma settings_roundtrip_witness :
  let order := hm_iter_rev Setting VarInt in
  (exists bs, (forall E (w : bytes), Settings.encode (H:=Platform32) (E:=E) sample_settings w = (Ok (), w ++ bs)) /\
    Settings.decode (H:=Platform32) (T:=Take bytes) (bs ++ [1]) = (Ok (filter kept sample_settings), [1])) /\
  Settings.encode (H:=Platform32) (E:=Empty_set) {[ Setting.ENABLE_DATAGRAM := MkVarInt 2 ]} ([] : bytes) = (Ok (), [0; 4; 2; 0x33; 2]) /\
  exists bs, fst (Settings.decode (H:=Platform32) (T:=Take bytes) bs) = Err (SEInvalidValue Setting.ENABLE_DATAGRAM (MkVarInt 2)).
Proof.
  intros order. assert (Hs : encodable sample_settings).
  { split; [|vm_compute; discriminate]. apply (bool_decide_unpack _). vm_compute. exact I. }
  assert (Hb : booleans_ok sample_settings).
  { unfold booleans_ok. apply map_Forall_to_list. repeat constructor; vm_compute; try discriminate. }
  assert (Hr : is_bytes [1]) by (repeat constructor; vm_compute; discriminate).
  destruct (settings_roundtrip (H:=Platform32) sample_settings [1] Hs Hb Hr) as (bs & H1 & _ & H3 & _ & H5).
  split; [by exists bs|]. split; [vm_compute; reflexivity|].
  destruct (H5 Setting.ENABLE_DATAGRAM (MkVarInt 2)) as (l & _ & Hl); [done..|by split|by split|done|by exists l].
Defined.

(** C19: on every byte string the decoder returns without a panic, and what it
    returns is determined by the grammar of the bytes ([settings_result]): the
    stream type, GREASE frames, a SETTINGS frame and in its payload entries of an
    identifier and a value.  [Ok m]: the payload is entries and nothing else, the
    identifiers that are not GREASE are distinct, booleans are at most one, [m]
    maps exactly these identifiers to their values, and what is left is what
    follows the frame.  An error is the first that the bytes call for: the type of
    a stream or of the frame when it is another, an input that ends before a whole
    frame, a payload that ends inside an entry, an identifier that stands in an
    earlier entry, a boolean above one. *)
Theorem settings_decode_sound `{Platform} (l : bytes) (Hl : is_bytes l) :
  settings_result l (Settings.decode (T:=Take bytes) l) /\
  match Settings.decode (T:=Take bytes) l with
  | (Ok m, rest) => settings_wf m /\ rest `suffix_of` l
  | (Err _, _) => True
  | _ => False
  end.
Proof. split; [by apply settings_decode_result|by apply settings_decode_total]. Qed.
Lemma settings_decode_sound_witness :
  let truncated := [0; 4; 4; 6; 64; 100; 0x33] in
  let twice := [0; 4; 4; 6; 9; 6; 8; 1] in
  Settings.decode (H:=Platform64) (T:=Take bytes) truncated = (Err SEInvalidSize, []) /\
  settings_result (H:=Platform64) truncated (Err SEInvalidSize, []) /\
  Settings.decode (H:=Platform64) (T:=Take bytes) twice = (Err (SEDuplicateSetting Setting.MAX_FIELD_SECTION_SIZE), [1]) /\
  settings_result (H:=Platform64) twice (Err (SEDuplicateSetting Setting.MAX_FIELD_SECTION_SIZE), [1]).
Proof.
  assert (Hb1 : is_bytes [0; 4; 4; 6; 64; 100; 0x33]) by (repeat constructor; vm_compute; first [discriminate|reflexivity]).
  assert (Hb2 : is_bytes [0; 4; 4; 6; 9; 6; 8; 1]) by (repeat constructor; vm_compute; first [discriminate|reflexivity]).
  split; [vm_compute; reflexivity|]. split; [exact (proj1 (settings_decode_sound (H:=Platform64) _ Hb1))|].
  split; [vm_compute; reflexivity|]. exact (proj1 (settings_decode_sound (H:=Platform64) _ Hb2)).
Defined.

(** Reading SETTINGS from a stream is decoding the bytes of the stream: fuel
    above their number is enough; the reader answers as the decoder does on the
    same bytes and leaves the stream at the same place, or reports that the
    stream is short, which for a stream of at most 16 KiB happens only when the
    decoder too finds the input ended. *)
Theorem settings_read_decode `{Platform} (fuel : nat) (l : bytes) (e : io_error)
  (Hl : is_bytes l) (Hfuel : len l < Z.of_nat fuel) :
  (exists x s, Settings.read fuel (MkIncoming l e) = (Err x, s) /\ settings_short e x /\
     (len l <= MAX_SETTINGS_FRAME_SIZE ->
      exists l', Settings.decode (T:=Take bytes) l = (Err SEUnexpectedEnd, l'))) \/
  (exists rest l', Settings.read fuel (MkIncoming l e)
     = (fst (Settings.decode (T:=Take bytes) l), MkIncoming rest e) /\
     Settings.decode (T:=Take bytes) l = (fst (Settings.decode (T:=Take bytes) l), l') /\
     (forall m, fst (Settings.decode (T:=Take bytes) l) = Ok m -> l' = rest)).
Proof. by apply settings_read_spec. Qed.
Lemma settings_read_decode_witness :
  let l := [0; 0x21; 1; 9; 4; 2; 0x33; 1; 5] in
  let e := IoError UnexpectedEof [] in
  Settings.read (H:=Platform64) 10 (MkIncoming l e)
  = (Ok {[ Setting.ENABLE_DATAGRAM := MkVarInt 1 ]}, MkIncoming [5] e) /\
  ((exists x s, Settings.read (H:=Platform64) 10 (MkIncoming l e) = (Err x, s) /\ settings_short e x /\
     (len l <= MAX_SETTINGS_FRAME_SIZE ->
      exists l', Settings.decode (H:=Platform64) (T:=Take bytes) l = (Err SEUnexpectedEnd, l'))) \/
  (exists rest l', Settings.read (H:=Platform64) 10 (MkIncoming l e)
     = (fst (Settings.decode (H:=Platform64) (T:=Take bytes) l), MkIncoming rest e) /\
     Settings.decode (H:=Platform64) (T:=Take bytes) l
     = (fst (Settings.decode (H:=Platform64) (T:=Take bytes) l), l') /\
     (forall m, fst (Settings.decode (H:=Platform64) (T:=Take bytes) l) = Ok m -> l' = rest))).
Proof.
  split; [vm_compute; reflexivity|].
  apply (settings_read_decode (H:=Platform64)); [|vm_compute; reflexivity].
  repeat constructor; vm_compute; first [discriminate|reflexivity].
Defined.

(** Enabling WebTransport on any map, with the deprecated parameters or
    without, makes a peer accept it in either role, as one session, and the
    latest variant leaves no deprecated parameter behind. *)
Theorem enable_supports (max : Z) (dep : bool) (s : Settings) :
  let s' := Settings.enable_webtransport_internal max dep s in
  Settings.supports_webtransport s' = 1 /\
  Settings.supports_webtransport_server s' = true /\
  Settings.supports_webtransport_client s' = true /\
  Settings.get Setting.WEBTRANSPORT_MAX_SESSIONS s' = Some max /\
  (dep = false -> s' !! Setting.WEBTRANSPORT_ENABLE_DEPRECATED = None /\
                  s' !! Setting.WEBTRANSPORT_MAX_SESSIONS_DEPRECATED = None).
Proof.
  cbv zeta. pose proof (enable_lookups max dep s) as (Hw & Hd & Hc & Hm & He & Hmd). cbv zeta in *.
  set (s' := Settings.enable_webtransport_internal max dep s) in *.
  unfold Settings.supports_webtransport_server, Settings.supports_webtransport_client, Settings.supports_webtransport.
  rewrite Hw, Hd, Hc, !bool_decide_eq_true_2 by done. split_and!; try done.
  intros ->. unfold Settings.get in He, Hmd.
  destruct (s' !! Setting.WEBTRANSPORT_ENABLE_DEPRECATED), (s' !! Setting.WEBTRANSPORT_MAX_SESSIONS_DEPRECATED); done.
Qed.

(** Exactly which settings are acceptable: a peer that sends [WT_ENABLED]
    must send it as 1 together with the current datagram setting (a server also
    extended CONNECT), whatever legacy parameters it adds; one that does not is
    judged by the legacy parameters.  A server's acceptable settings are
    acceptable from a client too. *)
Theorem supports_iff (s : Settings) :
  (Settings.supports_webtransport_client s = true <->
     (Settings.get Setting.WT_ENABLED s = Some 1 /\ Settings.get Setting.ENABLE_DATAGRAM s = Some 1) \/
     (Settings.get Setting.WT_ENABLED s = None /\ legacy_support s)) /\
  (Settings.supports_webtransport_server s = true <->
     Settings.supports_webtransport_client s = true /\
     (Settings.get Setting.WT_ENABLED s = None \/ Settings.get Setting.ENABLE_CONNECT_PROTOCOL s = Some 1)).
Proof.
  unfold Settings.supports_webtransport_client, Settings.supports_webtransport_server.
  pose proof (supports_legacy s) as Hleg.
  rewrite !orb_true_iff, !andb_true_iff, !bool_decide_eq_true, Z.ltb_lt.
  destruct (Settings.get Setting.WT_ENABLED s) as [w|]; [|specialize (Hleg eq_refl)]; naive_solver.
Qed.

(** The number returned is not the advertised one when [WT_ENABLED] is there. *)
Example supports_not_advertised :
  Settings.supports_webtransport (Settings.enable_webtransport_latest 256 ∅) = 1 /\
  Settings.get Setting.WEBTRANSPORT_MAX_SESSIONS (Settings.enable_webtransport_latest 256 ∅) = Some 256.
Proof. split; vm_compute; reflexivity. Qed.
