(* ===== verification/Capsule.v ===== *)
(** * Capsules on the CONNECT stream (webtrans-proto/src/capsule.rs) *)
From S2P Require Import Prelude Buf Utf8 Varint.

Definition CLOSE_WEBTRANSPORT_SESSION_TYPE : Z := 0x2843.
Definition MAX_MESSAGE_SIZE : Z := 1024.
Definition MAX_CLOSE_PAYLOAD_SIZE : Z := 4 + MAX_MESSAGE_SIZE.

Inductive Capsule :=
| CloseWebTransportSession (code : Z) (reason : bytes)
| Unknown (typ : VarInt) (payload : bytes).
#[export] Instance Capsule_eq_dec : EqDecision Capsule.
Proof. solve_decision. Defined.

Inductive CapsuleError :=
| CEUnexpectedEnd
| CEInvalidUtf8
| CEMessageTooLong
| CEUnknownType (typ : VarInt)
| CEVarInt (e : VarIntUnexpectedEnd)
| CEIo (e : io_error).

Module Capsule.

(** What is done with the [Take] view of the payload, [limit] bytes long. *)
Definition decode_payload {T} `{Buf T} (typ : VarInt) (limit : Z) : M T CapsuleError Capsule :=
  let* r := get_remaining in
  if r <? limit then throw CEUnexpectedEnd else
  if into_inner typ =? CLOSE_WEBTRANSPORT_SESSION_TYPE then
    let* r := get_remaining in
    if r <? 4 then throw CEUnexpectedEnd else
    let* error_code := get_u32 in
    let* message_len := get_remaining in
    if MAX_MESSAGE_SIZE <? message_len then throw CEMessageTooLong else
    let* message_bytes := copy_to_bytes message_len in
    let* error_message := ok_or CEInvalidUtf8 (from_utf8 message_bytes) in
    ret (CloseWebTransportSession error_code error_message)
  else
    let* r := get_remaining in
    let* payload_bytes := copy_to_bytes r in
    ret (Unknown typ payload_bytes).

Definition decode `{Platform} {B T} `{Buf B} `{TakeBuf B T} `{Buf T} : M B CapsuleError Capsule :=
  let* typ := map_err CEVarInt VarInt.decode in
  let* length := map_err CEVarInt VarInt.decode in
  let* length := ok_or CEMessageTooLong (usize_try_from (into_inner length)) in
  if MAX_CLOSE_PAYLOAD_SIZE <? length then throw CEMessageTooLong else
  with_take (T:=T) length (decode_payload typ length).

(** [VarInt::try_from(length).map_err(|_| MessageTooLong)?.encode(buf)] *)
Definition encode_len {W} `{BufMut W} (length : Z) : M W CapsuleError unit :=
  let* v := map_err (fun _ => CEMessageTooLong) (lift (VarInt.try_from_usize length)) in
  VarInt.encode v.

(** The capsule rebuilt in memory before it is decoded. *)
Definition rebuild (typ : VarInt) (length : Z) (payload : bytes) : M bytes CapsuleError unit :=
  VarInt.encode typ ;;; encode_len length ;;; put_slice payload.

Definition read `{Platform} {S} `{AsyncRead S} : M S CapsuleError Capsule :=
  let* typ := map_err (fun _ => CEUnexpectedEnd) VarInt.read in
  let* length := map_err (fun _ => CEUnexpectedEnd) VarInt.read in
  let* length := ok_or CEMessageTooLong (usize_try_from (into_inner length)) in
  if MAX_CLOSE_PAYLOAD_SIZE <? length then throw CEMessageTooLong else
  let* payload := map_err CEIo (read_exact length) in
  let '(r, capsule) := rebuild typ length payload [] in
  lift r ;;;
  lift (fst (decode (T:=Take bytes) capsule)).

Definition encode {W} `{BufMut W} (c : Capsule) : M W CapsuleError unit :=
  match c with
  | CloseWebTransportSession error_code error_message =>
      if MAX_MESSAGE_SIZE <? len error_message then throw CEMessageTooLong else
      let* typ := unwrap (match VarInt.from_u64 CLOSE_WEBTRANSPORT_SESSION_TYPE with
                          | Ok v => Some v | _ => None end) in
      VarInt.encode typ ;;;
      let length := 4 + len error_message in
      VarInt.encode (VarInt.from_u32 (as_u32 length)) ;;;
      put_u32 error_code ;;;
      put_slice error_message
  | Unknown typ payload =>
      if MAX_CLOSE_PAYLOAD_SIZE <? len payload then throw CEMessageTooLong else
      VarInt.encode typ ;;;
      encode_len (len payload) ;;;
      put_slice payload
  end.

Definition write {S} `{AsyncWrite S} (c : Capsule) : M S CapsuleError unit :=
  let '(r, buf) := encode c ([] : bytes) in
  lift r ;;;
  map_err CEIo (write_all buf).
End Capsule.

Ltac max_lia := unfold MAX_CLOSE_PAYLOAD_SIZE, MAX_MESSAGE_SIZE in *; lia.

(** ** Well-formed capsules *)
Definition capsule_ok (c : Capsule) : Prop :=
  match c with
  | CloseWebTransportSession code reason =>
      is_u32 code /\ is_bytes reason /\ valid_utf8 reason = true /\ len reason <= MAX_MESSAGE_SIZE
  | Unknown typ payload =>
      varint_ok typ /\ into_inner typ <> CLOSE_WEBTRANSPORT_SESSION_TYPE /\
      is_bytes payload /\ len payload <= MAX_CLOSE_PAYLOAD_SIZE
  end.
(** The type and payload a capsule is written with. *)
Definition capsule_type (c : Capsule) : VarInt :=
  match c with
  | CloseWebTransportSession _ _ => MkVarInt CLOSE_WEBTRANSPORT_SESSION_TYPE
  | Unknown typ _ => typ
  end.
Definition capsule_payload (c : Capsule) : bytes :=
  match c with
  | CloseWebTransportSession code reason => to_be_bytes 4 code ++ reason
  | Unknown _ payload => payload
  end.
Definition tlv_bytes (typ : VarInt) (payload : bytes) : bytes :=
  varint_bytes typ ++ varint_bytes (MkVarInt (len payload)) ++ payload.
Definition capsule_bytes (c : Capsule) : bytes := tlv_bytes (capsule_type c) (capsule_payload c).

Lemma capsule_decode_payload_sim `{BufSim B1 B2 R} typ n :
  simM R (Capsule.decode_payload typ n) (Capsule.decode_payload typ n).
Proof. unfold Capsule.decode_payload. solve_sim. Qed.
#[export] Hint Resolve capsule_decode_payload_sim : sim.

Lemma capsule_type_ok c : capsule_ok c -> varint_ok (capsule_type c).
Proof. destruct c; [intros _; by vm_compute|by intros [? _]]. Qed.
Lemma capsule_payload_len c : capsule_ok c -> len (capsule_payload c) <= MAX_CLOSE_PAYLOAD_SIZE.
Proof.
  unfold MAX_CLOSE_PAYLOAD_SIZE. destruct c as [code reason|typ payload]; cbn; [|tauto].
  intros (_ & _ & _ & H). rewrite len_app, len_to_be_bytes. lia.
Qed.
Lemma capsule_payload_bytes c : capsule_ok c -> is_bytes (capsule_payload c).
Proof.
  destruct c; cbn; [|tauto]. intros (_ & ? & _). apply is_bytes_app. auto with wt.
Qed.
Lemma payload_len_varint (l : bytes) : len l <= 2 ^ 32 -> varint_ok (MkVarInt (len l)).
Proof.
  intros. split; cbn [into_inner]; [apply len_nonneg|]. rewrite varint_max_val. lia.
Qed.

(** ** The payload *)
Definition payload_spec (typ : VarInt) (p : bytes) : outcome CapsuleError Capsule :=
  if into_inner typ =? CLOSE_WEBTRANSPORT_SESSION_TYPE then
    if len p <? 4 then Err CEUnexpectedEnd
    else if valid_utf8 (drop 4 p)
         then Ok (CloseWebTransportSession (from_be_bytes (take 4 p)) (drop 4 p))
         else Err CEInvalidUtf8
  else Ok (Unknown typ p).

Lemma capsule_decode_payload_slice typ p :
  len p <= MAX_CLOSE_PAYLOAD_SIZE ->
  Capsule.decode_payload typ (len p) p =
    (payload_spec typ p,
     if (into_inner typ =? CLOSE_WEBTRANSPORT_SESSION_TYPE) && (len p <? 4) then p else []).
Proof.
  unfold MAX_CLOSE_PAYLOAD_SIZE. intros Hp.
  unfold Capsule.decode_payload, payload_spec. mstep (get_remaining_slice p).
  rewrite Z.ltb_irrefl. destruct (into_inner typ =? _).
  - mstep (get_remaining_slice p). cbn [andb]. destruct (Z.ltb_spec (len p) 4); [done|].
    destruct (split_at 4 p ltac:(lia)) as (a & b & -> & Ha). rewrite len_app in Hp.
    assert (Hu : get_u32 (E:=CapsuleError) (a ++ b) = (Ok (from_be_bytes a), b)).
    { unfold get_u32. by mstep (copy_to_bytes_slice (E:=CapsuleError) 4 a b (eq_sym Ha)). }
    mstep Hu. mstep (get_remaining_slice b). rewrite (proj2 (Z.ltb_ge _ _)) by lia.
    assert (Hc : copy_to_bytes (E:=CapsuleError) (len b) b = (Ok b, [])).
    { rewrite <- (app_nil_r b) at 2. by apply copy_to_bytes_slice. }
    mstep Hc. assert (length a = 4%nat) as H4 by (unfold len in Ha; lia).
    rewrite <- H4, take_app_length, drop_app_length. unfold from_utf8.
    by destruct (valid_utf8 b).
  - mstep (get_remaining_slice p).
    assert (Hc : copy_to_bytes (E:=CapsuleError) (len p) p = (Ok p, [])).
    { rewrite <- (app_nil_r p) at 2. by apply copy_to_bytes_slice. }
    by mstep Hc.
Qed.

Lemma payload_spec_ok typ p c :
  varint_ok typ -> is_bytes p -> len p <= MAX_CLOSE_PAYLOAD_SIZE ->
  payload_spec typ p = Ok c -> capsule_ok c /\ capsule_type c = typ /\ capsule_payload c = p.
Proof.
  unfold payload_spec, MAX_CLOSE_PAYLOAD_SIZE. intros Ht Hp Hl.
  destruct (Z.eqb_spec (into_inner typ) CLOSE_WEBTRANSPORT_SESSION_TYPE) as [He|He].
  - destruct (Z.ltb_spec (len p) 4); [done|]. destruct (valid_utf8 (drop 4 p)) eqn:Hv; [|done].
    intros [= <-]. destruct (split_at 4 p ltac:(lia)) as (a & b & -> & Ha).
    apply is_bytes_app in Hp as [Hab Hbb]. rewrite len_app in Hl.
    assert (length a = 4%nat) as H4 by (unfold len in Ha; lia).
    rewrite <- H4 in Hv |- *. rewrite take_app_length, drop_app_length in *.
    pose proof (from_be_bytes_bound a Hab) as Hb. rewrite H4 in Hb.
    split; [split; [exact Hb|split_and!; auto; lia]|]. split.
    + destruct typ; cbn in *. by rewrite He.
    + cbn [capsule_payload]. rewrite <- H4. by rewrite to_from_be_bytes.
  - intros [= <-]. by split_and!.
Qed.
(** It never panics, and fails in two ways. *)
Lemma payload_spec_cases typ p :
  (exists c, payload_spec typ p = Ok c) \/
  (exists x, payload_spec typ p = Err x /\ (x = CEInvalidUtf8 \/ x = CEUnexpectedEnd)).
Proof. unfold payload_spec. repeat case_match; eauto. Qed.
(** A payload that decodes is consumed whole. *)
Lemma capsule_payload_rest c :
  capsule_ok c ->
  (into_inner (capsule_type c) =? CLOSE_WEBTRANSPORT_SESSION_TYPE) && (len (capsule_payload c) <? 4) = false.
Proof.
  destruct c as [code reason|t pl]; cbn [capsule_ok capsule_type capsule_payload into_inner].
  - intros _. rewrite len_app, len_to_be_bytes. pose_len.
    rewrite (proj2 (Z.ltb_ge (Z.of_nat 4 + len reason) 4)) by lia. by rewrite andb_false_r.
  - intros (_ & Hne & _). by rewrite (proj2 (Z.eqb_neq _ _)) by done.
Qed.
Lemma payload_spec_payload c : capsule_ok c -> payload_spec (capsule_type c) (capsule_payload c) = Ok c.
Proof.
  destruct c as [code reason|typ payload]; cbn [capsule_type capsule_payload]; unfold payload_spec.
  - intros (Hc & _ & Hv & _). cbn [into_inner]. rewrite Z.eqb_refl.
    rewrite (proj2 (Z.ltb_ge _ _)) by (rewrite len_app, len_to_be_bytes; pose_len; lia).
    pose proof (length_to_be_bytes 4 code) as H4.
    rewrite take_app_length', drop_app_length', Hv, from_to_be_bytes by done.
    rewrite Z.mod_small; [done|]. exact Hc.
  - intros (_ & Ht & _). by rewrite (proj2 (Z.eqb_neq _ _)) by done.
Qed.

(** ** Decoding *)
Section Decode.
Context `{Platform}.

(** The header is there, and the payload announced too. *)
Lemma capsule_decode_full typ p1 sz p2 p rest :
  VarInt.decode (p1 ++ p2 ++ p ++ rest) = (Ok typ, p2 ++ p ++ rest) ->
  VarInt.decode (p2 ++ p ++ rest) = (Ok sz, p ++ rest) ->
  into_inner sz = len p -> len p <= MAX_CLOSE_PAYLOAD_SIZE ->
  Capsule.decode (T:=Take bytes) (p1 ++ p2 ++ p ++ rest) =
    (payload_spec typ p,
     (if (into_inner typ =? CLOSE_WEBTRANSPORT_SESSION_TYPE) && (len p <? 4) then p else []) ++ rest).
Proof.
  intros E1 E2 Hsz Hp. unfold Capsule.decode. mstep E1. mstep E2. rewrite Hsz.
  rewrite usize_try_from_small by (unfold MAX_CLOSE_PAYLOAD_SIZE, MAX_MESSAGE_SIZE in Hp; lia).
  cbn [ok_or]. rewrite bind_ret_l. rewrite (proj2 (Z.ltb_ge _ _)) by lia.
  rewrite (with_take_slice (fun B HB => @Capsule.decode_payload B HB typ (len p)))
    by apply capsule_decode_payload_sim.
  by rewrite capsule_decode_payload_slice.
Qed.

Lemma capsule_decode_bytes c rest :
  capsule_ok c -> Capsule.decode (T:=Take bytes) (capsule_bytes c ++ rest) = (Ok c, rest).
Proof.
  intros Hc. unfold capsule_bytes, tlv_bytes. rewrite <- !app_assoc.
  pose proof (capsule_payload_len c Hc) as Hl.
  assert (Hv : varint_ok (MkVarInt (len (capsule_payload c)))).
  { apply payload_len_varint. unfold MAX_CLOSE_PAYLOAD_SIZE, MAX_MESSAGE_SIZE in Hl. lia. }
  rewrite (capsule_decode_full (capsule_type c) _ (MkVarInt (len (capsule_payload c)))); try done.
  - by rewrite payload_spec_payload, capsule_payload_rest.
  - by apply decode_varint_bytes, capsule_type_ok.
  - by apply decode_varint_bytes.
Qed.

(** The outcome of [decode] and of [read] on the same bytes, in every case. *)
Definition same_error (e : io_error) (x y : CapsuleError) : Prop :=
  (x = y /\ (x = CEMessageTooLong \/ x = CEInvalidUtf8 \/ x = CEUnexpectedEnd)) \/
  ((exists v, x = CEVarInt v) /\ y = CEUnexpectedEnd) \/
  (x = CEUnexpectedEnd /\ y = CEIo e).
Definition decode_agrees (e : io_error) (l : bytes) : Prop :=
  (exists c pre rest, l = pre ++ rest /\ len (capsule_bytes c) <= len pre <= 1044 /\ capsule_ok c /\
     Capsule.decode (T:=Take bytes) l = (Ok c, rest) /\
     Capsule.read (MkIncoming l e) = (Ok c, MkIncoming rest e)) \/
  (exists x y l' s, Capsule.decode (T:=Take bytes) l = (Err x, l') /\
     Capsule.read (MkIncoming l e) = (Err y, s) /\ same_error e x y).

Lemma capsule_rebuild typ p :
  varint_ok typ -> len p <= 2 ^ 32 - 1 ->
  Capsule.rebuild typ (len p) p [] = (Ok (), tlv_bytes typ p).
Proof.
  intros Ht Hp. unfold Capsule.rebuild, Capsule.encode_len.
  mstep (encode_vec (E:=CapsuleError) typ [] Ht).
  unfold VarInt.try_from_usize, VarInt.try_from_u64, VarInt.from_u64, as_u, lift, map_err, bind.
  pose proof (len_nonneg p). rewrite Z.mod_small by lia. rewrite varint_max_val.
  rewrite (proj2 (Z.leb_le _ _)) by lia.
  rewrite encode_vec by (apply payload_len_varint; lia). cbn. unfold tlv_bytes.
  by rewrite <- !app_assoc.
Qed.

(** A length that is too long is refused before the payload is read. *)
Lemma capsule_oversized typ p1 sz p2 l2 e :
  VarInt.decode (p1 ++ p2 ++ l2) = (Ok typ, p2 ++ l2) -> VarInt.decode (p2 ++ l2) = (Ok sz, l2) ->
  VarInt.read (MkIncoming (p1 ++ p2 ++ l2) e) = (Ok typ, MkIncoming (p2 ++ l2) e) ->
  VarInt.read (MkIncoming (p2 ++ l2) e) = (Ok sz, MkIncoming l2 e) ->
  MAX_CLOSE_PAYLOAD_SIZE < into_inner sz ->
  Capsule.decode (T:=Take bytes) (p1 ++ p2 ++ l2) = (Err CEMessageTooLong, l2) /\
  Capsule.read (MkIncoming (p1 ++ p2 ++ l2) e) = (Err CEMessageTooLong, MkIncoming l2 e).
Proof.
  intros E1 E2 Er1 Er2 Hb. unfold Capsule.decode, Capsule.read. mstep E1. mstep E2. mstep Er1. mstep Er2.
  destruct (usize_try_from (into_inner sz)) as [n|] eqn:En; [|done].
  apply usize_try_from_Some_eq in En as ->. cbn [ok_or]. rewrite !bind_ret_l.
  by rewrite (proj2 (Z.ltb_lt _ _)) by done.
Qed.

(** A payload cut short: the decoder wants more bytes, the reader meets the end. *)
Lemma capsule_truncated typ p1 sz p2 l2 e :
  VarInt.decode (p1 ++ p2 ++ l2) = (Ok typ, p2 ++ l2) -> VarInt.decode (p2 ++ l2) = (Ok sz, l2) ->
  VarInt.read (MkIncoming (p1 ++ p2 ++ l2) e) = (Ok typ, MkIncoming (p2 ++ l2) e) ->
  VarInt.read (MkIncoming (p2 ++ l2) e) = (Ok sz, MkIncoming l2 e) ->
  into_inner sz <= MAX_CLOSE_PAYLOAD_SIZE -> len l2 < into_inner sz ->
  exists l' s, Capsule.decode (T:=Take bytes) (p1 ++ p2 ++ l2) = (Err CEUnexpectedEnd, l') /\
    Capsule.read (MkIncoming (p1 ++ p2 ++ l2) e) = (Err (CEIo e), s).
Proof.
  intros E1 E2 Er1 Er2 Hge Hs. unfold MAX_CLOSE_PAYLOAD_SIZE, MAX_MESSAGE_SIZE in Hge.
  unfold Capsule.decode, Capsule.read. pose proof (len_nonneg l2).
  mstep E1. mstep E2. mstep Er1. mstep Er2. rewrite usize_try_from_small by lia.
  cbn [ok_or]. rewrite !bind_ret_l. rewrite (proj2 (Z.ltb_ge _ _)) by max_lia.
  mstep (read_exact_short (into_inner sz) (MkIncoming l2 e) Hs).
  unfold with_take, Capsule.decode_payload. eexists _, _. split; [|done].
  cbn [buf_take take_takebuf].
  assert (Hr : get_remaining (E:=CapsuleError) (MkTake l2 (into_inner sz))
    = (Ok (Z.min (len l2) (into_inner sz)), MkTake l2 (into_inner sz))) by done.
  mstep Hr. by rewrite (proj2 (Z.ltb_lt _ _)) by lia.
Qed.

(** A whole capsule off a stream is rebuilt in memory and decoded there. *)
Lemma capsule_read_full typ p1 sz p2 p rest e :
  VarInt.read (MkIncoming (p1 ++ p2 ++ p ++ rest) e) = (Ok typ, MkIncoming (p2 ++ p ++ rest) e) ->
  VarInt.read (MkIncoming (p2 ++ p ++ rest) e) = (Ok sz, MkIncoming (p ++ rest) e) ->
  varint_ok typ -> into_inner sz = len p -> len p <= MAX_CLOSE_PAYLOAD_SIZE ->
  Capsule.read (MkIncoming (p1 ++ p2 ++ p ++ rest) e) = (payload_spec typ p, MkIncoming rest e).
Proof.
  intros Er1 Er2 Ht Hp Hge. pose proof Hge as Hmax. unfold MAX_CLOSE_PAYLOAD_SIZE, MAX_MESSAGE_SIZE in Hge.
  pose proof (len_nonneg p).
  unfold Capsule.read. mstep Er1. mstep Er2. rewrite usize_try_from_small by lia.
  cbn [ok_or]. rewrite !bind_ret_l. rewrite (proj2 (Z.ltb_ge _ _)) by max_lia.
  mstep (read_exact_incoming (into_inner sz) p rest e Hp).
  rewrite Hp, capsule_rebuild by (done || lia). unfold lift at 1, bind, lift. f_equal.
  unfold tlv_bytes. rewrite <- (app_nil_r p) at 2.
  rewrite (capsule_decode_full typ _ (MkVarInt (len p))); try done.
  - by apply decode_varint_bytes.
  - apply decode_varint_bytes, payload_len_varint. lia.
Qed.

(** No VarInt is shorter than the one the encoder writes for its value. *)
Lemma capsule_bytes_shortest c p1 sz p2 rest :
  is_bytes (p1 ++ p2 ++ capsule_payload c ++ rest) ->
  VarInt.decode (p1 ++ p2 ++ capsule_payload c ++ rest)
    = (Ok (capsule_type c), p2 ++ capsule_payload c ++ rest) ->
  VarInt.decode (p2 ++ capsule_payload c ++ rest) = (Ok sz, capsule_payload c ++ rest) ->
  into_inner sz = len (capsule_payload c) -> into_inner sz <= MAX_CLOSE_PAYLOAD_SIZE ->
  len (capsule_bytes c) <= len (p1 ++ p2 ++ capsule_payload c) <= 1044.
Proof.
  intros Hl E1 E2 Hp Hge. unfold MAX_CLOSE_PAYLOAD_SIZE, MAX_MESSAGE_SIZE in Hge.
  pose proof Hl as Hl1. apply is_bytes_app in Hl1 as [_ Hl1].
  destruct (decode_Ok_inv _ _ _ Hl E1) as (q1 & Hq1 & _ & Hm1 & Hm1').
  destruct (decode_Ok_inv _ _ _ Hl1 E2) as (q2 & Hq2 & _ & Hm2 & Hm2').
  apply app_inv_tail in Hq1 as <-, Hq2 as <-.
  unfold capsule_bytes, tlv_bytes. rewrite !len_app, <- Hp.
  replace (MkVarInt (into_inner sz)) with sz by by destruct sz. lia.
Qed.

Lemma capsule_decode_cases e l : is_bytes l -> decode_agrees e l.
Proof.
  intros Hl. unfold decode_agrees, same_error.
  destruct (decode_split l Hl) as [(l' & E & Er)|(typ & p1 & l1 & -> & E1 & Ht & Hp1 & Hl1 & Er1)].
  { right. eexists (CEVarInt _), CEUnexpectedEnd, _, _. unfold Capsule.decode, Capsule.read.
    split; [unfold bind, map_err; by rewrite E|]. split; [by mstep (Er e)|]. right; left. eauto. }
  destruct (decode_split l1 Hl1) as [(l' & E & Er)|(sz & p2 & l2 & -> & E2 & Hsz & Hp2 & Hl2 & Er2)].
  { right. eexists (CEVarInt _), CEUnexpectedEnd, _, _. unfold Capsule.decode, Capsule.read.
    split; [mstep E1; by mstep E|]. split; [mstep (Er1 e); by mstep (Er e)|]. right; left. eauto. }
  destruct (Z.lt_ge_cases MAX_CLOSE_PAYLOAD_SIZE (into_inner sz)) as [Hlt|Hge].
  { destruct (capsule_oversized typ p1 sz p2 l2 e) as [-> ->]; try done. right. eexists _, _, _, _. split_and!; try done. auto. }
  destruct (Z.lt_ge_cases (len l2) (into_inner sz)) as [Hs|Hs].
  { destruct (capsule_truncated typ p1 sz p2 l2 e) as (l' & s & -> & ->); try done.
    right. eexists _, _, _, _. split_and!; try done. auto. }
  destruct (split_at (into_inner sz) l2) as (p & rest & -> & Hp); [destruct Hsz; lia|].
  apply is_bytes_app in Hl2 as [Hpb _]. rewrite <- Hp in Hge.
  rewrite (capsule_decode_full typ p1 sz p2 p rest E1 E2) by done.
  rewrite (capsule_read_full typ p1 sz p2 p rest e) by done.
  destruct (payload_spec_cases typ p) as [[c Epay]|(x & Epay & Hx)]; rewrite Epay.
  - left. apply payload_spec_ok in Epay as (Hc & <- & <-); try done.
    exists c, (p1 ++ p2 ++ capsule_payload c), rest. rewrite <- !app_assoc. split; [done|].
    split; [apply (capsule_bytes_shortest c p1 sz p2 rest); (done || lia)|]. split; [done|].
    by rewrite capsule_payload_rest.
  - right. eexists x, x, _, _. split_and!; try done. left. naive_solver.
Qed.
End Decode.

(** ** Encoding *)
Lemma capsule_encode_vec c (w : bytes) :
  capsule_ok c -> Capsule.encode c w = (Ok (), w ++ capsule_bytes c).
Proof.
  unfold capsule_bytes, tlv_bytes. destruct c as [code reason|typ payload]; cbn [capsule_type capsule_payload].
  - intros (Hc & _ & _ & Hl). unfold Capsule.encode. rewrite (proj2 (Z.ltb_ge _ _)) by lia.
    change (VarInt.from_u64 CLOSE_WEBTRANSPORT_SESSION_TYPE)
      with (@Ok VarIntBoundsExceeded _ (MkVarInt CLOSE_WEBTRANSPORT_SESSION_TYPE)).
    cbn [unwrap]. rewrite bind_ret_l. cbv zeta.
    mstep (encode_vec (E:=CapsuleError) (MkVarInt CLOSE_WEBTRANSPORT_SESSION_TYPE) w ltac:(by vm_compute)).
    rewrite len_app, len_to_be_bytes. change (Z.of_nat 4) with 4.
    unfold as_u, VarInt.from_u32. pose proof (len_nonneg reason).
    rewrite Z.mod_small by max_lia.
    assert (Hv : varint_ok (MkVarInt (4 + len reason))).
    { split; cbn [into_inner]; [lia|]. rewrite varint_max_val. max_lia. }
    mstep (encode_vec (E:=CapsuleError) _ (w ++ varint_bytes (MkVarInt CLOSE_WEBTRANSPORT_SESSION_TYPE)) Hv).
    unfold put_u32, put_slice, bind. cbn [put vec_bufmut]. by rewrite <- !app_assoc.
  - intros (Ht & Hne & Hb & Hl). unfold Capsule.encode. rewrite (proj2 (Z.ltb_ge _ _)) by lia.
    pose proof (capsule_rebuild typ payload Ht ltac:(max_lia)) as Hr.
    unfold Capsule.rebuild in Hr. unfold tlv_bytes in Hr.
    assert (Hv : varint_ok (MkVarInt (len payload))) by (apply payload_len_varint; max_lia).
    mstep (encode_vec (E:=CapsuleError) typ w Ht).
    unfold Capsule.encode_len, VarInt.try_from_usize, VarInt.try_from_u64, VarInt.from_u64, as_u, lift, map_err, bind.
    pose proof (len_nonneg payload). rewrite Z.mod_small by max_lia. rewrite varint_max_val.
    rewrite (proj2 (Z.leb_le _ _)) by max_lia.
    rewrite encode_vec by done. cbn. by rewrite <- !app_assoc.
Qed.
Lemma capsule_bytes_is_bytes c : capsule_ok c -> is_bytes (capsule_bytes c).
Proof.
  intros Hc. pose proof (capsule_payload_len c Hc).
  unfold capsule_bytes, tlv_bytes. rewrite !is_bytes_app. split_and!.
  - by apply varint_bytes_is_bytes, capsule_type_ok.
  - apply varint_bytes_is_bytes, payload_len_varint. max_lia.
  - by apply capsule_payload_bytes.
Qed.

(** ** Properties *)

(** C31: a well-formed capsule (a reason that is valid UTF-8 of at most 1,024
    bytes, an unknown payload of at most 1,028) is always encoded; both the
    buffer decoder and the stream reader give it back and leave exactly what
    follows.  A longer reason or payload is refused before a byte is written. *)
Theorem capsule_roundtrip `{Platform} (c : Capsule) (w : bytes) :
  (capsule_ok c ->
     exists bs, Capsule.encode c w = (Ok (), w ++ bs) /\ is_bytes bs /\
       (forall rest, Capsule.decode (T:=Take bytes) (bs ++ rest) = (Ok c, rest)) /\
       (forall rest e, is_bytes rest ->
          Capsule.read (MkIncoming (bs ++ rest) e) = (Ok c, MkIncoming rest e))) /\
  ((MAX_MESSAGE_SIZE < len (match c with CloseWebTransportSession _ r => r | _ => [] end) \/
    MAX_CLOSE_PAYLOAD_SIZE < len (match c with Unknown _ p => p | _ => [] end)) ->
     Capsule.encode c w = (Err CEMessageTooLong, w)).
Proof.
  split.
  - intros Hc. exists (capsule_bytes c). split_and!.
    + by apply capsule_encode_vec.
    + by apply capsule_bytes_is_bytes.
    + intros. by apply capsule_decode_bytes.
    + intros rest e Hr. pose proof (capsule_decode_bytes c rest Hc) as Hd.
      destruct (capsule_decode_cases e (capsule_bytes c ++ rest))
        as [(c' & pre & rest' & _ & _ & _ & Hd' & ->)|(x & y & l' & s & Hd' & _)].
      { apply is_bytes_app. split; [by apply capsule_bytes_is_bytes|done]. }
      all: rewrite Hd in Hd'; by simplify_eq.
  - destruct c as [code reason|typ payload]; cbn; intros [Hl|Hl]; rewrite ?len_nil in Hl; try max_lia;
      by rewrite (proj2 (Z.ltb_lt _ _)) by done.
Qed.
Lemma capsule_roundtrip_witness :
  (capsule_ok (CloseWebTransportSession 420 (lit "test")) ->
     exists bs, Capsule.encode (CloseWebTransportSession 420 (lit "test")) [] = (Ok (), [] ++ bs) /\ is_bytes bs /\
       (forall rest, Capsule.decode (H:=Platform64) (T:=Take bytes) (bs ++ rest)
          = (Ok (CloseWebTransportSession 420 (lit "test")), rest)) /\
       (forall rest e, is_bytes rest ->
          Capsule.read (H:=Platform64) (MkIncoming (bs ++ rest) e)
          = (Ok (CloseWebTransportSession 420 (lit "test")), MkIncoming rest e))) /\
  Capsule.encode (CloseWebTransportSession 1 (repeat 97 1025)) [] = (Err CEMessageTooLong, []) /\
  capsule_ok (CloseWebTransportSession 420 (lit "test")).
Proof.
  split; [apply (capsule_roundtrip (H:=Platform64) (CloseWebTransportSession 420 (lit "test")) [])|].
  split; [apply (capsule_roundtrip (H:=Platform64) (CloseWebTransportSession 1 (repeat 97 1025)) []); left; vm_compute; reflexivity|].
  by_eval.
Defined.

(** On every byte string the capsule decoder and the stream reader return
    without a panic and agree: either both give the same well-formed capsule, of
    at most 1,044 bytes, and leave the same bytes, or both fail, with the same
    error but that a stream which ends is reported by its own error. *)
Theorem capsule_decode_read `{Platform} (e : io_error) (l : bytes) (Hl : is_bytes l) :
  (exists c pre rest, l = pre ++ rest /\ len (capsule_bytes c) <= len pre <= 1044 /\ capsule_ok c /\
     Capsule.decode (T:=Take bytes) l = (Ok c, rest) /\
     Capsule.read (MkIncoming l e) = (Ok c, MkIncoming rest e)) \/
  (exists x y l' s, Capsule.decode (T:=Take bytes) l = (Err x, l') /\
     Capsule.read (MkIncoming l e) = (Err y, s) /\ same_error e x y).
Proof. by apply capsule_decode_cases. Qed.
Lemma capsule_decode_read_witness :
  let l := [0x68; 0x43; 5; 0; 0; 0; 0; 0xFF] in
  let e := IoError UnexpectedEof [] in
  Capsule.decode (H:=Platform64) (T:=Take bytes) l = (Err CEInvalidUtf8, []) /\
  ((exists c pre rest, l = pre ++ rest /\ len (capsule_bytes c) <= len pre <= 1044 /\ capsule_ok c /\
     Capsule.decode (H:=Platform64) (T:=Take bytes) l = (Ok c, rest) /\
     Capsule.read (H:=Platform64) (MkIncoming l e) = (Ok c, MkIncoming rest e)) \/
  (exists x y l' s, Capsule.decode (H:=Platform64) (T:=Take bytes) l = (Err x, l') /\
     Capsule.read (H:=Platform64) (MkIncoming l e) = (Err y, s) /\ same_error e x y)).
Proof.
  split; [vm_compute; reflexivity|].
  apply (capsule_decode_read (H:=Platform64)).
  repeat constructor; vm_compute; first [discriminate|reflexivity].
Defined.
