(* ===== verification/HuffmanTable.v ===== *)
(** * The tables of the Huffman decoder (webtrans-proto/src/huffman.rs)

    One definition per constant of the [bits_decode!] macro call, in the order
    that their references need. *)
From S2P Require Import Prelude.

(** A decoder node reads [lookup] bits and looks them up in its table. *)
Inductive HuffmanDecoder :=
| MkHuffmanDecoder (lookup : Z) (table : list DecodeValue)
with DecodeValue :=
| Partial (d : HuffmanDecoder)
| Sym (x : Z).
Definition lookup_bits (d : HuffmanDecoder) : Z := let '(MkHuffmanDecoder n _) := d in n.
Definition table (d : HuffmanDecoder) : list DecodeValue := let '(MkHuffmanDecoder _ t) := d in t.

(** The arms of the macro: symbols, then subtrees; two or four symbols; a symbol
    and a subtree; two or four subtrees. *)
Definition bits_general (count : Z) (syms : list Z) (subs : list HuffmanDecoder) : HuffmanDecoder :=
  MkHuffmanDecoder count (map Sym syms ++ map Partial subs).
Definition bits_ss (a b : Z) : HuffmanDecoder := MkHuffmanDecoder 1 [Sym a; Sym b].
Definition bits_ssss (a b c d : Z) : HuffmanDecoder := MkHuffmanDecoder 2 [Sym a; Sym b; Sym c; Sym d].
Definition bits_sp (a : Z) (b : HuffmanDecoder) : HuffmanDecoder := MkHuffmanDecoder 1 [Sym a; Partial b].
Definition bits_pp (a b : HuffmanDecoder) : HuffmanDecoder := MkHuffmanDecoder 1 [Partial a; Partial b].
Definition bits_pppp (a b c d : HuffmanDecoder) : HuffmanDecoder :=
  MkHuffmanDecoder 2 [Partial a; Partial b; Partial c; Partial d].

Definition END0_01010 : HuffmanDecoder := bits_ss 32 37.
Definition END0_01011 : HuffmanDecoder := bits_ss 45 46.
Definition END0_01100 : HuffmanDecoder := bits_ss 47 51.
Definition END0_01101 : HuffmanDecoder := bits_ss 52 53.
Definition END0_01110 : HuffmanDecoder := bits_ss 54 55.
Definition END0_01111 : HuffmanDecoder := bits_ss 56 57.
Definition END0_10000 : HuffmanDecoder := bits_ss 61 65.
Definition END0_10001 : HuffmanDecoder := bits_ss 95 98.
Definition END0_10010 : HuffmanDecoder := bits_ss 100 102.
Definition END0_10011 : HuffmanDecoder := bits_ss 103 104.
Definition END0_10100 : HuffmanDecoder := bits_ss 108 109.
Definition END0_10101 : HuffmanDecoder := bits_ss 110 112.
Definition END0_10110 : HuffmanDecoder := bits_ss 114 117.
Definition END0_10111 : HuffmanDecoder := bits_ssss 58 66 67 68.
Definition END0_11000 : HuffmanDecoder := bits_ssss 69 70 71 72.
Definition END0_11001 : HuffmanDecoder := bits_ssss 73 74 75 76.
Definition END0_11010 : HuffmanDecoder := bits_ssss 77 78 79 80.
Definition END0_11011 : HuffmanDecoder := bits_ssss 81 82 83 84.
Definition END0_11100 : HuffmanDecoder := bits_ssss 85 86 87 89.
Definition END0_11101 : HuffmanDecoder := bits_ssss 106 107 113 118.
Definition END0_11110 : HuffmanDecoder := bits_ssss 119 120 121 122.
Definition END5_00 : HuffmanDecoder := bits_ss 38 42.
Definition END5_01 : HuffmanDecoder := bits_ss 44 59.
Definition END5_10 : HuffmanDecoder := bits_ss 88 90.
Definition END7_0 : HuffmanDecoder := bits_ssss 33 34 40 41.
Definition END9A_1 : HuffmanDecoder := bits_ss 39 43.
Definition END8_0 : HuffmanDecoder := bits_sp 63 END9A_1.
Definition END9B_01 : HuffmanDecoder := bits_ss 35 62.
Definition END9B_10 : HuffmanDecoder := bits_ssss 0 36 64 91.
Definition END13_10 : HuffmanDecoder := bits_ss 94 125.
Definition END14_0 : HuffmanDecoder := bits_ss 60 96.
Definition END19_0011 : HuffmanDecoder := bits_ss 128 130.
Definition END19_0100 : HuffmanDecoder := bits_ss 131 162.
Definition END19_0101 : HuffmanDecoder := bits_ss 184 194.
Definition END19_0110 : HuffmanDecoder := bits_ss 224 226.
Definition END19_0111 : HuffmanDecoder := bits_ssss 153 161 167 172.
Definition END19_1000 : HuffmanDecoder := bits_ssss 176 177 179 209.
Definition END19_1001 : HuffmanDecoder := bits_ssss 216 217 227 229.
Definition END19_1010_01 : HuffmanDecoder := bits_ss 129 132.
Definition END19_1010_10 : HuffmanDecoder := bits_ss 133 134.
Definition END19_1010_11 : HuffmanDecoder := bits_ss 136 146.
Definition END19_1010 : HuffmanDecoder := bits_general 2 [230]
    [END19_1010_01; END19_1010_10; END19_1010_11].
Definition END19_1011 : HuffmanDecoder := bits_general 3 [154; 156; 160; 163; 164; 169; 170; 173] [].
Definition END19_1100 : HuffmanDecoder := bits_general 3 [178; 181; 185; 186; 187; 189; 190; 196] [].
Definition END23A_100 : HuffmanDecoder := bits_ss 1 135.
Definition END23A_101 : HuffmanDecoder := bits_ss 137 138.
Definition END23A_110 : HuffmanDecoder := bits_ss 139 140.
Definition END23A_111 : HuffmanDecoder := bits_ss 141 143.
Definition END19_1101 : HuffmanDecoder := bits_general 3 [198; 228; 232; 233]
    [END23A_100; END23A_101; END23A_110; END23A_111].
Definition END19_1110 : HuffmanDecoder := bits_general 4 [147; 149; 150; 151; 152; 155; 157; 158; 165; 166; 168; 174; 175; 180; 182; 183] [].
Definition END23B_0101 : HuffmanDecoder := bits_ss 9 142.
Definition END23B_0110 : HuffmanDecoder := bits_ss 144 145.
Definition END23B_0111 : HuffmanDecoder := bits_ss 148 159.
Definition END23B_1000 : HuffmanDecoder := bits_ss 171 206.
Definition END23B_1001 : HuffmanDecoder := bits_ss 215 225.
Definition END23B_1010 : HuffmanDecoder := bits_ss 236 237.
Definition END23B_1011 : HuffmanDecoder := bits_ssss 199 207 234 235.
Definition END23B_1100 : HuffmanDecoder := bits_general 3 [192; 193; 200; 201; 202; 205; 210; 213] [].
Definition END27A_111 : HuffmanDecoder := bits_ss 203 204.
Definition END23B_1101 : HuffmanDecoder := bits_general 3 [218; 219; 238; 240; 242; 243; 255]
    [END27A_111].
Definition END23B_1110 : HuffmanDecoder := bits_general 4 [211; 212; 214; 221; 222; 223; 241; 244; 245; 246; 247; 248; 250; 251; 252; 253] [].
Definition END27B_0001 : HuffmanDecoder := bits_ss 2 3.
Definition END27B_0010 : HuffmanDecoder := bits_ss 4 5.
Definition END27B_0011 : HuffmanDecoder := bits_ss 6 7.
Definition END27B_0100 : HuffmanDecoder := bits_ss 8 11.
Definition END27B_0101 : HuffmanDecoder := bits_ss 12 14.
Definition END27B_0110 : HuffmanDecoder := bits_ss 15 16.
Definition END27B_0111 : HuffmanDecoder := bits_ss 17 18.
Definition END27B_1000 : HuffmanDecoder := bits_ss 19 20.
Definition END27B_1001 : HuffmanDecoder := bits_ss 21 23.
Definition END27B_1010 : HuffmanDecoder := bits_ss 24 25.
Definition END27B_1011 : HuffmanDecoder := bits_ss 26 27.
Definition END27B_1100 : HuffmanDecoder := bits_ss 28 29.
Definition END27B_1101 : HuffmanDecoder := bits_ss 30 31.
Definition END27B_1110 : HuffmanDecoder := bits_ss 127 220.
Definition EOF : HuffmanDecoder := bits_general 8 [] [].
Definition END31_1 : HuffmanDecoder := bits_general 2 [10; 13; 22]
    [EOF].
Definition END27B_1111 : HuffmanDecoder := bits_general 1 [249]
    [END31_1].
Definition END23B_1111 : HuffmanDecoder := bits_general 4 [254]
    [END27B_0001; END27B_0010; END27B_0011; END27B_0100; END27B_0101; END27B_0110;
    END27B_0111; END27B_1000; END27B_1001; END27B_1010; END27B_1011; END27B_1100; END27B_1101;
    END27B_1110; END27B_1111].
Definition END19_1111 : HuffmanDecoder := bits_general 4 [188; 191; 197; 231; 239]
    [END23B_0101; END23B_0110; END23B_0111; END23B_1000; END23B_1001; END23B_1010;
    END23B_1011; END23B_1100; END23B_1101; END23B_1110; END23B_1111].
Definition END15_1 : HuffmanDecoder := bits_general 4 [92; 195; 208]
    [END19_0011; END19_0100; END19_0101; END19_0110; END19_0111; END19_1000; END19_1001;
    END19_1010; END19_1011; END19_1100; END19_1101; END19_1110; END19_1111].
Definition END14_1 : HuffmanDecoder := bits_sp 123 END15_1.
Definition END13_11 : HuffmanDecoder := bits_pp END14_0 END14_1.
Definition END9B_11 : HuffmanDecoder := bits_general 2 [93; 126]
    [END13_10; END13_11].
Definition END8_1 : HuffmanDecoder := bits_general 2 [124]
    [END9B_01; END9B_10; END9B_11].
Definition END7_1 : HuffmanDecoder := bits_pp END8_0 END8_1.
Definition END5_11 : HuffmanDecoder := bits_pp END7_0 END7_1.
Definition END0_11111 : HuffmanDecoder := bits_pppp END5_00 END5_01 END5_10 END5_11.
Definition HPACK_STRING : HuffmanDecoder := bits_general 5 [48; 49; 50; 97; 99; 101; 105; 111; 115; 116]
    [END0_01010; END0_01011; END0_01100; END0_01101; END0_01110; END0_01111; END0_10000;
    END0_10001; END0_10010; END0_10011; END0_10100; END0_10101; END0_10110; END0_10111;
    END0_11000; END0_11001; END0_11010; END0_11011; END0_11100; END0_11101; END0_11110;
    END0_11111].
