(* ===== verification/Huffman.v ===== *)
(** * The Huffman decoder of QPACK strings (webtrans-proto/src/huffman.rs) *)
From S2P Require Import Prelude Bits HuffmanTable.

(** [u32] arithmetic: an overflow panics. *)
Definition u32 {E} (x : Z) : outcome E Z := if x <? 2 ^ 32 then Ok x else Panic.

Record BitWindow := MkBitWindow { bw_byte : Z; bw_bit : Z; bw_count : Z }.
#[export] Instance BitWindow_eq_dec : EqDecision BitWindow.
Proof. solve_decision. Defined.

Inductive HuffmanError :=
| MissingBits (w : BitWindow)
| Unhandled (w : BitWindow) (value : Z).
#[export] Instance HuffmanError_eq_dec : EqDecision HuffmanError.
Proof. solve_decision. Defined.

Module BitWindow.
Definition new : BitWindow := MkBitWindow 0 0 0.
Definition forwards {E} (step : Z) (w : BitWindow) : outcome E BitWindow :=
  let? bit := u32 (bw_bit w + bw_count w) in
  let? byte := u32 (bw_byte w + bit / 8) in
  Ok (MkBitWindow byte (bit mod 8) step).
Definition opposite_bit_window (w : BitWindow) : BitWindow :=
  MkBitWindow (bw_byte w) (bw_bit w) (8 - bw_bit w mod 8).
End BitWindow.

(** [src[i]] *)
Definition index {E} (src : bytes) (i : Z) : outcome E Z :=
  match src !! Z.to_nat i with Some b => Ok b | None => Panic end.

Definition read_bits (src : bytes) (byte_offset bit_offset len : Z) : outcome unit Z :=
  if (len =? 0) || (8 <? len) then Err tt else
  let? total := u32 (as_u32 (Prelude.len src) * 8) in
  let? byte_bits := u32 (byte_offset * 8) in
  let? start := u32 (byte_bits + bit_offset) in
  let? stop := u32 (start + len) in
  if total <? stop then Err tt else
  let byte_offset := byte_offset + bit_offset / 8 in
  let bit_offset := bit_offset - (bit_offset / 8) * 8 in
  if bit_offset + len <=? 8 then
    let? b := index src byte_offset in
    Ok (Z.shiftr (as_u8 (Z.shiftl b bit_offset)) (8 - len))
  else
    let? b0 := index src byte_offset in
    let? b1 := index src (byte_offset + 1) in
    let result := Z.lor (as_u16 (Z.shiftl b0 8)) b1 in
    Ok (as_u8 (Z.shiftr (as_u16 (Z.shiftl result bit_offset)) (16 - len))).

Module HuffmanDecoder.
(** [&mut BitWindow] is the state. *)
Definition check_eof (input : bytes) : M BitWindow HuffmanError (option Z) := fun bit_pos =>
  match u32 (E:=HuffmanError) (bw_byte bit_pos + 1) with
  | Ok next =>
      match next ?= len input with
      | Gt => (Ok None, bit_pos)
      | Eq =>
          let side := BitWindow.opposite_bit_window bit_pos in
          match read_bits input (bw_byte side) (bw_bit side) (bw_count side) with
          | Ok rest =>
              let eof_filler := as_u8 (as_u16 (Z.shiftl 2 (bw_count side - 1)) - 1) in
              if Z.land rest eof_filler =? eof_filler then (Ok None, bit_pos)
              else (Err (MissingBits bit_pos), bit_pos)
          | Err _ => (Err (MissingBits side), bit_pos)
          | _ => (Panic, bit_pos)
          end
      | Lt => (Err (MissingBits bit_pos), bit_pos)
      end
  | _ => (Panic, bit_pos)
  end.

Definition fetch_value (input : bytes) : M BitWindow HuffmanError (option Z) := fun bit_pos =>
  match read_bits input (bw_byte bit_pos) (bw_bit bit_pos) (bw_count bit_pos) with
  | Ok value => (Ok (Some value), bit_pos)
  | Err _ => check_eof input bit_pos
  | _ => (Panic, bit_pos)
  end.

(** The recursion follows the tree, whose depth is the fuel. *)
Fixpoint decode_next (fuel : nat) (d : HuffmanDecoder) (input : bytes)
  : M BitWindow HuffmanError (option Z) :=
  match fuel with
  | O => out_of_fuel
  | S fuel => fun bit_pos =>
      match BitWindow.forwards (E:=HuffmanError) (lookup_bits d) bit_pos with
      | Ok bit_pos =>
          match fetch_value input bit_pos with
          | (Ok (Some value), bit_pos) =>
              match table d !! Z.to_nat value with
              | None => (Err (Unhandled bit_pos value), bit_pos)
              | Some (Sym x) => (Ok (Some x), bit_pos)
              | Some (Partial d) => decode_next fuel d input bit_pos
              end
          | r => r
          end
      | _ => (Panic, bit_pos)
      end
  end.
End HuffmanDecoder.

(** The depth of the tree. *)
Fixpoint height (d : HuffmanDecoder) : nat :=
  let '(MkHuffmanDecoder _ t) := d in
  S (fold_right (fun v n => match v with Partial d => Nat.max (height d) n | Sym _ => n end) O t).

(** [DecodeIter::next] *)
Definition next (content : bytes) : M BitWindow HuffmanError (option Z) :=
  HuffmanDecoder.decode_next (height HPACK_STRING) HPACK_STRING content.

(** The [for byte in payload.hpack_decode() { decoded.push(byte?) }] loop. *)
Fixpoint collect (fuel : nat) (content : bytes) (decoded : bytes) : M BitWindow HuffmanError bytes :=
  match fuel with
  | O => out_of_fuel
  | S fuel =>
      let* o := next content in
      match o with
      | Some x => collect fuel content (decoded ++ [x])
      | None => ret decoded
      end
  end.
(** A symbol takes five bits at least: eight times the length is fuel enough. *)
Definition hpack_decode (content : bytes) : outcome HuffmanError bytes :=
  fst (collect (S (8 * length content)) content [] BitWindow.new).

(** ** The reference: walking the tree along a bit string *)
Inductive walk_result :=
| WSym (x : Z) (rest : bits)
| WShort (rest : bits)
| WUnhandled
| WOutOfFuel.
Fixpoint walk (fuel : nat) (d : HuffmanDecoder) (l : bits) : walk_result :=
  match fuel with
  | O => WOutOfFuel
  | S fuel =>
      let n := Z.to_nat (lookup_bits d) in
      if (length l <? n)%nat then WShort l
      else match table d !! Z.to_nat (bits_val (take n l)) with
           | None => WUnhandled
           | Some (Sym x) => WSym x (drop n l)
           | Some (Partial d) => walk fuel d (drop n l)
           end
  end.

(** The codes of a tree, with their symbols. *)
Fixpoint paths (fuel : nat) (d : HuffmanDecoder) : list (bits * Z) :=
  match fuel with
  | O => []
  | S fuel =>
      concat (imap (fun i v =>
        let c := to_bits (Z.to_nat (lookup_bits d)) (Z.of_nat i) in
        match v with
        | Sym x => [(c, x)]
        | Partial d => map (fun p => (c ++ fst p, snd p)) (paths fuel d)
        end) (table d))
  end.

(** Every node reads one to eight bits, has no more entries than they can
    index, and lies within the fuel. *)
Fixpoint tree_ok (fuel : nat) (d : HuffmanDecoder) : bool :=
  match fuel with
  | O => false
  | S fuel =>
      (1 <=? lookup_bits d) && (lookup_bits d <=? 8) && (len (table d) <=? 2 ^ lookup_bits d) &&
      forallb (fun v => match v with Partial d => tree_ok fuel d | Sym _ => true end) (table d)
  end.
Definition HEIGHT : nat := height HPACK_STRING.
Lemma hpack_tree_ok : tree_ok HEIGHT HPACK_STRING = true.
Proof. vm_compute. reflexivity. Qed.

Lemma tree_ok_S fuel d :
  tree_ok (S fuel) d = true ->
  1 <= lookup_bits d <= 8 /\ len (table d) <= 2 ^ lookup_bits d /\
  forall i d', table d !! i = Some (Partial d') -> tree_ok fuel d' = true.
Proof.
  cbn [tree_ok]. rewrite !andb_true_iff, !Z.leb_le. intros [[[? ?] ?] Hall].
  split; [lia|]. split; [done|]. intros i d' Hi. rewrite List.forallb_forall in Hall.
  apply (Hall (Partial d')). apply list_elem_of_In. by eapply list_elem_of_lookup_2.
Qed.

Lemma paths_walk fuel : forall d c x rest,
  tree_ok fuel d = true -> (c, x) ∈ paths fuel d -> walk fuel d (c ++ rest) = WSym x rest.
Proof.
  induction fuel as [|fuel IH]; intros d c x rest Hok Hin; [done|].
  apply tree_ok_S in Hok as (Hn & Ht & Hsub). cbn [paths walk] in *.
  set (n := Z.to_nat (lookup_bits d)) in *.
  apply list_elem_of_In, in_concat in Hin as (ps & Hps & Hin).
  apply list_elem_of_In, elem_of_lookup_imap in Hps as (i & v & -> & Hi). apply list_elem_of_In in Hin.
  assert (Hlt : Z.of_nat i < 2 ^ lookup_bits d).
  { apply lookup_lt_Some in Hi. unfold len in Ht. lia. }
  assert (Hv : Z.to_nat (bits_val (to_bits n (Z.of_nat i))) = i).
  { rewrite bits_val_to_bits. unfold n. rewrite Z2Nat.id, Z.mod_small by lia. lia. }
  pose proof (length_to_bits n (Z.of_nat i)) as Hl.
  destruct v as [d'|y].
  - apply list_elem_of_fmap in Hin as ([c' x'] & [= -> ->] & Hin). cbn [fst snd].
    rewrite <- app_assoc, length_app, Hl, (proj2 (Nat.ltb_ge _ _)) by lia.
    rewrite take_app_length', drop_app_length', Hv, Hi by done. apply IH; [by eapply Hsub|done].
  - apply list_elem_of_singleton in Hin as [= -> ->].
    rewrite length_app, Hl, (proj2 (Nat.ltb_ge _ _)) by lia.
    by rewrite take_app_length', drop_app_length', Hv, Hi by done.
Qed.

Lemma walk_paths fuel : forall d l x rest,
  tree_ok fuel d = true -> walk fuel d l = WSym x rest ->
  exists c, (c, x) ∈ paths fuel d /\ l = c ++ rest /\ c <> [].
Proof.
  induction fuel as [|fuel IH]; intros d l x rest Hok Hw; [done|].
  apply tree_ok_S in Hok as (Hn & Ht & Hsub). cbn [paths walk] in *.
  set (n := Z.to_nat (lookup_bits d)) in *.
  destruct (Nat.ltb_spec (length l) n) as [|Hl]; [done|].
  set (i := Z.to_nat (bits_val (take n l))) in *.
  destruct (table d !! i) as [v|] eqn:Hi; [|done].
  assert (Hc : to_bits n (Z.of_nat i) = take n l).
  { unfold i. pose proof (bits_val_bound (take n l)). rewrite Z2Nat.id by lia.
    replace n with (length (take n l)) at 1 by (rewrite length_take; lia). apply to_bits_bits_val. }
  assert (Hne : take n l <> []).
  { intros E. apply (f_equal length) in E. rewrite length_take in E. cbn in E. lia. }
  assert (Hins : forall ps, (let c := to_bits n (Z.of_nat i) in
      match v with Sym x => [(c, x)] | Partial d => map (fun p => (c ++ fst p, snd p)) (paths fuel d) end) = ps ->
      forall cx, cx ∈ ps -> cx ∈ paths (S fuel) d).
  { intros ps <- cx Hcx. cbn [paths]. apply list_elem_of_In, in_concat. eexists. split; [|by apply list_elem_of_In].
    apply list_elem_of_In, elem_of_lookup_imap. exists i, v. done. }
  destruct v as [d'|y].
  - destruct (IH d' (drop n l) x rest (Hsub _ _ Hi) Hw) as (c & Hin & Hd & _).
    exists (take n l ++ c). split; [|split].
    + eapply Hins; [reflexivity|]. cbv zeta. rewrite Hc.
      apply list_elem_of_fmap. by exists (c, x).
    + rewrite <- app_assoc, <- Hd. by rewrite take_drop.
    + intros [E _]%app_eq_nil. done.
  - injection Hw as -> <-. exists (take n l). split; [|split; [by rewrite take_drop|done]].
    eapply Hins; [reflexivity|]. cbv zeta. rewrite Hc. by apply list_elem_of_singleton.
Qed.

Lemma walk_fuel fuel : forall d l, tree_ok fuel d = true -> walk fuel d l <> WOutOfFuel.
Proof.
  induction fuel as [|fuel IH]; intros d l Hok; [done|].
  apply tree_ok_S in Hok as (Hn & Ht & Hsub). cbn [walk].
  destruct (_ <? _)%nat; [done|]. destruct (table d !! _) as [[d'|y]|] eqn:Hi; [|done..].
  apply IH. by eapply Hsub.
Qed.

(** ** The bit reader *)
Lemma u32_ok {E} x : x < 2 ^ 32 -> u32 (E:=E) x = Ok x.
Proof. intros. unfold u32. by rewrite (proj2 (Z.ltb_lt _ _)). Qed.

(** Inputs the 32-bit bit counters can address. *)
Definition addressable (src : bytes) : Prop := is_bytes src /\ len src <= 2 ^ 28.

Lemma read_bits_short src byte bit n :
  addressable src -> 0 <= byte <= len src -> 0 <= bit < 8 -> 1 <= n <= 8 ->
  8 * len src < 8 * byte + bit + n -> read_bits src byte bit n = Err tt.
Proof.
  intros [Hb Hl] Hby Hbi Hn Hs. unfold read_bits.
  rewrite (proj2 (Z.eqb_neq n 0)), (proj2 (Z.ltb_ge 8 n)) by lia. cbn [orb].
  unfold as_u. rewrite Z.mod_small by (pose_len; lia).
  rewrite !u32_ok by lia. cbn [obind]. rewrite u32_ok by lia. cbn [obind].
  rewrite u32_ok by lia. cbn [obind]. by rewrite (proj2 (Z.ltb_lt _ _)) by lia.
Qed.

Lemma index_app {E} pre b post i : i = len pre -> index (E:=E) (pre ++ b :: post) i = Ok b.
Proof.
  intros ->. unfold index. rewrite len_to_nat. by rewrite list_lookup_middle.
Qed.

Lemma read_bits_ok src byte bit n :
  addressable src -> 0 <= byte -> 0 <= bit < 8 -> 1 <= n <= 8 ->
  8 * byte + bit + n <= 8 * len src ->
  read_bits src byte bit n
  = Ok (bits_val (take (Z.to_nat n) (drop (Z.to_nat (8 * byte + bit)) (bits_of src)))).
Proof.
  intros [Hb Hl] Hby Hbi Hn Hs. unfold read_bits.
  rewrite (proj2 (Z.eqb_neq n 0)), (proj2 (Z.ltb_ge 8 n)) by lia. cbn [orb].
  unfold as_u at 1. rewrite Z.mod_small by (pose_len; lia).
  rewrite !u32_ok by lia. cbn [obind]. rewrite u32_ok by lia. cbn [obind].
  rewrite u32_ok by lia. cbn [obind]. rewrite (proj2 (Z.ltb_ge _ _)) by lia.
  rewrite Z.div_small, Z.add_0_r, Z.mul_0_l, Z.sub_0_r by lia.
  destruct (split_at byte src ltac:(lia)) as (pre & post & -> & Hpre).
  rewrite len_app in Hs. apply is_bytes_app in Hb as [_ Hb].
  destruct post as [|b post]; [rewrite len_nil in Hs; lia|]. rewrite len_cons in Hs.
  inversion Hb as [|? ? Hb0 Hb']; subst.
  assert (Hd : drop (Z.to_nat (8 * len pre + bit)) (bits_of (pre ++ b :: post))
    = drop (Z.to_nat bit) (to_bits 8 b ++ bits_of post)).
  { rewrite bits_of_app, bits_of_cons.
    pose proof (len_bits_of pre) as Hp. unfold len in Hp at 1.
    replace (Z.to_nat (8 * len pre + bit)) with (length (bits_of pre) + Z.to_nat bit)%nat by lia.
    by rewrite drop_app_add. }
  rewrite Hd. rewrite index_app by done. cbn [obind]. rewrite !Z.shiftl_mul_pow2, !Z.shiftr_div_pow2 by lia.
  unfold is_u in Hb0.
  destruct (Z.leb_spec (bit + n) 8) as [H8|H8].
  - f_equal. unfold as_u. rewrite shift_window by lia.
    rewrite drop_app_le, take_app_le by (rewrite ?length_drop, length_to_bits; lia).
    rewrite bits_window by lia. do 2 f_equal; [f_equal|]; lia.
  - destruct post as [|b1 post]; [rewrite len_nil in Hs; lia|].
    inversion Hb' as [|? ? Hb1 Hb'']; subst. unfold is_u in Hb1.
    replace (pre ++ b :: b1 :: post) with ((pre ++ [b]) ++ b1 :: post) by by rewrite <- app_assoc.
    rewrite index_app by len_lia. cbn [obind]. f_equal.
    unfold as_u. rewrite (Z.mod_small (b * 2 ^ 8)) by (change (2 ^ 8) with 256 in *; lia).
    assert (Hlor : Z.lor (b * 2 ^ 8) b1 = b * 256 + b1).
    { rewrite <- Z.shiftl_mul_pow2 by lia. apply lor_tag_add; lia. }
    rewrite Z.shiftl_mul_pow2, Z.shiftr_div_pow2, Hlor, shift_window by lia.
    rewrite bits_of_cons, app_assoc, to_bits_two by done.
    rewrite drop_app_le, take_app_le by (rewrite ?length_drop, length_to_bits; lia).
    rewrite bits_window by lia. change (2 ^ 8) with 256.
    replace (Z.of_nat 16 - Z.of_nat (Z.to_nat bit) - Z.of_nat (Z.to_nat n)) with (16 - bit - n) by lia.
    rewrite Z2Nat.id by lia. apply Z.mod_small.
    pose proof (Z.mod_pos_bound ((b * 256 + b1) / 2 ^ (16 - bit - n)) (2 ^ n) ltac:(lia)).
    assert (2 ^ n <= 2 ^ 8) by (apply Z.pow_le_mono_r; lia). change (2 ^ 8) with 256 in *. lia.
Qed.

(** ** Following the tree with a bit window *)
Section Window.
Context (src : bytes) (Hsrc : addressable src).
Let total := 8 * len src.

(** The window [w] ends at bit [p] of the input. *)
Definition window_at (w : BitWindow) (p : Z) : Prop :=
  0 <= bw_byte w /\ 0 <= bw_bit w < 8 /\ 0 <= bw_count w <= 8 /\
  8 * bw_byte w + bw_bit w + bw_count w = p /\ p <= total.
Definition after (p : Z) : bits := drop (Z.to_nat p) (bits_of src).
Definition window (p step : Z) : BitWindow := MkBitWindow (p / 8) (p mod 8) step.

Lemma len_after p : 0 <= p <= total -> len (after p) = total - p.
Proof. intros. unfold after. rewrite len_drop; rewrite len_bits_of; fold total; lia. Qed.
Lemma total_bound : 0 <= total <= 2 ^ 31.
Proof. unfold total. destruct Hsrc as [_ ?]. pose_len. lia. Qed.

Lemma forwards_window w p step :
  window_at w p -> BitWindow.forwards (E:=HuffmanError) step w = Ok (window p step).
Proof.
  intros (Hb & Hbit & Hc & Hp & Ht). pose proof total_bound.
  unfold BitWindow.forwards, window. rewrite u32_ok by lia. cbn [obind].
  rewrite u32_ok by (Z.to_euclidean_division_equations; lia). cbn [obind]. do 2 f_equal;
    Z.to_euclidean_division_equations; lia.
Qed.
Lemma window_at_window p step :
  0 <= p -> 0 <= step <= 8 -> p + step <= total -> window_at (window p step) (p + step).
Proof.
  intros. unfold window_at, window. cbn. split_and!; try lia;
    Z.to_euclidean_division_equations; lia.
Qed.

Lemma all_ones l : forallb id l = true <-> bits_val l = 2 ^ len l - 1.
Proof.
  induction l as [|b l IH]; [by vm_compute|]. cbn [forallb bits_val].
  rewrite andb_true_iff, IH, len_cons, Z.pow_add_r by len_lia. change (2 ^ 1) with 2.
  pose proof (bits_val_bound l). destruct b; cbn [id Z.b2z]; [|split; [intros []; done|lia]].
  split; [intros [_ ?]; lia|intros; split; [done|lia]].
Qed.
Lemma filler_check l k :
  len l = k -> 1 <= k <= 8 ->
  (Z.land (bits_val l) (as_u8 (as_u16 (Z.shiftl 2 (k - 1)) - 1)) =? as_u8 (as_u16 (Z.shiftl 2 (k - 1)) - 1))
  = forallb id l.
Proof.
  intros Hl Hk. pose proof (bits_val_bound l) as Hb. rewrite Hl in Hb.
  assert (Hf : as_u8 (as_u16 (Z.shiftl 2 (k - 1)) - 1) = 2 ^ k - 1).
  { rewrite Z.shiftl_mul_pow2 by lia. rewrite <- Z.pow_succ_r by lia.
    replace (Z.succ (k - 1)) with k by lia. unfold as_u.
    assert (2 ^ k <= 2 ^ 8) by (apply Z.pow_le_mono_r; lia).
    assert (0 < 2 ^ k) by (apply Z.pow_pos_nonneg; lia). change (2 ^ 8) with 256 in *.
    change (2 ^ 16) with 65536. rewrite (Z.mod_small _ 65536) by lia. apply Z.mod_small. lia. }
  rewrite Hf, land_mask, Z.mod_small by lia.
  destruct (Z.eqb_spec (bits_val l) (2 ^ k - 1)) as [E|E]; symmetry.
  - by rewrite all_ones, Hl.
  - apply not_true_iff_false. by rewrite all_ones, Hl.
Qed.

Lemma check_eof_window p step :
  0 <= p <= total -> 1 <= step <= 8 -> total < p + step ->
  HuffmanDecoder.check_eof src (window p step)
  = (if forallb id (after p) then Ok None else Err (MissingBits (window p step)), window p step).
Proof.
  intros Hp Hstep Hshort. pose proof total_bound.
  pose proof (len_after p Hp) as Hlen. unfold HuffmanDecoder.check_eof, window at 1. cbn [bw_byte].
  rewrite u32_ok by (Z.to_euclidean_division_equations; lia).
  unfold total in *. destruct (Z.compare_spec (p / 8 + 1) (len src)) as [He|Hlt|Hgt].
  - set (k := 8 - p mod 8). assert (Hk : 1 <= k <= 8) by (unfold k; Z.to_euclidean_division_equations; lia).
    assert (Hlk : len (after p) = k) by (unfold k; Z.to_euclidean_division_equations; lia).
    unfold BitWindow.opposite_bit_window. cbn [bw_byte bw_bit bw_count window].
    rewrite Z.mod_mod by lia. fold k.
    assert (Hpos : 8 * (p / 8) + p mod 8 = p) by (Z.to_euclidean_division_equations; lia).
    rewrite read_bits_ok; [|done|Z.to_euclidean_division_equations; lia..].
    rewrite Hpos. fold (after p).
    rewrite take_ge by (unfold len in Hlk; lia).
    by rewrite filler_check by done; destruct (forallb id (after p)).
  - exfalso. Z.to_euclidean_division_equations. lia.
  - rewrite (len_zero_nil (after p)); [done|]. Z.to_euclidean_division_equations. lia.
Qed.

Lemma fetch_value_window p step :
  0 <= p <= total -> 1 <= step <= 8 ->
  HuffmanDecoder.fetch_value src (window p step) =
    if (length (after p) <? Z.to_nat step)%nat
    then (if forallb id (after p) then Ok None else Err (MissingBits (window p step)), window p step)
    else (Ok (Some (bits_val (take (Z.to_nat step) (after p)))), window p step).
Proof.
  intros Hp Hstep. pose proof total_bound. pose proof (len_after p Hp) as Hlen. unfold len in Hlen.
  assert (Hpos : 8 * (p / 8) + p mod 8 = p) by (Z.to_euclidean_division_equations; lia).
  unfold HuffmanDecoder.fetch_value. cbn [bw_byte bw_bit bw_count window].
  destruct (Nat.ltb_spec (length (after p)) (Z.to_nat step)); unfold total in *.
  - rewrite read_bits_short; [|done|Z.to_euclidean_division_equations; lia..].
    apply check_eof_window; unfold total; lia.
  - rewrite read_bits_ok; [|done|Z.to_euclidean_division_equations; lia..].
    by rewrite Hpos.
Qed.

(** One symbol: what [decode_next] does is what the walk along the bits does. *)
Lemma decode_next_walk fuel : forall d w p,
  tree_ok fuel d = true -> window_at w p -> 0 <= p ->
  match walk fuel d (after p) with
  | WSym x rest => exists w' p', HuffmanDecoder.decode_next fuel d src w = (Ok (Some x), w') /\
      window_at w' p' /\ 0 <= p' /\ after p' = rest
  | WShort l => exists e w', HuffmanDecoder.decode_next fuel d src w
      = (if forallb id l then Ok None else Err e, w')
  | WUnhandled => exists e w', HuffmanDecoder.decode_next fuel d src w = (Err e, w')
  | WOutOfFuel => False
  end.
Proof.
  induction fuel as [|fuel IH]; intros d w p Hok Hw Hp; [done|].
  apply tree_ok_S in Hok as (Hn & _ & Hsub). cbn [walk HuffmanDecoder.decode_next].
  rewrite (forwards_window w p) by done.
  assert (Hpt : 0 <= p <= total) by (destruct Hw as (_ & _ & _ & _ & ?); lia).
  rewrite fetch_value_window by done.
  destruct (Nat.ltb_spec (length (after p)) (Z.to_nat (lookup_bits d))) as [Hs|Hs].
  { exists (MissingBits (window p (lookup_bits d))), (window p (lookup_bits d)).
    by destruct (forallb id (after p)). }
  assert (Hle : p + lookup_bits d <= total).
  { pose proof (len_after p Hpt) as Hl. unfold len in Hl. lia. }
  pose proof (window_at_window p (lookup_bits d) Hp ltac:(lia) Hle) as Hw'.
  assert (Hafter : after (p + lookup_bits d) = drop (Z.to_nat (lookup_bits d)) (after p)).
  { unfold after. rewrite drop_drop. f_equal. lia. }
  destruct (table d !! _) as [[d'|x]|] eqn:Hi.
  - rewrite <- Hafter. apply IH; [by eapply Hsub|done|lia].
  - eexists _, _. rewrite <- Hafter. split_and!; try done. lia.
  - eauto.
Qed.
End Window.

(** ** The code *)
Definition huffman_codes : list (bits * Z) := paths HEIGHT HPACK_STRING.
Definition huffman_code (x : Z) : bits :=
  match find (fun p => snd p =? x) huffman_codes with Some (c, _) => c | None => [] end.
Definition huffman_encode (s : bytes) : bits := concat (map huffman_code s).

(** Each byte has one code, and each code one byte. *)
Lemma huffman_codes_complete :
  forallb (fun x => bool_decide ((huffman_code x, x) ∈ huffman_codes)) (seqZ 0 256) = true.
Proof. vm_compute. reflexivity. Qed.
Lemma huffman_codes_sound :
  forallb (fun p => (0 <=? snd p) && (snd p <? 256) && bool_decide (huffman_code (snd p) = fst p)) huffman_codes = true.
Proof. vm_compute. reflexivity. Qed.

Lemma huffman_code_in x : is_u8 x -> (huffman_code x, x) ∈ huffman_codes.
Proof.
  intros Hx. pose proof huffman_codes_complete as Hc. rewrite List.forallb_forall in Hc.
  apply (bool_decide_eq_true_1 _), Hc. apply list_elem_of_In, elem_of_seqZ. unfold is_u in Hx. lia.
Qed.
Lemma huffman_code_unique c x : (c, x) ∈ huffman_codes -> is_u8 x /\ c = huffman_code x.
Proof.
  intros Hin. pose proof huffman_codes_sound as Hc. rewrite List.forallb_forall in Hc.
  apply list_elem_of_In in Hin. specialize (Hc _ Hin). cbn [fst snd] in Hc.
  rewrite !andb_true_iff, Z.leb_le, Z.ltb_lt in Hc. destruct Hc as [[? ?] Hc].
  apply bool_decide_eq_true_1 in Hc. unfold is_u. split; [lia|done].
Qed.

Lemma walk_code x rest : is_u8 x -> walk HEIGHT HPACK_STRING (huffman_code x ++ rest) = WSym x rest.
Proof. intros. apply paths_walk; [apply hpack_tree_ok|by apply huffman_code_in]. Qed.
Lemma walk_sym l x rest :
  walk HEIGHT HPACK_STRING l = WSym x rest -> is_u8 x /\ l = huffman_code x ++ rest /\ len rest < len l.
Proof.
  intros Hw. apply walk_paths in Hw as (c & Hin & -> & Hne); [|apply hpack_tree_ok].
  apply huffman_code_unique in Hin as [? ->]. split_and!; try done.
  destruct (huffman_code x); [done|]. len_lia.
Qed.

(** Bits after the last symbol that are taken for padding: a path that ends
    inside the tree with only ones since its last node. *)
Definition padding_accepted (tail : bits) : Prop :=
  exists l, walk HEIGHT HPACK_STRING tail = WShort l /\ forallb id l = true.

Lemma collect_spec src (Hsrc : addressable src) fuel : forall acc w p,
  window_at src w p -> 0 <= p -> len (after src p) < Z.of_nat fuel ->
  match fst (collect fuel src acc w) with
  | Ok s => exists s' tail, s = acc ++ s' /\ is_bytes s' /\
      after src p = huffman_encode s' ++ tail /\ padding_accepted tail
  | Err _ => forall s' tail, is_bytes s' -> after src p = huffman_encode s' ++ tail -> ~ padding_accepted tail
  | _ => False
  end.
Proof.
  induction fuel as [|fuel IH]; intros acc w p Hw Hp Hf; [pose_len; lia|].
  cbn [collect]. pose proof (decode_next_walk src Hsrc HEIGHT HPACK_STRING w p hpack_tree_ok Hw Hp) as Hd.
  fold HEIGHT in *. destruct (walk HEIGHT HPACK_STRING (after src p)) as [x rest|l| |] eqn:Ew; [| | |done].
  - destruct Hd as (w' & p' & Hd & Hw' & Hp' & Ha). apply walk_sym in Ew as (Hx & Hl & Hlt).
    assert (En : next src w = (Ok (Some x), w')) by exact Hd. mstep En.
    specialize (IH (acc ++ [x]) w' p' Hw' Hp' ltac:(rewrite Ha; lia)). rewrite Ha in IH.
    destruct (fst (collect fuel src (acc ++ [x]) w')) as [s|e| |]; try done.
    + destruct IH as (s' & tail & -> & Hs' & Hr & Hpad).
      exists (x :: s'), tail. split_and!; try done.
      * by rewrite <- app_assoc.
      * by constructor.
      * rewrite Hl, Hr. unfold huffman_encode. cbn [map concat]. by rewrite app_assoc.
    + intros s' tail Hs' Heq. destruct s' as [|y s'].
      * cbn in Heq. rewrite <- Heq. intros (l & Hwl & _). rewrite Hl, walk_code in Hwl by done. done.
      * apply Forall_cons in Hs' as [Hy Hs'']. unfold huffman_encode in Heq. cbn [map concat] in Heq.
        rewrite Hl in Heq. pose proof (walk_code x rest Hx) as H1. rewrite Heq, <- app_assoc, walk_code in H1 by done.
        injection H1 as -> Hr. by apply (IH s' tail Hs'').
  - assert (El : forall s' tail, is_bytes s' -> after src p = huffman_encode s' ++ tail -> s' = [] /\ tail = after src p).
    { intros [|y s'] tail Hs' Heq; [done|]. apply Forall_cons in Hs' as [Hy Hs'']. unfold huffman_encode in Heq.
      cbn [map concat] in Heq. rewrite Heq, <- app_assoc, walk_code in Ew by done. done. }
    destruct Hd as (e & w' & Hd). destruct (forallb id l) eqn:Hl.
    + assert (En : next src w = (Ok None, w')) by exact Hd. mstep En. cbn.
      exists [], (after src p). rewrite app_nil_r. split_and!; try done. by exists l.
    + assert (En : next src w = (Err e, w')) by exact Hd. mstep En. cbn.
      intros s' tail Hs' Heq. destruct (El s' tail Hs' Heq) as [-> ->].
      intros (l' & Hw1 & Hl'). rewrite Ew in Hw1. injection Hw1 as ->. congruence.
  - destruct Hd as (e & w' & Hd). assert (En : next src w = (Err e, w')) by exact Hd. mstep En. cbn.
    intros [|y s'] tail Hs' Heq.
    + cbn in Heq. subst tail. intros (l' & Hw1 & _). congruence.
    + apply Forall_cons in Hs' as [Hy Hs'']. unfold huffman_encode in Heq.
      cbn [map concat] in Heq. rewrite Heq, <- app_assoc, walk_code in Ew by done. done.
Qed.

(** ** The decoder on whole inputs *)
Lemma huffman_prefix_free s1 : forall s2 t1 t2,
  is_bytes s1 -> is_bytes s2 -> padding_accepted t1 -> padding_accepted t2 ->
  huffman_encode s1 ++ t1 = huffman_encode s2 ++ t2 -> s1 = s2.
Proof.
  assert (Hpad : forall x s t t', is_u8 x -> padding_accepted t' -> t' <> huffman_encode (x :: s) ++ t).
  { intros x s t t' Hx (l & Hw & _) ->. unfold huffman_encode in Hw. cbn [map concat] in Hw.
    by rewrite <- app_assoc, walk_code in Hw. }
  induction s1 as [|x s1 IH]; intros [|y s2] t1 t2 H1 H2 P1 P2 He; [done|..].
  - apply Forall_cons in H2 as [Hy _]. by destruct (Hpad y s2 t2 t1 Hy P1).
  - apply Forall_cons in H1 as [Hx _]. by destruct (Hpad x s1 t1 t2 Hx P2).
  - apply Forall_cons in H1 as [Hx H1]. apply Forall_cons in H2 as [Hy H2].
    unfold huffman_encode in He. cbn [map concat] in He. rewrite <- !app_assoc in He.
    pose proof (walk_code x (concat (map huffman_code s1) ++ t1) Hx) as Hw.
    rewrite He, walk_code in Hw by done. injection Hw as -> Hr. f_equal. symmetry in Hr. eauto.
Qed.

Lemma hpack_decode_spec src :
  addressable src ->
  match hpack_decode src with
  | Ok s => is_bytes s /\ exists tail, bits_of src = huffman_encode s ++ tail /\ padding_accepted tail
  | Err _ => forall s tail, is_bytes s -> bits_of src = huffman_encode s ++ tail -> ~ padding_accepted tail
  | _ => False
  end.
Proof.
  intros Hsrc. unfold hpack_decode.
  assert (Hw : window_at src BitWindow.new 0) by (unfold window_at; cbn; pose_len; lia).
  pose proof (collect_spec src Hsrc (S (8 * length src)) [] BitWindow.new 0 Hw ltac:(lia)) as Hc.
  change (after src 0) with (bits_of src) in Hc. rewrite len_bits_of in Hc.
  specialize (Hc ltac:(unfold len; lia)).
  destruct (fst (collect _ src [] BitWindow.new)) as [s|e| |]; try done.
  destruct Hc as (s' & tail & -> & ? & ? & ?). cbn [app]. eauto.
Qed.

Lemma hpack_decode_iff src s :
  addressable src ->
  hpack_decode src = Ok s <->
  is_bytes s /\ exists tail, bits_of src = huffman_encode s ++ tail /\ padding_accepted tail.
Proof.
  intros Hsrc. pose proof (hpack_decode_spec src Hsrc) as Hd. split.
  - intros E. by rewrite E in Hd.
  - intros (Hs & tail & He & Hp). destruct (hpack_decode src) as [s'|e| |]; try done.
    + destruct Hd as (Hs' & tail' & He' & Hp'). f_equal.
      eapply huffman_prefix_free; [exact Hs'|exact Hs|exact Hp'|exact Hp|congruence].
    + by destruct (Hd s tail Hs He).
Qed.

(** What an encoder sends: the codes, padded to a byte with ones. *)
Definition hpack_encode (s : bytes) : bytes :=
  let c := huffman_encode s in
  let n := ((length c + 7) / 8)%nat in
  pack n (c ++ repeat true (8 * n - length c)).

Lemma ones_padding_accepted k : (k < 8)%nat -> padding_accepted (repeat true k).
Proof.
  intros Hk. do 8 (destruct k as [|k]; [eexists; split; [vm_compute; reflexivity|reflexivity]|]). lia.
Qed.
Lemma padding_count (n : nat) : (n <= 8 * ((n + 7) / 8) < n + 8)%nat.
Proof.
  pose proof (Nat.div_mod (n + 7) 8 ltac:(lia)). pose proof (Nat.mod_upper_bound (n + 7) 8 ltac:(lia)). lia.
Qed.
Lemma bits_of_hpack_encode s :
  exists k, (k < 8)%nat /\ bits_of (hpack_encode s) = huffman_encode s ++ repeat true k /\
    len (hpack_encode s) * 8 <= len (huffman_encode s) + 7.
Proof.
  unfold hpack_encode. set (c := huffman_encode s). pose proof (padding_count (length c)).
  set (n := ((length c + 7) / 8)%nat) in *. exists (8 * n - length c)%nat. split; [lia|].
  assert (Hb : bits_of (pack n (c ++ repeat true (8 * n - length c))) = c ++ repeat true (8 * n - length c)).
  { apply bits_of_pack. rewrite length_app, repeat_length. lia. }
  split; [done|]. rewrite Z.mul_comm, <- len_bits_of, Hb, len_app. unfold len. rewrite repeat_length. lia.
Qed.

(** ** Properties *)

(** The Huffman decoder undoes the encoding it is a table for: every byte
    string, each byte replaced by its code and the whole padded with ones to a
    byte boundary, is decoded to itself. *)
Theorem huffman_roundtrip (s : bytes) (Hs : is_bytes s) (Hl : len (huffman_encode s) <= 2 ^ 30) :
  hpack_decode (hpack_encode s) = Ok s.
Proof.
  destruct (bits_of_hpack_encode s) as (k & Hk & Hb & Hlen).
  apply hpack_decode_iff; [split; [apply pack_is_bytes|lia]|].
  split; [done|]. eexists. split; [exact Hb|]. by apply ones_padding_accepted.
Qed.
Lemma huffman_roundtrip_witness :
  hpack_encode (lit "www.example.com")
  = [0xf1; 0xe3; 0xc2; 0xe5; 0xf2; 0x3a; 0x6b; 0xa0; 0xab; 0x90; 0xf4; 0xff] /\
  hpack_decode (hpack_encode (lit "www.example.com")) = Ok (lit "www.example.com").
Proof.
  split; [vm_compute; reflexivity|].
  apply (huffman_roundtrip (lit "www.example.com")); by_eval.
Defined.

(** The decoder takes for padding what RFC 7541 section 5.2 says it must
    refuse: after any string whose codes fill whole bytes, a byte that is the
    beginning of a longer code ([0xfe], not ones), and padding longer than seven
    bits ([0xff] four times), change nothing. *)
Lemma huffman_padding_lenient (s : bytes) (src : bytes)
  (Hs : is_bytes s) (Hsrc : is_bytes src) (Hl : len src <= 2 ^ 28 - 4)
  (He : bits_of src = huffman_encode s) :
  hpack_decode (src ++ [0xfe]) = Ok s /\ hpack_decode (src ++ [0xff; 0xff; 0xff; 0xff]) = Ok s.
Proof.
  split; (apply hpack_decode_iff;
    [split; [apply is_bytes_app; split; [done|by_eval]|len_lia]|]);
    (split; [done|]); rewrite bits_of_app, He; eexists; (split; [reflexivity|]);
    eexists; (split; [vm_compute; reflexivity|reflexivity]).
Qed.
(** An input of half a gibibyte overflows the number of its bits at the first
    symbol: [src.len() as u32 * 8]. *)
Lemma hpack_decode_overflow (src : bytes) : 2 ^ 29 <= len src < 2 ^ 32 -> hpack_decode src = Panic.
Proof.
  intros Hl. assert (Hr : forall n, 1 <= n <= 8 -> read_bits src 0 0 n = Panic).
  { intros n Hn. unfold read_bits. rewrite (proj2 (orb_false_iff _ _)) by (split; [apply Z.eqb_neq|apply Z.ltb_ge]; lia).
    unfold u32 at 1, as_u32, as_u. rewrite Z.mod_small by lia. by rewrite (proj2 (Z.ltb_ge _ _)) by lia. }
  unfold hpack_decode. cbn [collect]. unfold bind, next. destruct (height HPACK_STRING) as [|fuel] eqn:Eh; [by vm_compute in Eh|].
  cbn [HuffmanDecoder.decode_next].
  assert (BitWindow.forwards (E:=HuffmanError) (lookup_bits HPACK_STRING) BitWindow.new = Ok (MkBitWindow 0 0 (lookup_bits HPACK_STRING)))
    as -> by (vm_compute; reflexivity).
  unfold HuffmanDecoder.fetch_value. cbn [bw_byte bw_bit bw_count]. rewrite Hr; [done|]. vm_compute. split; discriminate.
Qed.
(** C17: on every input of at most 256 MiB ([addressable]: 2^28 bytes) the decoder
    returns (the fuel is enough, no bit counter overflows, no index is out of
    range), and it accepts exactly the inputs whose bits are codes followed by a
    tail that ends inside the tree in ones.  That is more than RFC 7541 section 5.2
    allows: after codes that fill whole bytes, a byte that begins a longer code
    ([0xfe]) and padding longer than seven bits ([0xff] four times) change nothing.
    A bound is needed: from 2^29 bytes on (and up to 2^32) the number of bits no
    longer fits a [u32], and where overflows are checked the decoder panics at its
    first symbol. *)
Theorem huffman_decode_exact (src : bytes) (Hsrc : addressable src) :
  completes (hpack_decode src) /\
  (forall s, hpack_decode src = Ok s <->
    is_bytes s /\ exists tail, bits_of src = huffman_encode s ++ tail /\ padding_accepted tail) /\
  (forall s, is_bytes s -> len src <= 2 ^ 28 - 4 -> bits_of src = huffman_encode s ->
    hpack_decode (src ++ [0xfe]) = Ok s /\ hpack_decode (src ++ [0xff; 0xff; 0xff; 0xff]) = Ok s) /\
  (forall long, 2 ^ 29 <= len long < 2 ^ 32 -> hpack_decode long = Panic).
Proof.
  split; [|split; [|split; [|exact hpack_decode_overflow]]].
  - pose proof (hpack_decode_spec src Hsrc) as Hd. intros [E|E]; by rewrite E in Hd.
  - intros s. by apply hpack_decode_iff.
  - intros s Hs Hl He. by apply huffman_padding_lenient; [|apply Hsrc| |].
Qed.
Lemma huffman_decode_exact_witness :
  hpack_decode [0x1f] = Ok (lit "a") /\ completes (hpack_decode [0x1f]) /\
  (forall s, hpack_decode [0x1f] = Ok s <->
    is_bytes s /\ exists tail, bits_of [0x1f] = huffman_encode s ++ tail /\ padding_accepted tail) /\
  hpack_decode [0xfe] = Ok [].
Proof.
  split; [vm_compute; reflexivity|].
  destruct (huffman_decode_exact [0x1f] ltac:(split; by_eval)) as (H1 & H2 & _).
  destruct (huffman_decode_exact [] ltac:(split; by_eval)) as (_ & _ & H3 & _).
  split; [exact H1|]. split; [exact H2|]. apply (H3 []); by_eval.
Defined.

(** The code of a byte as a number of 30 bits, left-aligned, and the room it
    takes there. *)
Definition code_start (x : Z) : Z := bits_val (huffman_code x) * 2 ^ (30 - len (huffman_code x)).
Definition code_room (x : Z) : Z := 2 ^ (30 - len (huffman_code x)).
Definition code_entry (x : Z) : Z * Z * Z * Z :=
  (x, len (huffman_code x), code_start x, code_room x).
Definition entries_ordered (a b : Z * Z * Z * Z) : bool :=
  let '(x, lx, sx, rx) := a in
  let '(y, ly, sy, _) := b in
  implb ((lx <? ly) || ((lx =? ly) && (x <? y))) (sx + rx <=? sy).
Lemma codes_ordered :
  let t := map code_entry (seqZ 0 256) in
  forallb (fun a => forallb (entries_ordered a) t) t = true.
Proof. vm_compute. reflexivity. Qed.
Lemma code_entry_in x : is_u8 x -> In (code_entry x) (map code_entry (seqZ 0 256)).
Proof.
  unfold is_u. intros. apply in_map, list_elem_of_In, elem_of_seqZ. lia.
Qed.

(** The tables are a canonical Huffman code: codes have 5 to 30 bits, shorter
    codes come before longer ones and codes of one length follow the order of
    their bytes, none is a prefix of another, and together they leave a single
    30-bit code free, all ones, which is the end-of-string symbol. *)
Theorem huffman_code_canonical :
  (forall x y, is_u8 x -> is_u8 y ->
     len (huffman_code x) < len (huffman_code y) \/
     (len (huffman_code x) = len (huffman_code y) /\ x < y) ->
     code_start x + code_room x <= code_start y) /\
  forallb (fun x => (5 <=? len (huffman_code x)) && (len (huffman_code x) <=? 30)) (seqZ 0 256) = true /\
  fold_right (fun x n => code_room x + n) 0 (seqZ 0 256) = 2 ^ 30 - 1 /\
  (forall l, walk HEIGHT HPACK_STRING (repeat true 30 ++ l)
     = if (length l <? 8)%nat then WShort l else WUnhandled).
Proof.
  split; [|split; [by_eval|split; [by_eval|]]].
  - intros x y Hx Hy Hlt. pose proof codes_ordered as Hc. cbv zeta in Hc.
    rewrite List.forallb_forall in Hc. specialize (Hc _ (code_entry_in x Hx)).
    rewrite List.forallb_forall in Hc. specialize (Hc _ (code_entry_in y Hy)).
    unfold entries_ordered, code_entry in Hc. apply Z.leb_le.
    destruct (_ <=? _); [done|]. rewrite implb_false_r in Hc.
    rewrite negb_true_iff, orb_false_iff, andb_false_iff, Z.ltb_ge, Z.eqb_neq, Z.ltb_ge in Hc. lia.
  - intros l. do 7 (destruct l as [|? l]; [vm_compute; reflexivity|]).
    destruct l as [|? l]; vm_compute; reflexivity.
Qed.
