(* ===== verification/PrefixInt.v ===== *)
(** * QPACK prefix integers (webtrans-proto/src/qpack.rs, [decode_prefix] and
    [encode_prefix]) *)
From S2P Require Import Prelude Buf Huffman.

(** [qpack::DecodeError] *)
Inductive DecodeError :=
| DEUnexpectedEnd
| DEBoundsExceeded
| DEDynamicEntry
| DEUnknownEntry
| DEInvalidFieldName
| DEInvalidFieldValue
| DEPseudoHeaderAfterRegularField
| DEDuplicatePseudoHeader (name : bytes)
| DEInvalidPseudoHeader (name : bytes)
| DEConnectionSpecificField (name : bytes)
| DEHuffmanError (e : HuffmanError)
| DEUtf8Error.
#[export] Instance DecodeError_eq_dec : EqDecision DecodeError.
Proof. solve_decision. Defined.

Section Prefix.
Context `{Platform}.

(** [usize::checked_shl] looks at the shift amount only: high bits are lost. *)
Definition checked_shl (x k : Z) : option Z :=
  if k <? usize_bits then Some (Z.shiftl x k mod 2 ^ usize_bits) else None.
Definition checked_add (a b : Z) : option Z :=
  if a + b <=? usize_max then Some (a + b) else None.

(** The power grows by seven in every iteration and is less than the width of
    [usize] in all but the last: the width is fuel enough. *)
Definition prefix_fuel : nat := S (Z.to_nat usize_bits).

Fixpoint decode_prefix_loop {B} `{Buf B} (fuel : nat) (value power : Z) : M B DecodeError Z :=
  match fuel with
  | O => out_of_fuel
  | S fuel =>
      let* r := get_remaining in
      if negb (0 <? r) then throw DEUnexpectedEnd else
      let* byte := get_u8 in
      if usize_bits <=? power then throw DEBoundsExceeded else
      let* increment := ok_or DEBoundsExceeded (checked_shl (Z.land byte 127) power) in
      let* value := ok_or DEBoundsExceeded (checked_add value increment) in
      if Z.land byte 128 =? 0 then ret value else
      let* power := ok_or DEBoundsExceeded (checked_add power 7) in
      decode_prefix_loop fuel value power
  end.

(** [0xFF >> (8 - size)] is a shift of a [u8]: by eight it overflows. *)
Definition prefix_mask {S E} (size : Z) : M S E Z :=
  if 8 - size <? 8 then ret (Z.shiftr 0xFF (8 - size)) else panic.

Definition decode_prefix {B} `{Buf B} (size : Z) : M B DecodeError (Z * Z) :=
  assert_ (size <=? 8) ;;;
  let* r := get_remaining in
  if negb (0 <? r) then throw DEUnexpectedEnd else
  let* first := get_u8 in
  let flags := as_u8 (Z.shiftr first size) in
  let* mask := prefix_mask size in
  let first := Z.land first mask in
  if first <? mask then ret (flags, first) else
  let* value := decode_prefix_loop prefix_fuel mask 0 in
  ret (flags, value).

Fixpoint encode_prefix_loop {W E} `{BufMut W} (fuel : nat) (remaining : Z) : M W E unit :=
  match fuel with
  | O => out_of_fuel
  | S fuel =>
      if 128 <=? remaining then
        let rest := as_u8 (remaining mod 128) in
        put_u8 (rest + 128) ;;;
        encode_prefix_loop fuel (remaining / 128)
      else put_u8 (as_u8 remaining)
  end.

Definition encode_prefix {W E} `{BufMut W} (size flags value : Z) : M W E unit :=
  assert_ ((0 <? size) && (size <=? 8)) ;;;
  let mask := as_u8 (Z.lnot (Z.shiftl 0xFF size)) in
  let flags := as_u8 (Z.shiftl flags size) in
  if value <? mask then put_u8 (Z.lor flags (as_u8 value)) else
  put_u8 (Z.lor mask flags) ;;;
  let remaining := value - mask in
  encode_prefix_loop prefix_fuel remaining.
End Prefix.

(** ** The wire image *)
Fixpoint tail_bytes (fuel : nat) (n : Z) : bytes :=
  match fuel with
  | O => []
  | S fuel => if 128 <=? n then (n mod 128 + 128) :: tail_bytes fuel (n / 128) else [n]
  end.
Definition mask_of (size : Z) : Z := 2 ^ size - 1.
Definition prefix_bytes `{Platform} (size flags value : Z) : bytes :=
  if value <? mask_of size then [flags * 2 ^ size + value]
  else (flags * 2 ^ size + mask_of size) :: tail_bytes prefix_fuel (value - mask_of size).
(** The integer that bytes following the prefix stand for (RFC 7541, 5.1). *)
Fixpoint tail_value (l : bytes) : Z :=
  match l with
  | [] => 0
  | b :: l => b mod 128 + 128 * tail_value l
  end.

Lemma decode_prefix_loop_sim `{Platform} `{BufSim B1 B2 R} fuel : forall v p,
  simM R (decode_prefix_loop fuel v p) (decode_prefix_loop fuel v p).
Proof. induction fuel; intros; cbn [decode_prefix_loop]; solve_sim. Qed.
#[export] Hint Resolve decode_prefix_loop_sim : sim.
Lemma decode_prefix_sim `{Platform} `{BufSim B1 B2 R} size :
  simM R (decode_prefix size) (decode_prefix size).
Proof. unfold decode_prefix, assert_, prefix_mask. solve_sim. Qed.
#[export] Hint Resolve decode_prefix_sim : sim.

Section Lemmas.
Context `{Platform}.

Lemma usize_bits_bound : 32 <= usize_bits <= 64.
Proof. destruct usize_bits_cases; lia. Qed.
Lemma size_cases size : 1 <= size <= 8 ->
  size = 1 \/ size = 2 \/ size = 3 \/ size = 4 \/ size = 5 \/ size = 6 \/ size = 7 \/ size = 8.
Proof. lia. Qed.
Lemma decode_mask size : 1 <= size <= 8 -> Z.shiftr 0xFF (8 - size) = mask_of size.
Proof. intros Hs. destruct (size_cases size Hs) as [->|[->|[->|[->|[->|[->|[->| ->]]]]]]]; reflexivity. Qed.
Lemma encode_mask size : 1 <= size <= 8 -> as_u8 (Z.lnot (Z.shiftl 0xFF size)) = mask_of size.
Proof. intros Hs. destruct (size_cases size Hs) as [->|[->|[->|[->|[->|[->|[->| ->]]]]]]]; reflexivity. Qed.
Lemma mask_bound size : 1 <= size <= 8 -> 1 <= mask_of size <= 255.
Proof. intros Hs. destruct (size_cases size Hs) as [->|[->|[->|[->|[->|[->|[->| ->]]]]]]]; by vm_compute. Qed.
(** ** Encoding *)
Lemma encode_prefix_loop_vec {E} fuel : forall n (w : bytes),
  (0 < fuel)%nat -> 0 <= n < 2 ^ (Z.of_nat fuel - 1) ->
  encode_prefix_loop (E:=E) fuel n w = (Ok (), w ++ tail_bytes fuel n).
Proof.
  induction fuel as [|fuel IH]; intros n w Hf Hn; [lia|]. cbn [encode_prefix_loop tail_bytes].
  destruct (Z.leb_spec 128 n) as [Hge|Hlt].
  - pose proof (Z.mod_pos_bound n 128 ltac:(lia)).
    unfold as_u. rewrite (Z.mod_small (n mod 128)) by (change (2 ^ 8) with 256; lia).
    unfold put_u8. rewrite to_be_bytes_1 by lia.
    assert (Ep : put_slice (E:=E) [n mod 128 + 128] w = (Ok (), w ++ [n mod 128 + 128])) by reflexivity.
    mstep Ep. destruct fuel as [|fuel].
    { exfalso. change (2 ^ (Z.of_nat 1 - 1)) with 1 in Hn. lia. }
    rewrite IH; [by rewrite <- app_assoc|lia|].
    split; [apply Z.div_pos; lia|]. apply Z.div_lt_upper_bound; [lia|].
    assert (2 ^ (Z.of_nat (S (S fuel)) - 1) <= 128 * 2 ^ (Z.of_nat (S fuel) - 1)); [|lia].
    change 128 with (2 ^ 7). rewrite <- Z.pow_add_r by lia. apply Z.pow_le_mono_r; lia.
  - unfold as_u, put_u8. rewrite Z.mod_small by (change (2 ^ 8) with 256; lia).
    by rewrite to_be_bytes_1 by lia.
Qed.

Lemma usize_max_lt x : x <= usize_max <-> x < 2 ^ usize_bits.
Proof. unfold usize_max. lia. Qed.
Lemma prefix_fuel_bound n : 0 <= n <= usize_max -> 0 <= n < 2 ^ (Z.of_nat prefix_fuel - 1).
Proof.
  rewrite usize_max_lt. unfold prefix_fuel. pose proof usize_bits_bound.
  replace (Z.of_nat (S (Z.to_nat usize_bits)) - 1) with usize_bits by lia. done.
Qed.

(** What the first byte of a prefix integer may be. *)
Definition prefix_args (size flags value : Z) : Prop :=
  1 <= size <= 8 /\ 0 <= flags < 2 ^ (8 - size) /\ 0 <= value <= usize_max.
Lemma flags_bound size flags :
  1 <= size <= 8 -> 0 <= flags < 2 ^ (8 - size) -> 0 <= flags * 2 ^ size <= 256 - 2 ^ size.
Proof.
  intros Hs Hf. assert (0 < 2 ^ size) by (apply Z.pow_pos_nonneg; lia).
  assert (2 ^ (8 - size) * 2 ^ size = 256) by (rewrite <- Z.pow_add_r by lia; by replace (8 - size + size) with 8 by lia).
  nia.
Qed.

Lemma encode_prefix_vec {E} size flags value (w : bytes) :
  prefix_args size flags value ->
  encode_prefix (E:=E) size flags value w = (Ok (), w ++ prefix_bytes size flags value).
Proof.
  intros (Hs & Hf & Hv). pose proof (flags_bound size flags Hs Hf) as Hfb.
  pose proof (mask_bound size Hs) as Hm. assert (Hmo : mask_of size = 2 ^ size - 1) by done.
  unfold encode_prefix, prefix_bytes, assert_.
  rewrite (proj2 (Z.ltb_lt 0 size)), (proj2 (Z.leb_le size 8)) by lia. cbn [andb]. rewrite bind_ret_l.
  rewrite encode_mask by done. rewrite Z.shiftl_mul_pow2 by lia.
  unfold as_u. rewrite (Z.mod_small (flags * 2 ^ size)) by (change (2 ^ 8) with 256; lia).
  assert (Hlor : forall x, 0 <= x < 2 ^ size -> Z.lor (flags * 2 ^ size) x = flags * 2 ^ size + x).
  { intros. rewrite <- Z.shiftl_mul_pow2 at 1 by lia. apply lor_tag_add; lia. }
  destruct (Z.ltb_spec value (mask_of size)) as [Hlt|Hge].
  - rewrite Z.mod_small by (change (2 ^ 8) with 256; lia). rewrite Hlor by lia.
    unfold put_u8. by rewrite to_be_bytes_1 by lia.
  - rewrite Z.lor_comm, Hlor by lia.
    unfold put_u8. rewrite to_be_bytes_1 by lia.
    assert (Ep : put_slice (E:=E) [flags * 2 ^ size + mask_of size] w
      = (Ok (), w ++ [flags * 2 ^ size + mask_of size])) by reflexivity.
    mstep Ep. rewrite encode_prefix_loop_vec; [by rewrite <- app_assoc|unfold prefix_fuel; lia|].
    apply prefix_fuel_bound. lia.
Qed.

(** ** Decoding what was encoded *)
Lemma land_127 b : Z.land b 127 = b mod 128.
Proof. change 127 with (2 ^ 7 - 1). by rewrite land_mask by lia. Qed.
Lemma land_128 b : is_u8 b -> (Z.land b 128 =? 0) = (b <? 128).
Proof.
  unfold is_u. intros Hb. assert (Hc : Z.land b 128 = Z.shiftl (b / 128) 7).
  { apply Z.bits_inj'. intros n Hn. rewrite Z.land_spec, Z.shiftl_spec by lia.
    change 128 with (2 ^ 7). rewrite Z.pow2_bits_eqb by lia.
    destruct (Z.eqb_spec 7 n) as [<-|Hne].
    - rewrite andb_true_r. change (7 - 7) with 0. rewrite <- Z.shiftr_div_pow2, Z.shiftr_spec by lia. done.
    - rewrite andb_false_r. destruct (Z.lt_ge_cases n 7); [by rewrite Z.testbit_neg_r by lia|].
      rewrite <- Z.shiftr_div_pow2, Z.shiftr_spec by lia. symmetry.
      replace (n - 7 + 7) with n by lia. destruct (Z.eqb_spec b 0) as [->|]; [apply Z.testbit_0_l|].
      apply Z.bits_above_log2; [lia|]. assert (Z.log2 b < 8); [apply Z.log2_lt_pow2; lia|lia]. }
  rewrite Hc, Z.shiftl_mul_pow2 by lia. change (2 ^ 7) with 128. change (2 ^ 8) with 256 in Hb.
  destruct (Z.ltb_spec b 128).
  - by rewrite Z.div_small by lia.
  - apply Z.eqb_neq. Z.to_euclidean_division_equations. lia.
Qed.

Lemma decode_loop_step fuel v p b l :
  is_u8 b -> 0 <= p ->
  decode_prefix_loop (S fuel) v p (b :: l) =
    if usize_bits <=? p then (Err DEBoundsExceeded, l) else
    let v' := v + ((b mod 128) * 2 ^ p) mod 2 ^ usize_bits in
    if usize_max <? v' then (Err DEBoundsExceeded, l)
    else if b <? 128 then (Ok v', l)
    else if usize_max <? p + 7 then (Err DEBoundsExceeded, l)
    else decode_prefix_loop fuel v' (p + 7) l.
Proof.
  intros Hb Hp0. cbn [decode_prefix_loop]. mstep (get_remaining_slice (b :: l)).
  rewrite (proj2 (Z.ltb_lt 0 (len (b :: l)))) by len_lia. cbn [negb].
  mstep (get_u8_slice b l). destruct (Z.leb_spec usize_bits p) as [|Hp]; [done|].
  unfold checked_shl. rewrite (proj2 (Z.ltb_lt _ _)) by done. cbn [ok_or]. rewrite bind_ret_l.
  rewrite land_127, land_128 by done. unfold checked_add.
  rewrite Z.shiftl_mul_pow2 by done. cbv zeta.
  set (v' := v + _).
  destruct (Z.leb_spec v' usize_max) as [Hv|Hv].
  - rewrite (proj2 (Z.ltb_ge usize_max v')) by lia. cbn [ok_or]. rewrite bind_ret_l.
    destruct (b <? 128); [done|]. destruct (Z.leb_spec (p + 7) usize_max).
    + by rewrite (proj2 (Z.ltb_ge usize_max (p + 7))) by lia.
    + by rewrite (proj2 (Z.ltb_lt usize_max (p + 7))) by lia.
  - by rewrite (proj2 (Z.ltb_lt usize_max v')) by lia.
Qed.

Lemma decode_loop_tail fuel : forall k n v p rest,
  (0 < k)%nat -> 0 <= n < 2 ^ (Z.of_nat k - 1) -> 0 <= v -> 0 <= p < usize_bits ->
  v + n * 2 ^ p <= usize_max -> usize_bits - p < Z.of_nat fuel ->
  decode_prefix_loop fuel v p (tail_bytes k n ++ rest) = (Ok (v + n * 2 ^ p), rest).
Proof.
  induction fuel as [|fuel IH]; intros k n v p rest Hk Hn Hv Hp Hmax Hf; [lia|].
  pose proof usize_bits_bound as Hbits. assert (Hpp : 0 < 2 ^ p) by (apply Z.pow_pos_nonneg; lia).
  destruct k as [|k]; [lia|]. cbn [tail_bytes].
  destruct (Z.leb_spec 128 n) as [Hge|Hlt].
  - assert (Hmod : n = 128 * (n / 128) + n mod 128) by (apply Z.div_mod; lia).
    pose proof (Z.mod_pos_bound n 128 ltac:(lia)) as Hmb. set (q := n / 128) in *. set (r := n mod 128) in *.
    assert (1 <= q) by lia. assert (0 <= r * 2 ^ p) by nia. assert (0 <= q * 128 * 2 ^ p) by nia.
    assert (Hq7 : q * 2 ^ (p + 7) = q * 128 * 2 ^ p) by (rewrite Z.pow_add_r by lia; change (2 ^ 7) with 128; ring).
    assert (Hb : p + 7 < usize_bits).
    { apply (Z.pow_lt_mono_r_iff 2); [lia|lia|]. apply usize_max_lt in Hmax.
      assert (2 ^ (p + 7) <= q * 2 ^ (p + 7)) by (assert (0 < 2 ^ (p + 7)) by (apply Z.pow_pos_nonneg; lia); nia). nia. }
    cbn [app]. rewrite decode_loop_step by (unfold is_u; lia || (change (2 ^ 8) with 256; lia)).
    rewrite (proj2 (Z.leb_gt usize_bits p)) by lia.
    replace ((r + 128) mod 128) with r by (rewrite <- Z.add_mod_idemp_r, Z.mod_same, Z.add_0_r by lia; by rewrite Z.mod_small by lia).
    rewrite (Z.mod_small (r * 2 ^ p)) by (apply usize_max_lt in Hmax; nia). cbv zeta.
    rewrite (proj2 (Z.ltb_ge usize_max (v + r * 2 ^ p))) by nia.
    rewrite (proj2 (Z.ltb_ge (r + 128) 128)) by lia.
    assert (usize_bits <= usize_max) by (unfold usize_max; destruct usize_bits_cases as [-> | ->]; lia).
    rewrite (proj2 (Z.ltb_ge usize_max (p + 7))) by lia.
    destruct k as [|k]; [change (2 ^ (Z.of_nat 1 - 1)) with 1 in Hn; lia|].
    rewrite IH; try lia; try nia.
    + f_equal. f_equal. nia.
    + split; [lia|]. apply Z.div_lt_upper_bound; [lia|].
      assert (2 ^ (Z.of_nat (S (S k)) - 1) <= 128 * 2 ^ (Z.of_nat (S k) - 1)); [|lia].
      change 128 with (2 ^ 7). rewrite <- Z.pow_add_r by lia. apply Z.pow_le_mono_r; lia.
  - cbn [app]. rewrite decode_loop_step by (unfold is_u; lia || (change (2 ^ 8) with 256; lia)).
    rewrite (proj2 (Z.leb_gt usize_bits p)) by lia. rewrite (Z.mod_small n 128) by lia.
    rewrite (Z.mod_small (n * 2 ^ p)) by (apply usize_max_lt in Hmax; nia). cbv zeta.
    rewrite (proj2 (Z.ltb_ge usize_max _)) by lia. by rewrite (proj2 (Z.ltb_lt n 128)) by lia.
Qed.

Lemma first_byte size flags low :
  1 <= size <= 8 -> 0 <= flags < 2 ^ (8 - size) -> 0 <= low <= mask_of size ->
  let b := flags * 2 ^ size + low in
  is_u8 b /\ as_u8 (Z.shiftr b size) = flags /\ Z.land b (mask_of size) = low.
Proof.
  intros Hs Hf Hl b. pose proof (flags_bound size flags Hs Hf) as Hb. unfold mask_of in *.
  assert (0 < 2 ^ size) by (apply Z.pow_pos_nonneg; lia).
  split; [unfold is_u, b; change (2 ^ 8) with 256; lia|]. split.
  - unfold b. rewrite Z.shiftr_div_pow2, Z.div_add_l, (Z.div_small low) by lia. rewrite Z.add_0_r.
    unfold as_u. apply Z.mod_small. assert (2 ^ (8 - size) <= 2 ^ 8) by (apply Z.pow_le_mono_r; lia). lia.
  - rewrite land_mask by lia. unfold b. rewrite Z.add_comm, Z_mod_plus_full. apply Z.mod_small. lia.
Qed.

Lemma decode_prefix_first size b l :
  1 <= size <= 8 -> is_u8 b ->
  decode_prefix size (b :: l) =
    let flags := as_u8 (Z.shiftr b size) in
    if Z.land b (mask_of size) <? mask_of size then (Ok (flags, Z.land b (mask_of size)), l)
    else bind (decode_prefix_loop prefix_fuel (mask_of size) 0) (fun value => ret (flags, value)) l.
Proof.
  intros Hs Hb. unfold decode_prefix, assert_, prefix_mask.
  rewrite (proj2 (Z.leb_le size 8)), (proj2 (Z.ltb_lt (8 - size) 8)) by lia. rewrite bind_ret_l.
  mstep (get_remaining_slice (b :: l)). rewrite (proj2 (Z.ltb_lt 0 (len (b :: l)))) by len_lia. cbn [negb].
  mstep (get_u8_slice b l). cbv zeta. rewrite decode_mask by done. rewrite bind_ret_l.
  by destruct (_ <? _).
Qed.

Lemma decode_prefix_bytes size flags value rest :
  prefix_args size flags value ->
  decode_prefix size (prefix_bytes size flags value ++ rest) = (Ok (flags, value), rest).
Proof.
  intros (Hs & Hf & Hv). pose proof (mask_bound size Hs) as Hm. unfold prefix_bytes.
  destruct (Z.ltb_spec value (mask_of size)) as [Hlt|Hge]; cbn [app].
  - destruct (first_byte size flags value Hs Hf ltac:(lia)) as (Hb & Hfl & Hla). cbv zeta in *.
    rewrite decode_prefix_first by done. cbv zeta. by rewrite Hfl, Hla, (proj2 (Z.ltb_lt _ _)) by done.
  - destruct (first_byte size flags (mask_of size) Hs Hf ltac:(lia)) as (Hb & Hfl & Hla). cbv zeta in *.
    rewrite decode_prefix_first by done. cbv zeta. rewrite Hfl, Hla, Z.ltb_irrefl.
    pose proof usize_bits_bound. pose proof (prefix_fuel_bound (value - mask_of size) ltac:(lia)) as Hn.
    assert (E : decode_prefix_loop prefix_fuel (mask_of size) 0 (tail_bytes prefix_fuel (value - mask_of size) ++ rest)
      = (Ok (mask_of size + (value - mask_of size) * 2 ^ 0), rest)).
    { apply decode_loop_tail; try done; unfold prefix_fuel; lia. }
    mstep E. unfold ret. do 3 f_equal. lia.
Qed.
End Lemmas.

(** The value the encoding of an integer has by RFC 7541, section 5.1. *)
Definition prefix_value (size : Z) (l : bytes) : Z :=
  match l with
  | [] => 0
  | b :: l => Z.land b (mask_of size) + tail_value l
  end.
(** The bytes of one integer: a prefix below its mask, or the mask and bytes of
    which exactly the last has no continuation bit. *)
Definition continuation (l : bytes) : Prop := exists init last, l = init ++ [last] /\ Forall (fun b => 128 <= b) init /\ last < 128.
Definition prefix_shape (size : Z) (l : bytes) : Prop :=
  match l with
  | [] => False
  | b :: l => if Z.land b (mask_of size) <? mask_of size then l = [] else continuation l
  end.
Lemma continuation_cons b l : 128 <= b -> continuation l -> continuation (b :: l).
Proof. intros Hb (init & last & -> & Hi & Hl). exists (b :: init), last. split; [done|]. split; [by constructor|done]. Qed.

(** ** What the decoder does on any input *)
Section Total.
Context `{Platform}.

Lemma prefix_loop_total fuel : forall v p l,
  is_bytes l -> 0 <= v <= usize_max -> 0 <= p < usize_bits + 7 -> (0 < fuel)%nat -> usize_bits - p < Z.of_nat fuel ->
  match decode_prefix_loop fuel v p l with
  | (Ok x, rest) => exists pre, l = pre ++ rest /\ 1 <= len pre /\ 7 * (len pre - 1) + p < usize_bits /\
      v <= x <= usize_max /\ x mod 2 ^ usize_bits = (v + tail_value pre * 2 ^ p) mod 2 ^ usize_bits /\ continuation pre
  | (Err e, rest) => (e = DEUnexpectedEnd /\ rest = [] \/ e = DEBoundsExceeded) /\
      exists pre, l = pre ++ rest /\ 7 * (len pre - 1) + p < usize_bits + 7
  | _ => False
  end.
Proof.
  induction fuel as [|fuel IH]; intros v p l Hl Hv Hp Hf0 Hf; [lia|].
  destruct l as [|b l]; [split; [by left|]; exists []; split; [done|]; change (len []) with 0; lia|].
  apply Forall_cons in Hl as [Hb Hl].
  rewrite decode_loop_step by (done || lia).
  assert (Hone : exists pre, b :: l = pre ++ l /\ 7 * (len pre - 1) + p < usize_bits + 7).
  { exists [b]. split; [done|]. change (len [b]) with 1. lia. }
  destruct (Z.leb_spec usize_bits p) as [|Hpb]; [split; [by right|done]|].
  set (d := ((b mod 128) * 2 ^ p) mod 2 ^ usize_bits). cbv zeta.
  assert (0 < 2 ^ usize_bits) by (apply Z.pow_pos_nonneg; pose proof usize_bits_bound; lia).
  assert (0 <= d) by (apply Z.mod_pos_bound; lia).
  assert (Hd : forall x, (x + d) mod 2 ^ usize_bits = (x + (b mod 128) * 2 ^ p) mod 2 ^ usize_bits).
  { intros. unfold d. by rewrite Z.add_mod_idemp_r by lia. }
  destruct (Z.ltb_spec usize_max (v + d)) as [|Hmax]; [split; [by right|done]|].
  destruct (Z.ltb_spec b 128) as [Hlow|Hhigh].
  - exists [b]. rewrite len_cons, len_nil. split_and!; try done; try lia; [|by exists [], b].
    rewrite Hd. cbn [tail_value]. f_equal. ring.
  - destruct (Z.ltb_spec usize_max (p + 7)) as [|Hp7]; [split; [by right|done]|].
    specialize (IH (v + d) (p + 7) l Hl ltac:(lia) ltac:(lia)).
    destruct fuel as [|fuel]; [lia|]. specialize (IH ltac:(lia) ltac:(lia)).
    destruct (decode_prefix_loop (S fuel) (v + d) (p + 7) l) as [[x|e| |] rest]; try done.
    2: { destruct IH as (He & pre & -> & Hpre). split; [done|]. exists (b :: pre). rewrite len_cons. split; [done|lia]. }
    destruct IH as (pre & -> & Hpre & H7 & Hx & Hmod & Hc). exists (b :: pre). rewrite len_cons.
    split_and!; try done; try lia; [|by apply continuation_cons]. rewrite Hmod. cbn [tail_value].
    rewrite Z.pow_add_r by lia. change (2 ^ 7) with 128.
    replace (v + d + tail_value pre * (2 ^ p * 128)) with (v + tail_value pre * (2 ^ p * 128) + d) by ring.
    rewrite Hd. f_equal. ring.
Qed.

(** An integer off the wire: its flag bits, and its value as far as [usize] has
    room for it. *)
Definition prefix_int (size : Z) (l : bytes) (flags x : Z) : Prop :=
  is_bytes l /\ prefix_shape size l /\ len l <= 11 /\ flags = hd 0 l / 2 ^ size /\
  0 <= x <= usize_max /\ x mod 2 ^ usize_bits = prefix_value size l mod 2 ^ usize_bits.
Lemma prefix_int_cons size l flags x : prefix_int size l flags x -> 1 <= len l.
Proof. intros (_ & Hs & _). destruct l; [done|]. rewrite len_cons. pose_len. lia. Qed.

Lemma decode_prefix_total size l :
  1 <= size <= 8 -> is_bytes l ->
  match decode_prefix size l with
  | (Ok (flags, x), rest) => exists pre, l = pre ++ rest /\ prefix_int size pre flags x
  | (Err e, rest) => (e = DEUnexpectedEnd /\ rest = [] \/ e = DEBoundsExceeded) /\ exists pre, l = pre ++ rest /\ len pre <= 12
  | _ => False
  end.
Proof.
  intros Hs Hl. destruct l as [|b l].
  { unfold decode_prefix, assert_. rewrite (proj2 (Z.leb_le size 8)) by lia. rewrite bind_ret_l.
    split; [by left|]. by exists []. }
  pose proof Hl as Hbl. apply Forall_cons in Hl as [Hb Hl]. rewrite decode_prefix_first by done. cbv zeta.
  pose proof (mask_bound size Hs) as Hm.
  assert (Hla : 0 <= Z.land b (mask_of size) <= mask_of size).
  { unfold mask_of in *. rewrite land_mask by lia. pose proof (Z.mod_pos_bound b (2 ^ size) ltac:(lia)). lia. }
  assert (Hfl : as_u8 (Z.shiftr b size) = b / 2 ^ size).
  { rewrite Z.shiftr_div_pow2 by lia. unfold as_u. apply Z.mod_small. unfold is_u in Hb.
    split; [apply Z.div_pos; lia|]. apply Z.div_lt_upper_bound; [lia|]. nia. }
  assert (Hmax : 255 <= usize_max) by (unfold usize_max; destruct usize_bits_cases as [-> | ->]; lia).
  destruct (Z.ltb_spec (Z.land b (mask_of size)) (mask_of size)) as [Hlt|Hge].
  - exists [b]. split; [done|]. unfold prefix_int. rewrite len_cons, len_nil. cbn [hd prefix_shape prefix_value tail_value].
    rewrite (proj2 (Z.ltb_lt _ _)) by done. split_and!; try done; try lia; [by apply Forall_singleton|]. f_equal. lia.
  - pose proof usize_bits_bound.
    pose proof (prefix_loop_total prefix_fuel (mask_of size) 0 l Hl ltac:(lia) ltac:(lia)
      ltac:(unfold prefix_fuel; lia) ltac:(unfold prefix_fuel; lia)) as Hd. unfold bind.
    destruct (decode_prefix_loop prefix_fuel (mask_of size) 0 l) as [[x|e| |] rest]; cbn; try done.
    2: { destruct Hd as (He & pre & -> & Hpre). split; [done|]. exists (b :: pre). rewrite len_cons. split; [done|lia]. }
    destruct Hd as (pre & -> & H1 & H7 & Hx & Hmod & Hc). exists (b :: pre). split; [done|].
    unfold prefix_int. rewrite len_cons. cbn [hd prefix_shape prefix_value].
    rewrite (proj2 (Z.ltb_ge _ _)) by done. split_and!; try done; try lia.
    + rewrite app_comm_cons in Hbl. by apply is_bytes_app in Hbl as [Hbl _].
    + rewrite Hmod. f_equal. lia.
Qed.
End Total.

(** ** Properties *)

(** Prefix integers round-trip for every prefix size, every value of the
    platform's [usize] and any flag bits that fit, the buffer left at what
    follows; the encoder never panics and its loop ends. *)
Theorem prefix_roundtrip `{Platform} (size flags value : Z) (Ha : prefix_args size flags value) :
  exists bs, (forall E (w : bytes), encode_prefix (E:=E) size flags value w = (Ok (), w ++ bs)) /\
    forall rest, decode_prefix size (bs ++ rest) = (Ok (flags, value), rest).
Proof.
  exists (prefix_bytes size flags value). split.
  - intros. by apply encode_prefix_vec.
  - intros. by apply decode_prefix_bytes.
Qed.
Lemma prefix_roundtrip_witness :
  encode_prefix (H:=Platform64) (E:=Empty_set) 5 2 1337 [] = (Ok (), [95; 154; 10]) /\
  exists bs, (forall E (w : bytes), encode_prefix (H:=Platform64) (E:=E) 5 2 1337 w = (Ok (), w ++ bs)) /\
    forall rest, decode_prefix (H:=Platform64) 5 (bs ++ rest) = (Ok (2, 1337), rest).
Proof.
  split; [vm_compute; reflexivity|]. apply (prefix_roundtrip (H:=Platform64)). by_eval.
Defined.

(** The tenth continuation byte of an integer is cut to its lowest bit on a
    64-bit platform, because the checked shift checks the amount only: an integer
    that does not fit [usize] is accepted as a smaller one instead of being
    refused as out of bounds. *)
Lemma prefix_overflow_accepted (d : Z) (Hd : 0 <= d < 128) :
  let l := 127 :: repeat 0x80 9 ++ [d] in
  decode_prefix (H:=Platform64) 7 l = (Ok (0, 127 + (d mod 2) * 2 ^ 63), []) /\
  prefix_value 7 l = 127 + d * 2 ^ 63.
Proof.
  cbv zeta. split.
  - assert (Hall : forallb (fun d => bool_decide (
      decode_prefix (H:=Platform64) 7 (127 :: repeat 0x80 9 ++ [d])
      = (Ok (0, 127 + (d mod 2) * 2 ^ 63), []))) (seqZ 0 128) = true) by (vm_compute; reflexivity).
    rewrite List.forallb_forall in Hall. eapply bool_decide_eq_true_1, (Hall d).
    apply list_elem_of_In, elem_of_seqZ. lia.
  - cbn [prefix_value repeat app tail_value]. rewrite (Z.mod_small d 128) by lia.
    change (0x80 mod 128) with 0. change (Z.land 127 (mask_of 7)) with 127. lia.
Qed.

(** C40: on any byte string, for any prefix size the crate uses, [decode_prefix]
    returns without a panic.  It reads the bytes of exactly one integer, at most
    eleven; an integer it returns fits [usize], comes with the flag bits above the
    prefix, and is the encoded one modulo the width of [usize].  When it fails it
    has read at most twelve bytes, all there were if it missed more.  Modulo: on a
    64-bit platform the tenth continuation byte is cut to its lowest bit, because
    the checked shift checks the amount only, so that an integer that does not fit
    is accepted as a smaller one instead of being refused as out of bounds. *)
Theorem prefix_decode_bounds (size : Z) (l : bytes) (d : Z)
  (Hs : 1 <= size <= 8) (Hl : is_bytes l) (Hd : 0 <= d < 128) :
  (forall P : Platform,
   match decode_prefix size l with
   | (Ok (flags, x), rest) => exists pre, l = pre ++ rest /\ prefix_shape size pre /\ len pre <= 11 /\
       flags = hd 0 pre / 2 ^ size /\ 0 <= x <= usize_max /\
       x mod 2 ^ usize_bits = prefix_value size pre mod 2 ^ usize_bits
   | (Err e, rest) => (e = DEUnexpectedEnd /\ rest = [] \/ e = DEBoundsExceeded) /\
       exists pre, l = pre ++ rest /\ len pre <= 12
   | _ => False
   end) /\
  let long := 127 :: repeat 0x80 9 ++ [d] in
  decode_prefix (H:=Platform64) 7 long = (Ok (0, 127 + (d mod 2) * 2 ^ 63), []) /\
  prefix_value 7 long = 127 + d * 2 ^ 63.
Proof.
  split; [|by apply prefix_overflow_accepted]. intros P. pose proof (decode_prefix_total size l Hs Hl) as Ht.
  destruct (decode_prefix size l) as [[[flags x]|e| |] rest]; try done.
  destruct Ht as (pre & -> & _ & Ht). by exists pre.
Qed.
Lemma prefix_decode_bounds_witness :
  decode_prefix (H:=Platform64) 5 [95; 154; 10; 7] = (Ok (2, 1337), [7]) /\
  (exists pre, [95; 154; 10; 7] = pre ++ [7] /\ prefix_shape 5 pre /\ len pre <= 11 /\
      2 = hd 0 pre / 2 ^ 5 /\ 0 <= 1337 <= usize_max (H:=Platform64) /\
      1337 mod 2 ^ 64 = prefix_value 5 pre mod 2 ^ 64) /\
  decode_prefix (H:=Platform64) 7 (127 :: repeat 0x80 9 ++ [2]) = (Ok (0, 127), []) /\
  decode_prefix (H:=Platform64) 7 (127 :: repeat 0x80 12) = (Err DEBoundsExceeded, [0x80]).
Proof.
  split; [vm_compute; reflexivity|].
  destruct (prefix_decode_bounds 5 [95; 154; 10; 7] 2 ltac:(lia) ltac:(by_eval) ltac:(lia)) as (H1 & H2 & _).
  split; [exact (H1 Platform64)|]. split; [exact H2|vm_compute; reflexivity].
Defined.
