(* ===== verification/StaticTable.v ===== *)
(** * The QPACK static table (webtrans-proto/src/qpack.rs) *)
From S2P Require Import Prelude PrefixInt.

Definition PREDEFINED_HEADERS : list (bytes * bytes) := [
  (lit ":authority", lit "");
  (lit ":path", lit "/");
  (lit "age", lit "0");
  (lit "content-disposition", lit "");
  (lit "content-length", lit "0");
  (lit "cookie", lit "");
  (lit "date", lit "");
  (lit "etag", lit "");
  (lit "if-modified-since", lit "");
  (lit "if-none-match", lit "");
  (lit "last-modified", lit "");
  (lit "link", lit "");
  (lit "location", lit "");
  (lit "referer", lit "");
  (lit "set-cookie", lit "");
  (lit ":method", lit "CONNECT");
  (lit ":method", lit "DELETE");
  (lit ":method", lit "GET");
  (lit ":method", lit "HEAD");
  (lit ":method", lit "OPTIONS");
  (lit ":method", lit "POST");
  (lit ":method", lit "PUT");
  (lit ":scheme", lit "http");
  (lit ":scheme", lit "https");
  (lit ":status", lit "103");
  (lit ":status", lit "200");
  (lit ":status", lit "304");
  (lit ":status", lit "404");
  (lit ":status", lit "503");
  (lit "accept", lit "*/*");
  (lit "accept", lit "application/dns-message");
  (lit "accept-encoding", lit "gzip, deflate, br");
  (lit "accept-ranges", lit "bytes");
  (lit "access-control-allow-headers", lit "cache-control");
  (lit "access-control-allow-headers", lit "content-type");
  (lit "access-control-allow-origin", lit "*");
  (lit "cache-control", lit "max-age=0");
  (lit "cache-control", lit "max-age=2592000");
  (lit "cache-control", lit "max-age=604800");
  (lit "cache-control", lit "no-cache");
  (lit "cache-control", lit "no-store");
  (lit "cache-control", lit "public, max-age=31536000");
  (lit "content-encoding", lit "br");
  (lit "content-encoding", lit "gzip");
  (lit "content-type", lit "application/dns-message");
  (lit "content-type", lit "application/javascript");
  (lit "content-type", lit "application/json");
  (lit "content-type", lit "application/x-www-form-urlencoded");
  (lit "content-type", lit "image/gif");
  (lit "content-type", lit "image/jpeg");
  (lit "content-type", lit "image/png");
  (lit "content-type", lit "text/css");
  (lit "content-type", lit "text/html; charset=utf-8");
  (lit "content-type", lit "text/plain");
  (lit "content-type", lit "text/plain;charset=utf-8");
  (lit "range", lit "bytes=0-");
  (lit "strict-transport-security", lit "max-age=31536000");
  (lit "strict-transport-security", lit "max-age=31536000; includesubdomains");
  (lit "strict-transport-security", lit "max-age=31536000; includesubdomains; preload");
  (lit "vary", lit "accept-encoding");
  (lit "vary", lit "origin");
  (lit "x-content-type-options", lit "nosniff");
  (lit "x-xss-protection", lit "1; mode=block");
  (lit ":status", lit "100");
  (lit ":status", lit "204");
  (lit ":status", lit "206");
  (lit ":status", lit "302");
  (lit ":status", lit "400");
  (lit ":status", lit "403");
  (lit ":status", lit "421");
  (lit ":status", lit "425");
  (lit ":status", lit "500");
  (lit "accept-language", lit "");
  (lit "access-control-allow-credentials", lit "FALSE");
  (lit "access-control-allow-credentials", lit "TRUE");
  (lit "access-control-allow-headers", lit "*");
  (lit "access-control-allow-methods", lit "get");
  (lit "access-control-allow-methods", lit "get, post, options");
  (lit "access-control-allow-methods", lit "options");
  (lit "access-control-expose-headers", lit "content-length");
  (lit "access-control-request-headers", lit "content-type");
  (lit "access-control-request-method", lit "get");
  (lit "access-control-request-method", lit "post");
  (lit "alt-svc", lit "clear");
  (lit "authorization", lit "");
  (lit "content-security-policy", lit "script-src 'none'; object-src 'none'; base-uri 'none'");
  (lit "early-data", lit "1");
  (lit "expect-ct", lit "");
  (lit "forwarded", lit "");
  (lit "if-range", lit "");
  (lit "origin", lit "");
  (lit "purpose", lit "prefetch");
  (lit "server", lit "");
  (lit "timing-allow-origin", lit "*");
  (lit "upgrade-insecure-requests", lit "1");
  (lit "user-agent", lit "");
  (lit "x-forwarded-for", lit "");
  (lit "x-frame-options", lit "deny");
  (lit "x-frame-options", lit "sameorigin")
].

Record StaticMatch := MkStaticMatch { exact : option Z; match_name : option Z }.

Module StaticTable.
Definition get (index : Z) : outcome DecodeError (bytes * bytes) :=
  match PREDEFINED_HEADERS !! Z.to_nat index with
  | Some v => Ok v
  | None => Err DEUnknownEntry
  end.

(** The [for] loop over the enumerated table. *)
Fixpoint lookup_loop (entries : list (bytes * bytes)) (index : Z) (name value : bytes)
    (name_index : option Z) : StaticMatch :=
  match entries with
  | [] => MkStaticMatch None name_index
  | (entry_name, entry_value) :: entries =>
      if negb (bool_decide (entry_name = name)) then
        lookup_loop entries (index + 1) name value name_index
      else
        let name_index := match name_index with None => Some index | Some i => Some i end in
        if bool_decide (entry_value = value) then MkStaticMatch (Some index) name_index
        else lookup_loop entries (index + 1) name value name_index
  end.
Definition lookup (name value : bytes) : StaticMatch :=
  lookup_loop PREDEFINED_HEADERS 0 name value None.
End StaticTable.

(** ** Lookup against the table *)
Definition match_ok (base : Z) (entries : list (bytes * bytes)) (name value : bytes) (m : StaticMatch) : Prop :=
  (forall i, exact m = Some i -> base <= i /\ entries !! Z.to_nat (i - base) = Some (name, value)) /\
  (exact m = None -> (name, value) ∉ entries).
Lemma lookup_loop_ok entries : forall base name value ni,
  0 <= base -> match_ok base entries name value (StaticTable.lookup_loop entries base name value ni).
Proof.
  induction entries as [|[en ev] entries IH]; intros base name value ni Hb; cbn [StaticTable.lookup_loop].
  { split; [done|]. intros _. apply not_elem_of_nil. }
  assert (Hskip : forall ni', (en, ev) <> (name, value) ->
    match_ok base ((en, ev) :: entries) name value (StaticTable.lookup_loop entries (base + 1) name value ni')).
  { intros ni' Hne. destruct (IH (base + 1) name value ni' ltac:(lia)) as [He Hn]. split.
    - intros i Hi. destruct (He i Hi) as [? Hl]. split; [lia|].
      replace (Z.to_nat (i - base)) with (S (Z.to_nat (i - (base + 1)))) by lia. done.
    - intros Hi. rewrite not_elem_of_cons. split; [congruence|auto]. }
  case_bool_decide as Hn; cbn [negb]; [|apply Hskip; congruence]. subst en.
  case_bool_decide as Hv; [|apply Hskip; congruence]. subst ev.
  split; cbn [exact]; [|done]. intros i [= <-]. split; [lia|]. by rewrite Z.sub_diag.
Qed.

(** The name index is the first entry with the name. *)
Lemma lookup_loop_name entries : forall base name value ni,
  0 <= base ->
  match match_name (StaticTable.lookup_loop entries base name value ni) with
  | Some i => ni = Some i \/
      (ni = None /\ base <= i /\ exists v, entries !! Z.to_nat (i - base) = Some (name, v) /\
         forall j e, entries !! j = Some e -> Z.of_nat j < i - base -> fst e <> name)
  | None => ni = None /\ forall e, e ∈ entries -> fst e <> name
  end.
Proof.
  induction entries as [|[en ev] entries IH]; intros base name value ni Hb; cbn [StaticTable.lookup_loop].
  { cbn. destruct ni; [by left|]. split; [done|]. intros e He. by apply not_elem_of_nil in He. }
  case_bool_decide as Hn; cbn [negb].
  - subst en. set (ni' := match ni with None => Some base | Some i => Some i end).
    assert (Hhead : match ni' with
      | Some i => ni = Some i \/
        (ni = None /\ base <= i /\ exists v, ((name, ev) :: entries) !! Z.to_nat (i - base) = Some (name, v) /\
           forall j e, ((name, ev) :: entries) !! j = Some e -> Z.of_nat j < i - base -> fst e <> name)
      | None => False end).
    { unfold ni'. destruct ni; [by left|]. right. split_and!; try done. exists ev. rewrite Z.sub_diag.
      split; [done|]. intros. lia. }
    assert (Hni' : exists i, ni' = Some i) by (unfold ni'; destruct ni; eauto).
    destruct Hni' as [i0 Hi0]. case_bool_decide; cbn [match_name]; [by rewrite Hi0 in Hhead |- *|].
    specialize (IH (base + 1) name value ni' ltac:(lia)). rewrite Hi0 in *.
    destruct (match_name _) as [i|]; [|by destruct IH].
    destruct IH as [[= ->]|[? _]]; done.
  - specialize (IH (base + 1) name value ni ltac:(lia)).
    destruct (match_name _) as [i|].
    + destruct IH as [->|(-> & Hi & v & Hl & Hfirst)]; [by left|]. right. split_and!; [done|lia|].
      exists v. replace (Z.to_nat (i - base)) with (S (Z.to_nat (i - (base + 1)))) by lia.
      split; [done|]. intros [|j] e He Hj; [by injection He as <-|]. apply (Hfirst j e He). lia.
    + destruct IH as [-> Hall]. split; [done|]. intros e [->|He]%elem_of_cons; auto.
Qed.

Definition lookup_spec (name value : bytes) (m : StaticMatch) : Prop :=
  match exact m, match_name m with
  | Some i, _ => 0 <= i < 99 /\ StaticTable.get i = Ok (name, value)
  | None, Some i => 0 <= i < 99 /\ (exists v, StaticTable.get i = Ok (name, v)) /\
      (name, value) ∉ PREDEFINED_HEADERS
  | None, None => forall v, (name, v) ∉ PREDEFINED_HEADERS
  end.
Lemma table_length : length PREDEFINED_HEADERS = 99%nat.
Proof. reflexivity. Qed.
Lemma lookup_lookup_spec name value : lookup_spec name value (StaticTable.lookup name value).
Proof.
  unfold lookup_spec, StaticTable.lookup, StaticTable.get.
  pose proof (lookup_loop_ok PREDEFINED_HEADERS 0 name value None ltac:(lia)) as [He Hn].
  pose proof (lookup_loop_name PREDEFINED_HEADERS 0 name value None ltac:(lia)) as Hm.
  assert (Hbound : forall (i : Z) e, 0 <= i -> PREDEFINED_HEADERS !! Z.to_nat i = Some e -> 0 <= i < 99).
  { intros i e Hi Hl. apply lookup_lt_Some in Hl. rewrite table_length in Hl. lia. }
  destruct (StaticTable.lookup_loop PREDEFINED_HEADERS 0 name value None) as [[i|] mn]; cbn [exact match_name] in *.
  - destruct (He i eq_refl) as [Hi Hl]. rewrite Z.sub_0_r in Hl. split; [by eapply Hbound|]. by rewrite Hl.
  - destruct mn as [i|].
    + destruct Hm as [|(_ & Hi & v & Hl & _)]; [done|]. rewrite Z.sub_0_r in Hl.
      split; [by eapply Hbound|]. split; [|auto]. exists v. by rewrite Hl.
    + destruct Hm as [_ Hall]. intros v Hin. by destruct (Hall _ Hin).
Qed.

(** The table is never to be unfolded by conversion. *)
#[global] Strategy opaque [StaticTable.lookup PREDEFINED_HEADERS].
