(* ===== verification/Qpack.v ===== *)
(** * QPACK field sections (webtrans-proto/src/qpack.rs) *)
From S2P Require Import Prelude Bits Buf Utf8 Huffman PrefixInt StaticTable.

(** [pub struct Headers { fields: HashMap<String, String> }] *)
Abbreviation Headers := (gmap bytes bytes).

Definition COLON : Z := 58.
(** [name.starts_with(':')] *)
Definition is_pseudo (name : bytes) : bool := match name with b :: _ => b =? COLON | [] => false end.

(** The lowercase letters, the digits and the other characters of a token. *)
Definition is_lowercase_field_name_byte (byte : Z) : bool :=
  in_range 97 122 byte || in_range 48 57 byte || bool_decide (byte ∈ lit "!#$%&'*+-.^_`|~").

Definition connection_specific : list bytes :=
  [lit "connection"; lit "proxy-connection"; lit "keep-alive"; lit "transfer-encoding"; lit "upgrade"].

Definition bad_value_byte (byte : Z) : bool :=
  (byte =? 0x7f) || (byte =? 13) || (byte =? 10) || ((byte <? 0x20) && negb (byte =? 9)).

Definition validate_field (name value : bytes) : outcome DecodeError unit :=
  let regular_name := if is_pseudo name then tail name else name in
  if bool_decide (regular_name = []) || negb (forallb is_lowercase_field_name_byte regular_name)
  then Err DEInvalidFieldName
  else if existsb bad_value_byte value then Err DEInvalidFieldValue
  else if bool_decide (name ∈ connection_specific) then Err (DEConnectionSpecificField name)
  else if bool_decide (name = lit "te") && negb (eq_ignore_ascii_case (trim value) (lit "trailers"))
  then Err (DEConnectionSpecificField name)
  else Ok ().

Definition decode_string `{Platform} {B} `{Buf B} (size : Z) : M B DecodeError bytes :=
  let* r := get_remaining in
  if negb (0 <? r) then throw DEUnexpectedEnd else
  let* (flags, len) := decode_prefix (size - 1) in
  let* r := get_remaining in
  if r <? len then throw DEUnexpectedEnd else
  let* payload := copy_to_bytes len in
  if Z.land flags 1 =? 0 then ret payload
  else map_err DEHuffmanError (lift (hpack_decode payload)).

Module Headers.
Definition get (name : bytes) (h : Headers) : option bytes := h !! name.
Definition set (name value : bytes) (h : Headers) : Headers := <[name := value]> h.

Section Decode.
Context `{Platform}.

Definition decode_index {B} `{Buf B} : M B DecodeError (bytes * bytes) :=
  let* (_, index) := decode_prefix 6 in
  let* (name, value) := lift (StaticTable.get index) in
  ret (name, value).

(** [std::str::from_utf8(&v)?] *)
Definition check_utf8 {S} (v : bytes) : M S DecodeError bytes := ok_or DEUtf8Error (from_utf8 v).

Definition decode_literal_value {B} `{Buf B} : M B DecodeError (bytes * bytes) :=
  let* (_, name) := decode_prefix 4 in
  let* (name, _) := lift (StaticTable.get name) in
  let* value := decode_string 8 in
  let* value := check_utf8 value in
  ret (name, value).

Definition decode_literal {B} `{Buf B} : M B DecodeError (bytes * bytes) :=
  let* name := decode_string 4 in
  let* name := check_utf8 name in
  let* value := decode_string 8 in
  let* value := check_utf8 value in
  ret (name, value).

(** The [match] on the first byte of a field line. *)
Definition decode_field {B} `{Buf B} (peek : Z) : M B DecodeError (bytes * bytes) :=
  if Z.land peek 0xC0 =? 0xC0 then decode_index
  else if Z.land peek 0xC0 =? 0x80 then throw DEDynamicEntry
  else if Z.land peek 0xD0 =? 0x50 then decode_literal_value
  else if Z.land peek 0xD0 =? 0x40 then throw DEDynamicEntry
  else if Z.land peek 0xE0 =? 0x20 then decode_literal
  else if Z.land peek 0xF0 =? 0x10 then throw DEDynamicEntry
  else if Z.land peek 0xF0 =? 0x00 then throw DEDynamicEntry
  else throw DEUnknownEntry.

(** The bookkeeping after a field: its validity, the pseudo-header rules, the
    insertion.  The state is the fields, the pseudo-headers seen, and whether a
    regular field was seen. *)
Record FieldState := MkFieldState { fields : Headers; pseudo_headers : gset bytes; saw_regular_field : bool }.
Definition add_field (name value : bytes) (st : FieldState) : outcome DecodeError FieldState :=
  let? _ := validate_field name value in
  if is_pseudo name then
    if saw_regular_field st then Err DEPseudoHeaderAfterRegularField
    else if bool_decide (name ∈ pseudo_headers st) then Err (DEDuplicatePseudoHeader name)
    else Ok (MkFieldState (<[name := value]> (fields st)) ({[name]} ∪ pseudo_headers st) false)
  else Ok (MkFieldState (<[name := value]> (fields st)) (pseudo_headers st) true).

Fixpoint decode_loop {B C} `{Buf B} `{ChainBuf B C} `{Buf C} (fuel : nat) (st : FieldState)
  : M B DecodeError Headers :=
  match fuel with
  | O => out_of_fuel
  | S fuel =>
      let* r := get_remaining in
      if negb (0 <? r) then ret (fields st) else
      let* peek := get_u8 in
      let* (name, value) := with_chain (C:=C) [peek] (decode_field peek) in
      let* st := lift (add_field name value st) in
      decode_loop fuel st
  end.

(** Every field line takes a byte at least: the bytes left are fuel enough. *)
Definition decode {B C} `{Buf B} `{ChainBuf B C} `{Buf C} : M B DecodeError Headers :=
  let* (_, insert_count) := decode_prefix 8 in
  let* (sign, delta_base) := decode_prefix 7 in
  if negb (insert_count =? 0) || negb (sign =? 0) || negb (delta_base =? 0) then throw DEDynamicEntry else
  let* r := get_remaining in
  decode_loop (S (Z.to_nat r)) (MkFieldState ∅ ∅ false).
End Decode.

(** [self.fields.keys().find(..)] *)
Definition validate_pseudo_headers `{!HashMapIter bytes bytes} (allowed : list bytes) (h : Headers)
  : outcome DecodeError unit :=
  match find (fun name => is_pseudo name && negb (bool_decide (name ∈ allowed))) (hm_iter h).*1 with
  | Some name => Err (DEInvalidPseudoHeader name)
  | None => Ok ()
  end.

Section Encode.
Context `{Platform} {W E : Type} `{BufMut W}.

Definition encode_index (index : Z) : M W E unit := encode_prefix 6 3 index.
Definition encode_literal_value (name : Z) (value : bytes) : M W E unit :=
  encode_prefix 4 5 name ;;;
  encode_prefix 7 0 (len value) ;;;
  put_slice value.
Definition encode_literal (name value : bytes) : M W E unit :=
  encode_prefix 3 4 (len name) ;;;
  put_slice name ;;;
  encode_prefix 7 0 (len value) ;;;
  put_slice value.
Definition encode_field (name value : bytes) : M W E unit :=
  let entry := StaticTable.lookup name value in
  match exact entry with
  | Some index => encode_index index
  | None =>
      match match_name entry with
      | Some index => encode_literal_value index value
      | None => encode_literal name value
      end
  end.
Fixpoint encode_fields (kvs : list (bytes * bytes)) : M W E unit :=
  match kvs with
  | [] => ret ()
  | (name, value) :: kvs => encode_field name value ;;; encode_fields kvs
  end.
(** A stable sort by a boolean key: [false] first. *)
Definition sort_by_key_bool {A} (key : A -> bool) (l : list A) : list A :=
  List.filter (fun x => negb (key x)) l ++ List.filter key l.
Definition encode `{!HashMapIter bytes bytes} (h : Headers) : M W E unit :=
  encode_prefix 8 0 0 ;;;
  encode_prefix 7 0 0 ;;;
  encode_fields (sort_by_key_bool (fun kv => negb (is_pseudo kv.1)) (hm_iter h)).
End Encode.
End Headers.

(** ** Simulation *)
Section Sim.
Context `{Platform} `{BufSim B1 B2 R}.
Lemma decode_string_sim size : simM R (decode_string size) (decode_string size).
Proof. unfold decode_string. solve_sim. Qed.
#[local] Hint Resolve decode_string_sim : sim.
Lemma decode_field_sim peek : simM R (Headers.decode_field peek) (Headers.decode_field peek).
Proof.
  unfold Headers.decode_field, Headers.decode_index, Headers.decode_literal_value, Headers.decode_literal,
    Headers.check_utf8. solve_sim.
Qed.
End Sim.
#[export] Hint Resolve decode_string_sim decode_field_sim : sim.

(** ** Well-formed fields *)

(** A token in lower case behind at most one colon; a value without control
    characters but the tab; no field of RFC 9114, section 4.2, and no [te] but
    [te: trailers]. *)
Definition token_byte (b : Z) : Prop :=
  97 <= b <= 122 \/ 48 <= b <= 57 \/ b ∈ lit "!#$%&'*+-.^_`|~".
Definition valid_name (name : bytes) : Prop := name <> [] /\ Forall token_byte name.
Definition valid_field (name value : bytes) : Prop :=
  valid_name (if is_pseudo name then tail name else name) /\
  Forall (fun b => b = 9 \/ (32 <= b /\ b <> 127)) value /\
  (name ∉ [lit "connection"; lit "proxy-connection"; lit "keep-alive"; lit "transfer-encoding"; lit "upgrade"]) /\
  (name = lit "te" -> to_ascii_lowercase (trim value) = lit "trailers").
Lemma token_byte_iff b : is_lowercase_field_name_byte b = true <-> token_byte b.
Proof.
  unfold is_lowercase_field_name_byte, token_byte, in_range.
  rewrite !orb_true_iff, !andb_true_iff, bool_decide_eq_true. lia || (rewrite !Z.leb_le; naive_solver).
Qed.
Lemma bad_value_byte_iff b : bad_value_byte b = false <-> b = 9 \/ (32 <= b /\ b <> 127).
Proof. unfold bad_value_byte. lia. Qed.
Lemma validate_field_ok name value : validate_field name value = Ok () <-> valid_field name value.
Proof.
  unfold validate_field, valid_field, valid_name. cbv zeta.
  set (n := if is_pseudo name then tail name else name).
  destruct (forallb is_lowercase_field_name_byte n) eqn:En.
  - apply Is_true_true, forallb_True in En.
    assert (Ht : Forall token_byte n).
    { eapply Forall_impl; [exact En|]. intros b Hb. by apply token_byte_iff, Is_true_true. }
    clear En.
    case_bool_decide as Hn; cbn [orb negb]; [split; [done|naive_solver]|].
    destruct (existsb bad_value_byte value) eqn:Ev.
    + split; [done|]. intros (_ & Hv & _). apply existsb_exists in Ev as (b & Hb & Hbad).
      rewrite Forall_forall in Hv. apply list_elem_of_In, Hv, bad_value_byte_iff in Hb. congruence.
    + assert (Hv : Forall (fun b => b = 9 \/ (32 <= b /\ b <> 127)) value).
      { apply Forall_forall. intros b Hb. apply bad_value_byte_iff. destruct (bad_value_byte b) eqn:E; [|done].
        rewrite <- Ev. symmetry. apply existsb_exists. exists b. split; [by apply list_elem_of_In|done]. }
      fold connection_specific. case_bool_decide as Hc; [split; [done|naive_solver]|].
      change (to_ascii_lowercase (trim value) = lit "trailers") with
        (to_ascii_lowercase (trim value) = to_ascii_lowercase (lit "trailers")).
      unfold eq_ignore_ascii_case. case_bool_decide as Hte; case_bool_decide as He; cbn [andb negb]; naive_solver.
  - rewrite orb_true_r. split; [done|]. intros ((_ & Hf) & _). rewrite <- not_true_iff_false in En. destruct En.
    apply Is_true_true, forallb_True. eapply Forall_impl; [exact Hf|]. intros b Hb. by apply Is_true_true, token_byte_iff.
Qed.
#[export] Instance valid_field_dec name value : Decision (valid_field name value).
Proof.
  destruct (decide (validate_field name value = Ok ())) as [Hv|Hv];
    [left; by apply validate_field_ok|right; intros H; by apply Hv, validate_field_ok].
Defined.

Definition field_ok (name value : bytes) : Prop :=
  valid_field name value /\ is_bytes name /\ is_bytes value /\
  valid_utf8 name = true /\ valid_utf8 value = true.
#[export] Instance field_ok_dec name value : Decision (field_ok name value).
Proof. unfold field_ok. apply _. Defined.
Definition headers_wf (h : Headers) : Prop := map_Forall field_ok h.
Definition string_ok (s : bytes) : Prop := is_bytes s /\ valid_utf8 s = true.

Lemma table_strings_ok :
  forallb (fun e => forallb (fun b => (0 <=? b) && (b <? 256)) e.1 && valid_utf8 e.1 &&
    forallb (fun b => (0 <=? b) && (b <? 256)) e.2 && valid_utf8 e.2) PREDEFINED_HEADERS = true.
Proof. vm_compute. reflexivity. Qed.
Lemma is_bytes_forallb l : forallb (fun b => (0 <=? b) && (b <? 256)) l = true -> is_bytes l.
Proof.
  rewrite List.forallb_forall. intros Hl. apply List.Forall_forall. intros b Hb. specialize (Hl b Hb).
  rewrite andb_true_iff, Z.leb_le, Z.ltb_lt in Hl. unfold is_u. change (2 ^ 8) with 256. lia.
Qed.
Lemma table_get_ok i name value :
  StaticTable.get i = Ok (name, value) -> string_ok name /\ string_ok value.
Proof.
  unfold StaticTable.get. destruct (PREDEFINED_HEADERS !! Z.to_nat i) as [e|] eqn:Hi; [|done].
  intros [= ->]. pose proof table_strings_ok as Ht. rewrite List.forallb_forall in Ht.
  specialize (Ht (name, value) ltac:(apply list_elem_of_In; by eapply list_elem_of_lookup_2)). cbn [fst snd] in Ht.
  rewrite !andb_true_iff in Ht. destruct Ht as [[[? ?] ?] ?]. repeat split; auto using is_bytes_forallb.
Qed.

(** ** What a field section is (RFC 9204, section 4.5) *)
(** The order a decoder accepts: no pseudo-header after a regular field. *)
Fixpoint pseudo_first (saw : bool) (kvs : list (bytes * bytes)) : Prop :=
  match kvs with
  | [] => True
  | kv :: kvs => (is_pseudo kv.1 = true -> saw = false) /\ pseudo_first (negb (is_pseudo kv.1)) kvs
  end.
(** A field section the decoder accepts, given whether a regular field was
    seen and which pseudo-headers were: valid fields, pseudo-headers first, none
    twice. *)
Definition pseudo_names (kvs : list (bytes * bytes)) : list bytes :=
  List.filter is_pseudo kvs.*1.
Definition section_ok (saw : bool) (seen : gset bytes) (kvs : list (bytes * bytes)) : Prop :=
  Forall (fun kv => field_ok kv.1 kv.2) kvs /\ pseudo_first saw kvs /\
  NoDup (pseudo_names kvs) /\ Forall (fun n => n ∉ seen) (pseudo_names kvs).
(** Later values of a name replace earlier ones. *)
Definition insert_all (kvs : list (bytes * bytes)) (m : Headers) : Headers :=
  fold_left (fun m kv => <[kv.1 := kv.2]> m) kvs m.
Lemma insert_all_wf kvs : forall m,
  Forall (fun kv => field_ok kv.1 kv.2) kvs -> headers_wf m -> headers_wf (insert_all kvs m).
Proof.
  induction kvs as [|kv kvs IH]; intros m Hk Hm; cbn; [done|].
  apply Forall_cons in Hk as [Hkv Hk]. apply IH; [done|]. by apply map_Forall_insert_2.
Qed.

(** A refusal for how the bytes are written, and one for what the field is: with
    [kvs] accepted before it, and [saw] and [seen] before those. *)
Definition syntactic (e : DecodeError) : Prop :=
  match e with
  | DEUnexpectedEnd | DEBoundsExceeded | DEDynamicEntry | DEUnknownEntry | DEHuffmanError _ | DEUtf8Error => True
  | _ => False
  end.
Definition refused (saw : bool) (seen : gset bytes) (kvs : list (bytes * bytes)) (name value : bytes) (e : DecodeError) : Prop :=
  match e with
  | DEInvalidFieldName => ~ valid_name (if is_pseudo name then tail name else name)
  | DEInvalidFieldValue => Exists (fun b => (b < 32 /\ b <> 9) \/ b = 127) value
  | DEConnectionSpecificField n => n = name /\
      (name ∈ [lit "connection"; lit "proxy-connection"; lit "keep-alive"; lit "transfer-encoding"; lit "upgrade"] \/
       name = lit "te" /\ to_ascii_lowercase (trim value) <> lit "trailers")
  | DEPseudoHeaderAfterRegularField => valid_field name value /\ is_pseudo name = true /\
      (saw = true \/ Exists (fun kv => is_pseudo kv.1 = false) kvs)
  | DEDuplicatePseudoHeader n => n = name /\ valid_field name value /\ is_pseudo name = true /\
      (name ∈ seen \/ name ∈ pseudo_names kvs)
  | _ => False
  end.

Section Wire.
Context `{Platform}.
(** A string: whether it is Huffman-coded, its length and its bytes. *)
Definition string_line (size : Z) (l s : bytes) : Prop :=
  exists pb payload flags, l = pb ++ payload /\ prefix_int (size - 1) pb flags (len payload) /\ is_bytes s /\
    if Z.land flags 1 =? 0 then s = payload
    else exists tail, bits_of payload = huffman_encode s ++ tail /\ padding_accepted tail.
(** A line: an entry of the static table; a name of the table and a value; a name
    and a value.  The last two have a bit that says never to index them. *)
Inductive field_line : bytes -> bytes * bytes -> Prop :=
| line_indexed l i name value :
    prefix_int 6 l 3 i -> StaticTable.get i = Ok (name, value) -> field_line l (name, value)
| line_name_reference nb vb flags i name entry value :
    flags = 5 \/ flags = 7 -> prefix_int 4 nb flags i -> StaticTable.get i = Ok (name, entry) -> string_line 8 vb value -> field_line (nb ++ vb) (name, value)
| line_literal nb vb name value :
    hd 0 nb / 2 ^ 5 = 1 -> string_line 4 nb name -> string_line 8 vb value -> field_line (nb ++ vb) (name, value).
Inductive field_lines : bytes -> list (bytes * bytes) -> Prop :=
| lines_nil : field_lines [] []
| lines_cons line l kv kvs : field_line line kv -> field_lines l kvs -> field_lines (line ++ l) (kv :: kvs).
(** A section: no insertions and no base, then the lines. *)
Definition section_prefix (l : bytes) : Prop :=
  exists p1 p2 flags, l = p1 ++ p2 /\ prefix_int 8 p1 flags 0 /\ prefix_int 7 p2 0 0.

Lemma string_line_cons size l s : string_line size l s -> 1 <= len l.
Proof. intros (pb & payload & flags & -> & Hp & _). apply prefix_int_cons in Hp. rewrite len_app. pose_len. lia. Qed.
Lemma field_line_cons l kv : field_line l kv -> 1 <= len l.
Proof.
  destruct 1 as [l i name value Hp _|nb vb flags i name entry value _ Hp _ _|nb vb name value _ Hp _].
  - by eapply prefix_int_cons.
  - apply prefix_int_cons in Hp. rewrite len_app. pose_len. lia.
  - apply string_line_cons in Hp. rewrite len_app. pose_len. lia.
Qed.
Lemma prefix_int_hd size pre rest flags x : prefix_int size pre flags x -> flags = hd 0 (pre ++ rest) / 2 ^ size.
Proof. intros (_ & Hs & _ & Hf & _). by destruct pre. Qed.
End Wire.

Lemma validate_field_err saw seen kvs name value e : validate_field name value = Err e -> refused saw seen kvs name value e.
Proof.
  unfold validate_field. cbv zeta. destruct (_ || _) eqn:En.
  { intros [= <-] [Hne Hall]. rewrite bool_decide_eq_false_2 in En by done. cbn [orb] in En.
    apply negb_true_iff, not_true_iff_false in En. destruct En. apply Is_true_true, forallb_True.
    eapply Forall_impl; [exact Hall|]. intros b Hb. by apply Is_true_true, token_byte_iff. }
  destruct (existsb bad_value_byte value) eqn:Ev.
  { intros [= <-]. apply existsb_exists in Ev as (b & Hb & Hbad). apply Exists_exists. exists b.
    split; [by apply list_elem_of_In|]. unfold bad_value_byte in Hbad. lia. }
  destruct (bool_decide (name ∈ connection_specific)) eqn:Hc.
  { apply bool_decide_eq_true in Hc. intros [= <-]. split; [done|by left]. }
  destruct (bool_decide (name = lit "te")) eqn:Hte; [|done]. apply bool_decide_eq_true in Hte.
  destruct (eq_ignore_ascii_case _ _) eqn:Ee; [done|]. cbn [andb negb].
  intros [= <-]. split; [done|]. right. split; [done|]. intros Ht. unfold eq_ignore_ascii_case in Ee.
  by apply bool_decide_eq_false in Ee.
Qed.
Lemma refused_cons saw seen kv kvs name value e :
  refused (negb (is_pseudo kv.1)) (if is_pseudo kv.1 then {[kv.1]} ∪ seen else seen) kvs name value e ->
  refused saw seen (kv :: kvs) name value e.
Proof.
  unfold refused, pseudo_names. destruct e; try done; cbn [fmap list_fmap List.filter].
  - intros (? & ? & [Hs|Hx]); (split; [done|]); (split; [done|]); right; [|by constructor].
    constructor. by apply negb_true_iff.
  - intros (? & ? & ? & Hn). split; [done|]. split; [done|]. split; [done|].
    destruct (is_pseudo kv.1); [|naive_solver]. rewrite elem_of_cons. set_solver.
Qed.

(** ** Reading strings *)
Section Strings.
Context `{Platform}.

Lemma decode_string_raw size flags s rest :
  prefix_args (size - 1) flags (len s) -> Z.land flags 1 = 0 ->
  decode_string size (prefix_bytes (size - 1) flags (len s) ++ s ++ rest) = (Ok s, rest).
Proof.
  intros Ha Hf. unfold decode_string. set (l := prefix_bytes _ _ _ ++ s ++ rest).
  mstep (get_remaining_slice l).
  assert (0 < len l).
  { unfold l, prefix_bytes. rewrite len_app. destruct (len s <? _); rewrite len_cons; pose_len; lia. }
  rewrite (proj2 (Z.ltb_lt 0 (len l))) by done. cbn [negb].
  mstep (decode_prefix_bytes (size - 1) flags (len s) (s ++ rest) Ha).
  mstep (get_remaining_slice (s ++ rest)). rewrite (proj2 (Z.ltb_ge _ _)) by len_lia.
  mstep (copy_to_bytes_slice (E:=DecodeError) (len s) s rest eq_refl). by rewrite Hf.
Qed.

(** Inputs short enough for the bit counters of the Huffman decoder. *)
Lemma decode_string_total size l :
  2 <= size <= 9 -> is_bytes l -> len l <= 2 ^ 28 ->
  match decode_string size l with
  | (Ok s, rest) => exists pre, l = pre ++ rest /\ string_line size pre s
  | (Err e, _) => syntactic e
  | _ => False
  end.
Proof.
  intros Hs Hl Hlen. unfold decode_string. mstep (get_remaining_slice l).
  destruct (0 <? len l); cbn [negb]; [|done].
  pose proof (decode_prefix_total (size - 1) l ltac:(lia) Hl) as Hp. unfold bind at 1.
  destruct (decode_prefix (size - 1) l) as [[[flags n]|e| |] l1]; [|by destruct Hp as [[[-> _]| ->] _]|done..].
  destruct Hp as (pre & -> & Hpi). pose proof (prefix_int_cons _ _ _ _ Hpi) as Hpc. rewrite len_app in Hlen.
  assert (0 <= n) by (destruct Hpi as (_ & _ & _ & _ & ? & _); lia).
  apply is_bytes_app in Hl as [_ Hl1]. mstep (get_remaining_slice l1).
  destruct (Z.ltb_spec (len l1) n); [done|].
  destruct (split_at n l1 ltac:(lia)) as (p & l2 & -> & Hp2).
  mstep (copy_to_bytes_slice (E:=DecodeError) n p l2 (eq_sym Hp2)).
  apply is_bytes_app in Hl1 as [Hpb Hl2]. rewrite len_app in Hlen. subst n.
  destruct (Z.land flags 1 =? 0) eqn:Eh.
  { exists (pre ++ p). split; [by rewrite <- app_assoc|]. exists pre, p, flags. by rewrite Eh. }
  pose proof (hpack_decode_spec p ltac:(split; [done|pose_len; lia])) as Hh. unfold lift, map_err.
  destruct (hpack_decode p) as [s|e| |]; try done. destruct Hh as [Hs' Ht]. exists (pre ++ p).
  split; [by rewrite <- app_assoc|]. exists pre, p, flags. by rewrite Eh.
Qed.

Lemma check_utf8_cases {S} (v : bytes) (s : S) :
  (Headers.check_utf8 v s = (Ok v, s) /\ valid_utf8 v = true) \/ Headers.check_utf8 v s = (Err DEUtf8Error, s).
Proof. unfold Headers.check_utf8, from_utf8. destruct (valid_utf8 v); auto. Qed.

(** One field line: what it consumes and what it yields. *)
Definition field_result (l : bytes) (r : outcome DecodeError (bytes * bytes) * bytes) : Prop :=
  match r with
  | (Ok (name, value), rest) => exists pre, l = pre ++ rest /\ field_line pre (name, value) /\ string_ok name /\ string_ok value
  | (Err e, _) => syntactic e
  | _ => False
  end.

Lemma table_get_cases i : (exists e, StaticTable.get i = Ok e) \/ StaticTable.get i = Err DEUnknownEntry.
Proof. unfold StaticTable.get. destruct (_ !! _); eauto. Qed.
Lemma string_line_bytes size l s : string_line size l s -> is_bytes s.
Proof. by intros (? & ? & ? & _ & _ & ? & _). Qed.

Lemma decode_index_total l : is_bytes l -> hd 0 l / 2 ^ 6 = 3 -> field_result l (Headers.decode_index l).
Proof.
  intros Hl Hh. unfold Headers.decode_index. pose proof (decode_prefix_total 6 l ltac:(lia) Hl) as Hp.
  unfold bind at 1. destruct (decode_prefix 6 l) as [[[flags i]|e| |] l1]; [|by destruct Hp as [[[-> _]| ->] _]|done..].
  destruct Hp as (pre & -> & Hpi). unfold lift, bind.
  destruct (table_get_cases i) as [[[n v] E]|E]; rewrite E; [|done].
  destruct (table_get_ok i n v E). exists pre. split; [done|]. split; [|done].
  apply line_indexed with i; [|done]. by rewrite <- Hh, <- (prefix_int_hd _ _ _ _ _ Hpi).
Qed.

Lemma decode_literal_value_total l :
  is_bytes l -> len l <= 2 ^ 28 -> hd 0 l / 2 ^ 4 = 5 \/ hd 0 l / 2 ^ 4 = 7 -> field_result l (Headers.decode_literal_value l).
Proof.
  intros Hl Hlen Hh. unfold Headers.decode_literal_value. pose proof (decode_prefix_total 4 l ltac:(lia) Hl) as Hp.
  unfold bind at 1. destruct (decode_prefix 4 l) as [[[flags i]|e| |] l1]; [|by destruct Hp as [[[-> _]| ->] _]|done..].
  destruct Hp as (pre & -> & Hpi). apply is_bytes_app in Hl as [_ Hl1]. rewrite len_app in Hlen.
  unfold lift. unfold bind at 1. destruct (table_get_cases i) as [[[n v] E]|E]; rewrite E; [|done].
  destruct (table_get_ok i n v E) as [Hn _].
  pose proof (decode_string_total 8 l1 ltac:(lia) Hl1 ltac:(pose_len; lia)) as Hs. unfold bind at 1.
  destruct (decode_string 8 l1) as [[s|e| |] l2]; try done. destruct Hs as (p2 & -> & Hp2).
  pose proof (string_line_bytes _ _ _ Hp2). unfold bind.
  destruct (check_utf8_cases s l2) as [[-> Hu]| ->]; [|done].
  exists (pre ++ p2). split; [by rewrite <- app_assoc|]. split; [|done].
  apply (line_name_reference pre p2 flags i n v s); [|done..]. by rewrite (prefix_int_hd _ _ (p2 ++ l2) _ _ Hpi).
Qed.

Lemma decode_literal_total l :
  is_bytes l -> len l <= 2 ^ 28 -> hd 0 l / 2 ^ 5 = 1 -> field_result l (Headers.decode_literal l).
Proof.
  intros Hl Hlen Hh. unfold Headers.decode_literal.
  pose proof (decode_string_total 4 l ltac:(lia) Hl Hlen) as Hs. unfold bind at 1.
  destruct (decode_string 4 l) as [[n|e| |] l1]; try done. destruct Hs as (p1 & -> & Hp1).
  pose proof (string_line_bytes _ _ _ Hp1). pose proof (string_line_cons _ _ _ Hp1) as Hc.
  apply is_bytes_app in Hl as [_ Hl1]. rewrite len_app in Hlen. unfold bind at 1.
  destruct (check_utf8_cases n l1) as [[-> Hun]| ->]; [|done].
  pose proof (decode_string_total 8 l1 ltac:(lia) Hl1 ltac:(pose_len; lia)) as Hs. unfold bind at 1.
  destruct (decode_string 8 l1) as [[v|e| |] l2]; try done. destruct Hs as (p2 & -> & Hp2).
  pose proof (string_line_bytes _ _ _ Hp2). unfold bind.
  destruct (check_utf8_cases v l2) as [[-> Huv]| ->]; [|done].
  exists (p1 ++ p2). split; [by rewrite <- app_assoc|]. split; [|done].
  apply line_literal; [|done..]. destruct p1; [change (len []) with 0 in Hc; lia|done].
Qed.

(** The masks of the [match] select the representation by its leading bits. *)
Lemma representation b : is_u8 b ->
  ((Z.land b 0xC0 =? 0xC0) = true -> b / 2 ^ 6 = 3) /\
  ((Z.land b 0xC0 =? 0xC0) = false -> (Z.land b 0xD0 =? 0x50) = true -> b / 2 ^ 4 = 5 \/ b / 2 ^ 4 = 7) /\
  ((Z.land b 0xE0 =? 0x20) = true -> b / 2 ^ 5 = 1).
Proof.
  intros Hb. assert (Ha : forallb (fun b => implb (Z.land b 0xC0 =? 0xC0) (b / 2 ^ 6 =? 3) &&
    implb (negb (Z.land b 0xC0 =? 0xC0) && (Z.land b 0xD0 =? 0x50)) ((b / 2 ^ 4 =? 5) || (b / 2 ^ 4 =? 7)) &&
    implb (Z.land b 0xE0 =? 0x20) (b / 2 ^ 5 =? 1)) (seqZ 0 256) = true) by (vm_compute; reflexivity).
  rewrite List.forallb_forall in Ha. specialize (Ha b ltac:(apply list_elem_of_In, elem_of_seqZ; unfold is_u in Hb; lia)).
  rewrite !andb_true_iff in Ha. destruct Ha as [[H1 H2] H3].
  split; [intros E; rewrite E in H1; by apply Z.eqb_eq|]. split; [|intros E; rewrite E in H3; by apply Z.eqb_eq].
  intros E1 E2. rewrite E1, E2 in H2. cbn [implb negb andb] in H2. by rewrite orb_true_iff, !Z.eqb_eq in H2.
Qed.
Lemma decode_field_total peek orig :
  is_bytes (peek :: orig) -> len (peek :: orig) <= 2 ^ 28 -> field_result (peek :: orig) (Headers.decode_field peek (peek :: orig)).
Proof.
  intros Hl Hlen. pose proof Hl as [Hb _]%Forall_cons. destruct (representation peek Hb) as (H1 & H2 & H3).
  unfold Headers.decode_field. destruct (_ =? 0xC0) eqn:E1; [by apply decode_index_total; auto|].
  destruct (_ =? 0x80); [done|]. destruct (_ =? 0x50) eqn:E2.
  { apply decode_literal_value_total; auto. }
  destruct (_ =? 0x40); [done|]. destruct (_ =? 0x20) eqn:E3; [by apply decode_literal_total; auto|].
  destruct (_ =? 0x10); [done|]. by destruct (_ =? 0x00).
Qed.
End Strings.

Lemma decode_loop_sim `{Platform} `{BufSim B1 B2 R} `{Buf C1} `{Buf C2} `{ChainBuf B1 C1} `{ChainBuf B2 C2}
    `{!ChainSim (B1:=B1) (B2:=B2) R (RC : C1 -> C2 -> Prop)} `{!BufSim RC} fuel : forall st,
  simM R (Headers.decode_loop (C:=C1) fuel st) (Headers.decode_loop (C:=C2) fuel st).
Proof.
  induction fuel; intros; cbn [Headers.decode_loop]; [solve_sim|].
  apply sim_bind; [solve_sim|]. intros r. destruct (negb _); [solve_sim|].
  apply sim_bind; [solve_sim|]. intros peek. apply sim_bind.
  - eapply sim_with_chain. apply decode_field_sim.
  - intros [name value]. solve_sim.
Qed.
Lemma headers_decode_sim `{Platform} `{BufSim B1 B2 R} `{Buf C1} `{Buf C2} `{ChainBuf B1 C1} `{ChainBuf B2 C2}
    `{!ChainSim (B1:=B1) (B2:=B2) R (RC : C1 -> C2 -> Prop)} `{!BufSim RC} :
  simM R (Headers.decode (C:=C1)) (Headers.decode (C:=C2)).
Proof.
  unfold Headers.decode. apply sim_bind; [auto with sim|]. intros [? ic].
  apply sim_bind; [auto with sim|]. intros [sign db].
  destruct (_ || _); [apply sim_throw|]. apply sim_bind; [apply sim_get_remaining|].
  intros r. apply decode_loop_sim.
Qed.

(** ** Decoding a field section *)
Section Decode.
Context `{Platform}.
Import Headers.

Lemma with_chain_field peek orig :
  let r := decode_field peek (peek :: orig) in
  fst (with_chain (C:=Chain bytes) [peek] (decode_field peek) orig) = fst r /\
  (len (snd r) <= len orig -> with_chain (C:=Chain bytes) [peek] (decode_field peek) orig = r).
Proof.
  cbv zeta. destruct (decode_field peek (peek :: orig)) as [o l'] eqn:E.
  apply (with_chain_slice (fun B HB => @decode_field _ B HB peek)); [apply decode_field_sim|done].
Qed.

Lemma validate_cases name value :
  (exists e, validate_field name value = Err e) \/ validate_field name value = Ok ().
Proof. unfold validate_field. repeat case_match; eauto. Qed.

(** What the lines [l] decode to, after [saw] and [seen]. *)
Definition lines_result (saw : bool) (seen : gset bytes) (before : Headers) (l : bytes)
  (r : outcome DecodeError Headers * bytes) : Prop :=
  match r with
  | (Ok h, rest) => rest = [] /\ exists kvs, field_lines l kvs /\ section_ok saw seen kvs /\ h = insert_all kvs before
  | (Err e, _) => syntactic e \/
      exists l1 line l2 kvs name value, l = l1 ++ line ++ l2 /\ field_lines l1 kvs /\ section_ok saw seen kvs /\
        field_line line (name, value) /\ refused saw seen kvs name value e
  | _ => False
  end.
Lemma section_ok_cons saw seen kv kvs :
  field_ok kv.1 kv.2 -> (is_pseudo kv.1 = true -> saw = false /\ kv.1 ∉ seen) ->
  section_ok (negb (is_pseudo kv.1)) (if is_pseudo kv.1 then {[kv.1]} ∪ seen else seen) kvs -> section_ok saw seen (kv :: kvs).
Proof.
  intros Hok Hps (Ha & Hpf & Hnd & Hnew). unfold section_ok, pseudo_names in *.
  cbn [fmap list_fmap List.filter pseudo_first]. split; [by constructor|]. split; [naive_solver|].
  destruct (is_pseudo kv.1) eqn:E; [|done]. destruct (Hps eq_refl) as [_ Hni]. split; [constructor; [|done]|constructor; [done|]].
  - intros Hin. rewrite Forall_forall in Hnew. specialize (Hnew _ Hin). set_solver.
  - eapply Forall_impl; [exact Hnew|]. set_solver.
Qed.
Lemma section_ok_nil saw seen : section_ok saw seen [].
Proof. unfold section_ok, pseudo_names. cbn. split_and!; constructor. Qed.
Lemma lines_result_cons line l kv saw seen before r :
  field_line line kv -> field_ok kv.1 kv.2 -> (is_pseudo kv.1 = true -> saw = false /\ kv.1 ∉ seen) ->
  lines_result (negb (is_pseudo kv.1)) (if is_pseudo kv.1 then {[kv.1]} ∪ seen else seen) (<[kv.1 := kv.2]> before) l r ->
  lines_result saw seen before (line ++ l) r.
Proof.
  intros Hline Hok Hps. destruct r as [[h|e| |] rest]; cbn [lines_result]; try done.
  - intros (-> & kvs & Hl & Hkvs & ->). split; [done|]. exists (kv :: kvs).
    split; [by constructor|]. split; [by apply section_ok_cons|done].
  - intros [He|(l1 & line' & l2 & kvs & name & value & -> & Hl & Hkvs & Hline' & He)]; [by left|]. right.
    exists (line ++ l1), line', l2, (kv :: kvs), name, value. split; [by rewrite <- app_assoc|].
    split; [by constructor|]. split; [by apply section_ok_cons|]. split; [done|]. by apply refused_cons.
Qed.
Lemma lines_refused saw seen before line l name value e rest :
  field_line line (name, value) -> refused saw seen [] name value e -> lines_result saw seen before (line ++ l) (Err e, rest).
Proof.
  intros Hline He. right. exists [], line, l, [], name, value. split; [done|]. split; [constructor|].
  split; [apply section_ok_nil|done].
Qed.

Lemma headers_decode_loop_total fuel : forall st l,
  is_bytes l -> len l <= 2 ^ 28 -> len l < Z.of_nat fuel ->
  lines_result (saw_regular_field st) (pseudo_headers st) (fields st) l (decode_loop (C:=Chain bytes) fuel st l).
Proof.
  induction fuel as [|fuel IH]; intros st l Hl Hlen Hf; [pose_len; lia|].
  cbn [decode_loop]. mstep (get_remaining_slice l).
  destruct l as [|peek orig].
  { change (len []) with 0. cbn. split; [done|]. exists []. split; [constructor|]. split; [apply section_ok_nil|done]. }
  rewrite (proj2 (Z.ltb_lt 0 (len (peek :: orig)))) by len_lia. cbn [negb]. mstep (get_u8_slice peek orig).
  pose proof (decode_field_total peek orig Hl Hlen) as Hd.
  destruct (with_chain_field peek orig) as [Hfst Hw]. unfold bind at 1.
  destruct (decode_field peek (peek :: orig)) as [[[name value]|e| |] rest] eqn:E; cbn [fst snd] in *; try done.
  2: { destruct (with_chain [peek] (decode_field peek) orig) as [o' l']. cbn in Hfst. subst. by left. }
  destruct Hd as (pre & Hpre & Hline & [Hnb Hnu] & [Hvb Hvu]). pose proof (field_line_cons _ _ Hline) as Hp1.
  assert (len rest <= len orig) by (apply (f_equal len) in Hpre; rewrite len_cons, len_app in Hpre; lia).
  rewrite Hw by done. unfold lift, bind at 1.
  assert (Hrb : is_bytes rest) by (rewrite Hpre in Hl; by apply is_bytes_app in Hl as [_ ?]).
  rewrite len_cons in Hlen, Hf. rewrite Hpre. unfold add_field.
  destruct (validate_cases name value) as [[e He]|Hv].
  { rewrite He. by eapply lines_refused, validate_field_err. }
  rewrite Hv. cbn [obind]. apply validate_field_ok in Hv.
  assert (Hfok : field_ok name value) by (by split; [|split_and!]).
  pose proof (lines_result_cons pre rest (name, value) (saw_regular_field st) (pseudo_headers st) (fields st)) as Hcons.
  cbn [fst snd] in Hcons. destruct (is_pseudo name) eqn:Hps.
  - destruct (saw_regular_field st) eqn:Hsaw; [by eapply lines_refused; [done|]; split_and!; auto|].
    case_bool_decide as Hseen; [by eapply lines_refused; [done|]; split_and!; auto|].
    apply Hcons; [done..|]. exact (IH (MkFieldState (<[name:=value]> (fields st)) ({[name]} ∪ pseudo_headers st) false) rest Hrb ltac:(lia) ltac:(lia)).
  - apply Hcons; [done..|]. exact (IH (MkFieldState (<[name:=value]> (fields st)) (pseudo_headers st) true) rest Hrb ltac:(lia) ltac:(lia)).
Qed.

(** The decoder on any input: what a section it accepts is made of, and why it
    refuses one. *)
Definition section_result (l : bytes) (r : outcome DecodeError Headers * bytes) : Prop :=
  match r with
  | (Ok h, rest) => rest = [] /\ exists pre lines kvs, l = pre ++ lines /\ section_prefix pre /\
      field_lines lines kvs /\ section_ok false ∅ kvs /\ h = insert_all kvs ∅
  | (Err e, _) => syntactic e \/
      exists pre l1 line l2 kvs name value, l = pre ++ l1 ++ line ++ l2 /\ section_prefix pre /\ field_lines l1 kvs /\
        section_ok false ∅ kvs /\ field_line line (name, value) /\ refused false ∅ kvs name value e
  | _ => False
  end.
Lemma headers_decode_section l : is_bytes l -> len l <= 2 ^ 28 -> section_result l (decode (C:=Chain bytes) l).
Proof.
  intros Hl Hlen. unfold decode. pose proof (decode_prefix_total 8 l ltac:(lia) Hl) as Hp. unfold bind at 1.
  destruct (decode_prefix 8 l) as [[[f1 ic]|e| |] l1]; [|by destruct Hp as [[[-> _]| ->] _]; left|done..].
  destruct Hp as (p1 & -> & Hp1). apply is_bytes_app in Hl as [_ Hl1]. rewrite len_app in Hlen.
  pose proof (decode_prefix_total 7 l1 ltac:(lia) Hl1) as Hp. unfold bind at 1.
  destruct (decode_prefix 7 l1) as [[[sign db]|e| |] l2]; [|by destruct Hp as [[[-> _]| ->] _]; left|done..].
  destruct Hp as (p2 & -> & Hp2). apply is_bytes_app in Hl1 as [_ Hl2]. rewrite len_app in Hlen.
  destruct (_ || _) eqn:Ez; [by left|]. rewrite !orb_false_iff, !negb_false_iff, !Z.eqb_eq in Ez. destruct Ez as [[-> ->] ->].
  mstep (get_remaining_slice l2). pose_len.
  assert (Hpre : section_prefix (p1 ++ p2)) by by exists p1, p2, f1. rewrite app_assoc.
  pose proof (headers_decode_loop_total (S (Z.to_nat (len l2))) (MkFieldState ∅ ∅ false) l2 Hl2
    ltac:(lia) ltac:(lia)) as Hr.
  destruct (decode_loop _ _ l2) as [[h|e| |] rest]; cbn [lines_result section_result fields pseudo_headers saw_regular_field] in *; try done.
  - destruct Hr as (-> & kvs & Hr). split; [done|]. by exists (p1 ++ p2), l2, kvs.
  - destruct Hr as [He|(l3 & line & l4 & kvs & name & value & -> & Hr)]; [by left|]. right.
    by exists (p1 ++ p2), l3, line, l4, kvs, name, value.
Qed.
Lemma headers_decode_total l :
  is_bytes l -> len l <= 2 ^ 28 ->
  match decode (C:=Chain bytes) l with
  | (Ok h, rest) => rest = [] /\ exists kvs, h = insert_all kvs ∅ /\ section_ok false ∅ kvs
  | (Err _, _) => True
  | _ => False
  end.
Proof.
  intros Hl Hlen. pose proof (headers_decode_section l Hl Hlen) as Hr. destruct (decode l) as [[h|e| |] rest]; try done.
  destruct Hr as (-> & pre & lines & kvs & _ & _ & _ & Hok & ->). split; [done|]. by exists kvs.
Qed.
Lemma headers_decode_wf l h rest :
  is_bytes l -> len l <= 2 ^ 28 -> decode (C:=Chain bytes) l = (Ok h, rest) -> headers_wf h.
Proof.
  intros Hl Hlen E. pose proof (headers_decode_total l Hl Hlen) as Hd. rewrite E in Hd.
  destruct Hd as (_ & kvs & -> & Hok & _). apply insert_all_wf; [done|apply map_Forall_empty].
Qed.
End Decode.

(** ** Encoding a field section *)
Section Roundtrip.
Context `{Platform}.
Import Headers.

(** The strings fit the address space. *)
Definition fits (kv : bytes * bytes) : Prop := len kv.1 <= usize_max /\ len kv.2 <= usize_max.

Definition field_bytes (name value : bytes) : bytes :=
  let entry := StaticTable.lookup name value in
  match exact entry with
  | Some index => prefix_bytes 6 3 index
  | None =>
      match match_name entry with
      | Some index => prefix_bytes 4 5 index ++ prefix_bytes 7 0 (len value) ++ value
      | None => prefix_bytes 3 4 (len name) ++ name ++ prefix_bytes 7 0 (len value) ++ value
      end
  end.

Lemma args_small size flags i : 1 <= size <= 8 -> 0 <= flags < 2 ^ (8 - size) -> 0 <= i < 99 -> prefix_args size flags i.
Proof.
  intros. split_and!; try lia. unfold usize_max. destruct usize_bits_cases as [-> | ->]; lia.
Qed.
Lemma args_len size flags (s : bytes) :
  1 <= size <= 8 -> 0 <= flags < 2 ^ (8 - size) -> len s <= usize_max -> prefix_args size flags (len s).
Proof. intros. split_and!; try lia. apply len_nonneg. Qed.

Lemma put_slice_vec {E} (w s : bytes) : put_slice (E:=E) s w = (Ok (), w ++ s).
Proof. reflexivity. Qed.
Lemma encode_literal_value_vec {E} i value (w : bytes) :
  0 <= i < 99 -> len value <= usize_max ->
  encode_literal_value (E:=E) i value w
  = (Ok (), w ++ prefix_bytes 4 5 i ++ prefix_bytes 7 0 (len value) ++ value).
Proof.
  intros Hi Hv. unfold encode_literal_value.
  mstep (encode_prefix_vec (E:=E) 4 5 i w (args_small 4 5 i ltac:(lia) ltac:(lia) Hi)).
  mstep (encode_prefix_vec (E:=E) 7 0 (len value) (w ++ prefix_bytes 4 5 i)
    (args_len 7 0 value ltac:(lia) ltac:(lia) Hv)).
  by rewrite put_slice_vec, <- !app_assoc.
Qed.
Lemma encode_literal_vec {E} name value (w : bytes) :
  fits (name, value) ->
  encode_literal (E:=E) name value w
  = (Ok (), w ++ prefix_bytes 3 4 (len name) ++ name ++ prefix_bytes 7 0 (len value) ++ value).
Proof.
  intros [Hn Hv]. cbn [fst snd] in *. unfold encode_literal.
  mstep (encode_prefix_vec (E:=E) 3 4 (len name) w (args_len 3 4 name ltac:(lia) ltac:(lia) Hn)).
  mstep (put_slice_vec (E:=E) (w ++ prefix_bytes 3 4 (len name)) name).
  mstep (encode_prefix_vec (E:=E) 7 0 (len value) ((w ++ prefix_bytes 3 4 (len name)) ++ name)
    (args_len 7 0 value ltac:(lia) ltac:(lia) Hv)).
  by rewrite put_slice_vec, <- !app_assoc.
Qed.
Lemma encode_field_vec {E} name value (w : bytes) :
  fits (name, value) -> encode_field (E:=E) name value w = (Ok (), w ++ field_bytes name value).
Proof.
  intros Hf. unfold encode_field, field_bytes.
  pose proof (lookup_lookup_spec name value) as Hl. unfold lookup_spec in Hl.
  destruct (exact _) as [i|]; [|destruct (match_name _) as [i|]].
  - destruct Hl as [Hi _]. unfold encode_index.
    by rewrite (encode_prefix_vec (E:=E) 6 3 i w (args_small 6 3 i ltac:(lia) ltac:(lia) Hi)).
  - destruct Hl as [Hi _]. by rewrite encode_literal_value_vec by (done || apply Hf).
  - by apply encode_literal_vec.
Qed.

(** The first byte of a prefix integer. *)
Lemma prefix_bytes_cons size flags value :
  prefix_args size flags value ->
  exists low tl, prefix_bytes size flags value = (flags * 2 ^ size + low) :: tl /\ 0 <= low <= mask_of size.
Proof.
  intros (Hs & Hf & Hv). unfold prefix_bytes. pose proof (mask_bound size Hs).
  destruct (Z.ltb_spec value (mask_of size)); eexists _, _; (split; [reflexivity|lia]).
Qed.
(** The first byte selects the representation. *)
Lemma select_index low : 0 <= low <= 63 -> (Z.land (3 * 2 ^ 6 + low) 0xC0 =? 0xC0) = true.
Proof.
  intros. assert (Ha : forallb (fun low => Z.land (3 * 2 ^ 6 + low) 0xC0 =? 0xC0) (seqZ 0 64) = true) by by_eval.
  rewrite List.forallb_forall in Ha. apply Ha, list_elem_of_In, elem_of_seqZ. lia.
Qed.
Lemma select_literal_value low : 0 <= low <= 15 ->
  (Z.land (5 * 2 ^ 4 + low) 0xC0 =? 0xC0) || (Z.land (5 * 2 ^ 4 + low) 0xC0 =? 0x80) = false /\
  (Z.land (5 * 2 ^ 4 + low) 0xD0 =? 0x50) = true.
Proof.
  intros. assert (Ha : forallb (fun low => negb ((Z.land (5 * 2 ^ 4 + low) 0xC0 =? 0xC0) || (Z.land (5 * 2 ^ 4 + low) 0xC0 =? 0x80))
    && (Z.land (5 * 2 ^ 4 + low) 0xD0 =? 0x50)) (seqZ 0 16) = true) by by_eval.
  rewrite List.forallb_forall in Ha. specialize (Ha low ltac:(apply list_elem_of_In, elem_of_seqZ; lia)).
  by rewrite andb_true_iff, negb_true_iff in Ha.
Qed.
Lemma select_literal low : 0 <= low <= 7 ->
  let b := 4 * 2 ^ 3 + low in
  (Z.land b 0xC0 =? 0xC0) || (Z.land b 0xC0 =? 0x80) || (Z.land b 0xD0 =? 0x50) || (Z.land b 0xD0 =? 0x40) = false /\
  (Z.land b 0xE0 =? 0x20) = true.
Proof.
  intros. assert (Ha : forallb (fun low => let b := 4 * 2 ^ 3 + low in
    negb ((Z.land b 0xC0 =? 0xC0) || (Z.land b 0xC0 =? 0x80) || (Z.land b 0xD0 =? 0x50) || (Z.land b 0xD0 =? 0x40))
    && (Z.land b 0xE0 =? 0x20)) (seqZ 0 8) = true) by by_eval.
  rewrite List.forallb_forall in Ha. specialize (Ha low ltac:(apply list_elem_of_In, elem_of_seqZ; lia)).
  cbv zeta in Ha. by rewrite andb_true_iff, negb_true_iff in Ha.
Qed.

Lemma check_utf8_ok {S} v (s : S) : valid_utf8 v = true -> check_utf8 v s = (Ok v, s).
Proof. intros Hv. unfold check_utf8, from_utf8. by rewrite Hv. Qed.

(** A field line decodes to its field. *)
Lemma decode_field_bytes name value rest :
  fits (name, value) -> valid_utf8 name = true -> valid_utf8 value = true ->
  exists peek tl, field_bytes name value ++ rest = peek :: tl /\ len rest <= len tl /\
    decode_field peek (peek :: tl) = (Ok (name, value), rest).
Proof.
  intros [Hn Hv] Hun Huv. cbn [fst snd] in *. unfold field_bytes.
  pose proof (lookup_lookup_spec name value) as Hl. unfold lookup_spec in Hl.
  destruct (exact _) as [i|]; [|destruct (match_name _) as [i|]].
  - destruct Hl as [Hi Hget]. pose proof (args_small 6 3 i ltac:(lia) ltac:(lia) Hi) as Ha.
    pose proof (decode_prefix_bytes 6 3 i rest Ha) as Hd.
    destruct (prefix_bytes_cons 6 3 i Ha) as (low & tl & Hp & Hlow).
    exists (3 * 2 ^ 6 + low), (tl ++ rest). rewrite Hp in *. split; [done|]. split; [len_lia|].
    unfold decode_field. rewrite select_index by done. unfold decode_index. cbn [app] in Hd. mstep Hd.
    rewrite Hget. done.
  - destruct Hl as (Hi & (v' & Hget) & _). pose proof (args_small 4 5 i ltac:(lia) ltac:(lia) Hi) as Ha.
    pose proof (args_len 7 0 value ltac:(lia) ltac:(lia) Hv) as Hav.
    pose proof (decode_prefix_bytes 4 5 i ((prefix_bytes 7 0 (len value) ++ value) ++ rest) Ha) as Hd.
    destruct (prefix_bytes_cons 4 5 i Ha) as (low & tl & Hp & Hlow).
    exists (5 * 2 ^ 4 + low), (tl ++ (prefix_bytes 7 0 (len value) ++ value) ++ rest).
    rewrite Hp in *. split; [cbn; by rewrite <- !app_assoc|]. split; [len_lia|].
    destruct (select_literal_value low Hlow) as [H1 H2]. apply orb_false_iff in H1 as [H1 H1'].
    unfold decode_field. rewrite H1, H1', H2. unfold decode_literal_value. cbn [app] in Hd. mstep Hd.
    rewrite Hget. unfold lift. unfold bind at 1. rewrite <- app_assoc.
    mstep (decode_string_raw 8 0 value rest Hav eq_refl). mstep (check_utf8_ok value rest Huv). done.
  - pose proof (args_len 3 4 name ltac:(lia) ltac:(lia) Hn) as Ha.
    pose proof (args_len 7 0 value ltac:(lia) ltac:(lia) Hv) as Hav.
    pose proof (decode_string_raw 4 4 name (prefix_bytes 7 0 (len value) ++ value ++ rest) Ha eq_refl) as Hd.
    change (4 - 1) with 3 in Hd.
    destruct (prefix_bytes_cons 3 4 (len name) Ha) as (low & tl & Hp & Hlow).
    exists (4 * 2 ^ 3 + low), (tl ++ name ++ prefix_bytes 7 0 (len value) ++ value ++ rest).
    rewrite Hp in *. split; [cbn; by rewrite <- !app_assoc|]. split; [len_lia|].
    destruct (select_literal low Hlow) as [H1 H2]. rewrite !orb_false_iff in H1. destruct H1 as [[[H1 H1'] H1''] H1'''].
    unfold decode_field. rewrite H1, H1', H1'', H1''', H2. unfold decode_literal. cbn [app] in Hd. mstep Hd.
    mstep (check_utf8_ok name (prefix_bytes 7 0 (len value) ++ value ++ rest) Hun).
    mstep (decode_string_raw 8 0 value rest Hav eq_refl). mstep (check_utf8_ok value rest Huv). done.
Qed.

Lemma pseudo_first_regular kvs saw :
  Forall (fun kv => is_pseudo kv.1 = false) kvs -> pseudo_first saw kvs.
Proof.
  intros Hkvs. revert saw. induction Hkvs as [|kv kvs Hkv _ IH]; intros saw; cbn; [done|].
  rewrite Hkv. split; [done|apply IH].
Qed.
Lemma pseudo_first_app a b :
  Forall (fun kv => is_pseudo kv.1 = true) a -> Forall (fun kv => is_pseudo kv.1 = false) b ->
  pseudo_first false (a ++ b).
Proof.
  intros Ha Hb. induction Ha as [|kv a Hkv _ IH]; cbn; [by apply pseudo_first_regular|].
  rewrite Hkv. split; [done|exact IH].
Qed.

Definition kvs_bytes (kvs : list (bytes * bytes)) : bytes := concat (map (fun kv => field_bytes kv.1 kv.2) kvs).

Lemma decode_loop_fields kvs : forall fuel st,
  Forall (fun kv => field_ok kv.1 kv.2 /\ fits kv) kvs -> NoDup kvs.*1 -> (length kvs < fuel)%nat ->
  pseudo_first (saw_regular_field st) kvs ->
  Forall (fun kv => fields st !! kv.1 = None /\ kv.1 ∉ pseudo_headers st) kvs ->
  decode_loop (C:=Chain bytes) fuel st (kvs_bytes kvs) = (Ok (list_to_map kvs ∪ fields st), []).
Proof.
  induction kvs as [|[name value] kvs IH]; intros fuel st Hok Hnd Hf Hord Hnew;
    (destruct fuel as [|fuel]; [cbn in Hf; lia|]); cbn [decode_loop].
  - change (kvs_bytes []) with ([] : bytes). mstep (get_remaining_slice []). change (len []) with 0. cbn.
    by rewrite (left_id_L ∅ (∪)).
  - apply Forall_cons in Hok as [[Hfok Hfit] Hok]. apply Forall_cons in Hnew as [[Hnone Hps] Hnew].
    cbn [fmap list_fmap fst snd length pseudo_first] in *. apply NoDup_cons in Hnd as [Hni Hnd].
    destruct Hfok as (Hval%validate_field_ok & _ & _ & Hun & Huv). destruct Hord as [Hsaw Hord].
    unfold kvs_bytes. cbn [map concat fst snd]. fold (kvs_bytes kvs).
    destruct (decode_field_bytes name value (kvs_bytes kvs) Hfit Hun Huv) as (peek & tl & -> & Hlen & Hd).
    mstep (get_remaining_slice (peek :: tl)).
    rewrite (proj2 (Z.ltb_lt 0 (len (peek :: tl)))) by len_lia. cbn [negb]. mstep (get_u8_slice peek tl).
    destruct (with_chain_field peek tl) as [_ Hw]. rewrite Hd in Hw. cbn [snd] in Hw. specialize (Hw Hlen).
    mstep Hw. unfold lift. unfold add_field. rewrite Hval. cbn [obind].
    assert (Hrest : forall ps saw, saw = negb (is_pseudo name) -> (forall n, n ∈ ps -> n = name \/ n ∈ pseudo_headers st) ->
      decode_loop fuel (MkFieldState (<[name := value]> (fields st)) ps saw) (kvs_bytes kvs)
      = (Ok (list_to_map ((name, value) :: kvs) ∪ fields st), [])).
    { intros ps saw -> Hps'. rewrite IH; try done; [|lia|].
      - f_equal. f_equal. cbn [fields list_to_map foldr fst snd uncurry].
        rewrite <- insert_union_r, insert_union_l; [done|].
        by apply not_elem_of_list_to_map.
      - apply Forall_forall. intros [n v] Hin. cbn [fst fields pseudo_headers].
        rewrite Forall_forall in Hnew. destruct (Hnew _ Hin) as [Hn1 Hn2]. cbn [fst] in *.
        assert (n <> name). { intros ->. apply Hni. apply list_elem_of_fmap. by exists (name, v). }
        split; [by rewrite lookup_insert_ne|]. intros Hps2. destruct (Hps' n Hps2); auto. }
    destruct (is_pseudo name) eqn:Hpn.
    + rewrite Hsaw by done. rewrite bool_decide_eq_false_2 by done. unfold bind.
      apply Hrest; [done|]. set_solver.
    + unfold bind. apply Hrest; [done|]. auto.
Qed.

Context `{!HashMapIter bytes bytes}.
Definition encode_order (h : Headers) : list (bytes * bytes) :=
  sort_by_key_bool (fun kv => negb (is_pseudo kv.1)) (hm_iter h).
Definition section_bytes (h : Headers) : bytes :=
  prefix_bytes 8 0 0 ++ prefix_bytes 7 0 0 ++ kvs_bytes (encode_order h).
(** Every string of the map fits the address space. *)
Definition headers_fit (h : Headers) : Prop := map_Forall (fun n v => fits (n, v)) h.

Lemma filter_partition {A} (f : A -> bool) (l : list A) :
  List.filter (fun x => negb (negb (f x))) l ++ List.filter (fun x => negb (f x)) l ≡ₚ l.
Proof.
  induction l as [|x l IH]; [done|]. cbn [List.filter]. destruct (f x); cbn [negb].
  - cbn [app]. by rewrite IH.
  - by rewrite <- Permutation_middle, IH.
Qed.
Lemma encode_order_perm h : encode_order h ≡ₚ map_to_list h.
Proof. unfold encode_order, sort_by_key_bool. rewrite (filter_partition (fun kv => is_pseudo kv.1)). apply hm_iter_perm. Qed.
Lemma encode_order_pseudo_first h : pseudo_first false (encode_order h).
Proof.
  apply pseudo_first_app; apply List.Forall_forall; intros kv Hin; apply filter_In in Hin as [_ Hp];
    by destruct (is_pseudo kv.1).
Qed.

Lemma encode_fields_vec {E} kvs : forall w : bytes,
  Forall fits kvs -> encode_fields (E:=E) kvs w = (Ok (), w ++ kvs_bytes kvs).
Proof.
  induction kvs as [|[n v] kvs IH]; intros w Hf; cbn [encode_fields]; [by rewrite app_nil_r|].
  apply Forall_cons in Hf as [Hf Hfs]. mstep (encode_field_vec (E:=E) n v w Hf). rewrite IH by done.
  unfold kvs_bytes. cbn [map concat fst snd]. by rewrite <- app_assoc.
Qed.
Lemma prefix_zero_args size : size = 7 \/ size = 8 -> prefix_args size 0 0.
Proof. intros [-> | ->]; apply args_small; lia. Qed.

Lemma headers_encode_vec {E} h (w : bytes) :
  headers_fit h -> encode (E:=E) h w = (Ok (), w ++ section_bytes h).
Proof.
  intros Hf. unfold encode.
  mstep (encode_prefix_vec (E:=E) 8 0 0 w (prefix_zero_args 8 ltac:(auto))).
  mstep (encode_prefix_vec (E:=E) 7 0 0 (w ++ prefix_bytes 8 0 0) (prefix_zero_args 7 ltac:(auto))).
  rewrite encode_fields_vec; [unfold section_bytes; by rewrite <- !app_assoc|].
  fold (encode_order h). rewrite encode_order_perm. apply map_Forall_to_list in Hf.
  eapply Forall_impl; [exact Hf|]. by intros [].
Qed.

Lemma len_field_bytes name value : fits (name, value) -> 1 <= len (field_bytes name value).
Proof.
  intros [Hn Hv]. cbn [fst snd] in *. unfold field_bytes.
  pose proof (lookup_lookup_spec name value) as Hl. unfold lookup_spec in Hl.
  assert (Hp : forall size flags v, 1 <= len (prefix_bytes size flags v)).
  { intros. unfold prefix_bytes. destruct (_ <? _); rewrite len_cons; pose_len; lia. }
  destruct (exact _) as [i|]; [apply Hp|]. destruct (match_name _) as [i|]; rewrite len_app.
  - pose proof (Hp 4 5 i). pose_len. lia.
  - pose proof (Hp 3 4 (len name)). pose_len. lia.
Qed.
Lemma len_kvs_bytes kvs : Forall fits kvs -> len kvs <= len (kvs_bytes kvs).
Proof.
  induction 1 as [|[n v] kvs Hf _ IH]; [done|]. unfold kvs_bytes. cbn [map concat fst snd].
  fold (kvs_bytes kvs). rewrite len_cons, len_app. pose proof (len_field_bytes n v Hf). lia.
Qed.

Lemma headers_decode_bytes h :
  headers_wf h -> headers_fit h -> decode (C:=Chain bytes) (section_bytes h) = (Ok h, []).
Proof.
  intros Hwf Hfit. unfold decode, section_bytes.
  mstep (decode_prefix_bytes 8 0 0 (prefix_bytes 7 0 0 ++ kvs_bytes (encode_order h)) (prefix_zero_args 8 ltac:(auto))).
  mstep (decode_prefix_bytes 7 0 0 (kvs_bytes (encode_order h)) (prefix_zero_args 7 ltac:(auto))).
  rewrite !Z.eqb_refl. cbn [negb orb]. mstep (get_remaining_slice (kvs_bytes (encode_order h))).
  assert (Hall : Forall (fun kv => field_ok kv.1 kv.2 /\ fits kv) (encode_order h)).
  { rewrite encode_order_perm. apply map_Forall_to_list in Hwf, Hfit.
    apply Forall_and. split.
    - eapply Forall_impl; [exact Hwf|]. intros [? ?] Hx. exact Hx.
    - eapply Forall_impl; [exact Hfit|]. intros [? ?] Hx. exact Hx. }
  assert (Hfits : Forall fits (encode_order h)).
  { eapply Forall_impl; [exact Hall|]. by intros ? [_ ?]. }
  pose proof (len_kvs_bytes _ Hfits) as Hlen.
  rewrite decode_loop_fields; try done.
  - f_equal. f_equal. cbn [fields]. rewrite (right_id_L ∅ (∪)).
    rewrite <- (list_to_map_to_list h) at 2. apply list_to_map_proper; [|apply encode_order_perm].
    rewrite encode_order_perm. apply NoDup_fst_map_to_list.
  - rewrite encode_order_perm. apply NoDup_fst_map_to_list.
  - unfold len in Hlen at 1. lia.
  - apply encode_order_pseudo_first.
  - apply Forall_forall. intros kv _. cbn. split; [apply lookup_empty|set_solver].
Qed.
End Roundtrip.

(** ** Properties *)

(** C12: a header map of valid fields survives the trip: whatever order it is
    iterated in, the encoder does not panic and writes the pseudo-headers first,
    and the decoder accepts the section and rebuilds the very same map. *)
Theorem headers_roundtrip `{Platform} `{!HashMapIter bytes bytes} (h : Headers)
  (Hwf : headers_wf h) (Hfit : headers_fit h) :
  exists bs, (forall E (w : bytes), Headers.encode (E:=E) h w = (Ok (), w ++ bs)) /\
    Headers.decode (C:=Chain bytes) bs = (Ok h, []).
Proof.
  exists (section_bytes h). split.
  - intros. by apply headers_encode_vec.
  - by apply headers_decode_bytes.
Qed.
Definition sample_headers : Headers :=
  {[ lit ":method" := lit "CONNECT"; lit ":path" := lit "/chat"; lit "x-test" := lit "1" ]}.
Lemma headers_roundtrip_witness :
  let order := hm_iter_rev bytes bytes in
  exists bs, (forall E (w : bytes), Headers.encode (H:=Platform64) (E:=E) sample_headers w = (Ok (), w ++ bs)) /\
    Headers.decode (H:=Platform64) (C:=Chain bytes) bs = (Ok sample_headers, []).
Proof.
  apply (headers_roundtrip (H:=Platform64) sample_headers).
  - apply (bool_decide_unpack (map_Forall field_ok sample_headers)). vm_compute. exact I.
  - unfold headers_fit, fits. apply (bool_decide_unpack _). vm_compute. exact I.
Defined.

(** C13: on any input of at most 256 MiB the field section decoder returns
    without a panic.  What it accepts is a section prefix without insertions or base
    and then field lines in one of the three static representations of RFC 9204
    (an entry of the static table; a name of it and a string; two strings, each raw
    or Huffman-coded), the map it returns is what exactly these lines give, later
    values replacing earlier ones, every line valid UTF-8 with a lowercase token
    name, a value without control characters and no connection-specific field,
    the pseudo-headers all before the regular fields and none of them twice.  An
    error that is not about the bytes' syntax is true of the first line that does
    not follow these rules: its name is no token, its value has a control
    character, it is specific to a connection, or it is a pseudo-header behind a
    regular field or of a name that came before. *)
Theorem headers_decode_valid `{Platform} (l : bytes) (Hl : is_bytes l) (Hlen : len l <= 2 ^ 28) :
  match Headers.decode (C:=Chain bytes) l with
  | (Ok h, rest) => rest = [] /\ exists pre lines kvs, l = pre ++ lines /\ section_prefix pre /\
      field_lines lines kvs /\ section_ok false ∅ kvs /\ h = insert_all kvs ∅
  | (Err e, _) => syntactic e \/
      exists pre l1 line l2 kvs name value, l = pre ++ l1 ++ line ++ l2 /\ section_prefix pre /\ field_lines l1 kvs /\
        section_ok false ∅ kvs /\ field_line line (name, value) /\ refused false ∅ kvs name value e
  | _ => False
  end.
Proof. by apply headers_decode_section. Qed.
Lemma headers_decode_valid_witness :
  Headers.decode (H:=Platform64) (C:=Chain bytes) [0; 0; 0xC1; 0xD1]
  = (Ok {[ lit ":path" := lit "/"; lit ":method" := lit "GET" ]}, []) /\
  (([] : bytes) = [] /\ exists pre lines kvs, [0; 0; 0xC1; 0xD1] = pre ++ lines /\ section_prefix (H:=Platform64) pre /\
     field_lines (H:=Platform64) lines kvs /\ section_ok false ∅ kvs /\
     {[ lit ":path" := lit "/"; lit ":method" := lit "GET" ]} = insert_all kvs ∅) /\
  Headers.decode (H:=Platform64) (C:=Chain bytes) [0; 0; 0xC1; 0xC1] = (Err (DEDuplicatePseudoHeader (lit ":path")), []).
Proof.
  split; [vm_compute; reflexivity|]. split; [|vm_compute; reflexivity].
  exact (headers_decode_valid (H:=Platform64) [0; 0; 0xC1; 0xD1] ltac:(by_eval) ltac:(by_eval)).
Defined.

(** The static table lookup of the encoder and the index lookup of the
    decoder agree: an exact match is the index of that very entry, a name match
    the index of an entry of that name when none is exact, no match means that no
    entry has the name; and exactly the indices below 99 are entries. *)
Theorem static_table_lookup (name value : bytes) :
  lookup_spec name value (StaticTable.lookup name value) /\
  (forall i, 0 <= i -> (exists e, StaticTable.get i = Ok e) <-> i < 99).
Proof.
  split; [apply lookup_lookup_spec|]. intros i Hi. unfold StaticTable.get.
  pose proof table_length as Ht. destruct (PREDEFINED_HEADERS !! Z.to_nat i) as [e|] eqn:E.
  - apply lookup_lt_Some in E. rewrite Ht in E. split; [lia|eauto].
  - apply lookup_ge_None in E. rewrite Ht in E. split; [by intros []|lia].
Qed.
