(* ===== verification/Connect.v ===== *)
(** * CONNECT requests and responses (webtrans-proto/src/connect.rs)

    The url and http crates are parameters: a type of parsed URLs with its
    accessors, a type of methods and one of status codes. *)
From S2P Require Import Prelude Buf Utf8 Varint Frame PrefixInt StaticTable Qpack.

Definition MAX_CONNECT_FRAME_SIZE : Z := 64 * 1024.
Definition WEBTRANSPORT_PROTOCOL : bytes := lit "webtransport-h3".
Definition LEGACY_WEBTRANSPORT_PROTOCOL : bytes := lit "webtransport".

(** ** The libraries *)
Class UrlLib := {
  Url : Type;
  ParseError : Type;
  url_parse : bytes -> Url + ParseError;
  url_scheme : Url -> bytes;
  url_username : Url -> bytes;
  url_password : Url -> option bytes;
  url_authority : Url -> bytes;
  url_path : Url -> bytes;
  url_query : Url -> option bytes;
  url_fragment : Url -> option bytes
}.
Class HttpLib := {
  Method : Type;
  method_eq_dec :: EqDecision Method;
  method_parse : bytes -> option Method;
  CONNECT : Method;
  StatusCode : Type;
  status_from_str : bytes -> option StatusCode;
  status_as_str : StatusCode -> bytes
}.

Inductive ConnectError `{UrlLib} `{HttpLib} :=
| CNUnexpectedEnd
| CNQpackError (e : DecodeError)
| CNUnexpectedFrame (typ : Frame)
| CNInvalidMethod
| CNInvalidUrl (e : ParseError)
| CNInvalidAuthority
| CNInvalidFragment
| CNInvalidStatus
| CNMessageTooLong
| CNWrongStatus (s : option StatusCode)
| CNWrongMethod (m : option Method)
| CNWrongScheme (s : option bytes)
| CNWrongAuthority
| CNWrongProtocol (p : option bytes)
| CNWrongPath
| CNErrorStatus (s : StatusCode)
| CNIo (e : io_error).

Record ConnectRequest `{UrlLib} := MkConnectRequest { request_url : Url }.
Record ConnectResponse `{HttpLib} := MkConnectResponse { response_status : StatusCode }.

Arguments MkConnectRequest {_}. Arguments MkConnectResponse {_}.

(** [r.map_err(f)?] of a pure result *)
Definition omap_err {E F A} (f : E -> F) (o : outcome E A) : outcome F A :=
  match o with Ok a => Ok a | Err e => Err (f e) | Panic => Panic | OutOfFuel => OutOfFuel end.

Section Connect.
Context `{Platform} `{UrlLib} `{HttpLib}.

Definition encode_headers_frame {W E : Type} `{BufMut W} `{!HashMapIter bytes bytes} (headers : Headers) : M W E unit :=
  let '(r, payload) := Headers.encode (E:=E) headers ([] : bytes) in
  lift r ;;;
  Frame.encode Frame.HEADERS ;;;
  VarInt.encode (VarInt.from_u32 (as_u32 (len payload))) ;;;
  put_slice payload.

(** The frame rebuilt in memory. *)
Definition rebuild_frame (typ : Frame) (length : Z) (payload : bytes) : outcome ConnectError bytes :=
  let '(r, frame) := (
    Frame.encode typ ;;;
    (let* v := map_err (fun _ => CNMessageTooLong) (lift (VarInt.try_from_usize length)) in VarInt.encode v) ;;;
    put_slice payload) ([] : bytes) in
  let? _ := r in Ok frame.
Definition read_frame {S} `{AsyncRead S} (fuel : nat) : M S ConnectError bytes :=
  bounded_read_loop MAX_CONNECT_FRAME_SIZE CNUnexpectedEnd CNMessageTooLong CNIo rebuild_frame fuel.

(** The header block of the HEADERS frame in front, checked for its
    pseudo-headers: the first steps of both decoders. *)
Definition decode_headers {B T C} `{Buf B} `{TakeBuf B T} `{Buf T} `{ChainBuf T C} `{Buf C}
    `{!HashMapIter bytes bytes} (allowed : list bytes) : M B ConnectError Headers :=
  let* (typ, size) := map_err (fun _ => CNUnexpectedEnd) Frame.read in
  if negb (bool_decide (typ = Frame.HEADERS)) then throw (CNUnexpectedFrame typ) else
  let* headers := map_err CNQpackError (with_take (T:=T) size (Headers.decode (C:=C))) in
  lift (omap_err CNQpackError (Headers.validate_pseudo_headers allowed headers)) ;;;
  ret headers.

Definition request_pseudo_headers : list bytes :=
  [lit ":method"; lit ":scheme"; lit ":authority"; lit ":path"; lit ":protocol"].

(** The rest of [ConnectRequest::decode]. *)
Definition interpret_request (headers : Headers) : outcome ConnectError ConnectRequest :=
  match Headers.get (lit ":scheme") headers with
  | None => Err (CNWrongScheme None)
  | Some scheme =>
  if negb (bool_decide (scheme = lit "https")) then Err (CNWrongScheme (Some scheme)) else
  match Headers.get (lit ":authority") headers with
  | None => Err CNWrongAuthority
  | Some authority =>
  match Headers.get (lit ":path") headers with
  | None => Err CNWrongPath
  | Some path_and_query =>
  let? method :=
    match Headers.get (lit ":method") headers with
    | None => Ok None
    | Some m => match method_parse m with Some m => Ok (Some m) | None => Err CNInvalidMethod end
    end in
  if negb (bool_decide (method = Some CONNECT)) then Err (CNWrongMethod method) else
  let protocol := Headers.get (lit ":protocol") headers in
  if negb (bool_decide (protocol = Some WEBTRANSPORT_PROTOCOL \/ protocol = Some LEGACY_WEBTRANSPORT_PROTOCOL))
  then Err (CNWrongProtocol protocol) else
  match url_parse (lit "https" ++ lit "://" ++ authority ++ path_and_query) with
  | inr e => Err (CNInvalidUrl e)
  | inl url =>
      if negb (bool_decide (url_username url = [])) || bool_decide (is_Some (url_password url))
      then Err CNInvalidAuthority
      else if bool_decide (is_Some (url_fragment url)) then Err CNInvalidFragment
      else Ok (MkConnectRequest url)
  end end end end.

Definition request_decode {B T C} `{Buf B} `{TakeBuf B T} `{Buf T} `{ChainBuf T C} `{Buf C}
    `{!HashMapIter bytes bytes} : M B ConnectError ConnectRequest :=
  let* headers := decode_headers (T:=T) (C:=C) request_pseudo_headers in
  lift (interpret_request headers).

Definition request_read {S} `{AsyncRead S} `{!HashMapIter bytes bytes} (fuel : nat)
  : M S ConnectError ConnectRequest :=
  let* frame := read_frame fuel in
  lift (fst (request_decode (T:=Take bytes) (C:=Chain (Take bytes)) frame)).

Definition path_and_query (url : Url) : bytes :=
  match url_query url with
  | Some query => url_path url ++ lit "?" ++ query
  | None => url_path url
  end.
Definition request_headers (r : ConnectRequest) : Headers :=
  let url := request_url r in
  Headers.set (lit ":protocol") WEBTRANSPORT_PROTOCOL
  (Headers.set (lit ":path") (path_and_query url)
  (Headers.set (lit ":authority") (url_authority url)
  (Headers.set (lit ":scheme") (url_scheme url)
  (Headers.set (lit ":method") (lit "CONNECT") ∅)))).
Definition request_encode {W E : Type} `{BufMut W} `{!HashMapIter bytes bytes} (r : ConnectRequest) : M W E unit :=
  encode_headers_frame (request_headers r).

Definition request_write {S} `{AsyncWrite S} `{!HashMapIter bytes bytes} (r : ConnectRequest)
  : M S ConnectError unit :=
  let '(o, buf) := request_encode (E:=ConnectError) r ([] : bytes) in
  lift o ;;; map_err CNIo (write_all buf).

(** The rest of [ConnectResponse::decode]. *)
Definition interpret_response (headers : Headers) : outcome ConnectError ConnectResponse :=
  match Headers.get (lit ":status") headers with
  | None => Err (CNWrongStatus None)
  | Some status =>
      match status_from_str status with
      | None => Err CNInvalidStatus
      | Some status => Ok (MkConnectResponse status)
      end
  end.
Definition response_decode {B T C} `{Buf B} `{TakeBuf B T} `{Buf T} `{ChainBuf T C} `{Buf C}
    `{!HashMapIter bytes bytes} : M B ConnectError ConnectResponse :=
  let* headers := decode_headers (T:=T) (C:=C) [lit ":status"] in
  lift (interpret_response headers).

Definition response_read {S} `{AsyncRead S} `{!HashMapIter bytes bytes} (fuel : nat)
  : M S ConnectError ConnectResponse :=
  let* frame := read_frame fuel in
  lift (fst (response_decode (T:=Take bytes) (C:=Chain (Take bytes)) frame)).

Definition response_headers (r : ConnectResponse) : Headers :=
  Headers.set (lit "sec-webtransport-http3-draft") (lit "draft02")
  (Headers.set (lit ":status") (status_as_str (response_status r)) ∅).
Definition response_encode {W E : Type} `{BufMut W} `{!HashMapIter bytes bytes} (r : ConnectResponse) : M W E unit :=
  encode_headers_frame (response_headers r).
Definition response_write {S} `{AsyncWrite S} `{!HashMapIter bytes bytes} (r : ConnectResponse)
  : M S ConnectError unit :=
  let '(o, buf) := response_encode (E:=ConnectError) r ([] : bytes) in
  lift o ;;; map_err CNIo (write_all buf).
End Connect.

(** ** Documented behaviour of the libraries *)

(** A component of a parsed URL is percent-encoded: printable ASCII. *)
Definition printable (s : bytes) : Prop := Forall (fun b => 0x20 < b < 0x7f) s.
(** Parsing the serialisation of an https URL without a fragment gives the URL
    back, and its components are percent-encoded. *)
Class UrlLaws `{UrlLib} : Prop := {
  url_parse_serialise u :
    url_scheme u = lit "https" -> url_fragment u = None ->
    url_parse (url_scheme u ++ lit "://" ++ url_authority u ++ path_and_query u) = inl u;
  url_printable u :
    url_scheme u = lit "https" -> printable (url_authority u) /\ printable (path_and_query u)
}.
(** The CONNECT method is its name and no other; a status code is its three
    digits. *)
Class HttpLaws `{HttpLib} : Prop := {
  method_connect s : method_parse s = Some CONNECT <-> s = lit "CONNECT";
  status_digits c : printable (status_as_str c) /\ len (status_as_str c) = 3;
  status_roundtrip c : status_from_str (status_as_str c) = Some c
}.

Abbreviation connect_short := (short_error CNUnexpectedEnd CNMessageTooLong CNIo).

(** ** Messages: a checked header block and its interpretation *)
Section Message.
Context `{Platform} `{UrlLib} `{HttpLib} `{!HashMapIter bytes bytes}.

(** Both decoders have this form. *)
Definition message_decode {A} (allowed : list bytes) (interp : Headers -> outcome ConnectError A)
  : M bytes ConnectError A :=
  let* headers := decode_headers (T:=Take bytes) (C:=Chain (Take bytes)) allowed in lift (interp headers).

Lemma with_take_headers (payload rest : bytes) :
  with_take (T:=Take bytes) (len payload) (Headers.decode (C:=Chain (Take bytes))) (payload ++ rest)
  = (fst (Headers.decode (C:=Chain bytes) payload), snd (Headers.decode (C:=Chain bytes) payload) ++ rest).
Proof.
  apply (with_take_slice (fun B HB => @Headers.decode _ B (Chain B) HB chain_chainbuf (@chain_buf B HB))).
  eapply (headers_decode_sim (RC:=chain_lift (R:=take_rel rest))).
Qed.

(** What a header block means to a decoder. *)
Definition message_spec {A} (allowed : list bytes) (interp : Headers -> outcome ConnectError A)
    (payload : bytes) : outcome ConnectError A :=
  let? headers := omap_err CNQpackError (fst (Headers.decode (C:=Chain bytes) payload)) in
  let? _ := omap_err CNQpackError (Headers.validate_pseudo_headers allowed headers) in
  interp headers.

Lemma message_decode_frame {A} (allowed : list bytes) (interp : Headers -> outcome ConnectError A)
    (l : bytes) f (payload rest : bytes) :
  Frame.read l = (Ok (f, len payload), payload ++ rest) ->
  message_decode allowed interp l =
    if bool_decide (f = Frame.HEADERS)
    then (message_spec allowed interp payload, snd (Headers.decode (C:=Chain bytes) payload) ++ rest)
    else (Err (CNUnexpectedFrame f), payload ++ rest).
Proof.
  intros E. unfold message_decode, decode_headers, message_spec.
  unfold bind at 1. mstep E. case_bool_decide; cbn [negb]; [|done].
  unfold bind, map_err, lift. rewrite with_take_headers.
  destruct (Headers.decode (C:=Chain bytes) payload) as [[h|e| |] l']; cbn; try done.
  destruct (Headers.validate_pseudo_headers allowed h); cbn; done.
Qed.
Lemma message_decode_short {A} (allowed : list bytes) (interp : Headers -> outcome ConnectError A)
    (l : bytes) e (l' : bytes) :
  Frame.read l = (Err e, l') -> message_decode allowed interp l = (Err CNUnexpectedEnd, l').
Proof. intros E. unfold message_decode, decode_headers. unfold bind at 1. by mstep E. Qed.

Lemma validate_pseudo_cases (allowed : list bytes) (h : Headers) :
  (Headers.validate_pseudo_headers allowed h = Ok () /\
   forall n, is_Some (h !! n) -> is_pseudo n = true -> n ∈ allowed) \/
  exists n, Headers.validate_pseudo_headers allowed h = Err (DEInvalidPseudoHeader n) /\
   is_Some (h !! n) /\ is_pseudo n = true /\ n ∉ allowed.
Proof.
  unfold Headers.validate_pseudo_headers.
  assert (Hin : forall n, n ∈ (hm_iter h).*1 <-> is_Some (h !! n)).
  { intros n. rewrite hm_iter_perm. rewrite list_elem_of_fmap. split.
    - intros ([k v] & -> & Hkv). apply elem_of_map_to_list in Hkv. by exists v.
    - intros [v Hv]. exists (n, v). split; [done|]. by apply elem_of_map_to_list. }
  destruct (find _ _) as [n|] eqn:Ef.
  - right. apply find_some in Ef as [Hn Hc]. apply list_elem_of_In, Hin in Hn.
    rewrite andb_true_iff, negb_true_iff, bool_decide_eq_false in Hc. exists n. tauto.
  - left. split; [done|]. intros n Hn Hp. apply Hin, list_elem_of_In in Hn.
    pose proof (find_none _ _ Ef _ Hn) as Hc. cbv beta in Hc. rewrite Hp in Hc. cbn [andb] in Hc.
    rewrite negb_false_iff, bool_decide_eq_true in Hc. done.
Qed.

(** Every outcome of a message decoder. *)
Lemma message_decode_total {A} (allowed : list bytes) (interp : Headers -> outcome ConnectError A) (l : bytes) :
  is_bytes l -> len l <= 2 ^ 28 -> (forall h, completes (interp h)) ->
  match message_decode allowed interp l with
  | (Ok r, rest) => rest `suffix_of` l /\ exists h, headers_wf h /\
      (forall n, is_Some (h !! n) -> is_pseudo n = true -> n ∈ allowed) /\ interp h = Ok r
  | (Err _, _) => True
  | _ => False
  end.
Proof.
  intros Hl Hlen Hi. destruct (read_cases l Hl) as [(l' & E)|(f & p & rest & E & Hg & Hf & Hsuf)].
  { by rewrite (message_decode_short allowed interp l _ l' E). }
  rewrite (message_decode_frame allowed interp l f p rest E). case_bool_decide; [|done].
  assert (is_bytes (p ++ rest)) as Hpr by by eapply suffix_is_bytes.
  apply is_bytes_app in Hpr as [Hp _].
  assert (Hlp : len p <= 2 ^ 28).
  { destruct Hsuf as [k ->]. rewrite !len_app in Hlen. pose_len. lia. }
  unfold message_spec. pose proof (headers_decode_total p Hp Hlp) as Hd.
  pose proof (headers_decode_wf p) as Hwf.
  destruct (Headers.decode (C:=Chain bytes) p) as [[h|e| |] l']; cbn; try done.
  destruct Hd as [-> _]. specialize (Hwf h [] Hp Hlp eq_refl).
  destruct (validate_pseudo_cases allowed h) as [[-> Hall]|(n & -> & _)]; cbn; [|done].
  specialize (Hi h). destruct (interp h) as [r|e| |] eqn:Er; try done.
  - split; [|by exists h]. transitivity (p ++ rest); [by exists p|done].
  - apply Hi. by left.
  - apply Hi. by right.
Qed.

(** ** Reading a message off a stream *)
Definition message_read {A} {S} `{AsyncRead S} (allowed : list bytes)
    (interp : Headers -> outcome ConnectError A) (fuel : nat) : M S ConnectError A :=
  let* frame := read_frame fuel in lift (fst (message_decode allowed interp frame)).

Lemma rebuild_frame_ok f payload :
  varint_ok (frame_type f) -> len payload <= MAX_CONNECT_FRAME_SIZE ->
  rebuild_frame f (len payload) payload = Ok (frame_bytes f payload).
Proof.
  unfold MAX_CONNECT_FRAME_SIZE. intros Hf Hp. unfold rebuild_frame, Frame.encode.
  mstep (encode_vec (E:=ConnectError) (frame_type f) [] Hf).
  unfold VarInt.try_from_usize, VarInt.try_from_u64, VarInt.from_u64, as_u, lift, map_err, bind.
  pose proof (len_nonneg payload). rewrite Z.mod_small by lia. rewrite varint_max_val.
  rewrite (proj2 (Z.leb_le _ _)) by lia.
  rewrite encode_vec by (split; rewrite ?varint_max_val; cbn [into_inner]; lia).
  unfold put_slice, frame_bytes. cbn. by rewrite <- !app_assoc.
Qed.
Lemma frame_read_alone f payload :
  varint_ok (frame_type f) -> payload_ok payload -> Frame.is_grease f = false -> is_bytes payload ->
  Frame.read (frame_bytes f payload) = (Ok (f, len payload), payload ++ []).
Proof.
  intros. pose proof (read_after_grease [] f payload []) as Hread.
  change (frames_bytes [] ++ ?l) with l in Hread. rewrite app_nil_r in Hread.
  apply Hread; try done; constructor.
Qed.

Lemma message_read_spec {A} (allowed : list bytes) (interp : Headers -> outcome ConnectError A)
    (fuel : nat) (l : bytes) e :
  is_bytes l -> len l < Z.of_nat fuel ->
  (exists x s, message_read allowed interp fuel (MkIncoming l e) = (Err x, s) /\ connect_short e x /\
     (len l <= MAX_CONNECT_FRAME_SIZE -> exists l', message_decode allowed interp l = (Err CNUnexpectedEnd, l'))) \/
  (exists rest l', message_read allowed interp fuel (MkIncoming l e)
     = (fst (message_decode allowed interp l), MkIncoming rest e) /\
     message_decode allowed interp l = (fst (message_decode allowed interp l), l') /\ rest `suffix_of` l').
Proof.
  intros Hl Hf. unfold message_read, read_frame.
  destruct (bounded_read_loop_spec MAX_CONNECT_FRAME_SIZE CNUnexpectedEnd CNMessageTooLong CNIo
      rebuild_frame fuel e l Hl Hf)
    as [(x & s & E & Hx & Hshort)|(f & p & rest & E & Hp & Hf1 & Hg1 & Hlp & Hpo & Er)].
  - left. exists x, s. unfold bind. rewrite E. split; [done|]. split; [done|].
    intros Hm. destruct (Hshort Hm) as [l' Hl']. exists l'.
    eapply message_decode_short. by rewrite (read_unfold fuel) by done.
  - right. rewrite rebuild_frame_ok in Er by done. mstep Er. unfold lift.
    rewrite (message_decode_frame allowed interp l f p rest) by (by rewrite (read_unfold fuel) by done).
    rewrite (message_decode_frame allowed interp (frame_bytes f p) f p []) by by apply frame_read_alone.
    case_bool_decide; cbn [fst].
    + eexists rest, _. split; [done|]. split; [done|]. by eexists.
    + eexists rest, _. split; [done|]. split; [done|]. by eexists.
Qed.
End Message.

(** ** Encoding a message *)
Section Encode.
Context `{Platform} `{UrlLib} `{HttpLib} `{!HashMapIter bytes bytes}.

Lemma headers_frame_ok : varint_ok (frame_type Frame.HEADERS).
Proof. by vm_compute. Qed.

Lemma encode_headers_frame_vec {E} h (w : bytes) :
  headers_fit h -> len (section_bytes h) < 2 ^ 32 ->
  encode_headers_frame (E:=E) h w = (Ok (), w ++ frame_bytes Frame.HEADERS (section_bytes h)).
Proof.
  intros Hf Hl. unfold encode_headers_frame. rewrite headers_encode_vec by done. cbn [app].
  unfold lift. unfold bind at 1. unfold Frame.encode.
  mstep (encode_vec (E:=E) (frame_type Frame.HEADERS) w headers_frame_ok).
  unfold as_u, VarInt.from_u32. pose proof (len_nonneg (section_bytes h)). rewrite Z.mod_small by lia.
  assert (Hv : varint_ok (MkVarInt (len (section_bytes h)))) by (split; rewrite ?varint_max_val; cbn [into_inner]; lia).
  mstep (encode_vec (E:=E) _ (w ++ varint_bytes (frame_type Frame.HEADERS)) Hv).
  unfold put_slice, frame_bytes. cbn. by rewrite <- !app_assoc.
Qed.

(** Sizes. *)
Lemma len_tail_bytes fuel : forall n, len (tail_bytes fuel n) <= Z.of_nat fuel.
Proof.
  induction fuel as [|fuel IH]; intros n; cbn [tail_bytes]; [by vm_compute|].
  destruct (128 <=? n); rewrite len_cons; [specialize (IH (n / 128)); lia|rewrite len_nil; lia].
Qed.
Lemma len_prefix_bytes size flags v : len (prefix_bytes size flags v) <= 66.
Proof.
  unfold prefix_bytes. destruct (v <? mask_of size); rewrite len_cons; [rewrite len_nil; lia|].
  pose proof (len_tail_bytes prefix_fuel (v - mask_of size)). unfold prefix_fuel in *.
  pose proof usize_bits_bound. lia.
Qed.
Lemma len_field_bytes_le n v : len (field_bytes n v) <= 132 + len n + len v.
Proof.
  unfold field_bytes. destruct (exact _) as [i|]; [|destruct (match_name _) as [i|]]; rewrite ?len_app.
  - pose proof (len_prefix_bytes 6 3 i). pose_len. lia.
  - pose proof (len_prefix_bytes 4 5 i). pose proof (len_prefix_bytes 7 0 (len v)). pose_len. lia.
  - pose proof (len_prefix_bytes 3 4 (len n)). pose proof (len_prefix_bytes 7 0 (len v)). lia.
Qed.
(** What a list of fields takes at most, in any order. *)
Definition kvs_bound (kvs : list (bytes * bytes)) : Z :=
  foldr (fun kv acc => 132 + len kv.1 + len kv.2 + acc) 0 kvs.
Lemma kvs_bound_perm a b : a ≡ₚ b -> kvs_bound a = kvs_bound b.
Proof. induction 1; cbn [kvs_bound foldr] in *; unfold kvs_bound in *; lia. Qed.
Lemma len_kvs_bytes_le kvs : len (kvs_bytes kvs) <= kvs_bound kvs.
Proof.
  induction kvs as [|[n v] kvs IH]; [done|].
  unfold kvs_bytes. cbn [map concat fst snd kvs_bound foldr]. fold (kvs_bytes kvs) (kvs_bound kvs).
  rewrite len_app. pose proof (len_field_bytes_le n v). lia.
Qed.
Lemma len_section_bytes kvs :
  NoDup kvs.*1 -> len (section_bytes (list_to_map kvs)) <= 132 + kvs_bound kvs.
Proof.
  intros Hnd. unfold section_bytes. rewrite !len_app.
  pose proof (len_prefix_bytes 8 0 0). pose proof (len_prefix_bytes 7 0 0).
  pose proof (len_kvs_bytes_le (encode_order (list_to_map kvs))) as Hb.
  rewrite (kvs_bound_perm _ kvs) in Hb; [lia|]. by rewrite encode_order_perm, map_to_list_to_map.
Qed.

(** The bytes of a section are bytes. *)
Lemma tail_bytes_is_bytes fuel : forall n, 0 <= n -> is_bytes (tail_bytes fuel n).
Proof.
  induction fuel as [|fuel IH]; intros n Hn; cbn [tail_bytes]; [constructor|].
  destruct (Z.leb_spec 128 n); apply Forall_cons; unfold is_u.
  - split; [pose proof (Z.mod_pos_bound n 128); lia|]. apply IH. apply Z.div_pos; lia.
  - split; [lia|constructor].
Qed.
Lemma prefix_bytes_is_bytes size flags v : prefix_args size flags v -> is_bytes (prefix_bytes size flags v).
Proof.
  intros (Hs & Hf & Hv). pose proof (flags_bound size flags Hs Hf). pose proof (mask_bound size Hs) as Hm.
  unfold prefix_bytes. unfold mask_of in *. destruct (Z.ltb_spec v (2 ^ size - 1)); apply Forall_cons; unfold is_u;
    (split; [lia|]); [constructor|]. apply tail_bytes_is_bytes. lia.
Qed.
Lemma field_bytes_is_bytes n v : fits (n, v) -> is_bytes n -> is_bytes v -> is_bytes (field_bytes n v).
Proof.
  intros [Hn Hv] Hnb Hvb. cbn [fst snd] in *. unfold field_bytes.
  pose proof (lookup_lookup_spec n v) as Hl. unfold lookup_spec in Hl.
  destruct (exact _) as [i|]; [|destruct (match_name _) as [i|]]; rewrite ?is_bytes_app; split_and?; try done;
    apply prefix_bytes_is_bytes; first [by apply args_small; try lia|by apply args_len; try lia].
Qed.
Lemma section_is_bytes h : headers_wf h -> headers_fit h -> is_bytes (section_bytes h).
Proof.
  intros Hwf Hfit. unfold section_bytes. rewrite !is_bytes_app. split_and!; [by apply prefix_bytes_is_bytes, prefix_zero_args; auto..|].
  assert (Hall : Forall (fun kv => field_ok kv.1 kv.2 /\ fits kv) (encode_order h)).
  { rewrite encode_order_perm. apply List.Forall_forall. intros [n v] Hin.
    apply list_elem_of_In, elem_of_map_to_list in Hin. split; [by apply Hwf|by apply Hfit]. }
  induction Hall as [|[n v] kvs [(_ & Hn & Hv & _) Hf] _ IH]; [constructor|].
  unfold kvs_bytes. cbn [map concat]. apply is_bytes_app. split; [by apply field_bytes_is_bytes|exact IH].
Qed.

(** ** The header maps of the messages *)
Lemma printable_bytes s : printable s -> is_bytes s /\ valid_utf8 s = true.
Proof.
  intros Hs. split; [|apply ascii_valid]; eapply Forall_impl; try exact Hs; cbv beta; unfold is_u; intros; lia.
Qed.
(** A name that is valid with an empty value is valid with any printable one. *)
Definition plain_name (n : bytes) : bool :=
  bool_decide (field_ok n []) && negb (bool_decide (n = lit "te")).
Lemma plain_field_ok n v : plain_name n = true -> printable v -> field_ok n v.
Proof.
  unfold plain_name. rewrite andb_true_iff, negb_true_iff, bool_decide_eq_true, bool_decide_eq_false.
  intros [(Hv & Hb & _ & Hu & _) Hte] Hp. destruct (printable_bytes v Hp). split; [|by split_and!].
  destruct Hv as (Hn & _ & Hc & _). split; [done|]. split; [|by split].
  eapply Forall_impl; [exact Hp|]. intros c Hc'. cbn in Hc'. lia.
Qed.
Lemma fields_wf kvs :
  NoDup kvs.*1 -> Forall (fun kv => plain_name kv.1 = true /\ printable kv.2) kvs ->
  headers_wf (list_to_map kvs).
Proof.
  intros Hnd Hall. apply map_Forall_to_list. rewrite map_to_list_to_map by done.
  eapply Forall_impl; [exact Hall|]. intros [n v] [Hn Hv]. by apply plain_field_ok.
Qed.
Lemma fields_fit kvs :
  NoDup kvs.*1 -> kvs_bound kvs <= usize_max -> headers_fit (list_to_map kvs).
Proof.
  intros Hnd Hb. apply map_Forall_to_list. rewrite map_to_list_to_map by done. clear Hnd.
  assert (Hpos : forall l, 0 <= kvs_bound l).
  { intros l. unfold kvs_bound. induction l as [|[n v] l IH]; cbn [foldr fst snd]; [done|]. pose_len. lia. }
  induction kvs as [|[n v] kvs IH]; [constructor|]. cbn [kvs_bound foldr fst snd] in Hb. fold (kvs_bound kvs) in Hb.
  pose proof (Hpos kvs). pose_len. constructor; [split; cbn [fst snd]; lia|apply IH; lia].
Qed.

(** A message of printable fields, once encoded, is one HEADERS frame whose block
    decodes to the fields. *)
Lemma encode_message kvs :
  NoDup kvs.*1 -> Forall (fun kv => plain_name kv.1 = true /\ printable kv.2) kvs ->
  kvs_bound kvs <= MAX_CONNECT_FRAME_SIZE - 132 ->
  let section := section_bytes (list_to_map kvs) in
  (forall E (w : bytes), encode_headers_frame (E:=E) (list_to_map kvs) w
     = (Ok (), w ++ frame_bytes Frame.HEADERS section)) /\
  Headers.decode (C:=Chain bytes) section = (Ok (list_to_map kvs), []) /\
  is_bytes section /\ len section <= MAX_CONNECT_FRAME_SIZE /\ payload_ok section.
Proof.
  intros Hnd Hall Hb section. pose proof (len_section_bytes kvs Hnd) as Hl. fold section in Hl.
  unfold MAX_CONNECT_FRAME_SIZE in *. pose proof usize_max_ge.
  assert (Hwf : headers_wf (list_to_map kvs)) by by apply fields_wf.
  assert (Hfit : headers_fit (list_to_map kvs)) by (apply fields_fit; [done|lia]).
  split_and!; [|by apply headers_decode_bytes|by apply section_is_bytes|lia|].
  - intros. apply encode_headers_frame_vec; [done|]. fold section. lia.
  - split; rewrite ?varint_max_val; lia.
Qed.
End Encode.

(** ** Round trips *)
Section Roundtrip.
Context `{Platform} `{UrlLib} `{HttpLib} `{!HashMapIter bytes bytes}.

Lemma validate_pseudo_ok (allowed : list bytes) kvs :
  forallb (fun n => negb (is_pseudo n) || bool_decide (n ∈ allowed)) kvs.*1 = true ->
  Headers.validate_pseudo_headers allowed (list_to_map kvs) = Ok ().
Proof.
  intros Ha. destruct (validate_pseudo_cases allowed (list_to_map kvs)) as [[-> _]|(n & _ & [v Hv] & Hp & Hn)]; [done|].
  apply elem_of_list_to_map_2, (list_elem_of_fmap_2 fst) in Hv. cbn [fst] in Hv.
  rewrite List.forallb_forall in Ha. specialize (Ha n ltac:(by apply list_elem_of_In)).
  rewrite Hp, bool_decide_eq_false_2 in Ha by done. done.
Qed.

Definition message_roundtrips {A} (allowed : list bytes) (interp : Headers -> outcome ConnectError A)
    (bs : bytes) (a : A) : Prop :=
  (forall gs rest, Forall grease_frame gs -> is_bytes rest ->
     message_decode allowed interp (frames_bytes gs ++ bs ++ rest) = (Ok a, rest)) /\
  (forall gs rest e fuel,
     Forall (fun fp => grease_frame fp /\ len fp.2 <= MAX_CONNECT_FRAME_SIZE) gs -> is_bytes rest ->
     (length gs < fuel)%nat ->
     message_read allowed interp fuel (MkIncoming (frames_bytes gs ++ bs ++ rest) e) = (Ok a, MkIncoming rest e)).

Lemma message_roundtrip {A} (allowed : list bytes) (interp : Headers -> outcome ConnectError A) kvs a :
  NoDup kvs.*1 -> Forall (fun kv => plain_name kv.1 = true /\ printable kv.2) kvs ->
  kvs_bound kvs <= MAX_CONNECT_FRAME_SIZE - 132 ->
  forallb (fun n => negb (is_pseudo n) || bool_decide (n ∈ allowed)) kvs.*1 = true ->
  interp (list_to_map kvs) = Ok a ->
  exists bs, (forall E (w : bytes), encode_headers_frame (E:=E) (list_to_map kvs) w = (Ok (), w ++ bs)) /\
    message_roundtrips allowed interp bs a.
Proof.
  intros Hnd Hall Hb Hallow Hi. destruct (encode_message kvs Hnd Hall Hb) as (Henc & Hdec & Hsb & Hsl & Hso).
  set (section := section_bytes _) in *. exists (frame_bytes Frame.HEADERS section). split; [done|].
  assert (Hd : forall l rest, Frame.read l = (Ok (Frame.HEADERS, len section), section ++ rest) ->
    message_decode allowed interp l = (Ok a, rest)).
  { intros l rest E. rewrite (message_decode_frame allowed interp l _ section rest E).
    rewrite bool_decide_eq_true_2 by done. unfold message_spec. rewrite Hdec. cbn [fst snd omap_err obind].
    rewrite validate_pseudo_ok by done. cbn [omap_err obind]. by rewrite Hi. }
  split.
  - intros gs rest Hgs Hr. by apply Hd, read_after_grease.
  - intros gs rest e fuel Hgs Hr Hf. unfold message_read, read_frame, bind.
    rewrite (bounded_read_frames MAX_CONNECT_FRAME_SIZE CNUnexpectedEnd CNMessageTooLong CNIo rebuild_frame)
      by done.
    rewrite rebuild_frame_ok by done. unfold lift.
    rewrite (Hd _ [] (frame_read_alone Frame.HEADERS section headers_frame_ok Hso eq_refl Hsb)). done.
Qed.
End Roundtrip.

(** ** What the decoders accept *)
Section Accept.
Context `{Platform} `{UrlLib} `{HttpLib} `{!HashMapIter bytes bytes}.

(** The header map of an extended CONNECT for WebTransport to [url]. *)
Definition request_ok (h : Headers) (r : ConnectRequest) : Prop :=
  h !! lit ":scheme" = Some (lit "https") /\
  (exists m, h !! lit ":method" = Some m /\ method_parse m = Some CONNECT) /\
  h !! lit ":protocol" ∈ [Some WEBTRANSPORT_PROTOCOL; Some LEGACY_WEBTRANSPORT_PROTOCOL] /\
  (exists authority path, h !! lit ":authority" = Some authority /\ h !! lit ":path" = Some path /\
     url_parse (lit "https://" ++ authority ++ path) = inl (request_url r)) /\
  url_username (request_url r) = [] /\ url_password (request_url r) = None /\
  url_fragment (request_url r) = None.
Definition response_ok (h : Headers) (r : ConnectResponse) : Prop :=
  exists status, h !! lit ":status" = Some status /\ status_from_str status = Some (response_status r).

Lemma interpret_request_ok h r : interpret_request h = Ok r <-> request_ok h r.
Proof.
  unfold interpret_request, request_ok, Headers.get.
  destruct (h !! lit ":scheme") as [scheme|]; [|naive_solver].
  case_bool_decide as Hs; cbn [negb]; [subst|naive_solver].
  destruct (h !! lit ":authority") as [authority|]; [|naive_solver].
  destruct (h !! lit ":path") as [path|]; [|naive_solver].
  destruct (h !! lit ":method") as [m|]; [|naive_solver].
  destruct (method_parse m) as [method|] eqn:Em; [|naive_solver]. cbn [obind].
  case_bool_decide as Hc; cbn [negb]; [|naive_solver]. simplify_eq.
  case_bool_decide as Hp; cbn [negb].
  2: { split; [done|]. intros (_ & _ & Hin & _). exfalso. apply Hp. set_solver. }
  change (lit "https" ++ lit "://" ++ authority ++ path) with (lit "https://" ++ authority ++ path).
  destruct (url_parse _) as [url|e] eqn:Eu;
    [|split; [done|]; intros (_ & _ & _ & (a & p & ? & ? & ?) & _); congruence].
  case_bool_decide as Hu; cbn [negb orb];
    [|split; [done|]; intros (_ & _ & _ & (a & p & ? & ? & ?) & ? & _); congruence].
  case_bool_decide as Hpw; [split; [done|]; intros (_ & _ & _ & (a & p & ? & ? & ?) & _ & Hn & _);
    assert (url = request_url r) as -> by congruence; rewrite Hn in Hpw; by destruct Hpw|].
  case_bool_decide as Hfr; [split; [done|]; intros (_ & _ & _ & (a & p & ? & ? & ?) & _ & _ & Hn);
    assert (url = request_url r) as -> by congruence; rewrite Hn in Hfr; by destruct Hfr|].
  apply eq_None_not_Some in Hpw, Hfr. split.
  - intros [= <-]. split_and!; try done; [by exists m| |by exists authority, path].
    destruct Hp as [-> | ->]; set_solver.
  - intros (_ & _ & _ & (a & p & ? & ? & ?) & _). assert (url = request_url r) as -> by congruence. by destruct r.
Qed.
Lemma interpret_request_completes h : completes (interpret_request h).
Proof. unfold interpret_request, completes, panics, obind. repeat case_match; intros [?|?]; congruence. Qed.
Lemma interpret_response_ok h r : interpret_response h = Ok r <-> response_ok h r.
Proof.
  unfold interpret_response, response_ok, Headers.get.
  destruct (h !! lit ":status") as [s|]; [|split; [done|]; intros (s' & ? & ?); congruence].
  destruct (status_from_str s) as [c|] eqn:E; [|split; [done|]; intros (s' & ? & ?); congruence].
  split; [intros [= <-]; by exists s|]. intros (s' & ? & ?). destruct r. cbn [response_status] in *. congruence.
Qed.
Lemma interpret_response_completes h : completes (interpret_response h).
Proof. unfold interpret_response, completes, panics. repeat case_match; intros [?|?]; congruence. Qed.

(** Exactly the messages a decoder accepts. *)
Definition message_ok {A} (allowed : list bytes) (ok : Headers -> A -> Prop) (l : bytes) (a : A) : Prop :=
  exists payload rest h, Frame.read l = (Ok (Frame.HEADERS, len payload), payload ++ rest) /\
    Headers.decode (C:=Chain bytes) payload = (Ok h, []) /\
    (forall n, is_Some (h !! n) -> is_pseudo n = true -> n ∈ allowed) /\ ok h a.
Lemma message_decode_ok {A} (allowed : list bytes) (interp : Headers -> outcome ConnectError A)
    (ok : Headers -> A -> Prop) (l : bytes) :
  is_bytes l -> len l <= 2 ^ 28 ->
  (forall h a, interp h = Ok a <-> ok h a) -> (forall h, completes (interp h)) ->
  completes (fst (message_decode allowed interp l)) /\
  forall a, fst (message_decode allowed interp l) = Ok a <-> message_ok allowed ok l a.
Proof.
  intros Hl Hlen Hok Hc. pose proof (message_decode_total allowed interp l Hl Hlen Hc) as Ht. split.
  { unfold completes, panics. destruct (message_decode allowed interp l) as [[| | |] ?]; by intros [?|?]. }
  intros a. unfold message_ok. split.
  - destruct (read_cases l Hl) as [(l' & E)|(f & p & rest & E & Hg & Hf & Hsuf)].
    { by rewrite (message_decode_short allowed interp l _ l' E). }
    rewrite (message_decode_frame allowed interp l f p rest E). case_bool_decide; [subst|done].
    cbn [fst]. unfold message_spec. intros Hm. exists p, rest.
    assert (is_bytes (p ++ rest)) as Hpr by by eapply suffix_is_bytes.
    apply is_bytes_app in Hpr as [Hp _].
    assert (Hlp : len p <= 2 ^ 28).
    { destruct Hsuf as [k ->]. rewrite !len_app in Hlen. pose_len. lia. }
    pose proof (headers_decode_total p Hp Hlp) as Hd.
    destruct (Headers.decode (C:=Chain bytes) p) as [[h|e| |] l']; try done. destruct Hd as [-> _].
    cbn [fst omap_err obind] in Hm.
    destruct (validate_pseudo_cases allowed h) as [[Hv Hall]|(n & Hv & _)]; rewrite Hv in Hm; [|done].
    exists h. split_and!; try done. by apply Hok.
  - intros (p & rest & h & E & Ed & Hall & Ha). rewrite (message_decode_frame allowed interp l _ p rest E).
    rewrite bool_decide_eq_true_2 by done. unfold message_spec. cbn [fst]. rewrite Ed. cbn [fst omap_err obind].
    destruct (validate_pseudo_cases allowed h) as [[-> _]|(n & _ & Hn & Hp & Hni)]; [by apply Hok|].
    destruct Hni. by apply Hall.
Qed.
End Accept.

(** ** A small instance of the libraries *)
Section Sample.
Inductive sample_url := sample_root | sample_chat | sample_login | sample_anchor.
#[local] Instance sample_url_eq_dec : EqDecision sample_url.
Proof. solve_decision. Defined.
Definition sample_urls : list (bytes * sample_url) :=
  [(lit "https://example.com/", sample_root); (lit "https://example.com:4433/chat?room=1", sample_chat);
   (lit "https://ann:pw@example.com/", sample_login); (lit "https://example.com/#top", sample_anchor)].
Definition sample_url_lib : UrlLib := {|
  Url := sample_url;
  ParseError := unit;
  url_parse s := match find (fun su => bool_decide (su.1 = s)) sample_urls with Some su => inl su.2 | None => inr () end;
  url_scheme _ := lit "https";
  url_username u := match u with sample_login => lit "ann" | _ => [] end;
  url_password u := match u with sample_login => Some (lit "pw") | _ => None end;
  url_authority u := match u with
    | sample_chat => lit "example.com:4433" | sample_login => lit "ann:pw@example.com" | _ => lit "example.com" end;
  url_path u := match u with sample_chat => lit "/chat" | _ => lit "/" end;
  url_query u := match u with sample_chat => Some (lit "room=1") | _ => None end;
  url_fragment u := match u with sample_anchor => Some (lit "top") | _ => None end
|}.
Definition sample_url_laws : @UrlLaws sample_url_lib.
Proof.
  split.
  - intros [] _; first [by vm_compute|by intros].
  - intros [] _; unfold printable; (split; apply (bool_decide_unpack _); vm_compute; exact I).
Qed.

(** Status codes as their number; methods as their token. *)
Definition digits (n : Z) : bytes := [48 + n / 100 mod 10; 48 + n / 10 mod 10; 48 + n mod 10].
Definition codes : list Z := seqZ 100 900.
Inductive sample_status := SampleStatus (i : nat) (Hi : bool_decide (i < 900)%nat = true).
Definition sample_status_of (i : nat) : option sample_status :=
  match bool_decide (i < 900)%nat as b return bool_decide (i < 900)%nat = b -> option sample_status with
  | true => fun Hi => Some (SampleStatus i Hi)
  | false => fun _ => None
  end eq_refl.
Definition sample_http_lib : HttpLib := {|
  Method := bytes;
  method_parse s := if bool_decide (s = []) then None else Some s;
  CONNECT := lit "CONNECT";
  StatusCode := sample_status;
  status_from_str s :=
    match s with
    | [a; b; c] =>
        if forallb (in_range 48 57) s && (49 <=? a)
        then sample_status_of (Z.to_nat ((a - 48) * 100 + (b - 48) * 10 + (c - 48) - 100))
        else None
    | _ => None
    end;
  status_as_str s := match s with SampleStatus i _ => digits (Z.of_nat i + 100) end
|}.
Definition sample_http_laws : @HttpLaws sample_http_lib.
Proof.
  assert (Hd : forall i, bool_decide (i < 900)%nat = true ->
    let n := Z.of_nat i + 100 in
    1 <= n / 100 mod 10 <= 9 /\ 0 <= n / 10 mod 10 <= 9 /\ 0 <= n mod 10 <= 9 /\
    n / 100 mod 10 * 100 + n / 10 mod 10 * 10 + n mod 10 = n).
  { intros i Hi n. apply bool_decide_eq_true in Hi. assert (100 <= n < 1000) by lia. clearbody n. clear i Hi. split_and!; Z.to_euclidean_division_equations; lia. }
  split.
  - intros s. cbn. case_bool_decide; [subst; by split|]. split; [by intros [= ->]|by intros ->].
  - intros [i Hi]. destruct (Hd i Hi) as (? & ? & ? & _). cbn [status_as_str sample_http_lib]. split; [|done].
    unfold printable, digits. repeat (apply Forall_cons; split; [lia|]). constructor.
  - intros [i Hi]. destruct (Hd i Hi) as (H1 & H2 & H3 & H4).
    cbn [status_as_str status_from_str sample_http_lib digits]. unfold in_range, digits. cbn [forallb].
    rewrite !(proj2 (Z.leb_le _ _)) by lia. cbn [andb].
    match goal with |- sample_status_of ?k = _ => replace k with i by lia end.
    unfold sample_status_of. generalize (eq_refl (bool_decide (i < 900)%nat)). destruct (bool_decide (i < 900)%nat) at 2 3.
    + intros Hi'. do 2 f_equal. apply (proof_irrel _ _).
    + intros Hf. exfalso. congruence.
Qed.
End Sample.

(** ** Properties *)
Section Properties.
Context `{Platform} `{UrlLib} `{HttpLib} `{!UrlLaws} `{!HttpLaws} `{!HashMapIter bytes bytes}.

(** The URLs a client may ask for (see [connect] of the client). *)
Definition session_url (u : Url) : Prop :=
  url_scheme u = lit "https" /\ url_username u = [] /\ url_password u = None /\ url_fragment u = None /\
  len (url_authority u) + len (path_and_query u) <= 64000.

Lemma request_list u : request_headers (MkConnectRequest u) =
  list_to_map [(lit ":protocol", WEBTRANSPORT_PROTOCOL); (lit ":path", path_and_query u);
    (lit ":authority", url_authority u); (lit ":scheme", url_scheme u); (lit ":method", lit "CONNECT")].
Proof. reflexivity. Qed.
Lemma response_list c : response_headers (MkConnectResponse c) =
  list_to_map [(lit "sec-webtransport-http3-draft", lit "draft02"); (lit ":status", status_as_str c)].
Proof. reflexivity. Qed.

Lemma request_encodes u : session_url u ->
  exists bs, (forall E (w : bytes), request_encode (E:=E) (MkConnectRequest u) w = (Ok (), w ++ bs)) /\
    message_roundtrips request_pseudo_headers interpret_request bs (MkConnectRequest u).
Proof.
  intros (Hs & Hu & Hp & Hf & Hlen). destruct (url_printable u Hs) as [Ha Hpath].
  unfold request_encode. rewrite request_list. apply message_roundtrip.
  - apply (bool_decide_unpack _). vm_compute. exact I.
  - rewrite Hs. repeat (apply Forall_cons; split; [split; [by vm_compute|]|]); try done;
      apply (bool_decide_unpack _); vm_compute; exact I.
  - rewrite Hs. cbn [kvs_bound foldr fst snd]. unfold MAX_CONNECT_FRAME_SIZE.
    match goal with |- ?x <= _ => assert (Hx : x = 725 + len (url_authority u) + len (path_and_query u)) end.
    { repeat match goal with |- context [len (lit ?s)] => let n := eval vm_compute in (len (lit s)) in
        change (len (lit s)) with n end.
      change (len WEBTRANSPORT_PROTOCOL) with 15. lia. }
    lia.
  - by vm_compute.
  - apply interpret_request_ok. unfold request_ok. cbn [request_url].
    rewrite Hs. split_and!; try done.
    + by exists (lit "CONNECT"); split; [|by apply method_connect].
    + set_solver.
    + exists (url_authority u), (path_and_query u). split_and!; try done.
      rewrite <- (url_parse_serialise u Hs Hf), Hs. done.
Qed.
Lemma response_encodes c :
  exists bs, (forall E (w : bytes), response_encode (E:=E) (MkConnectResponse c) w = (Ok (), w ++ bs)) /\
    message_roundtrips [lit ":status"] interpret_response bs (MkConnectResponse c).
Proof.
  destruct (status_digits c) as [Hp Hl].
  unfold response_encode. rewrite response_list. apply message_roundtrip.
  - apply (bool_decide_unpack _). vm_compute. exact I.
  - repeat (apply Forall_cons; split; [split; [by vm_compute|]|]); try done;
      apply (bool_decide_unpack _); vm_compute; exact I.
  - cbn [kvs_bound foldr fst snd]. rewrite Hl. by vm_compute.
  - by vm_compute.
  - apply interpret_response_ok. exists (status_as_str c). split; [done|]. apply status_roundtrip.
Qed.
End Properties.

(** C6: a CONNECT request for a session URL (https, no user information, no
    fragment, at most 64,000 bytes of authority, path and query) is encoded without
    a failure, and both decoders give its URL back: the buffer decoder, and the
    stream reader with any fuel above the number of frames, behind any number of
    GREASE frames and whatever follows, which is left in place. *)
Theorem connect_request_roundtrip `{Platform} `{UrlLib} `{HttpLib} `{!UrlLaws} `{!HttpLaws}
  `{!HashMapIter bytes bytes} (u : Url) (Hu : session_url u) :
  exists bs, (forall E (w : bytes), request_encode (E:=E) (MkConnectRequest u) w = (Ok (), w ++ bs)) /\
    (forall gs rest, Forall grease_frame gs -> is_bytes rest ->
       request_decode (T:=Take bytes) (C:=Chain (Take bytes)) (frames_bytes gs ++ bs ++ rest)
       = (Ok (MkConnectRequest u), rest)) /\
    (forall gs rest e fuel,
       Forall (fun fp => grease_frame fp /\ len fp.2 <= MAX_CONNECT_FRAME_SIZE) gs -> is_bytes rest ->
       (length gs < fuel)%nat ->
       request_read fuel (MkIncoming (frames_bytes gs ++ bs ++ rest) e)
       = (Ok (MkConnectRequest u), MkIncoming rest e)).
Proof. exact (request_encodes u Hu). Qed.
Lemma connect_request_roundtrip_witness :
  let _ := Platform64 in let _ := sample_url_lib in let _ := sample_http_lib in
  let _ := hm_iter_rev bytes bytes in
  exists bs, (forall E (w : bytes), request_encode (H:=Platform64) (H0:=sample_url_lib) (E:=E) (MkConnectRequest (H:=sample_url_lib) sample_chat) w = (Ok (), w ++ bs)) /\
    (forall gs rest, Forall (grease_frame (H:=Platform64)) gs -> is_bytes rest ->
       request_decode (H:=Platform64) (H0:=sample_url_lib) (H1:=sample_http_lib) (T:=Take bytes) (C:=Chain (Take bytes)) (frames_bytes gs ++ bs ++ rest)
       = (Ok (MkConnectRequest (H:=sample_url_lib) sample_chat), rest)).
Proof.
  intros ? ? ? ?.
  destruct (connect_request_roundtrip (H:=Platform64) (H0:=sample_url_lib) (H1:=sample_http_lib)
    (H2:=sample_url_laws) (H3:=sample_http_laws) sample_chat) as (bs & He & Hd & _).
  - split_and!; try reflexivity. by_eval.
  - exists bs. split; [exact He|exact Hd].
Defined.

(** C7: on any input of at most 256 MiB the request decoder returns without a
    panic, and it accepts exactly the messages that are (after GREASE frames) a
    HEADERS frame whose block decodes to headers with no pseudo-header but the five
    of an extended CONNECT, method CONNECT, scheme https, one of the two
    WebTransport protocol tokens, and an authority and path that parse to the URL
    returned, which has no user name, password or fragment. *)
Theorem connect_request_decode_exact `{Platform} `{UrlLib} `{HttpLib} `{!HashMapIter bytes bytes}
  (l : bytes) (Hl : is_bytes l) (Hlen : len l <= 2 ^ 28) :
  let r := fst (request_decode (T:=Take bytes) (C:=Chain (Take bytes)) l) in
  completes r /\ forall q, r = Ok q <-> message_ok request_pseudo_headers request_ok l q.
Proof.
  exact (message_decode_ok request_pseudo_headers interpret_request request_ok l Hl Hlen
    interpret_request_ok interpret_request_completes).
Qed.
Lemma connect_request_decode_exact_witness :
  let l := [1; 3; 0; 0; 0xD1] in
  let r := fst (request_decode (H:=Platform64) (H0:=sample_url_lib) (H1:=sample_http_lib)
    (HashMapIter0:=hm_iter_list bytes bytes) (T:=Take bytes) (C:=Chain (Take bytes)) l) in
  (match r with Err (CNWrongScheme None) => true | _ => false end) = true /\
  completes r /\ forall q, r = Ok q <->
    message_ok (H:=Platform64) request_pseudo_headers (request_ok (H0:=sample_url_lib) (H1:=sample_http_lib)) l q.
Proof.
  split; [vm_compute; reflexivity|].
  exact (connect_request_decode_exact (H:=Platform64) (H0:=sample_url_lib) (H1:=sample_http_lib)
    (HashMapIter0:=hm_iter_list bytes bytes) [1; 3; 0; 0; 0xD1] ltac:(by_eval) ltac:(by_eval)).
Defined.

(** Every response is encoded without a failure and read back by both
    decoders, as for requests; and a response is accepted exactly when its headers
    have no pseudo-header but [:status], whose text is that of the status returned. *)
Theorem connect_response_roundtrip `{Platform} `{UrlLib} `{HttpLib} `{!HttpLaws}
  `{!HashMapIter bytes bytes} (c : StatusCode) :
  (exists bs, (forall E (w : bytes), response_encode (E:=E) (MkConnectResponse c) w = (Ok (), w ++ bs)) /\
    (forall gs rest, Forall grease_frame gs -> is_bytes rest ->
       response_decode (T:=Take bytes) (C:=Chain (Take bytes)) (frames_bytes gs ++ bs ++ rest)
       = (Ok (MkConnectResponse c), rest)) /\
    (forall gs rest e fuel,
       Forall (fun fp => grease_frame fp /\ len fp.2 <= MAX_CONNECT_FRAME_SIZE) gs -> is_bytes rest ->
       (length gs < fuel)%nat ->
       response_read fuel (MkIncoming (frames_bytes gs ++ bs ++ rest) e)
       = (Ok (MkConnectResponse c), MkIncoming rest e))) /\
  (forall l, is_bytes l -> len l <= 2 ^ 28 ->
     let r := fst (response_decode (T:=Take bytes) (C:=Chain (Take bytes)) l) in
     completes r /\ forall q, r = Ok q <-> message_ok [lit ":status"] response_ok l q).
Proof.
  split; [exact (response_encodes c)|]. intros l Hl Hlen.
  exact (message_decode_ok [lit ":status"] interpret_response response_ok l Hl Hlen
    interpret_response_ok interpret_response_completes).
Qed.
Definition status_200 : @StatusCode sample_http_lib := SampleStatus 100 eq_refl.
Lemma connect_response_roundtrip_witness :
  exists bs, (forall E (w : bytes), response_encode (H:=Platform64) (H1:=sample_http_lib) (HashMapIter0:=hm_iter_rev bytes bytes)
      (E:=E) (MkConnectResponse (H:=sample_http_lib) status_200) w = (Ok (), w ++ bs)) /\
    response_decode (H:=Platform64) (H0:=sample_url_lib) (H1:=sample_http_lib) (HashMapIter0:=hm_iter_rev bytes bytes)
      (T:=Take bytes) (C:=Chain (Take bytes)) (bs ++ [7])
    = (Ok (MkConnectResponse (H:=sample_http_lib) status_200), [7]).
Proof.
  destruct (proj1 (connect_response_roundtrip (H:=Platform64) (H0:=sample_url_lib) (H1:=sample_http_lib)
    (H2:=sample_http_laws) (HashMapIter0:=hm_iter_rev bytes bytes) status_200)) as (bs & He & Hd & _).
  exists bs. split; [exact He|]. apply (Hd [] [7]); [constructor|by_eval].
Defined.

(** Reading a message off a stream agrees with decoding the bytes of the
    stream, for requests and responses: when the reader gets a frame, its result is
    the decoder's, and it has consumed at least what the decoder has; otherwise the
    stream ended too early or a frame was above the limit of 64 KiB, and on a stream
    no longer than the limit the decoder reports an unexpected end. *)
Theorem connect_read_decode `{Platform} `{UrlLib} `{HttpLib} `{!HashMapIter bytes bytes}
  (fuel : nat) (l : bytes) e (Hl : is_bytes l) (Hf : len l < Z.of_nat fuel) :
  let agree {A} (read : M Incoming ConnectError A) (decode : M bytes ConnectError A) :=
    (exists x s, read (MkIncoming l e) = (Err x, s) /\ connect_short e x /\
       (len l <= MAX_CONNECT_FRAME_SIZE -> exists l', decode l = (Err CNUnexpectedEnd, l'))) \/
    (exists rest l', read (MkIncoming l e) = (fst (decode l), MkIncoming rest e) /\
       decode l = (fst (decode l), l') /\ rest `suffix_of` l') in
  agree (request_read fuel) (request_decode (T:=Take bytes) (C:=Chain (Take bytes))) /\
  agree (response_read fuel) (response_decode (T:=Take bytes) (C:=Chain (Take bytes))).
Proof.
  split.
  - exact (message_read_spec request_pseudo_headers interpret_request fuel l e Hl Hf).
  - exact (message_read_spec [lit ":status"] interpret_response fuel l e Hl Hf).
Qed.
Lemma connect_read_decode_witness :
  let l := [1; 3; 0; 0; 0xD1; 9] in let e := IoError UnexpectedEof [] in
  (exists x s, request_read (H:=Platform64) (H0:=sample_url_lib) (H1:=sample_http_lib) (HashMapIter0:=hm_iter_list bytes bytes)
     10 (MkIncoming l e) = (Err x, s) /\ short_error (CNUnexpectedEnd (H:=sample_url_lib) (H0:=sample_http_lib)) CNMessageTooLong CNIo e x /\
     (len l <= MAX_CONNECT_FRAME_SIZE -> exists l', request_decode (H:=Platform64) (H0:=sample_url_lib) (H1:=sample_http_lib)
       (HashMapIter0:=hm_iter_list bytes bytes) (T:=Take bytes) (C:=Chain (Take bytes)) l = (Err CNUnexpectedEnd, l'))) \/
  (exists rest l', request_read (H:=Platform64) (H0:=sample_url_lib) (H1:=sample_http_lib) (HashMapIter0:=hm_iter_list bytes bytes)
     10 (MkIncoming l e) = (fst (request_decode (H:=Platform64) (H0:=sample_url_lib) (H1:=sample_http_lib)
       (HashMapIter0:=hm_iter_list bytes bytes) (T:=Take bytes) (C:=Chain (Take bytes)) l), MkIncoming rest e) /\
     request_decode (H:=Platform64) (H0:=sample_url_lib) (H1:=sample_http_lib)
       (HashMapIter0:=hm_iter_list bytes bytes) (T:=Take bytes) (C:=Chain (Take bytes)) l
     = (fst (request_decode (H:=Platform64) (H0:=sample_url_lib) (H1:=sample_http_lib)
       (HashMapIter0:=hm_iter_list bytes bytes) (T:=Take bytes) (C:=Chain (Take bytes)) l), l') /\ rest `suffix_of` l').
Proof.
  exact (proj1 (connect_read_decode (H:=Platform64) (H0:=sample_url_lib) (H1:=sample_http_lib)
    (HashMapIter0:=hm_iter_list bytes bytes) 10 [1; 3; 0; 0; 0xD1; 9] (IoError UnexpectedEof []) ltac:(by_eval) ltac:(by_eval))).
Defined.
