(* ===== verification/Fuzz.v ===== *)
(** * The fuzz targets (fuzz/fuzz_targets, webtrans-proto/src/lib.rs)

    What each target runs on an input, the harness that lets a corpus file be
    written in hexadecimal, and that no target panics. *)
From S2P Require Import Prelude Buf Utf8 Varint Frame Settings Capsule PrefixInt Qpack Connect.

(** ** Corpus files *)
Module common.
(** [slice::strip_prefix] *)
Definition strip_prefix (p s : bytes) : option bytes := if is_prefix p s then Some (drop (length p) s) else None.
(** [char::to_digit(16)] of an ASCII character. *)
Definition to_digit16 (b : Z) : option Z :=
  if in_range 48 57 b then Some (b - 48)
  else if in_range 97 102 b then Some (b - 97 + 10)
  else if in_range 65 70 b then Some (b - 65 + 10)
  else None.
(** [u8::from_str_radix(s, 16)]: digits, after a sign [+] that is not alone; a value
    above 255 is an error. *)
Fixpoint digits_value (acc : Z) (s : bytes) : option Z :=
  match s with
  | [] => Some acc
  | b :: s =>
      match to_digit16 b with
      | Some d => let v := acc * 16 + d in if v <? 256 then digits_value v s else None
      | None => None
      end
  end.
Definition from_str_radix16 (s : bytes) : option Z :=
  match s with
  | [] => None
  | [43] | [45] => None
  | 43 :: s => digits_value 0 s
  | s => digits_value 0 s
  end.

(** The loop over [chunks_exact(2)]. *)
Fixpoint decode_pairs (hex : bytes) : option bytes :=
  match hex with
  | a :: b :: hex =>
      match from_utf8 [a; b] with
      | None => None
      | Some chars =>
          match from_str_radix16 chars with
          | None => None
          | Some byte => match decode_pairs hex with Some decoded => Some (byte :: decoded) | None => None end
          end
      end
  | _ => Some []
  end.
Definition corpus_bytes (data : bytes) : bytes :=
  match strip_prefix (lit "hex:") data with
  | None => data
  | Some hex =>
      match from_utf8 hex with
      | None => data
      | Some hex =>
          let hex := trim hex in
          if negb (len hex mod 2 =? 0) then data
          else match decode_pairs hex with Some decoded => decoded | None => data end
      end
  end.
End common.

(** ** The targets *)
(** [let _ = r;]: only a panic is seen. *)
Definition ignore {E A} (r : outcome E A) : outcome Empty_set unit :=
  match r with Ok _ | Err _ => Ok () | Panic => Panic | OutOfFuel => OutOfFuel end.
(** A slice as a stream that ends where the slice ends, read by [block_on]. *)
Definition slice_stream (data : bytes) : Incoming := MkIncoming data (IoError UnexpectedEof (lit "early eof")).

Section Targets.
Context `{Platform} `{UrlLib} `{HttpLib} `{!HashMapIter bytes bytes}.

Definition varint_target (data : bytes) : outcome Empty_set unit :=
  let data := common.corpus_bytes data in
  ignore (fst (VarInt.decode data)).
Definition capsule_target (data : bytes) : outcome Empty_set unit :=
  let data := common.corpus_bytes data in
  let? _ := ignore (fst (Capsule.decode (T:=Take bytes) data)) in
  ignore (fst (Capsule.read (slice_stream data))).
Definition connect_target (data : bytes) : outcome Empty_set unit :=
  let data := common.corpus_bytes data in
  let fuel := S (length data) in
  let? _ := ignore (fst (request_decode (T:=Take bytes) (C:=Chain (Take bytes)) data)) in
  let? _ := ignore (fst (response_decode (T:=Take bytes) (C:=Chain (Take bytes)) data)) in
  let? _ := ignore (fst (request_read fuel (slice_stream data))) in
  ignore (fst (response_read fuel (slice_stream data))).
(** [expect], [unwrap] and [assert_eq!] panic. *)
Definition frame_target (data : bytes) : outcome Empty_set unit :=
  let data := common.corpus_bytes data in
  let? _ := ignore (fst (Frame.read data)) in
  match fst (Capsule.decode (T:=Take bytes) data) with
  | Ok capsule =>
      match Capsule.encode capsule ([] : bytes) with
      | (Ok _, encoded) =>
          match fst (Capsule.decode (T:=Take bytes) encoded) with
          | Ok again => if bool_decide (again = capsule) then Ok () else Panic
          | OutOfFuel => OutOfFuel
          | _ => Panic
          end
      | (OutOfFuel, _) => OutOfFuel
      | _ => Panic
      end
  | r => ignore r
  end.
Definition settings_target (data : bytes) : outcome Empty_set unit :=
  let data := common.corpus_bytes data in
  let? _ := ignore (fst (Settings.decode (T:=Take bytes) data)) in
  ignore (fst (Settings.read (S (length data)) (slice_stream data))).

(** [webtrans_proto::fuzzing] *)
Definition decode_qpack {B C} `{Buf B} `{ChainBuf B C} `{Buf C} : M B Empty_set unit := fun b =>
  let '(r, b) := Headers.decode (C:=C) b in (ignore r, b).
Definition decode_qpack_string {B} `{Buf B} : M B Empty_set unit := fun b =>
  let '(r, b) := decode_string 8 b in (ignore r, b).
Definition qpack_huffman_target (data : bytes) : outcome Empty_set unit :=
  let data := common.corpus_bytes data in
  let? _ := fst (decode_qpack (C:=Chain bytes) data) in
  fst (decode_qpack_string data).
End Targets.

(** ** The harness *)
Lemma digits_value_byte s : forall acc v, 0 <= acc < 256 -> common.digits_value acc s = Some v -> 0 <= v < 256.
Proof.
  induction s as [|b s IH]; intros acc v Ha; cbn [common.digits_value]; [by intros [= <-]|].
  destruct (common.to_digit16 b) as [d|] eqn:Hd; [|done]. cbv zeta. destruct (Z.ltb_spec (acc * 16 + d) 256); [|done].
  apply IH. unfold common.to_digit16, in_range in Hd. repeat case_match; simplify_eq; lia.
Qed.
Lemma radix_byte s v : common.from_str_radix16 s = Some v -> 0 <= v < 256.
Proof.
  assert (Hd : forall s, common.digits_value 0 s = Some v -> 0 <= v < 256) by (intros t; apply digits_value_byte; lia).
  unfold common.from_str_radix16. intros Hs. repeat case_match; try done; eauto.
Qed.
Lemma decode_pairs_ok n : forall hex decoded, (length hex <= n)%nat -> common.decode_pairs hex = Some decoded ->
  is_bytes decoded /\ 2 * len decoded <= len hex.
Proof.
  induction n as [|n IH]; intros [|a [|b hex]] decoded Hn; cbn [common.decode_pairs length] in *; try lia;
    try (intros [= <-]; split; [constructor|rewrite ?len_cons; change (len (A:=Z) []) with 0; lia]).
  destruct (from_utf8 [a; b]) as [chars|]; [|done].
  destruct (common.from_str_radix16 chars) as [byte|] eqn:Hb; [|done]. apply radix_byte in Hb.
  destruct (common.decode_pairs hex) as [more|] eqn:Hm; [|done]. intros [= <-].
  destruct (IH hex more ltac:(lia) Hm) as [Hok Hl]. split; [by constructor|]. rewrite !len_cons. lia.
Qed.

(** Trimming text without spaces in it. *)
Definition singles (l : bytes) : list bytes := map (fun b => [b]) l.
Definition graphic (b : Z) : Prop := 33 <= b < 0x80.
Definition blank (b : Z) : Prop := b = 32 \/ 9 <= b <= 13.

Lemma concat_singles l : concat (singles l) = l.
Proof. induction l as [|b l IH]; [done|]. cbn. f_equal. exact IH. Qed.
Lemma chars_ascii l : Forall (fun b => 0 <= b < 0x80) l -> chars l = singles l.
Proof.
  intros Hl. rewrite <- (concat_singles l) at 1. apply chars_concat. apply Forall_map.
  eapply Forall_impl; [exact Hl|]. intros b Hb. exists b, []. split; [done|].
  unfold utf8_step. cbn in Hb. by rewrite (proj2 (Z.ltb_lt b 0x80)) by lia.
Qed.
Lemma blank_whitespace b : blank b -> is_whitespace [b] = true.
Proof.
  assert (Hall : Forall (fun b => is_whitespace [b] = true) (32 :: seqZ 9 5)) by by repeat constructor.
  intros Hb. rewrite Forall_forall in Hall. apply Hall. rewrite elem_of_cons, elem_of_seqZ. unfold blank in Hb. lia.
Qed.
Lemma graphic_not_whitespace b : graphic b -> is_whitespace [b] = false.
Proof.
  assert (Hall : Forall (fun b => is_whitespace [b] = false) (seqZ 33 95)) by by apply (bool_decide_unpack _).
  intros Hb. rewrite Forall_forall in Hall. apply Hall. rewrite elem_of_seqZ. unfold graphic in Hb. lia.
Qed.
Lemma trim_start_blank ws cs : Forall blank ws -> trim_start_chars (singles ws ++ cs) = trim_start_chars cs.
Proof. induction 1 as [|b ws Hb _ IH]; [done|]. cbn [singles map app trim_start_chars]. by rewrite blank_whitespace. Qed.
Lemma trim_start_graphic t cs : Forall graphic t -> t <> [] -> trim_start_chars (singles t ++ cs) = singles t ++ cs.
Proof.
  intros Ht Hn. destruct Ht as [|b t Hb Ht]; [done|]. cbn [singles map app trim_start_chars].
  by rewrite graphic_not_whitespace.
Qed.
Lemma trim_text t ws : Forall graphic t -> Forall blank ws -> trim (t ++ ws) = t.
Proof.
  intros Ht Hw. unfold trim. rewrite chars_ascii.
  2: { apply Forall_app. split; (eapply Forall_impl; [eassumption|]); unfold graphic, blank; cbn; lia. }
  unfold singles. rewrite map_app. fold (singles t) (singles ws).
  destruct (decide (t = [])) as [->|Hn].
  { cbn [singles map app]. rewrite <- (app_nil_r (singles ws)), trim_start_blank by done. done. }
  rewrite trim_start_graphic, reverse_app by done.
  assert (Hr : forall l, reverse (singles l) = singles (reverse l)) by (intros; unfold singles; by rewrite fmap_reverse).
  rewrite !Hr, trim_start_blank by by apply Forall_reverse.
  rewrite <- (app_nil_r (singles (reverse t))), trim_start_graphic.
  - rewrite app_nil_r, Hr, reverse_involutive. apply concat_singles.
  - by apply Forall_reverse.
  - intros E. apply Hn. by rewrite <- (reverse_involutive t), E.
Qed.

Lemma len_trim_start cs : len (concat (trim_start_chars cs)) <= len (concat cs).
Proof.
  induction cs as [|c cs IH]; [done|]. cbn [trim_start_chars]. destruct (is_whitespace c); [|done].
  cbn [concat]. rewrite len_app. pose proof (len_nonneg c). lia.
Qed.
Lemma len_concat_reverse (cs : list bytes) : len (concat (reverse cs)) = len (concat cs).
Proof.
  induction cs as [|c cs IH]; [done|]. rewrite reverse_cons, concat_app, len_app, IH. cbn. rewrite app_nil_r, len_app. lia.
Qed.
Lemma len_trim s : len (trim s) <= len s.
Proof.
  unfold trim. rewrite len_concat_reverse.
  pose proof (len_trim_start (reverse (trim_start_chars (chars s)))) as H1. rewrite len_concat_reverse in H1.
  pose proof (len_trim_start (chars s)) as H2. unfold chars at 2 in H2. rewrite utf8_chunks_concat in H2. lia.
Qed.

(** A corpus file as it is written: the prefix, two digits for each byte, and
    the end of the line. *)
Definition hex_digit (d : Z) : Z := if d <? 10 then 48 + d else 87 + d.
Definition hex_byte (b : Z) : bytes := [hex_digit (b / 16); hex_digit (b mod 16)].
Definition hex_of (l : bytes) : bytes := concat (map hex_byte l).

Lemma hex_byte_decodes b : is_u 8 b ->
  from_utf8 (hex_byte b) = Some (hex_byte b) /\ common.from_str_radix16 (hex_byte b) = Some b /\ Forall graphic (hex_byte b).
Proof.
  assert (Hall : Forall (fun b => from_utf8 (hex_byte b) = Some (hex_byte b) /\ common.from_str_radix16 (hex_byte b) = Some b /\
    Forall (fun d => 33 <= d < 0x80) (hex_byte b)) (seqZ 0 256)) by (apply (bool_decide_unpack _); vm_compute; exact I).
  intros Hb. rewrite Forall_forall in Hall. apply Hall. rewrite elem_of_seqZ. unfold is_u in Hb. lia.
Qed.
Lemma hex_of_graphic l : is_bytes l -> Forall graphic (hex_of l).
Proof.
  induction 1 as [|b l Hb _ IH]; [constructor|]. cbn [hex_of map concat]. apply Forall_app. split; [by apply hex_byte_decodes|done].
Qed.
Lemma decode_hex_of l : is_bytes l -> common.decode_pairs (hex_of l) = Some l.
Proof.
  induction 1 as [|b l Hb _ IH]; [done|]. destruct (hex_byte_decodes b Hb) as (Hu & Hr & _).
  change (hex_of (b :: l)) with (hex_digit (b / 16) :: hex_digit (b mod 16) :: hex_of l). cbn [common.decode_pairs].
  change [hex_digit (b / 16); hex_digit (b mod 16)] with (hex_byte b). by rewrite Hu, Hr, IH.
Qed.
Lemma len_hex_of l : len (hex_of l) = 2 * len l.
Proof.
  induction l as [|b l IH]; [done|]. change (hex_of (b :: l)) with (hex_byte b ++ hex_of l).
  rewrite len_app, IH, len_cons. change (len (hex_byte b)) with 2. lia.
Qed.

Lemma corpus_bytes_ok data : is_bytes data -> is_bytes (common.corpus_bytes data) /\ len (common.corpus_bytes data) <= len data.
Proof.
  intros Hd. unfold common.corpus_bytes. destruct (common.strip_prefix _ data) as [hex|] eqn:Hs; [|by split].
  destruct (from_utf8 hex) as [hex'|] eqn:Hu; [|by split]. destruct (negb _); [by split|].
  destruct (common.decode_pairs (trim hex')) as [decoded|] eqn:Hp; [|by split].
  destruct (decode_pairs_ok _ _ _ (Nat.le_refl _) Hp) as [Hok Hl]. split; [done|].
  assert (Htrim : len (trim hex') <= len hex') by apply len_trim.
  assert (Hh : hex' = hex) by (unfold from_utf8 in Hu; by case_match; simplify_eq). subst hex'.
  assert (Hx : len hex <= len data).
  { unfold common.strip_prefix in Hs. case_match; [|done]. injection Hs as <-. unfold len. rewrite length_drop. lia. }
  pose proof (len_nonneg decoded). lia.
Qed.

(** ** No target panics *)
Lemma ignore_completes {E A} (r : outcome E A) : completes r -> ignore r = Ok ().
Proof. destruct r; intros Hc; [done|done|destruct Hc; by left|destruct Hc; by right]. Qed.

Section Safety.
Context `{Platform} `{UrlLib} `{HttpLib} `{!HashMapIter bytes bytes}.

Lemma capsule_target_ok l e : is_bytes l ->
  completes (fst (Capsule.decode (T:=Take bytes) l)) /\ completes (fst (Capsule.read (MkIncoming l e))).
Proof.
  intros Hl. destruct (capsule_decode_cases e l Hl) as [(c & p & r & _ & _ & _ & -> & ->)|(x & y & l' & s & -> & -> & _)].
  - split; apply completes_Ok.
  - split; apply completes_Err.
Qed.
Lemma message_target_ok {A} (allowed : list bytes) (interp : Headers -> outcome ConnectError A) fuel l e :
  is_bytes l -> len l <= 2 ^ 28 -> len l < Z.of_nat fuel -> (forall h, completes (interp h)) ->
  completes (fst (message_decode allowed interp l)) /\ completes (fst (message_read allowed interp fuel (MkIncoming l e))).
Proof.
  intros Hl Hlen Hf Hi. pose proof (message_decode_total allowed interp l Hl Hlen Hi) as Ht.
  assert (Hc : completes (fst (message_decode allowed interp l))).
  { destruct (message_decode allowed interp l) as [[]]; try done; [apply completes_Ok|apply completes_Err]. }
  split; [done|]. destruct (message_read_spec allowed interp fuel l e Hl Hf) as [(x & s & -> & _)|(rest & l' & -> & _)]; [apply completes_Err|done].
Qed.
Lemma settings_target_ok fuel l e : is_bytes l -> len l < Z.of_nat fuel ->
  completes (fst (Settings.decode (T:=Take bytes) l)) /\ completes (fst (Settings.read fuel (MkIncoming l e))).
Proof.
  intros Hl Hf. pose proof (settings_decode_total l Hl) as Ht.
  assert (Hc : completes (fst (Settings.decode (T:=Take bytes) l))).
  { destruct (Settings.decode l) as [[]]; try done; [apply completes_Ok|apply completes_Err]. }
  split; [done|]. destruct (settings_read_spec fuel l e Hl Hf) as [(x & s & -> & _)|(rest & l' & -> & _)]; [apply completes_Err|done].
Qed.
(** A capsule that was decoded can be encoded, and decodes to itself. *)
Lemma capsule_again l c rest : is_bytes l -> Capsule.decode (T:=Take bytes) l = (Ok c, rest) ->
  exists encoded, Capsule.encode c ([] : bytes) = (Ok (), encoded) /\ fst (Capsule.decode (T:=Take bytes) encoded) = Ok c.
Proof.
  intros Hl Hd. destruct (capsule_decode_cases (IoError UnexpectedEof []) l Hl) as [(c' & p & r & _ & _ & Hok & Hd' & _)|(x & y & l' & s & Hd' & _)].
  - rewrite Hd in Hd'. injection Hd' as <- <-. exists (capsule_bytes c). split; [by apply (capsule_encode_vec c [])|].
    rewrite <- (app_nil_r (capsule_bytes c)). by rewrite (capsule_decode_bytes c []).
  - rewrite Hd in Hd'. by simplify_eq.
Qed.
End Safety.

(** The harness gives a file in hexadecimal as the bytes it stands for, whatever
    blanks end the file, and any input without the prefix as it is. *)
Theorem corpus_bytes_hex (l ws : bytes) :
  (is_bytes l -> Forall blank ws -> common.corpus_bytes (lit "hex:" ++ hex_of l ++ ws) = l) /\
  (common.strip_prefix (lit "hex:") l = None -> common.corpus_bytes l = l).
Proof.
  split; [|unfold common.corpus_bytes; by intros ->]. intros Hl Hw. unfold common.corpus_bytes.
  assert (Hs : common.strip_prefix (lit "hex:") (lit "hex:" ++ hex_of l ++ ws) = Some (hex_of l ++ ws)).
  { unfold common.strip_prefix. change (lit "hex:") with [104; 101; 120; 58]. by cbn. }
  rewrite Hs. assert (Hg : Forall graphic (hex_of l)) by by apply hex_of_graphic.
  assert (Hv : from_utf8 (hex_of l ++ ws) = Some (hex_of l ++ ws)).
  { unfold from_utf8. rewrite ascii_valid; [done|]. apply Forall_app.
    split; (eapply Forall_impl; [eassumption|]); unfold graphic, blank; cbn; lia. }
  rewrite Hv. cbv zeta. rewrite trim_text by done.
  rewrite len_hex_of, Z.mul_comm, Z.mod_mul by lia. cbn [negb Z.eqb]. by rewrite decode_hex_of.
Qed.

(** C21: no fuzz target panics.  On every input of at most 256 MiB, raw or written in
    hexadecimal, the six targets run to their end: no decoder and no reader of
    varints, frames, SETTINGS, capsules, CONNECT messages, QPACK sections and QPACK
    strings panics or loops, and a capsule that was decoded is encoded again and
    decodes to itself, as the frame target asserts. *)
Theorem fuzz_targets_safe `{Platform} `{UrlLib} `{HttpLib} `{!HashMapIter bytes bytes}
  (data : bytes) (Hd : is_bytes data) (Hlen : len data <= 2 ^ 28) :
  varint_target data = Ok () /\ capsule_target data = Ok () /\ connect_target data = Ok () /\
  frame_target data = Ok () /\ settings_target data = Ok () /\ qpack_huffman_target data = Ok ().
Proof.
  destruct (corpus_bytes_ok data Hd) as [Hl Hle].
  unfold varint_target, capsule_target, connect_target, frame_target, settings_target, qpack_huffman_target. cbv zeta.
  generalize dependent (common.corpus_bytes data). intros l Hl Hle.
  assert (Hlen' : len l <= 2 ^ 28) by lia. assert (Hf : len l < Z.of_nat (S (length l))) by (unfold len; lia).
  split; [|split; [|split; [|split; [|split]]]].
  - apply ignore_completes. destruct (decode_split l Hl) as [(l' & -> & _)|(v & p & r & _ & -> & _)]; [apply completes_Err|apply completes_Ok].
  - destruct (capsule_target_ok l (IoError UnexpectedEof (lit "early eof")) Hl) as [Hc1 Hc2].
    by rewrite !ignore_completes.
  - destruct (message_target_ok request_pseudo_headers interpret_request (S (length l)) l (IoError UnexpectedEof (lit "early eof"))
      Hl Hlen' Hf interpret_request_completes) as [Hq1 Hq2].
    destruct (message_target_ok [lit ":status"] interpret_response (S (length l)) l (IoError UnexpectedEof (lit "early eof"))
      Hl Hlen' Hf interpret_response_completes) as [Hr1 Hr2].
    rewrite (ignore_completes (fst (request_decode (T:=Take bytes) (C:=Chain (Take bytes)) l)) Hq1).
    rewrite (ignore_completes (fst (response_decode (T:=Take bytes) (C:=Chain (Take bytes)) l)) Hr1).
    rewrite (ignore_completes (fst (request_read (S (length l)) (slice_stream l))) Hq2).
    exact (ignore_completes (fst (response_read (S (length l)) (slice_stream l))) Hr2).
  - rewrite ignore_completes.
    2: { destruct (read_cases l Hl) as [(l' & ->)|(f & p & r & -> & _)]; [apply completes_Err|apply completes_Ok]. }
    cbn [obind]. destruct (capsule_target_ok l (IoError UnexpectedEof []) Hl) as [Hc _].
    destruct (Capsule.decode l) as [[c| | |] rest] eqn:Ec; cbn [fst] in *; try (by apply ignore_completes).
    destruct (capsule_again l c rest Hl Ec) as (encoded & -> & ->). by rewrite bool_decide_eq_true_2.
  - destruct (settings_target_ok (S (length l)) l (IoError UnexpectedEof (lit "early eof")) Hl Hf) as [Hs1 Hs2].
    rewrite (ignore_completes _ Hs1). exact (ignore_completes _ Hs2).
  - unfold decode_qpack, decode_qpack_string. pose proof (headers_decode_total l Hl Hlen') as Hh.
    destruct (Headers.decode (C:=Chain bytes) l) as [[]]; try done; cbn [fst ignore obind];
      (pose proof (decode_string_total 8 l ltac:(lia) Hl Hlen') as Hs; by destruct (decode_string 8 l) as [[]]).
Qed.
Lemma fuzz_targets_safe_witness :
  let seed := lit "hex:68430500000000" ++ [10] in
  is_bytes seed /\ len seed <= 2 ^ 28 /\ common.corpus_bytes seed = [0x68; 0x43; 5; 0; 0; 0; 0] /\
  connect_target (H:=Platform64) (H0:=sample_url_lib) (H1:=sample_http_lib) (HashMapIter0:=hm_iter_rev bytes bytes) seed = Ok ().
Proof.
  intros seed. assert (Hs : is_bytes seed) by by_eval. assert (Hl : len seed <= 2 ^ 28) by by_eval.
  split; [exact Hs|]. split; [exact Hl|]. split; [by vm_compute|].
  exact (proj1 (proj2 (proj2 (fuzz_targets_safe (H:=Platform64) (H0:=sample_url_lib) (H1:=sample_http_lib)
    (HashMapIter0:=hm_iter_rev bytes bytes) seed Hs Hl)))).
Defined.
