(* ===== verification/Streams.v ===== *)
(** * The stream traits (webtrans-trait/src/lib.rs)

    The provided methods of [SendStream] and [RecvStream].  The required methods
    are the fields of two type classes; the contract that the documentation of
    the traits states is [SendContract] and [RecvContract]. *)
From S2P Require Import Prelude Buf.

(** ** Two states side by side: the stream and the buffer a method borrows *)
Definition on_fst {S T E A} (m : M S E A) : M (S * T) E A := fun st =>
  let '(r, s) := m st.1 in (r, (s, st.2)).
Definition on_snd {S T E A} (m : M T E A) : M (S * T) E A := fun st =>
  let '(r, t) := m st.2 in (r, (st.1, t)).

(** [Buf::chunk] *)
Class ChunkBuf (B : Type) := { chunk : B -> bytes }.
#[export] Instance slice_chunk : ChunkBuf bytes := {| chunk l := l |}.

(** [BufMut::chunk_mut().len()], which may make room, and [remaining_mut]. *)
Class RoomMut (W : Type) := { chunk_mut : W -> Z * W; remaining_mut : W -> Z }.
(** [BytesMut::with_capacity] and [freeze]. *)
Class BytesMutLib (W : Type) := { with_capacity : Z -> W; freeze : W -> bytes }.

(** ** [SendStream] *)
Class SendStream (W E : Type) := {
  write : bytes -> M W E Z;
  write_buf {B} `{Buf B} `{!ChunkBuf B} : M (W * B) E Z
}.

Module SendStream.
Section Methods.
Context {W E : Type}.

(** The provided [write_buf], over a stream's own [write]. *)
Definition default_write_buf {B} `{Buf B} `{!ChunkBuf B} (write : bytes -> M W E Z) : M (W * B) E Z :=
  let* chunk := (fun st => (Ok (chunk st.2), st)) in
  let* size := on_fst (write chunk) in
  assert_ ((0 <? size) || bool_decide (chunk = [])) ;;;
  assert_ (size <=? len chunk) ;;;
  on_snd (advance size) ;;;
  ret size.

Context `{!SendStream W E}.

Fixpoint write_all_loop (fuel : nat) (buf : bytes) (pos : Z) : M W E unit :=
  match fuel with
  | O => out_of_fuel
  | S fuel =>
      if pos <? len buf then
        let* written := write (drop (Z.to_nat pos) buf) in
        assert_ (0 <? written) ;;;
        assert_ (written <=? len buf - pos) ;;;
        write_all_loop fuel buf (pos + written)
      else ret ()
  end.
Definition write_all (buf : bytes) : M W E unit := write_all_loop (S (length buf)) buf 0.

Fixpoint write_all_buf {B} `{Buf B} `{!ChunkBuf B} (fuel : nat) : M (W * B) E unit :=
  match fuel with
  | O => out_of_fuel
  | S fuel =>
      let* more := (fun st => (Ok (has_remaining st.2), st)) in
      if more : bool then
        let* written := write_buf in
        assert_ (0 <? written) ;;;
        write_all_buf fuel
      else ret ()
  end.
(** The provided [write_chunk]: [Bytes] is a byte string. *)
Definition write_chunk (chunk : bytes) : M W E unit := fun w =>
  let '(r, (w, _)) := write_all_buf (S (length chunk)) (w, chunk) in (r, w).
End Methods.
End SendStream.

(** ** [RecvStream]: [read] fills a borrowed slice and tells how much. *)
Class RecvStream (R E : Type) := { read : bytes -> M R E (option Z * bytes) }.

Module RecvStream.
Section Methods.
Context `{Platform} {R E : Type} `{!RecvStream R E}.

Definition read_buf {W} `{BufMut W} `{!RoomMut W} : M (R * W) E (option Z) :=
  let* room := on_snd (fun w => let '(n, w) := chunk_mut w in (Ok n, w)) in
  let capacity := Z.min room (8 * 1024) in
  if capacity =? 0 then ret (Some 0) else
  let* (size, dst) := on_fst (read (replicate (Z.to_nat capacity) 0)) in
  match size with
  | None => ret None
  | Some size =>
      assert_ (size <=? len dst) ;;;
      on_snd (put_slice (take (Z.to_nat size) dst)) ;;;
      ret (Some size)
  end.

Definition read_chunk {W} `{BufMut W} `{!RoomMut W} `{!BytesMutLib W} (max : Z) : M R E (option bytes) := fun r =>
  let '(o, (r, buf)) := read_buf (r, with_capacity (Z.min max (8 * 1024))) in
  (let? n := o in Ok (match n with Some _ => Some (freeze buf) | None => None end), r).

Fixpoint read_all_buf {W} `{BufMut W} `{!RoomMut W} (fuel : nat) (size : Z) : M (R * W) E Z :=
  match fuel with
  | O => out_of_fuel
  | S fuel =>
      let* more := (fun st => (Ok (0 <? remaining_mut st.2), st)) in
      if more : bool then
        let* r := read_buf in
        match r with
        | Some n => let* size := lift (never (usize_add size n)) in read_all_buf fuel size
        | None => ret size
        end
      else ret size
  end.

Definition read_all {W} `{BufMut W} `{!RoomMut W} `{!BytesMutLib W} (fuel : nat) : M R E bytes := fun r =>
  let '(o, (r, buf)) := read_all_buf fuel 0 (r, with_capacity 0) in
  (let? _ := o in Ok (freeze buf), r).
End Methods.
End RecvStream.

(** ** The contract of the traits *)

(** A buffer [b] that holds the bytes [l]: it behaves like them, and its chunk is
    a part of them in front, empty only at the end. *)
Class ChunkLaw {B} `{!ChunkBuf B} (R : B -> bytes -> Prop) : Prop := {
  chunk_prefix b l : R b l -> chunk b `prefix_of` l;
  chunk_nonempty b l : R b l -> l <> [] -> chunk b <> []
}.
#[export] Instance slice_chunk_law : ChunkLaw (B:=bytes) eq.
Proof. split; by intros ? ? ->. Qed.

#[export] Instance slice_sim : BufSim (B1:=bytes) (B2:=bytes) eq.
Proof.
  split; [by intros ? ? ->|]. intros n b ? ->. by destruct (consume n _) as [[? ?]|].
Qed.

(** [write] accepts a part of the buffer in front, not empty unless the buffer
    is; [sent w] is what the stream accepted so far.  An error may come after
    some bytes were accepted. *)
Definition accepts {W E} (sent : W -> bytes) (l : bytes) (w : W) (r : outcome E Z) (w' : W) : Prop :=
  completes r /\ exists n, 0 <= n <= len l /\ sent w' = sent w ++ take (Z.to_nat n) l /\
    match r with Ok k => k = n /\ (l <> [] -> 0 < n) | _ => True end.
Class SendContract {W E} `{!SendStream W E} (sent : W -> bytes) : Prop := {
  write_accepts l w : accepts sent l w (write l w).1 (write l w).2;
  write_buf_accepts {B} `{Buf B} `{!ChunkBuf B} (R : B -> bytes -> Prop) `{!BufSim R} `{!ChunkLaw R} b l w :
    R b l ->
    let '(r, (w', b')) := write_buf (w, b) in
    accepts sent l w r w' /\ forall n, r = Ok n -> R b' (drop (Z.to_nat n) l)
}.

(** [read] on a non-empty slice delivers at least one byte, or the stream is at
    its end; [rest r] is what the stream will deliver.  A slice keeps its length. *)
Class RecvContract {R E} `{!RecvStream R E} (rest : R -> bytes) : Prop := {
  read_delivers dst r : dst <> [] ->
    let '(o, r') := read dst r in
    completes o /\
    match o with
    | Ok (Some n, dst') => len dst' = len dst /\ 0 < n <= len dst /\ rest r = take (Z.to_nat n) dst' ++ rest r'
    | Ok (None, _) => rest r = [] /\ rest r' = []
    | _ => True
    end
}.

(** [BufMut]: a non-empty piece of uninitialised memory is offered as long as
    there is room, and what fits is appended. *)
Class RoomLaws `{Platform} {W} `{BufMut W} `{!RoomMut W} (content : W -> bytes) : Prop := {
  put_fits l w : len l <= remaining_mut w ->
    exists w', put l w = Some w' /\ content w' = content w ++ l /\ remaining_mut w' = remaining_mut w - len l;
  chunk_mut_room w : let '(n, w') := chunk_mut w in
    content w' = content w /\ remaining_mut w' = remaining_mut w /\ 0 <= n <= remaining_mut w /\
    (0 < remaining_mut w -> 0 < n);
  remaining_mut_usize w : 0 <= remaining_mut w <= usize_max
}.
(** Documented behaviour of [BytesMut]: made with a capacity it is empty, may grow
    to [isize::MAX] bytes, and the memory it offers first is of that capacity. *)
Class BytesMutLaws `{Platform} {W} `{BufMut W} `{!RoomMut W} `{!BytesMutLib W} (content : W -> bytes) : Prop := {
  with_capacity_empty n : 0 <= n <= isize_max -> content (with_capacity n) = [] /\ remaining_mut (with_capacity n) = isize_max;
  with_capacity_room n : 0 < n <= isize_max -> (chunk_mut (with_capacity n)).1 = n;
  freeze_content w : freeze w = content w
}.

(** ** Lemmas *)
Section SendLemmas.
Context {W E : Type} `{!SendStream W E} (sent : W -> bytes).

Lemma drop_len_add (l : bytes) a b :
  0 <= a -> 0 <= b -> drop (Z.to_nat b) (drop (Z.to_nat a) l) = drop (Z.to_nat (a + b)) l.
Proof. intros. rewrite drop_drop. f_equal. lia. Qed.
Lemma take_len_add (l : bytes) a b :
  0 <= a -> 0 <= b ->
  take (Z.to_nat a) l ++ take (Z.to_nat b) (drop (Z.to_nat a) l) = take (Z.to_nat (a + b)) l.
Proof. intros. rewrite take_take_drop. f_equal. lia. Qed.

(** The default [write_buf] honours the contract of [write_buf] when [write]
    honours its own. *)
Lemma default_write_buf_accepts (wr : bytes -> M W E Z) {B} `{Buf B} `{!ChunkBuf B}
    (R : B -> bytes -> Prop) `{!BufSim R} `{!ChunkLaw R} b l w :
  (forall l w, accepts sent l w (wr l w).1 (wr l w).2) -> R b l ->
  let '(r, (w', b')) := SendStream.default_write_buf wr (w, b) in
  accepts sent l w r w' /\ forall n, r = Ok n -> R b' (drop (Z.to_nat n) l).
Proof.
  intros Hw Hb. unfold SendStream.default_write_buf, on_fst, on_snd, bind. cbn [fst snd].
  destruct (chunk_prefix b l Hb) as [tl Htl]. pose proof (Hw (chunk b) w) as (Hc & n & Hn & Hs & Hr).
  destruct (wr (chunk b) w) as [r w']. cbn [fst snd] in *.
  assert (Hpre : take (Z.to_nat n) (chunk b) = take (Z.to_nat n) l).
  { rewrite Htl. symmetry. apply take_app_le. unfold len in *. lia. }
  assert (Hnl : n <= len l) by (rewrite Htl, len_app; pose_len; lia).
  destruct (completes_cases r Hc) as [[k ->]|[e ->]]; cbn.
  2: { split; [|done]. split; [done|]. exists n. rewrite <- Hpre. auto with lia. }
  destruct Hr as [-> Hpos].
  assert (Hok : (0 <? n) || bool_decide (chunk b = []) = true).
  { destruct (bool_decide_reflect (chunk b = [])); [by rewrite orb_true_r|].
    rewrite (proj2 (Z.ltb_lt _ _)); [done|by apply Hpos]. }
  rewrite Hok. cbn. rewrite (proj2 (Z.leb_le _ _)) by lia. cbn. unfold advance, copy_to_bytes, bind.
  assert (Hsl : consume n l = Some (take (Z.to_nat n) l, drop (Z.to_nat n) l)).
  { unfold consume, slice_buf. by rewrite (proj2 (Z.leb_le 0 n)), (proj2 (Z.leb_le n (len l))) by lia. }
  pose proof (sim_consume n b l Hb) as Hsim. rewrite Hsl in Hsim.
  destruct (consume n b) as [[l1 b']|]; [|done]. destruct Hsim as [_ Hb']. cbn.
  split; [|by intros ? [= <-]]. split; [done|].
  exists n. split; [lia|]. rewrite <- Hpre. split; [done|]. split; [done|].
  intros Hl. apply Hpos. by eapply chunk_nonempty.
Qed.

Context `{!SendContract sent}.

Lemma write_all_loop_sends fuel : forall buf pos w,
  0 <= pos <= len buf -> len buf - pos < Z.of_nat fuel ->
  let '(r, w') := SendStream.write_all_loop fuel buf pos w in
  completes r /\ exists n, 0 <= n <= len buf - pos /\
    sent w' = sent w ++ take (Z.to_nat n) (drop (Z.to_nat pos) buf) /\ (r = Ok () -> n = len buf - pos).
Proof.
  induction fuel as [|fuel IH]; intros buf pos w Hpos Hf; [lia|]. cbn [SendStream.write_all_loop].
  destruct (Z.ltb_spec pos (len buf)) as [Hlt|Hge].
  2: { cbn. split; [done|]. exists 0. cbn. rewrite app_nil_r. auto with lia. }
  unfold bind at 1. set (tl := drop (Z.to_nat pos) buf).
  assert (Htl : len tl = len buf - pos) by (unfold tl, len; rewrite length_drop; unfold len in *; lia).
  pose proof (write_accepts tl w) as (Hc & n & Hn & Hs & Hr).
  destruct (write tl w) as [r w']. cbn [fst snd] in *.
  destruct (completes_cases r Hc) as [[k ->]|[e ->]].
  2: { split; [done|]. exists n. split; [lia|]. by split. }
  destruct Hr as [-> Hnz]. assert (0 < n) by (apply Hnz; intros ->; rewrite len_nil in Htl; lia).
  unfold assert_, bind. rewrite (proj2 (Z.ltb_lt _ _)), (proj2 (Z.leb_le _ _)) by lia. cbn [ret].
  specialize (IH buf (pos + n) w' ltac:(lia) ltac:(lia)).
  destruct (SendStream.write_all_loop fuel buf (pos + n) w') as [r w'']. destruct IH as (Hc' & m & Hm & Hs' & Hr').
  split; [done|]. exists (n + m). split; [lia|]. split; [|intros ->; specialize (Hr' eq_refl); lia].
  rewrite Hs', Hs, <- app_assoc. f_equal. unfold tl. rewrite <- drop_len_add by lia. by apply take_len_add; lia.
Qed.

Lemma write_all_buf_sends {B} `{Buf B} `{!ChunkBuf B} (R : B -> bytes -> Prop) `{!BufSim R} `{!ChunkLaw R}
    fuel : forall b l w,
  R b l -> len l < Z.of_nat fuel ->
  let '(r, (w', b')) := SendStream.write_all_buf fuel (w, b) in
  completes r /\ exists n, 0 <= n <= len l /\ sent w' = sent w ++ take (Z.to_nat n) l /\
    (r = Ok () -> n = len l /\ R b' []).
Proof.
  induction fuel as [|fuel IH]; intros b l w Hb Hf; [pose_len; lia|]. cbn [SendStream.write_all_buf].
  unfold bind at 1. cbn [snd]. unfold has_remaining. rewrite (sim_remaining b l Hb). unfold remaining, slice_buf.
  destruct (Z.ltb_spec 0 (len l)) as [Hlt|Hge].
  2: { cbn. split; [done|]. exists 0. cbn. rewrite app_nil_r.
    pose proof (len_nonneg l). assert (l = []) as -> by (destruct l; [done|rewrite len_cons in *; pose_len; lia]).
    auto with lia. }
  pose proof (write_buf_accepts R b l w Hb) as Hw. unfold bind at 1.
  destruct (write_buf (w, b)) as [r [w' b']]. destruct Hw as [(Hc & n & Hn & Hs & Hr) Hb'].
  destruct (completes_cases r Hc) as [[k ->]|[e ->]]; [|split; [done|]; by exists n].
  destruct Hr as [-> Hnz]. specialize (Hb' n eq_refl).
  assert (0 < n) by (apply Hnz; by intros ->).
  unfold assert_, bind at 1. rewrite (proj2 (Z.ltb_lt _ _)) by lia. cbn [ret].
  assert (Hl' : len (drop (Z.to_nat n) l) = len l - n) by (unfold len in *; rewrite length_drop; lia).
  specialize (IH b' _ w' Hb' ltac:(lia)).
  destruct (SendStream.write_all_buf fuel (w', b')) as [r [w'' b'']]. destruct IH as (Hc' & m & Hm & Hs' & Hr').
  split; [done|]. exists (n + m). split; [lia|]. split.
  - rewrite Hs', Hs, <- app_assoc. f_equal. by apply take_len_add; lia.
  - intros ->. destruct (Hr' eq_refl). split; [lia|done].
Qed.
End SendLemmas.

Section RecvLemmas.
Context `{Platform} {R E : Type} `{!RecvStream R E} (rest : R -> bytes) `{!RecvContract rest}.
Context {W : Type} `{BufMut W} `{!RoomMut W} (content : W -> bytes) `{!RoomLaws content}.

Lemma read_buf_delivers r w :
  0 < remaining_mut w ->
  let '(o, (r', w')) := RecvStream.read_buf (r, w) in
  completes o /\
  match o with
  | Ok (Some n) => 0 < n <= remaining_mut w /\ n <= 8192 /\ n <= (chunk_mut w).1 /\ remaining_mut w' = remaining_mut w - n /\
      exists l, len l = n /\ rest r = l ++ rest r' /\ content w' = content w ++ l
  | Ok None => rest r = [] /\ rest r' = [] /\ content w' = content w
  | _ => True
  end.
Proof.
  intros Hroom. unfold RecvStream.read_buf, on_snd, on_fst, bind. cbn [fst snd].
  pose proof (chunk_mut_room w) as Hm. destruct (chunk_mut w) as [n w1]. destruct Hm as (Hc1 & Hr1 & Hn & Hpos).
  specialize (Hpos Hroom). cbn [fst snd]. set (cap := Z.min n (8 * 1024)).
  rewrite (proj2 (Z.eqb_neq cap 0)) by (unfold cap; lia).
  set (dst0 := replicate (Z.to_nat cap) 0).
  assert (Hlen0 : len dst0 = cap) by (unfold len, dst0; rewrite length_replicate; unfold cap; lia).
  cbn [fst snd].   pose proof (read_delivers dst0 r) as Hd.
  destruct (read dst0 r) as [o r']. destruct Hd as [Hc Hd].
  { intros E0. rewrite E0, len_nil in Hlen0. unfold cap in Hlen0. lia. }
  destruct (completes_cases o Hc) as [[[[k|] dst] ->]|[e ->]]; cbn [fst snd].
  - destruct Hd as (Hlen & Hk & Hrest). unfold assert_. rewrite (proj2 (Z.leb_le _ _)) by lia. cbn [ret fst snd].
    assert (Hl : len (take (Z.to_nat k) dst) = k) by (unfold len in *; rewrite length_take; lia).
    destruct (put_fits (take (Z.to_nat k) dst) w1) as (w2 & Hp & Hc2 & Hr2); [unfold cap in *; lia|].
    unfold put_slice. rewrite Hp. cbn. split; [done|]. unfold cap in *. do 3 (split; [lia|]).
    split; [lia|]. exists (take (Z.to_nat k) dst). split; [done|]. split; [done|]. congruence.
  - destruct Hd. by cbn.
  - cbn. by split.
Qed.

Lemma read_all_buf_delivers fuel : forall size r w,
  len (rest r) < Z.of_nat fuel -> 0 <= size -> size + remaining_mut w <= usize_max ->
  let '(o, (r', w')) := RecvStream.read_all_buf fuel size (r, w) in
  completes o /\ forall n, o = Ok n ->
    n - size = Z.min (remaining_mut w) (len (rest r)) /\
    exists l, len l = n - size /\ rest r = l ++ rest r' /\ content w' = content w ++ l.
Proof.
  induction fuel as [|fuel IH]; intros size r w Hf Hs Hmax; [pose_len; lia|].
  cbn [RecvStream.read_all_buf]. unfold bind at 1. cbn [snd].
  pose proof (len_nonneg (rest r)). pose proof (remaining_mut_usize w) as Hw.
  destruct (Z.ltb_spec 0 (remaining_mut w)) as [Hpos|Hz].
  2: { cbn. split; [done|]. intros n [= <-]. split; [lia|]. exists []. rewrite app_nil_r. split; [|done].
    change (len []) with 0. lia. }
  pose proof (read_buf_delivers r w Hpos) as Hb. unfold bind at 1.
  destruct (RecvStream.read_buf (r, w)) as [o [r' w']]. destruct Hb as [Hc Hb].
  destruct (completes_cases o Hc) as [[[n|] ->]|[e ->]].
  - destruct Hb as (Hn & _ & _ & Hr' & l & Hl & Hrest & Hcont). cbv beta iota. unfold usize_add.
    rewrite (proj2 (Z.leb_le _ _)) by lia. unfold lift, never, bind.
    assert (Hlr : len (rest r) = n + len (rest r')) by (rewrite Hrest, len_app; lia).
    specialize (IH (size + n) r' w' ltac:(lia) ltac:(lia) ltac:(lia)).
    destruct (RecvStream.read_all_buf fuel (size + n) (r', w')) as [o [r'' w'']]. destruct IH as [Hc' IH].
    split; [done|]. intros m ->. destruct (IH m eq_refl) as (Hm & l' & Hl' & Hrest' & Hcont').
    split; [lia|]. exists (l ++ l'). rewrite len_app, <- !app_assoc. split; [lia|].
    rewrite <- Hrest', <- Hrest. split; [done|]. by rewrite Hcont', Hcont, <- app_assoc.
  - destruct Hb as (Hr & Hr' & Hcont). cbn. split; [done|]. intros n [= <-]. rewrite Hr, Hr'.
    change (len []) with 0. split; [lia|]. exists []. rewrite Hcont, !app_nil_r.
    change (len []) with 0. split; [lia|done].
  - by split.
Qed.
End RecvLemmas.

(** ** A stream for the examples: it accepts at most [ws_max] bytes a call, and
    delivers at most [rs_max]. *)
Record WStream := MkWStream { ws_sent : bytes; ws_max : nat }.
#[export] Instance wstream_send : SendStream WStream unit :=
  let wr := fun l w => (Ok (Z.min (len l) (1 + Z.of_nat (ws_max w))), MkWStream (ws_sent w ++ take (S (ws_max w)) l) (ws_max w)) in
  {| write := wr; write_buf B _ _ := SendStream.default_write_buf wr |}.
Lemma wstream_write l w : accepts ws_sent l w (write l w).1 (write l w).2.
Proof.
  split; [apply completes_Ok|]. exists (Z.min (len l) (1 + Z.of_nat (ws_max w))). pose_len. split; [lia|]. split.
  - cbn. f_equal. destruct (Z.min_spec (len l) (1 + Z.of_nat (ws_max w))) as [[Hle ->]|[Hle ->]].
    + rewrite !take_ge by (unfold len in *; lia). done.
    + f_equal. lia.
  - cbn. split; [done|]. destruct l; [done|]. rewrite len_cons. pose_len. lia.
Qed.
#[export] Instance wstream_contract : SendContract ws_sent.
Proof.
  split; [apply wstream_write|]. intros B ? ? R ? ? b l w Hb.
  by apply (default_write_buf_accepts ws_sent _ R b l w wstream_write).
Qed.
Record RStream := MkRStream { rs_rest : bytes; rs_max : nat }.
#[export] Instance rstream_recv : RecvStream RStream unit := {|
  read dst r :=
    match rs_rest r with
    | [] => (Ok (None, dst), r)
    | l => let k := Nat.min (length l) (Nat.min (S (rs_max r)) (length dst)) in
        (Ok (Some (Z.of_nat k), take k l ++ drop k dst), MkRStream (drop k l) (rs_max r))
    end
|}.
#[export] Instance rstream_contract : RecvContract rs_rest.
Proof.
  split. intros dst [l m] Hdst. cbn [read rstream_recv rs_rest rs_max]. destruct l as [|x l]; [done|]. cbv zeta.
  set (k := Nat.min (length (x :: l)) (Nat.min (S m) (length dst))). assert (Hk : (0 < k <= length dst)%nat /\ (k <= length (x :: l))%nat).
  { unfold k. destruct dst; [done|]. cbn [length]. lia. }
  split; [done|]. unfold len. rewrite length_app, length_take, length_drop, Nat2Z.id. split; [lia|]. split; [lia|].
  cbn [rs_rest]. rewrite take_app_length' by (rewrite length_take; lia). by rewrite take_drop.
Qed.
(** A vector that offers the room left under its capacity, or 64 bytes. *)
Record VecMut := MkVecMut { vm_bytes : bytes; vm_cap : Z; vm_left : N }.
#[export] Instance vecmut_room : RoomMut VecMut := {|
  remaining_mut w := Z.min (2 ^ 31 - 1) (Z.of_N (vm_left w));
  chunk_mut w :=
    let free := vm_cap w - len (vm_bytes w) in
    (Z.min (Z.min (2 ^ 31 - 1) (Z.of_N (vm_left w))) (if 0 <? free then free else 64), w) |}.
#[export] Instance vecmut_put : BufMut VecMut := {|
  put l w :=
    if len l <=? remaining_mut w
    then Some (MkVecMut (vm_bytes w ++ l) (vm_cap w) (Z.to_N (remaining_mut w - len l))) else None |}.
#[export] Instance vecmut_lib : BytesMutLib VecMut := {| with_capacity n := MkVecMut [] n (2 ^ 31 - 1); freeze := vm_bytes |}.
Lemma vecmut_laws : RoomLaws (H:=Platform32) vm_bytes.
Proof.
  split.
  - intros l w Hl. cbn [put vecmut_put]. rewrite (proj2 (Z.leb_le _ _)) by done.
    eexists. split; [reflexivity|]. split; [done|]. cbn [remaining_mut vecmut_room vm_left] in *. pose_len. lia.
  - intros w. cbn. destruct (Z.ltb_spec 0 (vm_cap w - len (vm_bytes w))); split_and!; try done; lia.
  - intros w. cbn [remaining_mut vecmut_room]. unfold usize_max. cbn. lia.
Qed.
Lemma vecmut_lib_laws : BytesMutLaws (H:=Platform32) vm_bytes.
Proof.
  split; [done| |done]. change (isize_max (H:=Platform32)) with (2 ^ 31 - 1). intros n Hn.
  cbn [chunk_mut vecmut_room with_capacity vecmut_lib vm_cap vm_bytes vm_left fst]. change (len []) with 0.
  rewrite (proj2 (Z.ltb_lt _ _)) by lia. change (Z.of_N (2 ^ 31 - 1)) with (2 ^ 31 - 1). lia.
Qed.

(** ** Properties *)

(** C38: over any stream that honours the contract of [write], however it splits
    the data, the helpers return without a panic; when they succeed, [write_all]
    and [write_chunk] have sent exactly the bytes given, and [write_all_buf] the
    bytes left in the buffer, which is then empty; when they fail, a part of them
    in front was sent. *)
Theorem write_all_complete {W E : Type} `{!SendStream W E} (sent : W -> bytes) `{!SendContract sent}
  (buf : bytes) (w : W) :
  let sends (r : outcome E unit) w' :=
    completes r /\ exists n, 0 <= n <= len buf /\ sent w' = sent w ++ take (Z.to_nat n) buf /\
      (r = Ok () -> sent w' = sent w ++ buf) in
  sends (SendStream.write_all buf w).1 (SendStream.write_all buf w).2 /\
  sends (SendStream.write_chunk buf w).1 (SendStream.write_chunk buf w).2 /\
  forall B (HB : Buf B) (HC : ChunkBuf B) (R : B -> bytes -> Prop), BufSim R -> ChunkLaw R -> forall b fuel,
    R b buf -> len buf < Z.of_nat fuel ->
    let '(r, (w', b')) := SendStream.write_all_buf fuel (w, b) in
    sends r w' /\ (r = Ok () -> R b' []).
Proof.
  intros sends. assert (Hall : forall n, n = len buf -> take (Z.to_nat n) buf = buf).
  { intros n ->. apply take_ge. unfold len. lia. }
  assert (Hbuf : forall B (HB : Buf B) (HC : ChunkBuf B) (R : B -> bytes -> Prop), BufSim R -> ChunkLaw R ->
    forall b fuel, R b buf -> len buf < Z.of_nat fuel ->
    let '(r, (w', b')) := SendStream.write_all_buf fuel (w, b) in
    sends r w' /\ (r = Ok () -> R b' [])).
  { intros B HB HC R HS HL b fuel Hb Hf. pose proof (write_all_buf_sends sent R fuel b buf w Hb Hf) as Hw.
    destruct (SendStream.write_all_buf fuel (w, b)) as [r [w' b']]. destruct Hw as (Hc & n & Hn & Hs & Hr).
    split; [|by intros Hok; apply Hr]. split; [done|]. exists n. split; [done|]. split; [done|].
    intros Hok. rewrite Hs, Hall by (by apply Hr). done. }
  split; [|split; [|done]].
  - unfold SendStream.write_all. pose proof (write_all_loop_sends sent (S (length buf)) buf 0 w) as Hw.
    pose_len. specialize (Hw ltac:(lia) ltac:(unfold len; lia)).
    destruct (SendStream.write_all_loop _ buf 0 w) as [r w']. destruct Hw as (Hc & n & Hn & Hs & Hr).
    cbn [fst snd]. split; [done|]. exists n. split; [lia|]. split; [done|].
    intros Hok. rewrite Hs. change (drop (Z.to_nat 0) buf) with buf. rewrite Hall by (rewrite (Hr Hok); lia). done.
  - unfold SendStream.write_chunk. specialize (Hbuf bytes slice_buf slice_chunk eq _ _ buf (S (length buf)) eq_refl).
    specialize (Hbuf ltac:(unfold len; lia)).
    destruct (SendStream.write_all_buf (S (length buf)) (w, buf)) as [r [w' b']]. by destruct Hbuf as [? _].
Qed.
Lemma write_all_complete_witness :
  SendStream.write_all [1; 2; 3; 4; 5] (MkWStream [9] 1) = (Ok (), MkWStream [9; 1; 2; 3; 4; 5] 1) /\
  completes (SendStream.write_chunk [1; 2; 3] (MkWStream [9] 1)).1.
Proof.
  split; [vm_compute; reflexivity|].
  destruct (write_all_complete ws_sent [1; 2; 3] (MkWStream [9] 1)) as (_ & [Hc _] & _). exact Hc.
Defined.

(** The provided [write_buf] honours the contract of [write_buf] over any
    [write] that honours its own and any buffer: it never panics (neither
    assertion fails), the buffer advances by exactly what the stream accepted, and
    at least one byte is accepted while the buffer is not empty. *)
Theorem write_buf_default {W E : Type} (sent : W -> bytes) (wr : bytes -> M W E Z)
  (Hwr : forall l w, accepts sent l w (wr l w).1 (wr l w).2)
  {B} `{Buf B} `{!ChunkBuf B} (R : B -> bytes -> Prop) `{!BufSim R} `{!ChunkLaw R} b l w (Hb : R b l) :
  let '(r, (w', b')) := SendStream.default_write_buf wr (w, b) in
  accepts sent l w r w' /\ forall n, r = Ok n -> R b' (drop (Z.to_nat n) l).
Proof. by apply default_write_buf_accepts. Qed.
Lemma write_buf_default_witness :
  SendStream.default_write_buf (E:=unit) write (MkWStream [] 1, [5; 6; 7]) = (Ok 2, (MkWStream [5; 6] 1, [7])) /\
  (let '(r, (w', b')) := SendStream.default_write_buf (E:=unit) write (MkWStream [] 1, [5; 6; 7]) in
   accepts ws_sent [5; 6; 7] (MkWStream [] 1) r w' /\ forall n, r = Ok n -> b' = drop (Z.to_nat n) [5; 6; 7]).
Proof.
  split; [vm_compute; reflexivity|].
  exact (write_buf_default ws_sent write wstream_write (B:=bytes) eq [5; 6; 7] [5; 6; 7] (MkWStream [] 1) eq_refl).
Defined.

(** [read_chunk] gives the next bytes of the stream, at least one, or [None] at its
    end; never more than its maximum, but for a maximum of zero, for which the
    buffer makes room of its own. *)
Definition next_chunk {R E} (rest : R -> bytes) (max : Z) (r : R) (o : outcome E (option bytes)) (r' : R) : Prop :=
  completes o /\ forall c, o = Ok c ->
    match c with
    | Some c => 1 <= len c <= 8192 /\ (0 < max -> len c <= max) /\ rest r = c ++ rest r'
    | None => rest r = [] /\ rest r' = []
    end.
Lemma read_chunk_next `{Platform} {R E : Type} `{!RecvStream R E} (rest : R -> bytes) `{!RecvContract rest}
  {W : Type} `{BufMut W} `{!RoomMut W} `{!BytesMutLib W} (content : W -> bytes)
  `{!RoomLaws content} `{!BytesMutLaws content} (max : Z) (r : R) (Hmax : 0 <= max) :
  let '(o, r') := RecvStream.read_chunk (W:=W) max r in next_chunk rest max r o r'.
Proof.
  unfold RecvStream.read_chunk, next_chunk. pose proof isize_max_range.
  set (n := Z.min max (8 * 1024)). assert (Hrange : 0 <= n <= isize_max /\ n <= max /\ (0 < max -> 0 < n)) by (unfold n; lia).
  clearbody n. set (w := with_capacity n).
  destruct (with_capacity_empty (content:=content) n (proj1 Hrange)) as [He Hroom]. fold w in He, Hroom.
  pose proof (with_capacity_room (content:=content) n) as Hcap. fold w in Hcap.
  assert (Hpos : 0 < remaining_mut w) by (rewrite Hroom; lia).
  pose proof (read_buf_delivers rest content r w Hpos) as Hb.
  destruct (RecvStream.read_buf (r, w)) as [o [r' w']]. destruct Hb as [Hc Hb].
  destruct (completes_cases o Hc) as [[[k|] ->]|[e ->]]; cbn; (split; [done|]); intros c [= <-]; [|tauto].
  destruct Hb as (Hn & Hn' & Hchunk & _ & l & Hl & Hrest & Hcont). rewrite freeze_content, Hcont, He. cbn [app].
  split; [lia|]. split; [|done]. intros Hmp. rewrite Hcap in Hchunk by lia. lia.
Qed.
(** C39: over any stream that honours the contract of [read], and with fuel for
    the bytes it will deliver, [read_all_buf] returns without a panic, and when it
    succeeds it has moved exactly as many bytes as the buffer has room for or the
    stream delivers, in order, and returns their number.  [read_all], over the
    [BytesMut] that it makes, which grows to [isize::MAX] bytes at most, returns the
    bytes of the stream, the first [isize::MAX] if there are more, and all of them
    otherwise, when the stream is then at its end.  [read_chunk] returns the next bytes, at least one,
    at most 8,192 and at most the maximum asked for, or [None] at the end; for a
    maximum of zero it still returns at least one byte. *)
Theorem read_all_complete `{Platform} {R E : Type} `{!RecvStream R E} (rest : R -> bytes) `{!RecvContract rest}
  {W : Type} `{BufMut W} `{!RoomMut W} `{!BytesMutLib W} (content : W -> bytes)
  `{!RoomLaws content} `{!BytesMutLaws content} (fuel : nat) (r : R) (Hf : len (rest r) < Z.of_nat fuel) :
  (forall w, let '(o, (r', w')) := RecvStream.read_all_buf fuel 0 (r, w) in
     completes o /\ forall n, o = Ok n -> n = Z.min (remaining_mut w) (len (rest r)) /\
       exists l, len l = n /\ rest r = l ++ rest r' /\ content w' = content w ++ l) /\
  (let '(o, r') := RecvStream.read_all fuel r in
   completes o /\ forall l, o = Ok l -> rest r = l ++ rest r' /\ len l = Z.min isize_max (len (rest r)) /\
     (len (rest r) <= isize_max -> l = rest r /\ rest r' = [])) /\
  (forall max, 0 <= max -> let '(o, r') := RecvStream.read_chunk (W:=W) max r in next_chunk rest max r o r').
Proof.
  assert (Hall : forall w, let '(o, (r', w')) := RecvStream.read_all_buf fuel 0 (r, w) in
     completes o /\ forall n, o = Ok n -> n = Z.min (remaining_mut w) (len (rest r)) /\
       exists l, len l = n /\ rest r = l ++ rest r' /\ content w' = content w ++ l).
  { intros w. pose proof (remaining_mut_usize w). assert (Hm : 0 + remaining_mut w <= usize_max) by lia.
    pose proof (read_all_buf_delivers rest content fuel 0 r w Hf (Z.le_refl 0) Hm) as Hr.
    destruct (RecvStream.read_all_buf fuel 0 (r, w)) as [o [r' w']]. destruct Hr as [Hc Hr].
    split; [done|]. intros n Hn. destruct (Hr n Hn) as (Hmin & l & Hl & ? & ?).
    split; [lia|]. exists l. split; [lia|done]. }
  split; [done|]. split; [|intros max; by apply (read_chunk_next rest content)].
  unfold RecvStream.read_all. specialize (Hall (with_capacity 0)). pose proof isize_max_range.
  assert (Hzero : 0 <= 0 <= isize_max) by lia.
  destruct (with_capacity_empty (content:=content) 0 Hzero) as [He Hroom].
  destruct (RecvStream.read_all_buf fuel 0 (r, with_capacity 0)) as [o [r' w']]. destruct Hall as [Hc Hall].
  destruct (completes_cases o Hc) as [[n ->]|[e ->]]; cbn; [|by split]. split; [done|]. intros l [= <-].
  destruct (Hall n eq_refl) as (Hn & l & Hl & Hrest & Hcont). rewrite freeze_content, Hcont, He. cbn [app].
  rewrite Hroom in Hn. split; [done|]. split; [lia|]. intros Hmax.
  rewrite Hrest, len_app in Hn, Hmax. pose_len. assert (rest r' = []) as Hnil by (apply len_zero_nil; lia).
  split; [|done]. by rewrite Hrest, Hnil, app_nil_r.
Qed.
Lemma read_all_complete_witness :
  RecvStream.read_all (H:=Platform32) (W:=VecMut) 9 (MkRStream [1; 2; 3; 4; 5] 1) = (Ok [1; 2; 3; 4; 5], MkRStream [] 1) /\
  RecvStream.read_chunk (W:=VecMut) 2 (MkRStream [1; 2; 3; 4; 5] 6) = (Ok (Some [1; 2]), MkRStream [3; 4; 5] 6) /\
  next_chunk rs_rest 2 (MkRStream [1; 2; 3; 4; 5] 6) (Ok (Some [1; 2]) : outcome unit (option bytes)) (MkRStream [3; 4; 5] 6).
Proof.
  split; [vm_compute; reflexivity|]. split; [vm_compute; reflexivity|].
  exact (proj2 (proj2 (read_all_complete (H:=Platform32) rs_rest vm_bytes (RoomLaws0:=vecmut_laws) (BytesMutLaws0:=vecmut_lib_laws)
    9 (MkRStream [1; 2; 3; 4; 5] 6) ltac:(by_eval))) 2 ltac:(lia)).
Defined.
