(* ===== verification/QuinnStreams.v ===== *)
(** * The Quinn streams (webtrans-quinn/src: error.rs, send.rs, recv.rs)

    The wrappers of Quinn's streams and the conversions of its errors.  Quinn is
    a parameter: its connection errors are a type with the one case the source
    looks into, its other error types have the cases the source matches on, and
    its streams are type classes of their operations. *)
From S2P Require Import Prelude Buf Utf8 ErrorCode Streams.

(** [r.map_err(Into::into)] for a conversion that may hit [unreachable!] *)
Definition convert_err {S E F A} (f : E -> outcome Empty_set F) (m : M S E A) : M S F A := fun s =>
  match m s with
  | (Ok a, s) => (Ok a, s)
  | (Err e, s) => (match f e with Ok e => Err e | Err x => match x with end | Panic => Panic | OutOfFuel => OutOfFuel end, s)
  | (Panic, s) => (Panic, s)
  | (OutOfFuel, s) => (OutOfFuel, s)
  end.

(** ** Quinn *)
Class Quinn := {
  ConnectionError : Type;
  (** The error code and the reason of [ApplicationClosed]. *)
  application_closed : ConnectionError -> option (Z * bytes);
  SendDatagramError : Type;
  (** The error of rustls, which Quinn and Quion both work with. *)
  rustls_Error : Type
}.

Section Errors.
Context `{Quinn}.

Inductive quinn_WriteError :=
| QWStopped (code : Z)
| QWConnectionLost (e : ConnectionError)
| QWClosedStream
| QWZeroRttRejected.
Inductive quinn_ReadError :=
| QRReset (code : Z)
| QRConnectionLost (e : ConnectionError)
| QRIllegalOrderedRead
| QRClosedStream
| QRZeroRttRejected.
Inductive quinn_ReadExactError := QEFinishedEarly (size : Z) | QEReadError (e : quinn_ReadError).
Inductive quinn_ReadToEndError := QTTooLong | QTRead (e : quinn_ReadError).
(** [StoppedError] and [ResetError] have the same cases. *)
Inductive quinn_EndError := QSConnectionLost (e : ConnectionError) | QSZeroRttRejected.

(** ** error.rs *)
Inductive WebTransportError :=
| Closed (code : Z) (reason : bytes)
| UnknownSession
| WTReadError (e : quinn_ReadExactError)
| WTWriteError (e : quinn_WriteError).
Inductive SessionError :=
| SEConnectionError (e : ConnectionError)
| SEWebTransportError (e : WebTransportError)
| SESendDatagramError (e : SendDatagramError).

Definition session_error_from (e : ConnectionError) : SessionError :=
  match application_closed e with
  | Some (error_code, reason) =>
      match error_from_http3 error_code with
      | Some code => SEWebTransportError (Closed code (from_utf8_lossy reason))
      | None => SEConnectionError e
      end
  | None => SEConnectionError e
  end.

Inductive WriteError :=
| WEStopped (code : Z)
| WEInvalidStopped (code : Z)
| WESessionError (e : SessionError)
| WEClosedStream.
Definition write_error_from (e : quinn_WriteError) : outcome Empty_set WriteError :=
  match e with
  | QWStopped code =>
      match error_from_http3 code with
      | Some code => Ok (WEStopped code)
      | None => Ok (WEInvalidStopped code)
      end
  | QWClosedStream => Ok WEClosedStream
  | QWConnectionLost e => Ok (WESessionError (session_error_from e))
  | QWZeroRttRejected => Panic
  end.

Inductive ReadError :=
| RESessionError (e : SessionError)
| REReset (code : Z)
| REInvalidReset (code : Z)
| REClosedStream
| REIllegalOrderedRead.
Definition read_error_from (value : quinn_ReadError) : outcome Empty_set ReadError :=
  match value with
  | QRReset code =>
      match error_from_http3 code with
      | Some code => Ok (REReset code)
      | None => Ok (REInvalidReset code)
      end
  | QRConnectionLost e => Ok (RESessionError (session_error_from e))
  | QRIllegalOrderedRead => Ok REIllegalOrderedRead
  | QRClosedStream => Ok REClosedStream
  | QRZeroRttRejected => Panic
  end.

Inductive ReadExactError := XEFinishedEarly (size : Z) | XEReadError (e : ReadError).
Definition read_exact_error_from (e : quinn_ReadExactError) : outcome Empty_set ReadExactError :=
  match e with
  | QEFinishedEarly size => Ok (XEFinishedEarly size)
  | QEReadError e => let? e := read_error_from e in Ok (XEReadError e)
  end.
Inductive ReadToEndError := TETooLong | TEReadError (e : ReadError).
Definition read_to_end_error_from (e : quinn_ReadToEndError) : outcome Empty_set ReadToEndError :=
  match e with
  | QTTooLong => Ok TETooLong
  | QTRead e => let? e := read_error_from e in Ok (TEReadError e)
  end.

(** [impl webtrans_trait::Error] *)
Definition session_session_error (e : SessionError) : option (Z * bytes) :=
  match e with
  | SEWebTransportError (Closed code reason) => Some (code, reason)
  | _ => None
  end.
Definition write_session_error (e : WriteError) : option (Z * bytes) :=
  match e with WESessionError e => session_session_error e | _ => None end.
Definition write_stream_error (e : WriteError) : option Z :=
  match e with WEStopped code => Some code | _ => None end.
Definition read_session_error (e : ReadError) : option (Z * bytes) :=
  match e with RESessionError e => session_session_error e | _ => None end.
Definition read_stream_error (e : ReadError) : option Z :=
  match e with REReset code => Some code | _ => None end.
End Errors.

(** [pub struct ClosedStream;] for [quinn::ClosedStream] as well *)
Inductive ClosedStream := MkClosedStream.

(** [quinn::VarInt::try_from(code).unwrap()] *)
Definition quinn_varint {S E} (code : Z) : M S E Z := if code <? 2 ^ 62 then ret code else panic.

(** ** send.rs *)
Class QuinnSend `{Quinn} (S : Type) := {
  qs_reset : Z -> M S ClosedStream unit;
  qs_stopped : M S quinn_EndError (option Z);
  qs_write : bytes -> M S quinn_WriteError Z;
  qs_write_all : bytes -> M S quinn_WriteError unit;
  qs_write_chunk : bytes -> M S quinn_WriteError unit;
  qs_write_chunks : list bytes -> M S quinn_WriteError (Z * list bytes);
  qs_write_all_chunks : list bytes -> M S quinn_WriteError (list bytes);
  qs_finish : M S ClosedStream unit;
  qs_set_priority : Z -> M S ClosedStream unit;
  qs_priority : M S ClosedStream Z;
  qs_id : S -> Z
}.

Module SendStream.
Section Send.
Context `{Quinn} {S : Type} `{!QuinnSend S}.

Definition reset (code : Z) : M S ClosedStream unit :=
  let* code := quinn_varint (error_to_http3 code) in qs_reset code.
Definition stopped : M S SessionError (option Z) := fun s =>
  match qs_stopped s with
  | (Ok (Some code), s) => (Ok (error_from_http3 code), s)
  | (Ok None, s) => (Ok None, s)
  | (Err (QSConnectionLost e), s) => (Err (session_error_from e), s)
  | (Err QSZeroRttRejected, s) => (Panic, s)
  | (Panic, s) => (Panic, s)
  | (OutOfFuel, s) => (OutOfFuel, s)
  end.
Definition write (buf : bytes) : M S WriteError Z := convert_err write_error_from (qs_write buf).
Definition write_all (buf : bytes) : M S WriteError unit := convert_err write_error_from (qs_write_all buf).
Definition write_chunks (bufs : list bytes) : M S WriteError (Z * list bytes) :=
  convert_err write_error_from (qs_write_chunks bufs).
Definition write_chunk (buf : bytes) : M S WriteError unit := convert_err write_error_from (qs_write_chunk buf).
Definition write_all_chunks (bufs : list bytes) : M S WriteError (list bytes) :=
  convert_err write_error_from (qs_write_all_chunks bufs).
Definition finish : M S ClosedStream unit := qs_finish.
Definition set_priority (order : Z) : M S ClosedStream unit := qs_set_priority order.
Definition priority : M S ClosedStream Z := qs_priority.
Definition quic_id (s : S) : Z := qs_id s.

(** [impl webtrans_trait::SendStream]; [r.ok()] drops the error. *)
Definition drop_err {E} (m : M S E unit) : M S Empty_set unit := fun s =>
  match m s with
  | (Ok _, s) | (Err _, s) => (Ok (), s)
  | (Panic, s) => (Panic, s)
  | (OutOfFuel, s) => (OutOfFuel, s)
  end.
Definition trait_set_priority (order : Z) : M S Empty_set unit := drop_err (set_priority order).
Definition trait_reset (code : Z) : M S Empty_set unit := drop_err (reset code).
Definition trait_finish : M S WriteError unit := map_err (fun _ => WEClosedStream) finish.
Definition trait_write_buf {B} `{Buf B} `{!ChunkBuf B} : M (S * B) WriteError Z :=
  let* size := (fun st => (Ok (len (chunk st.2)), st)) in
  let* chunk := on_snd (copy_to_bytes size) in
  on_fst (write_chunk chunk) ;;;
  ret size.
Definition trait_closed : M S WriteError unit :=
  let* r := map_err WESessionError stopped in
  match r with
  | Some code => throw (WEStopped code)
  | None => ret ()
  end.
#[export] Instance trait_send : Streams.SendStream S WriteError := {|
  Streams.write := write;
  Streams.write_buf B _ _ := trait_write_buf
|}.
End Send.
End SendStream.

(** ** recv.rs *)
Class QuinnRecv `{Quinn} (S : Type) := {
  Chunk : Type;
  chunk_bytes : Chunk -> bytes;
  qr_stop : Z -> M S ClosedStream unit;
  qr_read : bytes -> M S quinn_ReadError (option Z * bytes);
  qr_read_exact : bytes -> M S quinn_ReadExactError bytes;
  qr_read_chunk : Z -> bool -> M S quinn_ReadError (option Chunk);
  qr_read_chunks : list bytes -> M S quinn_ReadError (option Z * list bytes);
  qr_read_to_end : Z -> M S quinn_ReadToEndError bytes;
  qr_received_reset : M S quinn_EndError (option Z);
  qr_id : S -> Z
}.

Module RecvStream.
Section Recv.
Context `{Quinn} {S : Type} `{!QuinnRecv S}.

Definition stop (code : Z) : M S ClosedStream unit :=
  let* code := quinn_varint (error_to_http3 code) in qr_stop code.
Definition read (buf : bytes) : M S ReadError (option Z * bytes) := convert_err read_error_from (qr_read buf).
Definition read_exact (buf : bytes) : M S ReadExactError bytes := convert_err read_exact_error_from (qr_read_exact buf).
Definition read_chunk (max_length : Z) (ordered : bool) : M S ReadError (option Chunk) :=
  convert_err read_error_from (qr_read_chunk max_length ordered).
Definition read_chunks (bufs : list bytes) : M S ReadError (option Z * list bytes) :=
  convert_err read_error_from (qr_read_chunks bufs).
Definition read_to_end (size_limit : Z) : M S ReadToEndError bytes :=
  convert_err read_to_end_error_from (qr_read_to_end size_limit).
Definition received_reset : M S SessionError (option Z) := fun s =>
  match qr_received_reset s with
  | (Ok None, s) => (Ok None, s)
  | (Ok (Some code), s) => (Ok (error_from_http3 code), s)
  | (Err (QSConnectionLost e), s) => (Err (session_error_from e), s)
  | (Err QSZeroRttRejected, s) => (Panic, s)
  | (Panic, s) => (Panic, s)
  | (OutOfFuel, s) => (OutOfFuel, s)
  end.
Definition quic_id (s : S) : Z := qr_id s.

(** [impl webtrans_trait::RecvStream] *)
Definition trait_stop (code : Z) : M S Empty_set unit := SendStream.drop_err (stop code).
Definition trait_read_chunk (max : Z) : M S ReadError (option bytes) :=
  let* r := read_chunk max true in ret (option_map chunk_bytes r).
Definition trait_closed : M S ReadError unit :=
  map_err RESessionError received_reset ;;; ret ().
#[export] Instance trait_recv : Streams.RecvStream S ReadError := {| Streams.read := read |}.
End Recv.
End RecvStream.

(** ** Documented behaviour of Quinn's streams *)

(** Without 0-RTT no operation fails with [ZeroRttRejected]; [write] accepts a
    part of the data in front, [write_chunk] all of it when it succeeds, [read]
    delivers what the stream holds, in order. *)
Class QuinnSendLaws `{Quinn} {S} `{!QuinnSend S} (sent : S -> bytes) : Prop := {
  qs_write_accepts l s : accepts sent l s
    (match (qs_write l s).1 with Ok n => Ok n | Err _ => Err () | Panic => Panic | OutOfFuel => OutOfFuel end) (qs_write l s).2;
  qs_write_no_0rtt l s : (qs_write l s).1 <> Err QWZeroRttRejected;
  qs_write_chunk_sends l s : let '(r, s') := qs_write_chunk l s in
    completes r /\ r <> Err QWZeroRttRejected /\
    exists n, 0 <= n <= len l /\ sent s' = sent s ++ take (Z.to_nat n) l /\ (r = Ok () -> n = len l)
}.
Class QuinnRecvLaws `{Quinn} {S} `{!QuinnRecv S} (rest : S -> bytes) : Prop := {
  qr_read_delivers dst s : dst <> [] -> let '(o, s') := qr_read dst s in
    completes o /\ o <> Err QRZeroRttRejected /\
    match o with
    | Ok (Some n, dst') => len dst' = len dst /\ 0 < n <= len dst /\ rest s = take (Z.to_nat n) dst' ++ rest s'
    | Ok (None, _) => rest s = [] /\ rest s' = []
    | _ => True
    end
}.

Section Lemmas.
Context `{Quinn}.

Lemma write_error_total e : e <> QWZeroRttRejected -> exists e', write_error_from e = Ok e'.
Proof. destruct e; cbn; intros; try done; try (destruct (error_from_http3 _)); eauto. Qed.
Lemma read_error_total e : e <> QRZeroRttRejected -> exists e', read_error_from e = Ok e'.
Proof. destruct e; cbn; intros; try done; try (destruct (error_from_http3 _)); eauto. Qed.

Lemma quinn_varint_code {S E} code (s : S) :
  is_u32 code -> quinn_varint (E:=E) (error_to_http3 code) s = (Ok (error_to_http3 code), s).
Proof.
  intros Hc. pose proof (to_http3_range code Hc) as Hr. unfold ERROR_LAST in Hr.
  unfold quinn_varint. by rewrite (proj2 (Z.ltb_lt _ _)) by lia.
Qed.

Context {S : Type} `{!QuinnSend S} (sent : S -> bytes) `{!QuinnSendLaws sent}.

Lemma quinn_write_accepts l s : accepts sent l s (SendStream.write l s).1 (SendStream.write l s).2.
Proof.
  unfold SendStream.write, convert_err. pose proof (qs_write_accepts l s) as Hw. pose proof (qs_write_no_0rtt l s) as Hz.
  destruct (qs_write l s) as [[n|e| |] s']; cbn [fst snd] in *.
  - destruct Hw as [_ Hw]. by split.
  - destruct (write_error_total e) as [e' ->]; [by intros ->|]. destruct Hw as [_ Hw]. by split.
  - destruct Hw as [Hc _]. exfalso. apply Hc. by left.
  - destruct Hw as [Hc _]. exfalso. apply Hc. by right.
Qed.
Lemma quinn_write_chunk_sends l s :
  let '(r, s') := SendStream.write_chunk l s in
  completes r /\ exists n, 0 <= n <= len l /\ sent s' = sent s ++ take (Z.to_nat n) l /\ (r = Ok () -> n = len l).
Proof.
  unfold SendStream.write_chunk, convert_err. pose proof (qs_write_chunk_sends l s) as Hw.
  destruct (qs_write_chunk l s) as [r s']. destruct Hw as (Hc & Hz & n & Hn & Hs & Hr).
  destruct (completes_cases r Hc) as [[[] ->]|[e ->]].
  - split; [done|]. exists n. auto.
  - destruct (write_error_total e) as [e' ->]; [by intros ->|]. split; [done|]. exists n. split; [done|]. by split.
Qed.
Lemma quinn_write_buf_accepts {B} `{Buf B} `{!ChunkBuf B} (R : B -> bytes -> Prop) `{!BufSim R} `{!ChunkLaw R} b l s :
  R b l ->
  let '(r, (s', b')) := SendStream.trait_write_buf (s, b) in
  accepts sent l s r s' /\ forall n, r = Ok n -> R b' (drop (Z.to_nat n) l).
Proof.
  intros Hb. unfold SendStream.trait_write_buf, on_fst, on_snd, bind. cbn [fst snd].
  destruct (chunk_prefix b l Hb) as [tl Htl]. set (c := chunk b) in *.
  assert (Hcl : len c <= len l) by (rewrite Htl, len_app; pose_len; lia).
  assert (Htake : take (Z.to_nat (len c)) l = c) by (rewrite Htl; apply take_app_length'; unfold len; lia).
  assert (Hsl : consume (len c) l = Some (take (Z.to_nat (len c)) l, drop (Z.to_nat (len c)) l)).
  { unfold consume, slice_buf. pose_len. by rewrite (proj2 (Z.leb_le 0 _)), (proj2 (Z.leb_le _ (len l))) by lia. }
  pose proof (sim_consume (len c) b l Hb) as Hsim. rewrite Hsl in Hsim. unfold copy_to_bytes.
  destruct (consume (len c) b) as [[l1 b1]|]; [|done]. destruct Hsim as [-> Hb1]. rewrite Htake. cbn [fst snd].
  pose proof (quinn_write_chunk_sends c s) as Hw.
  destruct (SendStream.write_chunk c s) as [r s']. destruct Hw as (Hc & n & Hn & Hs & Hr).
  assert (Hpre : take (Z.to_nat n) c = take (Z.to_nat n) l).
  { rewrite Htl. symmetry. apply take_app_le. unfold len in *. lia. }
  destruct (completes_cases r Hc) as [[[] ->]|[e ->]]; cbn.
  - specialize (Hr eq_refl). subst n. split; [|by intros ? [= <-]]. split; [done|]. exists (len c).
    split; [lia|]. rewrite <- Hpre. split; [done|]. split; [done|]. intros Hl.
    pose proof (chunk_nonempty b l Hb Hl) as Hne. fold c in Hne. destruct c; [done|]. rewrite len_cons. pose_len. lia.
  - split; [|done]. split; [done|]. exists n. rewrite <- Hpre. split; [lia|done].
Qed.
End Lemmas.

(** ** A sample Quinn: streams that accept or deliver a few bytes at a time *)
Definition sample_quinn : Quinn := {|
  ConnectionError := option (Z * bytes); application_closed e := e; SendDatagramError := unit;
  rustls_Error := unit |}.
Definition sample_send : QuinnSend (H:=sample_quinn) WStream := {|
  qs_reset _ := ret (); qs_stopped := ret None;
  qs_write l w := (Ok (Z.min (len l) (1 + Z.of_nat (ws_max w))), MkWStream (ws_sent w ++ take (S (ws_max w)) l) (ws_max w));
  qs_write_all l w := (Ok (), MkWStream (ws_sent w ++ l) (ws_max w));
  qs_write_chunk l w := (Ok (), MkWStream (ws_sent w ++ l) (ws_max w));
  qs_write_chunks ls w := (Ok (len (concat ls), []), MkWStream (ws_sent w ++ concat ls) (ws_max w));
  qs_write_all_chunks ls w := (Ok [], MkWStream (ws_sent w ++ concat ls) (ws_max w));
  qs_finish := ret (); qs_set_priority _ := ret (); qs_priority := ret 0; qs_id _ := 0 |}.
Lemma sample_send_laws : QuinnSendLaws (QuinnSend0:=sample_send) ws_sent.
Proof.
  split; [exact wstream_write|by intros|]. intros l w. split; [apply completes_Ok|]. split; [by intros|].
  exists (len l). pose_len. split; [lia|]. split; [|done]. cbn. f_equal. symmetry. apply take_ge. unfold len. lia.
Qed.
Definition sample_recv : QuinnRecv (H:=sample_quinn) RStream := {|
  Chunk := bytes; chunk_bytes c := c;
  qr_stop _ := ret ();
  qr_read dst r := match Streams.read (E:=unit) dst r with (Ok a, r) => (Ok a, r) | (_, r) => (Err QRClosedStream, r) end;
  qr_read_exact dst := throw (QEReadError QRClosedStream);
  qr_read_chunk max _ r := match rs_rest r with
    | [] => (Ok None, r)
    | l => (Ok (Some (take (Z.to_nat max) l)), MkRStream (drop (Z.to_nat max) l) (rs_max r)) end;
  qr_read_chunks _ := ret (None, []);
  qr_read_to_end limit r := if len (rs_rest r) <=? limit then (Ok (rs_rest r), MkRStream [] (rs_max r)) else (Err QTTooLong, r);
  qr_received_reset := ret None; qr_id _ := 0 |}.
Lemma sample_recv_laws : QuinnRecvLaws (QuinnRecv0:=sample_recv) rs_rest.
Proof.
  split. intros dst r Hdst. pose proof (read_delivers (rest:=rs_rest) dst r Hdst) as Hr. cbn [qr_read sample_recv].
  destruct (Streams.read dst r) as [[[[n|] dst']| | |] r']; destruct Hr as [Hc Hr];
    try (exfalso; apply Hc; (by left) || (by right)).
  all: split; [apply completes_Ok || apply completes_Err|]; split; [done|exact Hr].
Qed.

(** ** Properties *)

(** An application code keeps its value from end to end.  Resetting or
    stopping a stream with any 32-bit code hands Quinn the mapped code without a
    panic; the same mapped code coming back as a reset, a STOP_SENDING, or the
    close code of the connection is reported as that code (a close with its
    reason as well); and a reset or STOP_SENDING whose code is outside the
    WebTransport range is reported with its raw value and no stream error. *)
Theorem quinn_codes `{Quinn} {S T : Type} `{!QuinnSend S} `{!QuinnRecv T} (code : Z) (Hc : is_u32 code) :
  let wire := error_to_http3 code in
  (forall s, SendStream.reset code s = qs_reset wire s) /\
  (forall t, RecvStream.stop code t = qr_stop wire t) /\
  (forall s s', qs_stopped s = (Ok (Some wire), s') -> SendStream.trait_closed s = (Err (WEStopped code), s')) /\
  (forall t t', qr_received_reset t = (Ok (Some wire), t') -> RecvStream.received_reset t = (Ok (Some code), t')) /\
  write_error_from (QWStopped wire) = Ok (WEStopped code) /\ write_stream_error (WEStopped code) = Some code /\
  read_error_from (QRReset wire) = Ok (REReset code) /\ read_stream_error (REReset code) = Some code /\
  (forall e reason, application_closed e = Some (wire, reason) ->
     session_session_error (session_error_from e) = Some (code, from_utf8_lossy reason) /\
     exists we re, write_error_from (QWConnectionLost e) = Ok we /\ read_error_from (QRConnectionLost e) = Ok re /\
       write_session_error we = Some (code, from_utf8_lossy reason) /\
       read_session_error re = Some (code, from_utf8_lossy reason)) /\
  (forall raw, error_from_http3 raw = None ->
     write_error_from (QWStopped raw) = Ok (WEInvalidStopped raw) /\ write_stream_error (WEInvalidStopped raw) = None /\
     read_error_from (QRReset raw) = Ok (REInvalidReset raw) /\ read_stream_error (REInvalidReset raw) = None).
Proof.
  intros wire. pose proof (from_to_http3 code Hc) as Hf. fold wire in Hf.
  assert (Hse : forall e reason, application_closed e = Some (wire, reason) ->
    session_error_from e = SEWebTransportError (Closed code (from_utf8_lossy reason))).
  { intros e reason He. unfold session_error_from. by rewrite He, Hf. }
  split; [|split; [|split; [|split; [|split; [|split; [|split; [|split; [|split]]]]]]]].
  - intros s. unfold SendStream.reset. by mstep (quinn_varint_code (E:=ClosedStream) code s Hc).
  - intros t. unfold RecvStream.stop. by mstep (quinn_varint_code (E:=ClosedStream) code t Hc).
  - intros s s' Hs. unfold SendStream.trait_closed, SendStream.stopped, map_err, bind. by rewrite Hs, Hf.
  - intros t t' Ht. unfold RecvStream.received_reset. by rewrite Ht, Hf.
  - cbn. by rewrite Hf.
  - done.
  - cbn. by rewrite Hf.
  - done.
  - intros e reason He. rewrite (Hse e reason He). split; [done|].
    eexists _, _. split; [done|]. split; [done|]. cbn. rewrite (Hse e reason He). done.
  - intros raw Hr. cbn. by rewrite Hr.
Qed.
Lemma quinn_codes_witness :
  is_u32 4000000000 /\
  (forall s, SendStream.reset (QuinnSend0:=sample_send) 4000000000 s = qs_reset (QuinnSend:=sample_send) (error_to_http3 4000000000) s) /\
  read_error_from (H:=sample_quinn) (QRReset (error_to_http3 4000000000)) = Ok (REReset 4000000000).
Proof.
  assert (Hu : is_u32 4000000000) by (unfold is_u; lia).
  destruct (quinn_codes (H:=sample_quinn) (QuinnSend0:=sample_send) (QuinnRecv0:=sample_recv) 4000000000 Hu)
    as (Hr & _ & _ & _ & _ & _ & Hread & _).
  split; [exact Hu|]. split; [exact Hr|exact Hread].
Defined.

(** C37: over Quinn streams that do what Quinn documents (and without 0-RTT), the
    wrappers honour the contracts of the stream traits: no error conversion hits
    its [unreachable!], the [write_buf] that replaces the provided one advances the
    buffer by what was sent, and [read] delivers the stream's bytes in order.  So
    the helpers of the traits are correct over them. *)
Theorem quinn_honours_contracts `{Quinn} {S T : Type} `{!QuinnSend S} `{!QuinnRecv T}
  (sent : S -> bytes) (rest : T -> bytes) (Hs : QuinnSendLaws sent) (Hr : QuinnRecvLaws rest) :
  SendContract (SendStream0:=SendStream.trait_send) sent /\ RecvContract (RecvStream0:=RecvStream.trait_recv) rest.
Proof.
  split; split.
  - intros l w. exact (quinn_write_accepts sent l w).
  - intros B ? ? R ? ? b l w Hb. exact (quinn_write_buf_accepts sent R b l w Hb).
  - intros dst r Hdst. cbn [Streams.read RecvStream.trait_recv]. unfold RecvStream.read, convert_err.
    pose proof (qr_read_delivers dst r Hdst) as Hd. destruct (qr_read dst r) as [o r']. destruct Hd as (Hc & Hz & Hd).
    destruct (completes_cases o Hc) as [[a ->]|[e ->]]; [by split|].
    destruct (read_error_total e) as [e' ->]; [by intros ->|]. by split.
Qed.
Lemma quinn_honours_contracts_witness :
  SendContract (SendStream0:=SendStream.trait_send (QuinnSend0:=sample_send)) ws_sent /\
  RecvContract (RecvStream0:=RecvStream.trait_recv (QuinnRecv0:=sample_recv)) rs_rest.
Proof.
  exact (quinn_honours_contracts (H:=sample_quinn) (QuinnSend0:=sample_send) (QuinnRecv0:=sample_recv) ws_sent rs_rest
    sample_send_laws sample_recv_laws).
Defined.
