(* ===== verification/QuinnCapsules.v ===== *)
(** * Closing a session (webtrans-quinn/src/session.rs: the CONNECT stream)

    Capsules over the DATA frames of the CONNECT stream: reading them back
    together across frame boundaries, writing the close capsule, and the
    background task that waits for either side to close. *)
From S2P Require Import Prelude Buf Utf8 Varint ErrorCode Frame Capsule.

Definition MAX_CAPSULE_FRAME_SIZE : Z := 2 * 1024.
Record CloseCommand := MkCloseCommand { cc_code : Z; cc_reason : bytes }.

Definition is_graceful_close (e : CapsuleError) : bool :=
  match e with
  | CEIo ioe =>
      match io_kind ioe with
      | UnexpectedEof | BrokenPipe | ConnectionReset | ConnectionAborted | NotConnected => true
      | _ => false
      end || contains (lit "connection lost") (to_ascii_lowercase (io_message ioe))
  | CEUnexpectedEnd => true
  | _ => false
  end.

(** Two states side by side: the receive stream and the pending bytes. *)
Definition on_recv {S T E A} (m : M S E A) : M (S * T) E A := fun st =>
  let '(r, s) := m st.1 in (r, (s, st.2)).
Definition on_pending {S T E A} (m : M T E A) : M (S * T) E A := fun st =>
  let '(r, t) := m st.2 in (r, (st.1, t)).

Section Capsules.
Context `{Platform}.

(** The cursor runs over a copy of the pending bytes; only a complete capsule
    advances them. *)
Definition decode_buffered_capsule : M bytes CapsuleError (option Capsule) := fun pending =>
  match VarInt.decode pending with
  | (Err _, _) => (Ok None, pending)
  | (Panic, _) => (Panic, pending)
  | (OutOfFuel, _) => (OutOfFuel, pending)
  | (Ok _, cursor) =>
      match VarInt.decode cursor with
      | (Err _, _) => (Ok None, pending)
      | (Panic, _) => (Panic, pending)
      | (OutOfFuel, _) => (OutOfFuel, pending)
      | (Ok length, cursor) =>
          let position := len pending - len cursor in
          (let* length := ok_or CEMessageTooLong (usize_try_from (into_inner length)) in
           if 1028 <? length then throw CEMessageTooLong else
           let* total := lift (never (usize_add position length)) in
           if len pending <? total then ret None else
           let* capsule := lift (fst (Capsule.decode (T:=Take bytes) (take (Z.to_nat total) pending))) in
           advance total ;;;
           ret (Some capsule)) pending
      end
  end.

Fixpoint read_capsule_frame {S} `{AsyncRead S} (fuel : nat) : M (S * bytes) CapsuleError Capsule :=
  match fuel with
  | O => out_of_fuel
  | Datatypes.S fuel =>
      let* c := on_pending decode_buffered_capsule in
      match c with
      | Some capsule => ret capsule
      | None =>
          let* typ := on_recv (map_err (fun _ => CEUnexpectedEnd) VarInt.read) in
          let* length := on_recv (map_err (fun _ => CEUnexpectedEnd) VarInt.read) in
          let* length := ok_or CEMessageTooLong (usize_try_from (into_inner length)) in
          if MAX_CAPSULE_FRAME_SIZE <? length then throw CEMessageTooLong else
          let* payload := on_recv (map_err CEIo (read_exact length)) in
          let typ := MkFrame typ in
          if Frame.is_grease typ then read_capsule_frame fuel
          else if negb (bool_decide (typ = Frame.DATA)) then read_capsule_frame fuel
          else
            on_pending (put_slice payload) ;;;
            read_capsule_frame fuel
      end
  end.

Definition write_capsule_frame {W} `{AsyncWrite W} (capsule : Capsule) : M W CapsuleError unit :=
  let '(r, payload) := Capsule.encode capsule ([] : bytes) in
  lift r ;;;
  let '(r, frame) := (
    Frame.encode Frame.DATA ;;;
    Capsule.encode_len (len payload) ;;;
    put_slice payload) ([] : bytes) in
  lift r ;;;
  map_err CEIo (write_all frame).

Fixpoint pop_to_limit (fuel : nat) (reason : bytes) : outcome Empty_set bytes :=
  match fuel with
  | O => OutOfFuel
  | S fuel => if 1024 <? len reason then pop_to_limit fuel (pop reason) else Ok reason
  end.
Definition capsule_reason (reason : bytes) : outcome Empty_set bytes :=
  let reason := from_utf8_lossy reason in
  pop_to_limit (S (length reason)) reason.
End Capsules.

(** ** The background task *)

(** The branch a [select!] takes when both may be ready is not determined; the
    schedule lists the branches taken.  A cancelled read is not resumed: the
    close branch returns. *)
Inductive select_branch := CapsuleBranch | CloseBranch (close : option CloseCommand).

(** [send.finish()] and [send.stopped().await], whose results are dropped. *)
Class CloseStream (W : Type) := { finish_quietly : W -> W; stopped_quietly : W -> W }.
(** [tokio::time::timeout(secs, fut).await] with its result dropped: what the
    future did to the state before it ended or was cut. *)
Class Timer := { within {S E A : Type} : Z -> M S E A -> S -> S }.

Record RunState (W S : Type) := MkRunState { rc_send : W; rc_recv : S; rc_pending : bytes }.
Arguments MkRunState {W S}. Arguments rc_send {W S}. Arguments rc_recv {W S}. Arguments rc_pending {W S}.

Section Run.
Context `{Platform} `{Timer} {W S : Type} `{AsyncWrite W} `{CloseStream W} `{AsyncRead S}.

Definition submit_close (capsule : Capsule) : M W CapsuleError unit :=
  write_capsule_frame capsule ;;;
  (fun send => (Ok (), stopped_quietly (finish_quietly send))).

Definition LAST_HANDLE : bytes := lit "last session handle dropped".

(** [fuel] bounds the frames one read goes through. *)
Fixpoint run_closed (fuel : nat) (schedule : list select_branch)
  : M (RunState W S) CapsuleError (option (Z * bytes)) :=
  match schedule with
  | [] => out_of_fuel
  | CapsuleBranch :: schedule => fun st =>
      let '(r, (recv, pending)) := read_capsule_frame fuel (rc_recv st, rc_pending st) in
      let st := MkRunState (rc_send st) recv pending in
      match r with
      | Ok (CloseWebTransportSession code reason) => (Ok (Some (code, reason)), st)
      | Ok (Unknown _ _) => run_closed fuel schedule st
      | Err e => if is_graceful_close e then (Ok None, st) else (Err e, st)
      | Panic => (Panic, st)
      | OutOfFuel => (OutOfFuel, st)
      end
  | CloseBranch None :: _ => ret (Some (0, LAST_HANDLE))
  | CloseBranch (Some close) :: _ => fun st =>
      match capsule_reason (cc_reason close) with
      | Ok reason =>
          let capsule := CloseWebTransportSession (cc_code close) reason in
          let send := within 5 (submit_close capsule) (rc_send st) in
          (Ok (Some (cc_code close, reason)), MkRunState send (rc_recv st) (rc_pending st))
      | Err x => match x with end
      | Panic => (Panic, st)
      | OutOfFuel => (OutOfFuel, st)
      end
  end.
End Run.

(** What the task does to the QUIC connection afterwards. *)
Class QuicConn (C : Type) := { conn_is_closed : C -> bool; conn_close : Z -> bytes -> C -> C }.
Definition close_connection {C} `{QuicConn C} (code : Z) (reason : bytes) : C -> C :=
  let mapped := error_to_http3 code in
  let code := if mapped <? 2 ^ 62 then mapped else 1 in
  conn_close code reason.
Definition after_closed {C} `{QuicConn C} (result : outcome CapsuleError (option (Z * bytes))) (conn : C) : C :=
  match result with
  | Ok (Some (code, reason)) => if conn_is_closed conn then conn else close_connection code reason conn
  | Ok None => conn
  | Err e =>
      if is_graceful_close e then conn
      else if conn_is_closed conn then conn else close_connection 1 (lit "capsule error") conn
  | _ => conn
  end.

(** ** Decoding the pending bytes *)
Lemma decode_Err_short l e l' : is_bytes l -> VarInt.decode l = (Err e, l') -> len l <= 7.
Proof.
  intros Hl. rewrite decode_slice by done. destruct l as [|b0 r]; [intros; by rewrite len_nil|].
  apply Forall_cons in Hl as [Hb _]. unfold varint_decode_spec. pose proof (varint_len_cases b0 Hb).
  destruct (Z.ltb_spec (len r) (varint_len b0 - 1)); [|done]. intros _. rewrite len_cons. lia.
Qed.
(** A strict part of a varint is not one. *)
Lemma decode_strict_prefix v p q :
  varint_ok v -> is_bytes p -> is_bytes q -> p ++ q = varint_bytes v -> q <> [] ->
  exists l', VarInt.decode p = (Err MkVarIntUnexpectedEnd, l').
Proof.
  intros Hv Hp Hq E Hne. destruct (decode_split p Hp) as [(l' & Ed & _)|(v' & pre & rest & -> & Ed & _)]; [by exists l'|].
  exfalso. pose proof (decode_app _ _ _ q Hp Hq Ed) as Ea. rewrite E in Ea.
  pose proof (decode_varint_bytes v [] Hv) as Ev. rewrite app_nil_r in Ev. rewrite Ev in Ea.
  injection Ea as _ Ea. symmetry in Ea. by apply app_eq_nil in Ea as [_ ->].
Qed.

Section Buffered.
Context `{Platform}.

Lemma take_len_self {A} (l : list A) k : take (Z.to_nat (len l)) (l ++ k) = l.
Proof. apply take_app_length'. unfold len. lia. Qed.

Lemma advance_slice {E} (l k : bytes) : advance (E:=E) (len l) (l ++ k) = (Ok (), k).
Proof. unfold advance. by mstep (copy_to_bytes_slice (E:=E) (len l) l k eq_refl). Qed.

(** The header and the payload it announces are there. *)
Lemma buffered_full typ p1 sz p2 p rest :
  VarInt.decode (p1 ++ p2 ++ p ++ rest) = (Ok typ, p2 ++ p ++ rest) ->
  VarInt.decode (p2 ++ p ++ rest) = (Ok sz, p ++ rest) ->
  VarInt.decode (p1 ++ p2 ++ p) = (Ok typ, p2 ++ p) -> VarInt.decode (p2 ++ p) = (Ok sz, p) ->
  into_inner sz = len p -> len p <= MAX_CLOSE_PAYLOAD_SIZE -> len p1 <= 8 -> len p2 <= 8 ->
  decode_buffered_capsule (p1 ++ p2 ++ p ++ rest) =
    match payload_spec typ p with
    | Ok c => (Ok (Some c), rest)
    | Err e => (Err e, p1 ++ p2 ++ p ++ rest)
    | Panic => (Panic, p1 ++ p2 ++ p ++ rest)
    | OutOfFuel => (OutOfFuel, p1 ++ p2 ++ p ++ rest)
    end.
Proof.
  intros E1 E2 E1' E2' Hsz Hp H1 H2. unfold MAX_CLOSE_PAYLOAD_SIZE, MAX_MESSAGE_SIZE in Hp.
  unfold decode_buffered_capsule. rewrite E1, E2. cbv zeta. rewrite Hsz.
  rewrite usize_try_from_small by lia. cbn [ok_or]. rewrite bind_ret_l.
  rewrite (proj2 (Z.ltb_ge _ _)) by lia.
  replace (len (p1 ++ p2 ++ p ++ rest) - len (p ++ rest)) with (len p1 + len p2) by len_lia.
  pose_len. rewrite usize_add_ok by lia. unfold lift at 1. cbn [never]. unfold bind at 1.
  rewrite (proj2 (Z.ltb_ge _ _)) by len_lia.
  assert (Hl : len p1 + len p2 + len p = len (p1 ++ p2 ++ p)) by len_lia. rewrite Hl.
  replace (p1 ++ p2 ++ p ++ rest) with ((p1 ++ p2 ++ p) ++ rest) by by rewrite <- !app_assoc.
  rewrite take_len_self. pose proof (capsule_decode_full typ p1 sz p2 p []) as Hd. rewrite !app_nil_r in Hd.
  rewrite Hd by done. cbn [fst]. unfold lift. unfold bind at 1. destruct (payload_spec typ p); try done.
  by mstep (advance_slice (E:=CapsuleError) (p1 ++ p2 ++ p) rest).
Qed.

(** The length is too long, or the payload is not there yet. *)
Lemma buffered_oversized typ p1 sz p2 l2 :
  VarInt.decode (p1 ++ p2 ++ l2) = (Ok typ, p2 ++ l2) -> VarInt.decode (p2 ++ l2) = (Ok sz, l2) ->
  1028 < into_inner sz ->
  decode_buffered_capsule (p1 ++ p2 ++ l2) = (Err CEMessageTooLong, p1 ++ p2 ++ l2).
Proof.
  intros E1 E2 Hb. unfold decode_buffered_capsule. rewrite E1, E2. cbv zeta.
  destruct (usize_try_from (into_inner sz)) as [n|] eqn:En; [|done].
  apply usize_try_from_Some_eq in En as ->. cbn [ok_or]. rewrite bind_ret_l.
  by rewrite (proj2 (Z.ltb_lt _ _)) by lia.
Qed.
Lemma buffered_waits typ p1 sz p2 l2 :
  VarInt.decode (p1 ++ p2 ++ l2) = (Ok typ, p2 ++ l2) -> VarInt.decode (p2 ++ l2) = (Ok sz, l2) ->
  len l2 < into_inner sz -> into_inner sz <= 1028 -> len p1 <= 8 -> len p2 <= 8 ->
  decode_buffered_capsule (p1 ++ p2 ++ l2) = (Ok None, p1 ++ p2 ++ l2).
Proof.
  intros E1 E2 Hs Hge Hm1 Hm2. unfold decode_buffered_capsule. rewrite E1, E2. cbv zeta. pose_len.
  rewrite usize_try_from_small by lia.
  cbn [ok_or]. rewrite bind_ret_l, (proj2 (Z.ltb_ge _ _)) by lia.
  replace (len (p1 ++ p2 ++ l2) - len l2) with (len p1 + len p2) by len_lia.
  rewrite usize_add_ok by lia. unfold lift at 1, bind at 1. cbn [never].
  by rewrite (proj2 (Z.ltb_lt _ _)) by len_lia.
Qed.

(** Every outcome of the decoder. *)
Lemma buffered_total l :
  is_bytes l ->
  match decode_buffered_capsule l with
  | (Ok None, l') => l' = l /\ len l <= 1043
  | (Ok (Some c), l') => Capsule.decode (T:=Take bytes) l = (Ok c, l') /\ capsule_ok c /\
      l' `suffix_of` l /\ len l' < len l
  | (Err e, l') => l' = l /\ (e = CEMessageTooLong \/ e = CEInvalidUtf8 \/ e = CEUnexpectedEnd)
  | _ => False
  end.
Proof.
  intros Hl. destruct (decode_split l Hl) as [(l' & E & _)|(typ & p1 & l1 & -> & E1 & Ht & Hp1 & Hl1 & _)].
  { unfold decode_buffered_capsule. rewrite E. pose proof (decode_Err_short _ _ _ Hl E). split; [done|lia]. }
  destruct (decode_Ok_inv _ _ _ Hl E1) as (q1 & Hq1 & _ & _ & Hm1). apply app_inv_tail in Hq1 as <-.
  destruct (decode_split l1 Hl1) as [(l' & E & _)|(sz & p2 & l2 & -> & E2 & Hsz & Hp2 & Hl2 & _)].
  { unfold decode_buffered_capsule. rewrite E1, E. pose proof (decode_Err_short _ _ _ Hl1 E).
    rewrite len_app. split; [done|lia]. }
  destruct (decode_Ok_inv _ _ _ Hl1 E2) as (q2 & Hq2 & _ & _ & Hm2). apply app_inv_tail in Hq2 as <-.
  destruct (Z.lt_ge_cases 1028 (into_inner sz)) as [Hlt|Hge]; [rewrite (buffered_oversized typ p1 sz) by done; auto|].
  destruct (Z.lt_ge_cases (len l2) (into_inner sz)) as [Hs|Hs].
  { rewrite (buffered_waits typ p1 sz) by (done || lia). split; [done|]. rewrite !len_app. lia. }
  destruct (split_at (into_inner sz) l2) as (p & rest & -> & Hp); [destruct Hsz; lia|].
  apply is_bytes_app in Hl2 as [Hpb Hrb].
  pose proof Hl1 as Hl1'. apply is_bytes_app in Hl1' as [Hb2 _].
  assert (E1' : VarInt.decode (p1 ++ p2 ++ p) = (Ok typ, p2 ++ p)).
  { apply (decode_local p1 typ (p2 ++ p ++ rest)); try done; rewrite ?is_bytes_app; auto. }
  assert (E2' : VarInt.decode (p2 ++ p) = (Ok sz, p)) by by apply (decode_local p2 sz (p ++ rest)).
  rewrite (buffered_full typ p1 sz p2 p rest) by (done || max_lia).
  rewrite (capsule_decode_full typ p1 sz p2 p rest) by (done || max_lia).
  destruct (payload_spec_cases typ p) as [[c Epay]|(x & Epay & Hx)]; rewrite Epay.
  - apply payload_spec_ok in Epay as (Hc & <- & <-); [|done|done|max_lia].
    rewrite capsule_payload_rest, !len_app by done. pose_len.
    split; [done|]. split; [done|]. split; [by exists (p1 ++ p2 ++ capsule_payload c); rewrite <- !app_assoc|lia].
  - split; [done|]. naive_solver.
Qed.
End Buffered.

(** ** Capsules across frames *)
Section Reassembly.
Context `{Platform}.

Lemma capsule_len_varint c : capsule_ok c -> varint_ok (MkVarInt (len (capsule_payload c))).
Proof. intros Hc. apply payload_len_varint. pose proof (capsule_payload_len c Hc). max_lia. Qed.
Lemma len_capsule_bytes c : capsule_ok c -> 2 <= len (capsule_bytes c) <= 1044.
Proof.
  intros Hc. unfold capsule_bytes, tlv_bytes. pose proof (capsule_payload_len c Hc) as Hp. rewrite !len_app.
  pose proof (len_varint_bytes _ (capsule_type_ok c Hc)) as H1. pose proof (len_varint_bytes _ (capsule_len_varint c Hc)) as H2.
  pose_len. unfold MAX_CLOSE_PAYLOAD_SIZE, MAX_MESSAGE_SIZE in Hp. repeat case_match; lia.
Qed.

Lemma buffered_complete c rest :
  capsule_ok c -> is_bytes rest -> decode_buffered_capsule (capsule_bytes c ++ rest) = (Ok (Some c), rest).
Proof.
  intros Hc Hr. pose proof (capsule_type_ok c Hc) as Ht. pose proof (capsule_len_varint c Hc) as Hl.
  unfold capsule_bytes, tlv_bytes. rewrite <- !app_assoc.
  rewrite (buffered_full (capsule_type c) _ (MkVarInt (len (capsule_payload c)))); try done.
  - by rewrite payload_spec_payload.
  - by apply decode_varint_bytes.
  - by apply decode_varint_bytes.
  - by apply decode_varint_bytes.
  - by apply decode_varint_bytes.
  - by apply capsule_payload_len.
  - pose proof (len_varint_bytes _ Ht). repeat case_match; lia.
  - pose proof (len_varint_bytes _ Hl). repeat case_match; lia.
Qed.

(** How two ways to cut the same bytes in two relate. *)
Lemma app_eq_cut (a b c d : bytes) :
  a ++ b = c ++ d -> (exists k, a = c ++ k /\ d = k ++ b) \/ (exists k, k <> [] /\ c = a ++ k /\ b = k ++ d).
Proof.
  revert c. induction a as [|x a IH]; intros [|y c] E; cbn in E.
  - left. by exists [].
  - right. by exists (y :: c).
  - left. exists (x :: a). by subst.
  - injection E as -> E. destruct (IH c E) as [(k & -> & ->)|(k & Hk & -> & ->)]; [left|right]; by exists k.
Qed.

Lemma buffered_partial c p q :
  capsule_ok c -> p ++ q = capsule_bytes c -> q <> [] -> decode_buffered_capsule p = (Ok None, p).
Proof.
  intros Hc E Hq. pose proof (capsule_type_ok c Hc) as Ht. pose proof (capsule_len_varint c Hc) as Hl.
  pose proof (capsule_bytes_is_bytes c Hc) as Hb. rewrite <- E in Hb. apply is_bytes_app in Hb as [Hpb Hqb].
  unfold capsule_bytes, tlv_bytes in E. unfold decode_buffered_capsule.
  destruct (app_eq_cut _ _ _ _ E) as [(p' & -> & E')|(k & Hk & Ek & _)].
  2: { destruct (decode_strict_prefix (capsule_type c) p k) as [l' ->]; try done.
    pose proof (varint_bytes_is_bytes _ Ht) as Hvb. rewrite Ek in Hvb. by apply is_bytes_app in Hvb as [_ ?]. }
  apply is_bytes_app in Hpb as [_ Hpb]. rewrite decode_varint_bytes by done.
  symmetry in E'. destruct (app_eq_cut _ _ _ _ E') as [(p2 & -> & E2)|(k & Hk & Ek & _)].
  2: { destruct (decode_strict_prefix (MkVarInt (len (capsule_payload c))) p' k) as [l' ->]; try done.
    pose proof (varint_bytes_is_bytes _ Hl) as Hvb. rewrite Ek in Hvb. by apply is_bytes_app in Hvb as [_ ?]. }
  rewrite decode_varint_bytes by done. cbv zeta. cbn [into_inner].
  pose proof (capsule_payload_len c Hc) as Hpl. unfold MAX_CLOSE_PAYLOAD_SIZE, MAX_MESSAGE_SIZE in Hpl.
  rewrite usize_try_from_small by lia. cbn [ok_or]. rewrite bind_ret_l, (proj2 (Z.ltb_ge _ _)) by lia.
  set (v1 := varint_bytes _). set (v2 := varint_bytes _).
  replace (len (v1 ++ v2 ++ p2) - len p2) with (len v1 + len v2) by (rewrite !len_app; lia).
  pose proof (len_varint_bytes _ Ht) as Hl1. pose proof (len_varint_bytes _ Hl) as Hl2. fold v1 in Hl1. fold v2 in Hl2.
  pose_len. rewrite usize_add_ok by (repeat case_match; lia). unfold lift at 1, bind at 1. cbn [never].
  rewrite (proj2 (Z.ltb_lt _ _)); [done|]. rewrite E2. rewrite !len_app.
  destruct q; [done|]. rewrite len_cons. pose_len. lia.
Qed.

(** A frame of the CONNECT stream, and the bytes the DATA frames carry. *)
Definition conn_frame (fp : Frame * bytes) : Prop :=
  varint_ok (frame_type fp.1) /\ is_bytes fp.2 /\ len fp.2 <= MAX_CAPSULE_FRAME_SIZE.
Definition frame_data (fs : list (Frame * bytes)) : bytes :=
  concat (map (fun fp => if bool_decide (fp.1 = Frame.DATA) then fp.2 else []) fs).

Lemma small_payload_ok (p : bytes) : len p <= MAX_CAPSULE_FRAME_SIZE -> payload_ok p.
Proof.
  unfold MAX_CAPSULE_FRAME_SIZE. intros. pose proof usize_max_ge. split; rewrite ?varint_max_val; lia.
Qed.
Lemma frames_is_bytes fs : Forall conn_frame fs -> is_bytes (frames_bytes fs).
Proof.
  unfold frames_bytes. induction 1 as [|[f p] fs (Hf & Hp & Hl) _ IH]; [constructor|]. cbn [map concat fst snd] in *.
  apply is_bytes_app. split; [|done]. apply frame_bytes_is_bytes; [done|by apply small_payload_ok|done].
Qed.

(** One frame off the stream. *)
Lemma read_capsule_step fuel f p l e pending :
  conn_frame (f, p) -> is_bytes l -> decode_buffered_capsule pending = (Ok None, pending) ->
  read_capsule_frame (S fuel) (MkIncoming (frame_bytes f p ++ l) e, pending) =
    read_capsule_frame fuel (MkIncoming l e, if bool_decide (f = Frame.DATA) then pending ++ p else pending).
Proof.
  intros (Hf & Hp & Hl) Hb Hd. cbn [fst snd] in *. pose proof (small_payload_ok p Hl) as Hpo.
  pose proof (payload_ok_varint p Hpo) as Hv. cbn [read_capsule_frame]. unfold frame_bytes. rewrite <- !app_assoc.
  assert (Hpl : is_bytes (p ++ l)) by by apply is_bytes_app.
  unfold on_pending at 1. unfold bind at 1. cbn [fst snd]. rewrite Hd.
  assert (H1 : on_recv (T:=bytes) (map_err (fun _ => CEUnexpectedEnd) VarInt.read)
      (MkIncoming (varint_bytes (frame_type f) ++ varint_bytes (MkVarInt (len p)) ++ p ++ l) e, pending)
    = (Ok (frame_type f), (MkIncoming (varint_bytes (MkVarInt (len p)) ++ p ++ l) e, pending))).
  { unfold on_recv, map_err. cbn [fst snd]. rewrite read_varint_bytes; [done|done|].
    apply is_bytes_app. split; [by apply varint_bytes_is_bytes|done]. }
  assert (H2 : on_recv (T:=bytes) (map_err (fun _ => CEUnexpectedEnd) VarInt.read)
      (MkIncoming (varint_bytes (MkVarInt (len p)) ++ p ++ l) e, pending)
    = (Ok (MkVarInt (len p)), (MkIncoming (p ++ l) e, pending))).
  { unfold on_recv, map_err. cbn [fst snd]. by rewrite read_varint_bytes. }
  assert (H3 : on_recv (T:=bytes) (map_err CEIo (read_exact (len p))) (MkIncoming (p ++ l) e, pending)
    = (Ok p, (MkIncoming l e, pending))).
  { unfold on_recv, map_err. cbn [fst snd]. by rewrite (read_exact_incoming (len p) p l e eq_refl). }
  mstep H1. mstep H2. cbn [into_inner]. rewrite usize_try_from_ok by apply Hpo. cbn [ok_or]. rewrite bind_ret_l.
  rewrite (proj2 (Z.ltb_ge _ _)) by lia. mstep H3. cbv zeta. destruct f as [t]. cbn [frame_type].
  destruct (Frame.is_grease (MkFrame t)) eqn:Hg.
  - rewrite bool_decide_eq_false_2; [done|]. intros Ht. rewrite Ht in Hg. by vm_compute in Hg.
  - case_bool_decide as Ht; cbn [negb]; [|done]. unfold on_pending, put_slice, bind. by cbn.
Qed.

Lemma read_capsule_reassembles fs : forall fuel c pending tl rest e,
  Forall conn_frame fs -> capsule_ok c -> is_bytes pending -> is_bytes rest ->
  pending ++ frame_data fs = capsule_bytes c ++ tl -> (length fs < fuel)%nat ->
  exists done todo pending', fs = done ++ todo /\ pending' ++ frame_data todo = tl /\ is_bytes pending' /\
    read_capsule_frame fuel (MkIncoming (frames_bytes fs ++ rest) e, pending)
    = (Ok c, (MkIncoming (frames_bytes todo ++ rest) e, pending')).
Proof.
  induction fs as [|[f p] fs IH]; intros fuel c pending tl rest e Hfs Hc Hpb Hr E Hfuel;
    (destruct fuel as [|fuel]; [cbn in Hfuel; lia|]);
    destruct (app_eq_cut _ _ _ _ E) as [(k & -> & ->)|(k & Hk & Ek & Edata)].
  - exists [], [], k. apply is_bytes_app in Hpb as [_ Hkb]. split; [done|]. split; [done|]. split; [done|].
    cbn [read_capsule_frame]. unfold on_pending, bind. cbn [fst snd]. by rewrite buffered_complete.
  - exfalso. cbn in Edata. symmetry in Edata. by apply app_eq_nil in Edata as [-> _].
  - exists [], ((f, p) :: fs), k. apply is_bytes_app in Hpb as [_ Hkb]. split; [done|]. split; [done|]. split; [done|].
    cbn [read_capsule_frame]. unfold on_pending, bind. cbn [fst snd]. by rewrite buffered_complete.
  - apply Forall_cons in Hfs as [Hf Hfs]. pose proof (frames_is_bytes fs Hfs) as Hfb.
    unfold frames_bytes at 1. cbn [map concat fst snd]. fold (frames_bytes fs). rewrite <- app_assoc.
    rewrite read_capsule_step; [|done|by apply is_bytes_app|by apply (buffered_partial c pending k)].
    cbn [length] in Hfuel.
    assert (E' : (if bool_decide (f = Frame.DATA) then pending ++ p else pending) ++ frame_data fs = capsule_bytes c ++ tl).
    { rewrite <- E. unfold frame_data. cbn [map concat fst snd]. case_bool_decide; [by rewrite <- app_assoc|done]. }
    assert (Hpb' : is_bytes (if bool_decide (f = Frame.DATA) then pending ++ p else pending)).
    { case_bool_decide; [|done]. apply is_bytes_app. destruct Hf as (_ & ? & _). by split. }
    destruct (IH fuel c _ tl rest e Hfs Hc Hpb' Hr E' ltac:(lia)) as (d & todo & pending' & -> & Htl & Hb' & Hread).
    exists ((f, p) :: d), todo, pending'. by split_and!.
Qed.
End Reassembly.

(** ** The reason of a close *)
Section Reason.

(** What is kept: as many characters in front as fit. *)
Definition longest_fit (cs : list bytes) (s : bytes) : Prop :=
  exists n, (n <= length cs)%nat /\ s = concat (take n cs) /\ len s <= 1024 /\
    ((n < length cs)%nat -> 1024 < len (concat (take (S n) cs))).

Lemma pop_to_limit_spec fuel : forall cs,
  Forall is_char cs -> (length cs < fuel)%nat ->
  exists s, pop_to_limit fuel (concat cs) = Ok s /\ longest_fit cs s.
Proof.
  induction fuel as [|fuel IH]; intros cs Hcs Hf; [lia|]. cbn [pop_to_limit].
  destruct (Z.ltb_spec 1024 (len (concat cs))) as [Hbig|Hfit].
  2: { eexists. split; [done|]. exists (length cs). rewrite take_ge by lia. split_and!; [lia|done|done|lia]. }
  destruct cs as [|c cs' _] using rev_ind; [done|].
  rewrite pop_concat, removelast_last by done. apply Forall_app in Hcs as [Hcs' _].
  rewrite length_app in Hf. cbn [length] in Hf. destruct (IH cs' Hcs' ltac:(lia)) as (s & Hs & n & Hn & -> & Hl & Hnext).
  eexists. split; [exact Hs|]. exists n. rewrite length_app. cbn [length]. rewrite take_app_le by lia.
  split; [lia|]. split; [done|]. split; [done|]. intros _.
  destruct (decide (n = length cs')) as [->|]; [|rewrite take_app_le by lia; apply Hnext; lia].
  by rewrite take_ge by (rewrite length_app; cbn; lia).
Qed.

Lemma length_chars_le cs : Forall is_char cs -> (length cs <= length (concat cs))%nat.
Proof.
  induction 1 as [|c cs Hc _ IH]; [done|]. cbn [concat length]. rewrite length_app.
  pose proof (is_char_len c Hc). unfold len in *. lia.
Qed.
Lemma capsule_reason_spec reason :
  exists s, capsule_reason reason = Ok s /\ longest_fit (chars (from_utf8_lossy reason)) s /\
    valid_utf8 s = true /\ len s <= 1024.
Proof.
  destruct (valid_chars _ (from_utf8_lossy_valid reason)) as [Hcs E].
  pose proof (length_chars_le _ Hcs) as Hlen. rewrite E in Hlen.
  destruct (pop_to_limit_spec (S (length (from_utf8_lossy reason))) _ Hcs ltac:(lia)) as (s & Hs & Hfit).
  exists s. unfold capsule_reason. rewrite E in Hs. split; [done|]. split; [done|].
  destruct Hfit as (n & _ & -> & Hl & _). split; [|done]. apply concat_chars_valid, Forall_take, Hcs.
Qed.
Lemma capsule_reason_id reason :
  valid_utf8 reason = true -> len reason <= 1024 -> capsule_reason reason = Ok reason.
Proof.
  intros Hv Hl. unfold capsule_reason. rewrite from_utf8_lossy_id by done. cbn [pop_to_limit].
  by rewrite (proj2 (Z.ltb_ge _ _)) by lia.
Qed.
End Reason.

(** ** Safety of the reader *)
Section Safety.
Context `{Platform}.
Definition PENDING_BOUND : Z := 1043 + MAX_CAPSULE_FRAME_SIZE.
Definition pending_ok (pending : bytes) : Prop := is_bytes pending /\ len pending <= PENDING_BOUND.

(** What a run over the bytes [l], with [q] pending, may end in. *)
Definition capsule_run (e : io_error) (q l : bytes) (o : outcome CapsuleError Capsule * (Incoming * bytes)) : Prop :=
  let '(r, (s, q')) := o in
  pending_ok q' /\ in_end s = e /\ in_bytes s `suffix_of` l /\
  match r with
  | Ok c => capsule_ok c /\ len q' + len (in_bytes s) < len q + len l
  | Err x => x = CEMessageTooLong \/ x = CEInvalidUtf8 \/ x = CEUnexpectedEnd \/ x = CEIo e
  | _ => False
  end.

(** A frame whose payload is kept at most goes on with the rest. *)
Lemma capsule_run_frame e q q' pre p rest o :
  len q' <= len q + len p -> capsule_run e q' rest o -> capsule_run e q (pre ++ p ++ rest) o.
Proof.
  destruct o as [r [s q1]]. intros Hq (? & ? & Hsuf & Hr). split; [done|]. split; [done|].
  split; [etrans; [exact Hsuf|exists (pre ++ p); by rewrite <- app_assoc]|].
  destruct r; try done. destruct Hr. split; [done|]. rewrite !len_app. pose_len. lia.
Qed.
Lemma capsule_run_stops e q l l' x :
  pending_ok q -> l' `suffix_of` l -> x = CEMessageTooLong \/ x = CEUnexpectedEnd \/ x = CEIo e ->
  capsule_run e q l (Err x, (MkIncoming l' e, q)).
Proof. intros Hq Hl Hx. split; [done|]. split; [done|]. split; [done|]. naive_solver. Qed.

Lemma read_capsule_total_run fuel e : forall l pending,
  is_bytes l -> len l < Z.of_nat fuel -> pending_ok pending ->
  capsule_run e pending l (read_capsule_frame fuel (MkIncoming l e, pending)).
Proof.
  induction fuel as [|fuel IH]; intros l pending Hl Hf Hpok; [pose_len; lia|]. cbn [read_capsule_frame].
  pose proof Hpok as [Hpb Hpl].
  unfold on_pending at 1. unfold bind at 1. cbn [fst snd].
  pose proof (buffered_total pending Hpb) as Hd.
  destruct (decode_buffered_capsule pending) as [[[c|]|x| |] pending'] eqn:Ed; try done.
  - destruct Hd as (_ & Hc & Hsuf & Hlt). unfold capsule_run, pending_ok. cbn.
    split_and!; try done; [by eapply suffix_is_bytes|lia|lia].
  - destruct Hd as [-> Hsmall]. unfold bind, on_recv, map_err. cbn [fst snd].
    destruct (decode_split l Hl) as [(l' & _ & Er)|(t & p1 & l1 & -> & _ & Ht & Hp1 & Hl1 & Er1)].
    { rewrite (Er e). apply capsule_run_stops; [done|apply suffix_nil|auto]. }
    rewrite (Er1 e). cbn [fst snd].
    destruct (decode_split l1 Hl1) as [(l' & _ & Er)|(sz & p2 & l2 & -> & _ & Hsz & Hp2 & Hl2 & Er2)].
    { rewrite (Er e). apply capsule_run_stops; [done|apply suffix_nil|auto]. }
    rewrite (Er2 e). cbn [fst snd]. rewrite app_assoc. rewrite app_assoc, !len_app in Hf.
    assert (Hsuf2 : l2 `suffix_of` (p1 ++ p2) ++ l2) by by exists (p1 ++ p2).
    destruct (usize_try_from (into_inner sz)) as [n|] eqn:En; [|apply capsule_run_stops; auto].
    apply usize_try_from_Some in En as [-> _]. cbn [ok_or ret].
    destruct (Z.ltb_spec MAX_CAPSULE_FRAME_SIZE (into_inner sz)) as [Hbig|Hbig]; [apply capsule_run_stops; auto|].
    cbn [fst snd].
    destruct (Z.ltb_spec (len l2) (into_inner sz)) as [Hs|Hs].
    { rewrite (read_exact_short (into_inner sz) (MkIncoming l2 e) Hs). apply capsule_run_stops; [done|apply suffix_nil|auto]. }
    destruct (split_at (into_inner sz) l2) as (p & rest & -> & Hp); [destruct Hsz; lia|].
    rewrite (read_exact_incoming (into_inner sz) p rest e (eq_sym Hp)). cbn [fst snd]. cbv zeta.
    apply is_bytes_app in Hl2 as [Hpb2 Hrb]. rewrite len_app in Hf. pose_len.
    destruct (Frame.is_grease _); [apply (capsule_run_frame e pending pending); [lia|apply IH; (done || lia)]|].
    case_bool_decide; cbn [negb]; [|apply (capsule_run_frame e pending pending); [lia|apply IH; (done || lia)]].
    unfold on_pending, put_slice. cbn.
    apply (capsule_run_frame e pending (pending ++ p)); [rewrite len_app; lia|]. apply IH; [done|lia|].
    unfold pending_ok, PENDING_BOUND in *. rewrite is_bytes_app, len_app. split; [done|]. lia.
  - destruct Hd as [-> Hx]. unfold capsule_run. cbn. split_and!; try done. naive_solver.
Qed.
Lemma read_capsule_total fuel e l pending :
  is_bytes l -> len l < Z.of_nat fuel -> pending_ok pending ->
  let '(r, (s, pending')) := read_capsule_frame fuel (MkIncoming l e, pending) in
  pending_ok pending' /\ in_end s = e /\ in_bytes s `suffix_of` l /\
  match r with
  | Ok c => capsule_ok c /\ len pending' + len (in_bytes s) < len pending + len l
  | Err x => x = CEMessageTooLong \/ x = CEInvalidUtf8 \/ x = CEUnexpectedEnd \/ x = CEIo e
  | _ => False
  end.
Proof. apply read_capsule_total_run. Qed.
End Safety.

(** ** The task *)
Definition in_time : Timer := {| within S E A _ m s := snd (m s) |}.
#[export] Instance outgoing_close : CloseStream Outgoing := {| finish_quietly w := w; stopped_quietly w := w |}.

Section Task.
Context `{Platform}.

Lemma lossy_is_bytes l : is_bytes l -> is_bytes (from_utf8_lossy l).
Proof.
  intros Hl. pose proof (utf8_chunks_concat l) as E. rewrite <- E in Hl. clear E. unfold from_utf8_lossy.
  induction (utf8_chunks l) as [|[ok c] cs IH]; [constructor|]. cbn [map concat fst snd] in *.
  apply is_bytes_app in Hl as [Hc Hcs]. apply is_bytes_app. split; [|by apply IH].
  destruct ok; [done|]. apply (bool_decide_unpack _). vm_compute. exact I.
Qed.
Lemma reason_ok reason : is_bytes reason ->
  exists s, capsule_reason reason = Ok s /\ is_bytes s /\ valid_utf8 s = true /\ len s <= 1024.
Proof.
  intros Hr. destruct (capsule_reason_spec reason) as (s & Hs & (n & _ & E & _) & Hv & Hl).
  exists s. split_and!; try done. pose proof (lossy_is_bytes reason Hr) as Hb.
  destruct (valid_chars _ (from_utf8_lossy_valid reason)) as [_ Ec]. rewrite <- Ec, <- (take_drop n (chars _)) in Hb.
  rewrite concat_app in Hb. apply is_bytes_app in Hb as [Hb _]. by rewrite E.
Qed.

Lemma data_frame_bytes c :
  capsule_ok c -> conn_frame (Frame.DATA, capsule_bytes c) /\ frame_data [(Frame.DATA, capsule_bytes c)] = capsule_bytes c.
Proof.
  intros Hc. pose proof (len_capsule_bytes c Hc). split; [|unfold frame_data; cbn; by rewrite app_nil_r].
  split; [by vm_compute|]. split; [by apply capsule_bytes_is_bytes|]. cbn. unfold MAX_CAPSULE_FRAME_SIZE. lia.
Qed.
Lemma write_capsule_frame_out c out :
  capsule_ok c ->
  write_capsule_frame c (MkOutgoing out None) = (Ok (), MkOutgoing (out ++ frame_bytes Frame.DATA (capsule_bytes c)) None).
Proof.
  intros Hc. pose proof (len_capsule_bytes c Hc) as Hl. unfold write_capsule_frame. rewrite capsule_encode_vec by done.
  cbn [app]. unfold lift at 1, bind at 1. unfold Frame.encode.
  mstep (encode_vec (E:=CapsuleError) (frame_type Frame.DATA) [] ltac:(by vm_compute)).
  unfold Capsule.encode_len, VarInt.try_from_usize, VarInt.try_from_u64, VarInt.from_u64, as_u, lift, map_err, bind.
  rewrite Z.mod_small by lia. rewrite varint_max_val, (proj2 (Z.leb_le _ _)) by lia.
  rewrite encode_vec by (apply payload_len_varint; lia). unfold put_slice. cbn [put vec_bufmut app].
  cbn [write_all outgoing_write out_fail out_bytes]. unfold frame_bytes. by rewrite <- !app_assoc.
Qed.

(** A run of unknown capsules and the close behind them, however they are
    framed. *)
Lemma run_closed_receives `{Timer} {W} `{AsyncWrite W} `{CloseStream W} us : forall fuel n fs pending code reason tl send rest e,
  Forall (fun u => capsule_ok u /\ exists t p, u = Unknown t p) us ->
  capsule_ok (CloseWebTransportSession code reason) ->
  Forall conn_frame fs -> is_bytes pending -> is_bytes rest ->
  pending ++ frame_data fs = concat (map capsule_bytes us) ++ capsule_bytes (CloseWebTransportSession code reason) ++ tl ->
  (length fs < fuel)%nat -> (length us < n)%nat ->
  exists st, run_closed fuel (replicate n CapsuleBranch) (MkRunState send (MkIncoming (frames_bytes fs ++ rest) e) pending)
    = (Ok (Some (code, reason)), st) /\ rc_send st = send.
Proof.
  induction us as [|u us IH]; intros fuel n fs pending code reason tl send rest e Hus Hc Hfs Hp Hr E Hfuel Hn;
    (destruct n as [|n]; [cbn in Hn; lia|]); cbn [replicate run_closed rc_recv rc_pending rc_send].
  - cbn [map concat app] in E.
    destruct (read_capsule_reassembles fs fuel _ pending tl rest e Hfs Hc Hp Hr E Hfuel) as (d & todo & p' & -> & _ & _ & ->).
    eexists. split; reflexivity.
  - apply Forall_cons in Hus as [(Hu & t & p & ->) Hus]. cbn [map concat] in E. rewrite <- app_assoc in E.
    destruct (read_capsule_reassembles fs fuel _ pending _ rest e Hfs Hu Hp Hr E Hfuel) as (d & todo & p' & -> & E' & Hp' & ->).
    apply Forall_app in Hfs as [_ Hfs]. rewrite length_app in Hfuel. cbn [length] in Hn.
    apply (IH fuel n todo p' code reason tl send rest e); try done; lia.
Qed.

(** Reading alone: what the task may end with. *)
Lemma run_closed_safe_lemma `{Timer} {W} `{AsyncWrite W} `{CloseStream W} n : forall fuel l e pending send,
  is_bytes l -> len l < Z.of_nat fuel -> pending_ok pending ->
  let '(r, st) := run_closed fuel (replicate n CapsuleBranch) (MkRunState send (MkIncoming l e) pending) in
  pending_ok (rc_pending st) /\ rc_send st = send /\
  match r with
  | Ok (Some (code, reason)) => is_u32 code /\ valid_utf8 reason = true /\ len reason <= 1024
  | Ok None => True
  | Err x => is_graceful_close x = false /\ (x = CEMessageTooLong \/ x = CEInvalidUtf8 \/ x = CEIo e)
  | Panic => False
  | OutOfFuel => Z.of_nat n <= len pending + len l
  end.
Proof.
  induction n as [|n IH]; intros fuel l e pending send Hl Hf Hp; cbn [replicate run_closed rc_recv rc_pending rc_send].
  { cbn. pose_len. split_and!; try done. lia. }
  pose proof (read_capsule_total fuel e l pending Hl Hf Hp) as Hr.
  destruct (read_capsule_frame fuel (MkIncoming l e, pending)) as [r [[l' e'] p']]. cbn [in_end in_bytes] in Hr.
  destruct Hr as (Hp' & -> & Hsuf & Hr). destruct r as [c|x| |]; try done.
  - destruct Hr as [Hc Hlt]. destruct c as [code reason|t p].
    + cbn. destruct Hc as (? & ? & ? & ?). by split_and!.
    + assert (Hl' : is_bytes l') by by eapply suffix_is_bytes.
      assert (Hlen : len l' <= len l) by (destruct Hsuf as [k ->]; rewrite len_app; pose_len; lia).
      specialize (IH fuel l' e p' send Hl' ltac:(lia) Hp').
      destruct (run_closed fuel (replicate n CapsuleBranch) _) as [r st]. destruct IH as (? & ? & Hr).
      split; [done|]. split; [done|]. destruct r as [[[? ?]|]| | |]; try done. lia.
  - destruct (is_graceful_close x) eqn:Hg; cbn [rc_pending rc_send]; split_and!; try done.
    destruct Hr as [-> | [-> | [-> | ->]]]; auto. by cbn in Hg.
Qed.
End Task.

(** ** Properties *)

(** C20: DATA frame boundaries are not capsule boundaries.  Whatever way the
    bytes of capsules are cut into DATA frames of at most 2,048 bytes, with any
    GREASE or other frames in between, each call returns the next capsule, whole,
    and keeps what belongs to the following ones: the bytes pending and those of
    the DATA frames left over are exactly what comes behind the capsule. *)
Theorem capsule_reassembly `{Platform} fs fuel c pending tl rest e
  (Hfs : Forall conn_frame fs) (Hc : capsule_ok c) (Hp : is_bytes pending) (Hr : is_bytes rest)
  (Hdata : pending ++ frame_data fs = capsule_bytes c ++ tl) (Hf : (length fs < fuel)%nat) :
  exists done todo pending', fs = done ++ todo /\ pending' ++ frame_data todo = tl /\ is_bytes pending' /\
    read_capsule_frame fuel (MkIncoming (frames_bytes fs ++ rest) e, pending)
    = (Ok c, (MkIncoming (frames_bytes todo ++ rest) e, pending')).
Proof. by apply read_capsule_reassembles. Qed.
Definition sample_capsule : Capsule := CloseWebTransportSession 7 (lit "bye").
(** A close capsule in two DATA frames, with a GREASE and a HEADERS frame. *)
Definition sample_frames : list (Frame * bytes) :=
  [(Frame.DATA, take 4 (capsule_bytes sample_capsule)); (MkFrame (MkVarInt 0x21), [1; 2]); (Frame.HEADERS, [3]);
   (Frame.DATA, drop 4 (capsule_bytes sample_capsule) ++ [9])].
Lemma capsule_reassembly_witness :
  let e := IoError UnexpectedEof [] in
  exists done todo pending', sample_frames = done ++ todo /\ pending' ++ frame_data todo = [9] /\ is_bytes pending' /\
    read_capsule_frame (H:=Platform64) 5 (MkIncoming (frames_bytes sample_frames ++ [1]) e, [])
    = (Ok sample_capsule, (MkIncoming (frames_bytes todo ++ [1]) e, pending')).
Proof.
  apply (capsule_reassembly (H:=Platform64) sample_frames 5 sample_capsule [] [9] [1]).
  - unfold conn_frame. apply (bool_decide_unpack _). vm_compute. exact I.
  - apply (bool_decide_unpack (is_u32 7 /\ is_bytes (lit "bye") /\ valid_utf8 (lit "bye") = true /\ len (lit "bye") <= MAX_MESSAGE_SIZE)).
    vm_compute. exact I.
  - constructor.
  - by_eval.
  - vm_compute. reflexivity.
  - cbn. lia.
Defined.

(** On every incoming byte string, and with fuel for it, one call neither
    panics nor runs on: it returns a well-formed capsule or one of four errors,
    consumes only bytes of the stream, and never holds more than 3,091 bytes
    pending (a partial capsule of at most 1,043 and one frame of 2,048). *)
Theorem capsule_read_bounded `{Platform} fuel e l pending
  (Hl : is_bytes l) (Hf : len l < Z.of_nat fuel) (Hp : pending_ok pending) :
  let '(r, (s, pending')) := read_capsule_frame fuel (MkIncoming l e, pending) in
  pending_ok pending' /\ in_end s = e /\ in_bytes s `suffix_of` l /\
  match r with
  | Ok c => capsule_ok c /\ len pending' + len (in_bytes s) < len pending + len l
  | Err x => x = CEMessageTooLong \/ x = CEInvalidUtf8 \/ x = CEUnexpectedEnd \/ x = CEIo e
  | _ => False
  end.
Proof. exact (read_capsule_total fuel e l pending Hl Hf Hp). Qed.
Lemma capsule_read_bounded_witness :
  let e := IoError UnexpectedEof [] in
  let '(r, (s, pending')) := read_capsule_frame (H:=Platform64) 9 (MkIncoming [0; 3; 5; 2; 6; 0; 1] e, []) in
  pending_ok pending' /\ in_end s = e /\ in_bytes s `suffix_of` [0; 3; 5; 2; 6; 0; 1] /\
  match r with
  | Ok c => capsule_ok c /\ len pending' + len (in_bytes s) < 0 + len [0; 3; 5; 2; 6; 0; 1]
  | Err x => x = CEMessageTooLong \/ x = CEInvalidUtf8 \/ x = CEUnexpectedEnd \/ x = CEIo e
  | _ => False
  end.
Proof.
  apply (capsule_read_bounded (H:=Platform64) 9 (IoError UnexpectedEof []) [0; 3; 5; 2; 6; 0; 1] []);
    [by_eval|by_eval|split; [constructor|by_eval]].
Defined.

(** C2: the close of one side reaches the other.  On a local close the task
    sends one DATA frame with the close capsule, within its deadline, and ends
    with the code and the reason cut to fit; the task of the peer, given that
    capsule behind any unknown ones and in any framing, ends with the same code
    and reason; and the peer's connection, unless it is closed already, is closed
    with the HTTP/3 code that stands for that code, and that reason. *)
Theorem close_reaches_peer `{Platform} (close : CloseCommand)
  (Hcode : is_u32 (cc_code close)) (Hreason : is_bytes (cc_reason close)) :
  exists reason, capsule_reason (cc_reason close) = Ok reason /\ len reason <= 1024 /\
    (forall fuel schedule out (recv : Incoming) pending,
       run_closed (H0:=in_time) fuel (CloseBranch (Some close) :: schedule) (MkRunState (MkOutgoing out None) recv pending)
       = (Ok (Some (cc_code close, reason)),
          MkRunState (MkOutgoing (out ++ frame_bytes Frame.DATA (capsule_bytes (CloseWebTransportSession (cc_code close) reason))) None)
            recv pending)) /\
    (forall T W (HW : AsyncWrite W) (HC : CloseStream W) us fs fuel n tl (send : W) rest e,
       Forall (fun u => capsule_ok u /\ exists t p, u = Unknown t p) us -> Forall conn_frame fs -> is_bytes rest ->
       frame_data fs = concat (map capsule_bytes us) ++ capsule_bytes (CloseWebTransportSession (cc_code close) reason) ++ tl ->
       (length fs < fuel)%nat -> (length us < n)%nat ->
       exists st, run_closed (H0:=T) fuel (replicate n CapsuleBranch) (MkRunState send (MkIncoming (frames_bytes fs ++ rest) e) [])
         = (Ok (Some (cc_code close, reason)), st)) /\
    (forall C (HQ : QuicConn C) (conn : C),
       after_closed (Ok (Some (cc_code close, reason))) conn =
         if conn_is_closed conn then conn else conn_close (error_to_http3 (cc_code close)) reason conn) /\
    error_from_http3 (error_to_http3 (cc_code close)) = Some (cc_code close).
Proof.
  destruct (reason_ok _ Hreason) as (reason & Hr & Hrb & Hv & Hl).
  assert (Hc : capsule_ok (CloseWebTransportSession (cc_code close) reason)) by by split_and!.
  exists reason. split; [done|]. split; [done|]. split; [|split; [|split]].
  - intros. cbn [run_closed]. rewrite Hr. cbv zeta. cbn [within in_time rc_send rc_recv rc_pending].
    unfold submit_close. unfold bind. by rewrite write_capsule_frame_out.
  - intros T W HW HC us fs fuel n tl send rest e Hus Hfs Hrest Hdata Hf Hn.
    destruct (run_closed_receives us fuel n fs [] (cc_code close) reason tl send rest e) as (st & -> & _);
      try done; try by constructor. by exists st.
  - intros. cbn [after_closed]. unfold close_connection. pose proof (to_http3_range _ Hcode) as Hm.
    unfold ERROR_LAST in Hm. by rewrite (proj2 (Z.ltb_lt _ _)) by lia.
  - by apply from_to_http3.
Qed.
Lemma close_reaches_peer_witness :
  exists reason, capsule_reason (lit "bye") = Ok reason /\ len reason <= 1024 /\
    (forall fuel schedule out (recv : Incoming) pending,
       run_closed (H:=Platform64) (H0:=in_time) fuel (CloseBranch (Some (MkCloseCommand 7 (lit "bye"))) :: schedule) (MkRunState (MkOutgoing out None) recv pending)
       = (Ok (Some (7, reason)),
          MkRunState (MkOutgoing (out ++ frame_bytes Frame.DATA (capsule_bytes (CloseWebTransportSession 7 reason))) None)
            recv pending)).
Proof.
  destruct (close_reaches_peer (H:=Platform64) (MkCloseCommand 7 (lit "bye")) ltac:(by_eval) ltac:(by_eval))
    as (reason & Hr & Hl & Hrun & _).
  exists reason. split; [exact Hr|]. split; [exact Hl|exact Hrun].
Defined.

(** C36: the task that only reads never panics on any stream: it ends with a
    close whose reason is valid UTF-8 of at most 1,024 bytes, or quietly, or with
    an error that is not a graceful end, and after more rounds than there are
    bytes it has ended. *)
Theorem run_closed_safe `{Platform} `{Timer} {W} `{AsyncWrite W} `{CloseStream W} n fuel l e pending (send : W)
  (Hl : is_bytes l) (Hf : len l < Z.of_nat fuel) (Hp : pending_ok pending) :
  let '(r, st) := run_closed fuel (replicate n CapsuleBranch) (MkRunState send (MkIncoming l e) pending) in
  pending_ok (rc_pending st) /\ rc_send st = send /\
  match r with
  | Ok (Some (code, reason)) => is_u32 code /\ valid_utf8 reason = true /\ len reason <= 1024
  | Ok None => True
  | Err x => is_graceful_close x = false /\ (x = CEMessageTooLong \/ x = CEInvalidUtf8 \/ x = CEIo e)
  | Panic => False
  | OutOfFuel => Z.of_nat n <= len pending + len l
  end.
Proof. exact (run_closed_safe_lemma n fuel l e pending send Hl Hf Hp). Qed.
Lemma run_closed_safe_witness :
  let e := IoError UnexpectedEof [] in let out := MkOutgoing [] None in
  let '(r, st) := run_closed (H:=Platform64) (H0:=in_time) 9 (replicate 9 CapsuleBranch) (MkRunState out (MkIncoming [0; 3; 5; 1; 6] e) []) in
  pending_ok (rc_pending st) /\ rc_send st = out /\
  match r with
  | Ok (Some (code, reason)) => is_u32 code /\ valid_utf8 reason = true /\ len reason <= 1024
  | Ok None => True
  | Err x => is_graceful_close x = false /\ (x = CEMessageTooLong \/ x = CEInvalidUtf8 \/ x = CEIo e)
  | Panic => False
  | OutOfFuel => Z.of_nat 9 <= 0 + len [0; 3; 5; 1; 6]
  end.
Proof.
  apply (run_closed_safe (H:=Platform64) (H0:=in_time) 9 9 [0; 3; 5; 1; 6] (IoError UnexpectedEof []) [] (MkOutgoing [] None));
    [by_eval|by_eval|split; [constructor|by_eval]].
Defined.

(** The reason of a close is cut to the longest run of its characters (with
    ill-formed bytes replaced) that fits 1,024 bytes, never inside a character; a
    valid reason that fits is kept as it is.  But [close] first takes the first
    1,024 bytes, so that a longer reason, valid as it is, may reach the peer
    ending in a replacement character that is no part of it. *)
Theorem capsule_reason_fits (reason : bytes) :
  (exists s, capsule_reason reason = Ok s /\ longest_fit (chars (from_utf8_lossy reason)) s /\
    valid_utf8 s = true /\ len s <= 1024) /\
  (valid_utf8 reason = true -> len reason <= 1024 -> capsule_reason reason = Ok reason) /\
  exists long s, valid_utf8 long = true /\ capsule_reason (take 1024 long) = Ok s /\ ~ s `prefix_of` long.
Proof.
  split; [apply capsule_reason_spec|]. split; [apply capsule_reason_id|].
  exists (replicate 1021 97 ++ [0xF0; 0x9F; 0x98; 0x80]), (replicate 1021 97 ++ [0xEF; 0xBF; 0xBD]).
  split; [by vm_compute|]. split; [by vm_compute|]. intros [k E].
  rewrite <- app_assoc in E. by apply app_inv_head in E.
Qed.
