(* ===== verification/QuinnSession.v ===== *)
(** * Sessions over Quinn (webtrans-quinn/src/session.rs)

    Opening and accepting streams, datagrams, and closing.  Quinn's connection is
    a type class of its operations; the queue of close commands and the polls of
    the accept state machine are answered by the environment. *)
From S2P Require Import Prelude Buf Utf8 Varint ErrorCode Frame Streams QuinnStreams QuinnCapsules.

Class QuinnConnection `{Quinn} (C SendS RecvS : Type) := {
  conn_open_uni : M C ConnectionError SendS;
  conn_open_bi : M C ConnectionError (SendS * RecvS);
  conn_accept_uni : M C ConnectionError RecvS;
  conn_accept_bi : M C ConnectionError (SendS * RecvS);
  conn_read_datagram : M C ConnectionError bytes;
  conn_send_datagram : bytes -> M C SendDatagramError unit;
  conn_max_datagram_size : C -> option Z
}.

(** [Sender::try_send] on the queue of close commands. *)
Inductive try_sent := Sent | QueueFull | QueueClosed.
Class CloseQueue (Q : Type) := { try_send : CloseCommand -> Q -> try_sent * Q }.

Record Session (U : Type) := MkSession {
  session_id : option VarInt;
  header_uni : bytes;
  header_bi : bytes;
  header_datagram : bytes;
  url : U
}.
Arguments MkSession {U}. Arguments session_id {U}. Arguments header_uni {U}. Arguments header_bi {U}.
Arguments header_datagram {U}. Arguments url {U}.

Module Session.
(** [Connect::session_id]: the identifier of the CONNECT stream. *)
Definition connect_session_id `{Quinn} {S} `{!QuinnSend S} (send : S) : outcome Empty_set VarInt :=
  match VarInt.try_from_u64 (qs_id send) with Ok v => Ok v | _ => Panic end.

(** The headers that [Session::new] caches. *)
Definition encode_into (m : M bytes Empty_set unit) : outcome Empty_set bytes :=
  let '(r, v) := m [] in let? _ := r in Ok v.
Definition new {U} (session_id : VarInt) (url : U) : outcome Empty_set (Session U) :=
  let? header_uni := encode_into (UniStream.encode UniStream.WEBTRANSPORT ;;; VarInt.encode session_id) in
  let? header_bi := encode_into (Frame.encode Frame.WEBTRANSPORT ;;; VarInt.encode session_id) in
  let? header_datagram := encode_into (VarInt.encode session_id) in
  Ok (MkSession (Some session_id) header_uni header_bi header_datagram url).
Definition raw {U} (url : U) : Session U := MkSession None [] [] [] url.

Section Ops.
Context `{Platform} `{Quinn} {C SendS RecvS U : Type} `{!QuinnSend SendS} `{!QuinnConnection C SendS RecvS}.

(** ** Opening streams *)
Definition write_full (buf : bytes) : M SendS SessionError unit :=
  map_err (fun e => match e with
    | QWConnectionLost err => session_error_from err
    | err => SEWebTransportError (WTWriteError err)
    end) (qs_write_all buf).
Definition I32_MAX : Z := 2 ^ 31 - 1.
Definition set_priority_ok (order : Z) : M SendS SessionError unit := fun s =>
  let '(r, s) := SendStream.drop_err (qs_set_priority order) s in
  (match r with Ok a => Ok a | Err x => match x with end | Panic => Panic | OutOfFuel => OutOfFuel end, s).
(** The header goes out at the highest priority, ahead of any data. *)
Definition write_header (header : bytes) : M SendS SessionError unit :=
  set_priority_ok I32_MAX ;;; write_full header ;;; set_priority_ok 0.
Definition open_uni (s : Session U) : M C SessionError SendS :=
  let* send := map_err session_error_from conn_open_uni in
  let '(r, send) := write_header (header_uni s) send in
  lift r ;;; ret send.
Definition open_bi (s : Session U) : M C SessionError (SendS * RecvS) :=
  let* (send, recv) := map_err session_error_from conn_open_bi in
  let '(r, send) := write_header (header_bi s) send in
  lift r ;;; ret (send, recv).

(** ** Datagrams *)
Definition read_datagram (s : Session U) : M C SessionError bytes :=
  let* datagram := map_err session_error_from conn_read_datagram in
  match session_id s with
  | Some session_id =>
      let '(r, cursor) := VarInt.decode datagram in
      let* actual_id := map_err (fun _ => SEWebTransportError UnknownSession) (lift r) in
      if negb (bool_decide (actual_id = session_id)) then throw (SEWebTransportError UnknownSession)
      else ret (drop (Z.to_nat (len datagram - len cursor)) datagram)
  | None => ret datagram
  end.
Definition send_datagram (s : Session U) (data : bytes) : M C SessionError unit :=
  if negb (bool_decide (header_datagram s = [])) then
    map_err SESendDatagramError (conn_send_datagram (header_datagram s ++ data))
  else map_err SESendDatagramError (conn_send_datagram data).
Definition max_datagram_size (s : Session U) (conn : C) : Z :=
  let mtu := default 0 (conn_max_datagram_size conn) in
  Z.max 0 (mtu - len (header_datagram s)).

(** ** Closing *)
Definition close {Q} `{CloseQueue Q} `{QuicConn C} (s : Session U) (code : Z) (reason : bytes)
  : M (C * option Q) Empty_set unit := fun '(conn, close_tx) =>
  let close_now (tx : option Q) : outcome Empty_set unit * (C * option Q) :=
    (Ok (), (if bool_decide (is_Some (session_id s)) then close_connection code reason conn
             else conn_close code reason conn, tx)) in
  match close_tx with
  | Some tx =>
      match capsule_reason (take (Z.to_nat (Z.min (len reason) 1024)) reason) with
      | Ok cut =>
          let '(sent, tx) := try_send (MkCloseCommand code cut) tx in
          match sent with
          | Sent | QueueFull => (Ok (), (conn, Some tx))
          | QueueClosed => close_now (Some tx)
          end
      | Err x => match x with end
      | Panic => (Panic, (conn, Some tx))
      | OutOfFuel => (OutOfFuel, (conn, Some tx))
      end
  | None => close_now None
  end.
End Ops.
End Session.

(** ** The streams a peer opens *)
Module SessionAccept.
Section Accept.
Context `{Quinn} {SendS RecvS : Type} `{AsyncRead RecvS}.

Abbreviation unknown_session := (SEWebTransportError UnknownSession).

(** What is left of the stream is the state. *)
Definition decode_uni (expected_session : VarInt) : M RecvS SessionError UniStream :=
  let* typ := map_err (fun _ => unknown_session) VarInt.read in
  let typ := MkUniStream typ in
  if bool_decide (typ = UniStream.WEBTRANSPORT) then
    let* session_id := map_err (fun _ => unknown_session) VarInt.read in
    if negb (bool_decide (session_id = expected_session)) then throw unknown_session
    else ret typ
  else ret typ.

(** Whether the stream belongs to the session; [false] for one to ignore. *)
Definition decode_bi (expected_session : VarInt) : M RecvS SessionError bool :=
  let* typ := map_err (fun _ => unknown_session) VarInt.read in
  if negb (bool_decide (MkFrame typ = Frame.WEBTRANSPORT)) then ret false else
  let* session_id := map_err (fun _ => unknown_session) VarInt.read in
  if negb (bool_decide (session_id = expected_session)) then throw unknown_session
  else ret true.

Record State := MkState {
  acc_session_id : VarInt;
  qpack_encoder : option RecvS;
  qpack_decoder : option RecvS;
  pending_uni : list RecvS;
  pending_bi : list (SendS * RecvS)
}.
Definition new (session_id : VarInt) : State := MkState session_id None None [] [].

(** One turn of the loop: the connection has a new stream or an error; or it has
    none, and the [i]th pending header is read to its end; or none is. *)
Inductive answer (A : Type) := Arrived (r : A + ConnectionError) | Finished (i : nat) | NotReady.
#[global] Arguments Arrived {A}. #[global] Arguments Finished {A}. #[global] Arguments NotReady {A}.

(** [Poll::Pending] is [None]. *)
Fixpoint poll_accept_uni (answers : list (answer RecvS)) : M State SessionError (option RecvS) :=
  match answers with
  | [] => out_of_fuel
  | Arrived (inr e) :: _ => throw (session_error_from e)
  | Arrived (inl recv) :: answers => fun st =>
      poll_accept_uni answers
        (MkState (acc_session_id st) (qpack_encoder st) (qpack_decoder st) (pending_uni st ++ [recv]) (pending_bi st))
  | Finished i :: answers => fun st =>
      match pending_uni st !! i with
      | None => (Ok None, st)
      | Some recv =>
          let '(r, recv) := decode_uni (acc_session_id st) recv in
          let left := delete i (pending_uni st) in
          let st' := MkState (acc_session_id st) (qpack_encoder st) (qpack_decoder st) left (pending_bi st) in
          match r with
          | Ok typ =>
              if bool_decide (typ = UniStream.WEBTRANSPORT) then (Ok (Some recv), st')
              else if bool_decide (typ = UniStream.QPACK_DECODER) then
                poll_accept_uni answers
                  (MkState (acc_session_id st) (qpack_encoder st) (Some recv) left (pending_bi st))
              else if bool_decide (typ = UniStream.QPACK_ENCODER) then
                poll_accept_uni answers
                  (MkState (acc_session_id st) (Some recv) (qpack_decoder st) left (pending_bi st))
              else poll_accept_uni answers st'
          | Err _ => poll_accept_uni answers st'
          | Panic => (Panic, st')
          | OutOfFuel => (OutOfFuel, st')
          end
      end
  | NotReady :: _ => ret None
  end.

Fixpoint poll_accept_bi (answers : list (answer (SendS * RecvS))) : M State SessionError (option (SendS * RecvS)) :=
  match answers with
  | [] => out_of_fuel
  | Arrived (inr e) :: _ => throw (session_error_from e)
  | Arrived (inl streams) :: answers => fun st =>
      poll_accept_bi answers
        (MkState (acc_session_id st) (qpack_encoder st) (qpack_decoder st) (pending_uni st) (pending_bi st ++ [streams]))
  | Finished i :: answers => fun st =>
      match pending_bi st !! i with
      | None => (Ok None, st)
      | Some (send, recv) =>
          let '(r, recv) := decode_bi (acc_session_id st) recv in
          let st' := MkState (acc_session_id st) (qpack_encoder st) (qpack_decoder st) (pending_uni st)
            (delete i (pending_bi st)) in
          match r with
          | Ok true => (Ok (Some (send, recv)), st')
          | Ok false => poll_accept_bi answers st'
          | Err _ => poll_accept_bi answers st'
          | Panic => (Panic, st')
          | OutOfFuel => (OutOfFuel, st')
          end
      end
  | NotReady :: _ => ret None
  end.
End Accept.
End SessionAccept.

(** ** Headers *)
Definition uni_header (sid : VarInt) : bytes := varint_bytes (stream_type UniStream.WEBTRANSPORT) ++ varint_bytes sid.
Definition bi_header (sid : VarInt) : bytes := varint_bytes (frame_type Frame.WEBTRANSPORT) ++ varint_bytes sid.

Lemma new_session {U} sid (u : U) :
  varint_ok sid -> Session.new sid u = Ok (MkSession (Some sid) (uni_header sid) (bi_header sid) (varint_bytes sid) u).
Proof.
  intros Hs. unfold Session.new, Session.encode_into, UniStream.encode, Frame.encode.
  rewrite (bind_Ok (a:=()) (s':=varint_bytes (stream_type UniStream.WEBTRANSPORT))) by by rewrite encode_vec.
  rewrite encode_vec by done. cbn [obind].
  rewrite (bind_Ok (a:=()) (s':=varint_bytes (frame_type Frame.WEBTRANSPORT))) by by rewrite encode_vec.
  rewrite encode_vec by done. cbn [obind]. by rewrite encode_vec by done.
Qed.

Section Decode.
Context `{Quinn}.

(** A stream that begins with the type and the session identifier. *)
Definition begins (typ sid : VarInt) (l rest : bytes) : Prop :=
  exists l1, VarInt.decode l = (Ok typ, l1) /\ VarInt.decode l1 = (Ok sid, rest).
Lemma begins_header typ sid rest :
  varint_ok typ -> varint_ok sid -> begins typ sid (varint_bytes typ ++ varint_bytes sid ++ rest) rest.
Proof. intros. eexists. by split; apply decode_varint_bytes. Qed.

Lemma decode_uni_cases sid l e :
  is_bytes l ->
  (exists rest, begins (stream_type UniStream.WEBTRANSPORT) sid l rest /\
     SessionAccept.decode_uni sid (MkIncoming l e) = (Ok UniStream.WEBTRANSPORT, MkIncoming rest e)) \/
  ((forall rest, ~ begins (stream_type UniStream.WEBTRANSPORT) sid l rest) /\
   ((exists s, SessionAccept.decode_uni sid (MkIncoming l e) = (Err (SEWebTransportError UnknownSession), s)) \/
    exists t s, t <> UniStream.WEBTRANSPORT /\ SessionAccept.decode_uni sid (MkIncoming l e) = (Ok t, s))).
Proof.
  intros Hl. unfold SessionAccept.decode_uni, begins.
  destruct (decode_split l Hl) as [(l' & E & Er)|(t & p1 & l1 & -> & E1 & Ht & Hp1 & Hl1 & Er1)].
  { right. split; [intros rest (l1 & ? & _); congruence|]. left. eexists. by mstep (Er e). }
  mstep (Er1 e). cbv zeta. case_bool_decide as Hw.
  2: { right. split; [|right; by eexists _, _]. intros rest (l2 & ? & _). apply Hw.
    assert (t = stream_type UniStream.WEBTRANSPORT) as -> by congruence. reflexivity. }
  injection Hw as Hw. subst t.
  destruct (decode_split l1 Hl1) as [(l' & E & Er)|(s & p2 & l2 & -> & E2 & Hs & Hp2 & Hl2 & Er2)].
  { right. split; [intros rest (l2 & ? & ?); congruence|]. left. eexists. by mstep (Er e). }
  mstep (Er2 e). case_bool_decide as Hsid; cbn [negb].
  - subst. left. exists l2. split; [by eexists|done].
  - right. split; [intros rest (l3 & ? & ?); congruence|]. left. by eexists.
Qed.
Lemma decode_bi_cases sid l e :
  is_bytes l ->
  (exists rest, begins (frame_type Frame.WEBTRANSPORT) sid l rest /\
     SessionAccept.decode_bi sid (MkIncoming l e) = (Ok true, MkIncoming rest e)) \/
  ((forall rest, ~ begins (frame_type Frame.WEBTRANSPORT) sid l rest) /\
   ((exists s, SessionAccept.decode_bi sid (MkIncoming l e) = (Err (SEWebTransportError UnknownSession), s)) \/
    exists s, SessionAccept.decode_bi sid (MkIncoming l e) = (Ok false, s))).
Proof.
  intros Hl. unfold SessionAccept.decode_bi, begins.
  destruct (decode_split l Hl) as [(l' & E & Er)|(t & p1 & l1 & -> & E1 & Ht & Hp1 & Hl1 & Er1)].
  { right. split; [intros rest (l1 & ? & _); congruence|]. left. eexists. by mstep (Er e). }
  mstep (Er1 e). case_bool_decide as Hw; cbn [negb].
  2: { right. split; [|right; by eexists _]. intros rest (l2 & ? & _). apply Hw.
    assert (t = frame_type Frame.WEBTRANSPORT) as -> by congruence. reflexivity. }
  injection Hw as Hw. subst t.
  destruct (decode_split l1 Hl1) as [(l' & E & Er)|(s & p2 & l2 & -> & E2 & Hs & Hp2 & Hl2 & Er2)].
  { right. split; [intros rest (l2 & ? & ?); congruence|]. left. eexists. by mstep (Er e). }
  mstep (Er2 e). case_bool_decide as Hsid; cbn [negb].
  - subst. left. exists l2. split; [by eexists|done].
  - right. split; [intros rest (l3 & ? & ?); congruence|]. left. by eexists.
Qed.
End Decode.

(** ** The accept loop loses no stream *)
Section Conservation.
Context `{Quinn} {SendS : Type}.
Import SessionAccept.
Abbreviation Accepting := (State (SendS:=SendS) (RecvS:=Incoming)).

Definition arrivals {A} (answers : list (answer A)) : list A :=
  omap (fun a => match a with Arrived (inl s) => Some s | _ => None end) answers.
Definition stream_ok (s : Incoming) : Prop := is_bytes (in_bytes s).
Definition mine (typ sid : VarInt) (s : Incoming) : Prop := exists rest, begins typ sid (in_bytes s) rest.
(** What became of the streams that were pending and those that arrived: still
    pending, dropped although or because they are not of this session, or the one
    returned, read up to the end of its header. *)
Definition conserved {A B E} (typ sid : VarInt) (recv : A -> Incoming) (out : B -> Incoming) (before arrived after : list A)
    (result : outcome E (option B)) : Prop :=
  exists dropped, Forall (fun a => ~ mine typ sid (recv a)) dropped /\
  match result with
  | Ok (Some a') => exists a, before ++ arrived ≡ₚ a :: dropped ++ after /\
      begins typ sid (in_bytes (recv a)) (in_bytes (out a')) /\ in_end (recv a) = in_end (out a')
  | Panic => False
  | _ => before ++ arrived ≡ₚ dropped ++ after
  end.

Lemma conserved_drop {A B E} typ sid (recv : A -> Incoming) (out : B -> Incoming) before arrived after (r : outcome E (option B)) i a :
  before !! i = Some a -> ~ mine typ sid (recv a) ->
  conserved typ sid recv out (delete i before) arrived after r -> conserved typ sid recv out before arrived after r.
Proof.
  intros Hi Hm (dropped & Hd & Hr). pose proof (delete_Permutation before i a Hi) as Hp. exists (a :: dropped).
  split; [by constructor|]. destruct r as [[a'|]| | |]; try done.
  - destruct Hr as (b & Hr & Hb). exists b. split; [|done]. rewrite Hp. cbn [app]. rewrite Hr. apply Permutation_swap.
  - rewrite Hp. cbn [app]. by rewrite Hr.
  - rewrite Hp. cbn [app]. by rewrite Hr.
  - rewrite Hp. cbn [app]. by rewrite Hr.
Qed.
Lemma conserved_arrive {A B E} typ sid (recv : A -> Incoming) (out : B -> Incoming) before arrived after (r : outcome E (option B)) a :
  conserved typ sid recv out (before ++ [a]) arrived after r -> conserved typ sid recv out before (a :: arrived) after r.
Proof.
  unfold conserved. intros (dropped & Hd & Hr). exists dropped. split; [done|].
  replace (before ++ a :: arrived) with ((before ++ [a]) ++ arrived) by by rewrite <- app_assoc. exact Hr.
Qed.
Lemma conserved_none {A B E} typ sid (recv : A -> Incoming) (out : B -> Incoming) before (r : outcome E (option B)) :
  (r = Ok None \/ (exists e, r = Err e) \/ r = OutOfFuel) -> conserved typ sid recv out before [] before r.
Proof.
  intros Hr. exists []. split; [constructor|]. rewrite app_nil_r. destruct Hr as [-> | [[e ->] | ->]]; done.
Qed.

Lemma Forall_delete {A} (P : A -> Prop) l i : Forall P l -> Forall P (delete i l).
Proof. intros Hl. revert i. induction Hl; intros [|i]; cbn; try done; try constructor; auto. Qed.

Lemma poll_uni_conserves answers : forall st : Accepting,
  Forall stream_ok (pending_uni st) -> Forall stream_ok (arrivals answers) ->
  let '(r, st') := poll_accept_uni answers st in
  acc_session_id st' = acc_session_id st /\ pending_bi st' = pending_bi st /\
  exists used unused, answers = used ++ unused /\
    conserved (stream_type UniStream.WEBTRANSPORT) (acc_session_id st) id id (pending_uni st) (arrivals used) (pending_uni st') r.
Proof.
  induction answers as [|a answers IH]; intros st Hp Ha.
  { cbn. split_and!; try done. exists [], []. split; [done|]. apply conserved_none; auto. }
  destruct a as [[recv|e]|i|]; cbn [poll_accept_uni].
  - cbn in Ha. apply Forall_cons in Ha as [Hr Ha].
    match goal with |- context [poll_accept_uni answers ?s] => specialize (IH s) end.
    cbn [pending_uni acc_session_id pending_bi] in IH. specialize (IH ltac:(by apply Forall_app; split; [|constructor]) Ha).
    destruct (poll_accept_uni answers _) as [r st']. destruct IH as (? & ? & used & unused & -> & Hc).
    split; [done|]. split; [done|]. exists (Arrived (inl recv) :: used), unused. split; [done|]. cbn [arrivals omap list_omap].
    change (omap _ used) with (arrivals used). by apply conserved_arrive.
  - cbn. split_and!; try done. exists [Arrived (inr e)], answers. split; [done|]. apply conserved_none; eauto.
  - cbn in Ha. destruct (pending_uni st !! i) as [[l e]|] eqn:Ei.
    2: { split_and!; try done. exists [Finished i], answers. split; [done|]. apply conserved_none; auto. }
    assert (Hl : stream_ok (MkIncoming l e)) by exact (Forall_lookup_1 stream_ok _ _ _ Hp Ei). unfold stream_ok in Hl. cbn [in_bytes] in Hl.
    assert (Hdel : Forall stream_ok (delete i (pending_uni st))) by by apply Forall_delete.
    destruct (decode_uni_cases (acc_session_id st) l e Hl) as [(rest & Hb & ->)|[Hb Hcase]].
    + rewrite bool_decide_eq_true_2 by done. split_and!; try done. exists [Finished i], answers. split; [done|].
      exists []. split; [constructor|]. exists (MkIncoming l e). cbn [pending_uni app arrivals omap list_omap].
      rewrite app_nil_r. split; [by apply delete_Permutation|]. by split.
    + assert (Hnm : ~ mine (stream_type UniStream.WEBTRANSPORT) (acc_session_id st) (id (MkIncoming l e))).
      { intros (rest & Hrest). by apply (Hb rest). }
      assert (Hgo : forall st', pending_uni st' = delete i (pending_uni st) -> pending_bi st' = pending_bi st ->
        acc_session_id st' = acc_session_id st ->
        let '(r, st'') := poll_accept_uni answers st' in
        acc_session_id st'' = acc_session_id st /\ pending_bi st'' = pending_bi st /\
        exists used unused, Finished i :: answers = used ++ unused /\
          conserved (stream_type UniStream.WEBTRANSPORT) (acc_session_id st) id id (pending_uni st) (arrivals used) (pending_uni st'') r).
      { intros st' E1 E2 E3. specialize (IH st'). rewrite E1, E2, E3 in IH. specialize (IH Hdel Ha).
        destruct (poll_accept_uni answers st') as [r st'']. destruct IH as (? & ? & used & unused & -> & Hc).
        split; [done|]. split; [done|]. exists (Finished i :: used), unused. split; [done|].
        by apply (conserved_drop _ _ id id _ _ _ r i (MkIncoming l e)). }
      destruct Hcase as [(s & ->)|(t & s & Ht & ->)]; [by apply Hgo|].
      rewrite bool_decide_eq_false_2 by done. repeat case_bool_decide; by apply Hgo.
  - cbn. split_and!; try done. exists [NotReady], answers. split; [done|]. apply conserved_none; auto.
Qed.
Lemma poll_bi_conserves answers : forall st : Accepting,
  Forall (fun sr => stream_ok sr.2) (pending_bi st) -> Forall (fun sr => stream_ok sr.2) (arrivals answers) ->
  let '(r, st') := poll_accept_bi answers st in
  acc_session_id st' = acc_session_id st /\ pending_uni st' = pending_uni st /\
  exists used unused, answers = used ++ unused /\
    conserved (frame_type Frame.WEBTRANSPORT) (acc_session_id st) snd snd (pending_bi st) (arrivals used) (pending_bi st') r.
Proof.
  induction answers as [|a answers IH]; intros st Hp Ha.
  { cbn. split_and!; try done. exists [], []. split; [done|]. apply conserved_none; auto. }
  destruct a as [[streams|e]|i|]; cbn [poll_accept_bi].
  - cbn in Ha. apply Forall_cons in Ha as [Hr Ha].
    match goal with |- context [poll_accept_bi answers ?s] => specialize (IH s) end.
    cbn [pending_uni acc_session_id pending_bi] in IH. specialize (IH ltac:(by apply Forall_app; split; [|constructor]) Ha).
    destruct (poll_accept_bi answers _) as [r st']. destruct IH as (? & ? & used & unused & -> & Hc).
    split; [done|]. split; [done|]. exists (Arrived (inl streams) :: used), unused. split; [done|]. cbn [arrivals omap list_omap].
    change (omap _ used) with (arrivals used). by apply conserved_arrive.
  - cbn. split_and!; try done. exists [Arrived (inr e)], answers. split; [done|]. apply conserved_none; eauto.
  - cbn in Ha. destruct (pending_bi st !! i) as [[send [l e]]|] eqn:Ei.
    2: { split_and!; try done. exists [Finished i], answers. split; [done|]. apply conserved_none; auto. }
    assert (Hl : stream_ok (send, MkIncoming l e).2) by exact (Forall_lookup_1 (fun sr => stream_ok sr.2) _ _ _ Hp Ei).
    unfold stream_ok in Hl. cbn [in_bytes snd] in Hl.
    assert (Hdel : Forall (fun sr => stream_ok sr.2) (delete i (pending_bi st))) by by apply Forall_delete.
    destruct (decode_bi_cases (acc_session_id st) l e Hl) as [(rest & Hb & ->)|[Hb Hcase]].
    + split_and!; try done. exists [Finished i], answers. split; [done|].
      exists []. split; [constructor|]. exists (send, MkIncoming l e). cbn [pending_bi app arrivals omap list_omap].
      rewrite app_nil_r. split; [by apply delete_Permutation|]. by split.
    + assert (Hnm : ~ mine (frame_type Frame.WEBTRANSPORT) (acc_session_id st) (send, MkIncoming l e).2).
      { intros (rest & Hrest). by apply (Hb rest). }
      match goal with |- context [poll_accept_bi answers ?s] => specialize (IH s) end.
      cbn [pending_uni acc_session_id pending_bi] in IH. specialize (IH Hdel Ha).
      destruct Hcase as [(s & ->)|(s & ->)];
        (destruct (poll_accept_bi answers _) as [r st'']; destruct IH as (? & ? & used & unused & -> & Hc);
         split; [done|]; split; [done|]; exists (Finished i :: used), unused; split; [done|];
         by apply (conserved_drop _ _ snd snd _ _ _ r i (send, MkIncoming l e))).
  - cbn. split_and!; try done. exists [NotReady], answers. split; [done|]. apply conserved_none; auto.
Qed.
End Conservation.

(** ** Opening *)

(** A stream just opened holds nothing; changing its priority sends nothing;
    [write_all] sends all it is given when it succeeds. *)
Class QuinnOpenLaws `{Quinn} {C SendS RecvS} `{!QuinnSend SendS} `{!QuinnConnection C SendS RecvS}
    (sent : SendS -> bytes) : Prop := {
  open_uni_fresh conn : match conn_open_uni conn with (Ok send, _) => sent send = [] | _ => True end;
  open_bi_fresh conn : match conn_open_bi conn with (Ok (send, _), _) => sent send = [] | _ => True end;
  set_priority_keeps order s : sent (qs_set_priority order s).2 = sent s;
  write_all_sends l s : match qs_write_all l s with (Ok _, s') => sent s' = sent s ++ l | _ => True end
}.

Section Open.
Context `{Quinn} {C SendS RecvS : Type} `{!QuinnSend SendS} `{!QuinnConnection C SendS RecvS}
  (sent : SendS -> bytes) `{!QuinnOpenLaws sent}.

Lemma set_priority_ok_sent order s : sent (Session.set_priority_ok order s).2 = sent s.
Proof.
  unfold Session.set_priority_ok, SendStream.drop_err. pose proof (set_priority_keeps order s) as Hk.
  by destruct (qs_set_priority order s) as [[| | |] s'].
Qed.
Lemma write_header_sent header s s' :
  Session.write_header header s = (Ok (), s') -> sent s' = sent s ++ header.
Proof.
  unfold Session.write_header, Session.write_full, bind, map_err.
  pose proof (set_priority_ok_sent Session.I32_MAX s) as H1.
  destruct (Session.set_priority_ok Session.I32_MAX s) as [[[]| | |] s1]; try done. cbn [snd] in H1.
  pose proof (write_all_sends header s1) as H2. destruct (qs_write_all header s1) as [[[]| | |] s2]; try done.
  pose proof (set_priority_ok_sent 0 s2) as H3. destruct (Session.set_priority_ok 0 s2) as [[[]| | |] s3]; try done.
  cbn [snd] in H3. intros [= <-]. by rewrite H3, H2, H1.
Qed.
Lemma open_uni_sends {U} (s : Session U) conn conn' send :
  Session.open_uni s conn = (Ok send, conn') -> sent send = header_uni s.
Proof.
  unfold Session.open_uni, bind, map_err, lift, ret. pose proof (open_uni_fresh conn) as Hf.
  destruct (conn_open_uni conn) as [[s0| | |] c]; try done.
  destruct (Session.write_header (header_uni s) s0) as [[[]| | |] s1] eqn:E; try done.
  intros [= -> <-]. by rewrite (write_header_sent _ _ _ E), Hf.
Qed.
Lemma open_bi_sends {U} (s : Session U) conn conn' send recv :
  Session.open_bi s conn = (Ok (send, recv), conn') -> sent send = header_bi s.
Proof.
  unfold Session.open_bi, bind, map_err, lift, ret. pose proof (open_bi_fresh conn) as Hf.
  destruct (conn_open_bi conn) as [[[s0 r0]| | |] c]; try done.
  destruct (Session.write_header (header_bi s) s0) as [[[]| | |] s1] eqn:E; try done.
  intros [= -> <- <-]. by rewrite (write_header_sent _ _ _ E), Hf.
Qed.
End Open.

(** ** A sample connection: each stream opened is new, datagrams are kept. *)
Record SampleConn := MkSampleConn { sc_datagrams : list bytes; sc_incoming : list bytes }.
Definition sample_connection : QuinnConnection (H:=sample_quinn) SampleConn WStream RStream := {|
  conn_open_uni := ret (MkWStream [] 3);
  conn_open_bi := ret (MkWStream [] 3, MkRStream [] 3);
  conn_accept_uni := throw (None : @ConnectionError sample_quinn);
  conn_accept_bi := throw (None : @ConnectionError sample_quinn);
  conn_read_datagram c := match sc_incoming c with
    | d :: ds => (Ok d, MkSampleConn (sc_datagrams c) ds) | [] => (Err (None : @ConnectionError sample_quinn), c) end;
  conn_send_datagram d c := (Ok (), MkSampleConn (sc_datagrams c ++ [d]) (sc_incoming c));
  conn_max_datagram_size _ := Some 1200 |}.
Lemma sample_open_laws : QuinnOpenLaws (QuinnSend0:=sample_send) (QuinnConnection0:=sample_connection) ws_sent.
Proof. by split. Qed.

(** ** Properties *)

(** The header a session writes in front of a stream it opens is the one the
    peer expects: whatever is sent behind it, the peer takes the stream for a
    stream of that session, with exactly the data behind the header left to read;
    a peer of another session refuses it. *)
Theorem stream_headers_match `{Quinn} {C SendS RecvS U} `{!QuinnSend SendS} `{!QuinnConnection C SendS RecvS}
  (sent : SendS -> bytes) `{!QuinnOpenLaws sent} (sid : VarInt) (u : U) (Hsid : varint_ok sid) :
  exists s, Session.new sid u = Ok s /\
    (forall conn conn' send, Session.open_uni s conn = (Ok send, conn') ->
       forall data e, is_bytes data ->
         SessionAccept.decode_uni sid (MkIncoming (sent send ++ data) e) = (Ok UniStream.WEBTRANSPORT, MkIncoming data e) /\
         forall other, other <> sid ->
           (SessionAccept.decode_uni other (MkIncoming (sent send ++ data) e)).1 = Err (SEWebTransportError UnknownSession)) /\
    (forall conn conn' send recv, Session.open_bi s conn = (Ok (send, recv), conn') ->
       forall data e, is_bytes data ->
         SessionAccept.decode_bi sid (MkIncoming (sent send ++ data) e) = (Ok true, MkIncoming data e) /\
         forall other, other <> sid ->
           (SessionAccept.decode_bi other (MkIncoming (sent send ++ data) e)).1 = Err (SEWebTransportError UnknownSession)).
Proof.
  eexists. split; [by apply new_session|].
  assert (Hw : varint_ok (stream_type UniStream.WEBTRANSPORT) /\ varint_ok (frame_type Frame.WEBTRANSPORT)) by (split; by vm_compute).
  destruct Hw as [Hwu Hwb]. split.
  - intros conn conn' send Ho data e Hd. rewrite (open_uni_sends sent _ _ _ _ Ho). cbn [header_uni]. unfold uni_header.
    rewrite <- app_assoc. unfold SessionAccept.decode_uni.
    pose proof (read_varint_bytes _ (varint_bytes sid ++ data) e Hwu ltac:(apply is_bytes_app; auto with wt)) as E1.
    pose proof (read_varint_bytes sid data e Hsid Hd) as E2. split.
    + mstep E1. cbv zeta. rewrite bool_decide_eq_true_2 by done. mstep E2. by rewrite bool_decide_eq_true_2.
    + intros other Hne. mstep E1. cbv zeta. rewrite bool_decide_eq_true_2 by done. mstep E2.
      by rewrite bool_decide_eq_false_2 by congruence.
  - intros conn conn' send recv Ho data e Hd. rewrite (open_bi_sends sent _ _ _ _ _ Ho). cbn [header_bi]. unfold bi_header.
    rewrite <- app_assoc. unfold SessionAccept.decode_bi.
    pose proof (read_varint_bytes _ (varint_bytes sid ++ data) e Hwb ltac:(apply is_bytes_app; auto with wt)) as E1.
    pose proof (read_varint_bytes sid data e Hsid Hd) as E2. split.
    + mstep E1. rewrite bool_decide_eq_true_2 by done. cbn [negb]. mstep E2. by rewrite bool_decide_eq_true_2.
    + intros other Hne. mstep E1. rewrite bool_decide_eq_true_2 by done. cbn [negb]. mstep E2.
      by rewrite bool_decide_eq_false_2 by congruence.
Qed.
Lemma stream_headers_match_witness :
  exists s, Session.new (MkVarInt 4) (lit "https://a/") = Ok s /\
    forall conn conn' send, Session.open_uni (QuinnSend0:=sample_send) (QuinnConnection0:=sample_connection) s conn = (Ok send, conn') ->
       forall data e, is_bytes data ->
         SessionAccept.decode_uni (H:=sample_quinn) (MkVarInt 4) (MkIncoming (ws_sent send ++ data) e) = (Ok UniStream.WEBTRANSPORT, MkIncoming data e).
Proof.
  destruct (stream_headers_match (H:=sample_quinn) (QuinnSend0:=sample_send) (QuinnConnection0:=sample_connection) ws_sent
    (QuinnOpenLaws0:=sample_open_laws) (MkVarInt 4) (lit "https://a/") ltac:(by_eval)) as (s & Hs & Hu & _).
  exists s. split; [exact Hs|]. intros conn conn' send Ho data e Hd. exact (proj1 (Hu conn conn' send Ho data e Hd)).
Defined.

(** The accept loops lose no stream, in whatever order streams arrive and
    headers are read to their end.  A stream a poll returns is one that was pending
    or had arrived, begins with the type and identifier of the session, and has
    exactly its header consumed; of the others, none that begins with that header
    is dropped: they are still pending, and what an error ends leaves the rest for
    the next poll. *)
Theorem accept_loses_nothing `{Quinn} {SendS : Type} (st : SessionAccept.State (SendS:=SendS) (RecvS:=Incoming)) :
  (forall answers, Forall stream_ok (SessionAccept.pending_uni st) -> Forall stream_ok (arrivals answers) ->
     let '(r, st') := SessionAccept.poll_accept_uni answers st in
     SessionAccept.acc_session_id st' = SessionAccept.acc_session_id st /\
     SessionAccept.pending_bi st' = SessionAccept.pending_bi st /\
     exists used unused, answers = used ++ unused /\
       conserved (stream_type UniStream.WEBTRANSPORT) (SessionAccept.acc_session_id st) id id
         (SessionAccept.pending_uni st) (arrivals used) (SessionAccept.pending_uni st') r) /\
  (forall answers, Forall (fun sr => stream_ok sr.2) (SessionAccept.pending_bi st) ->
     Forall (fun sr => stream_ok sr.2) (arrivals answers) ->
     let '(r, st') := SessionAccept.poll_accept_bi answers st in
     SessionAccept.acc_session_id st' = SessionAccept.acc_session_id st /\
     SessionAccept.pending_uni st' = SessionAccept.pending_uni st /\
     exists used unused, answers = used ++ unused /\
       conserved (frame_type Frame.WEBTRANSPORT) (SessionAccept.acc_session_id st) snd snd
         (SessionAccept.pending_bi st) (arrivals used) (SessionAccept.pending_bi st') r).
Proof. split; intros answers Hp Ha; [by apply poll_uni_conserves|by apply poll_bi_conserves]. Qed.

(** C34: datagrams of a session carry its identifier.  Sending puts it in front of
    the data; receiving takes it off and gives the data back, refuses a datagram of
    another session or without an identifier, and never panics; and data within a
    positive [max_datagram_size] fits the transport's limit with its header, and
    data that does not is above it. *)
Theorem datagram_roundtrip `{Platform} `{Quinn} {C SendS RecvS U} `{!QuinnSend SendS} `{!QuinnConnection C SendS RecvS}
  (sid : VarInt) (u : U) (Hsid : varint_ok sid) :
  exists s, Session.new sid u = Ok s /\
    (forall data conn, Session.send_datagram s data conn = map_err SESendDatagramError (conn_send_datagram (varint_bytes sid ++ data)) conn) /\
    (forall data conn conn', conn_read_datagram conn = (Ok (varint_bytes sid ++ data), conn') ->
       Session.read_datagram s conn = (Ok data, conn')) /\
    (forall d conn conn', is_bytes d -> conn_read_datagram conn = (Ok d, conn') ->
       match Session.read_datagram s conn with
       | (Ok data, _) => exists pre, d = pre ++ data /\ VarInt.decode d = (Ok sid, data)
       | (Err e, _) => e = SEWebTransportError UnknownSession /\ forall data, VarInt.decode d <> (Ok sid, data)
       | _ => False
       end) /\
    (forall conn mtu data, conn_max_datagram_size conn = Some mtu ->
       (0 < Session.max_datagram_size s conn -> len data <= Session.max_datagram_size s conn ->
          len (varint_bytes sid ++ data) <= mtu) /\
       (len (varint_bytes sid ++ data) <= mtu -> len data <= Session.max_datagram_size s conn)).
Proof.
  eexists. split; [by apply new_session|]. split; [|split; [|split]].
  - intros data conn. unfold Session.send_datagram. cbn [header_datagram]. pose proof (len_varint_bytes sid Hsid) as Hl.
    rewrite bool_decide_eq_false_2; [done|]. intros E. rewrite E, len_nil in Hl. repeat case_match; lia.
  - intros data conn conn' Hr. unfold Session.read_datagram, map_err, bind. rewrite Hr. cbn [session_id].
    rewrite decode_varint_bytes by done. unfold lift. rewrite bool_decide_eq_true_2 by done. cbn [negb ret].
    rewrite len_app. replace (len (varint_bytes sid) + len data - len data) with (len (varint_bytes sid)) by lia.
    unfold ret. by rewrite drop_app_length' by (unfold len; lia).
  - intros d conn conn' Hd Hr. unfold Session.read_datagram, map_err, bind. rewrite Hr. cbn [session_id].
    destruct (decode_split d Hd) as [(l' & E & _)|(v & pre & rest & -> & E & _)]; rewrite E; unfold lift, ret.
    { split; [done|]. intros data Hdata. congruence. }
    case_bool_decide as Hv; cbn [negb].
    + subst v. rewrite len_app. replace (len pre + len rest - len rest) with (len pre) by lia.
      rewrite drop_app_length' by (unfold len; lia). by exists pre.
    + split; [done|]. intros data Hdata. congruence.
  - intros conn mtu data Hm. unfold Session.max_datagram_size. rewrite Hm. change (default 0 (Some mtu)) with mtu. cbv zeta. cbn [header_datagram].
    rewrite len_app. pose_len. lia.
Qed.
Lemma datagram_roundtrip_witness :
  exists s, Session.new (MkVarInt 4) (lit "https://a/") = Ok s /\
    forall data conn conn', conn_read_datagram (QuinnConnection:=sample_connection) conn = (Ok (varint_bytes (MkVarInt 4) ++ data), conn') ->
       Session.read_datagram (QuinnConnection0:=sample_connection) s conn = (Ok data, conn').
Proof.
  destruct (datagram_roundtrip (H:=Platform64) (H0:=sample_quinn) (QuinnSend0:=sample_send) (QuinnConnection0:=sample_connection)
    (MkVarInt 4) (lit "https://a/") ltac:(by_eval)) as (s & Hs & _ & Hr & _).
  exists s. split; [exact Hs|exact Hr].
Defined.
