(* ===== verification/QuinnHandshake.v ===== *)
(** * The HTTP/3 handshake and the server (webtrans-quinn/src: connect.rs,
    settings.rs, server.rs)

    The SETTINGS exchange, the CONNECT exchange of both sides, the server's
    admission of handshakes, and the life of a request until it is answered. *)
From S2P Require Import Prelude Buf Varint Frame Settings PrefixInt Qpack Connect QuinnStreams QuinnCapsules QuinnSession.

(** The two status codes the server names. *)
Class HttpStatus `{HttpLib} := {
  status_eq_dec :: EqDecision StatusCode;
  STATUS_OK : StatusCode;
  STATUS_INTERNAL_SERVER_ERROR : StatusCode
}.

Section Errors.
Context `{Quinn} `{UrlLib} `{HttpLib}.
Inductive QConnectError :=
| QCUnexpectedEnd
| QCProtoError (e : ConnectError)
| QCConnectionError (e : ConnectionError)
| QCReadError (e : quinn_ReadError)
| QCWriteError (e : quinn_WriteError)
| QCErrorStatus (s : StatusCode).
Inductive QSettingsError :=
| QSUnexpectedEnd
| QSProtoError (e : SettingsError)
| QSWebTransportUnsupported
| QSConnectionError (e : ConnectionError)
| QSReadError (e : quinn_ReadError)
| QSWriteError (e : quinn_WriteError).
Inductive ServerError :=
| RequestAlreadyCompleted
| SVUnexpectedEnd
| SVConnection (e : ConnectionError)
| HandshakeTimeout
| SVWriteError (e : quinn_WriteError)
| SVReadError (e : quinn_ReadError)
| SVSettingsError (e : QSettingsError)
| SVConnectError (e : QConnectError)
| SVIoError (e : io_error)
| SVInvalidCryptoConfiguration
| SVRustls (e : rustls_Error).
(** [X] is Quinn's error of an attempt that did not start. *)
Inductive ClientError (X : Type) :=
| CLUnexpectedEnd
| CLConnection (e : ConnectionError)
| CLWriteError (e : quinn_WriteError)
| CLReadError (e : quinn_ReadError)
| CLSettingsError (e : QSettingsError)
| CLHttpError (e : QConnectError)
| CLQuinnError (e : X)
| InvalidDnsName (name : bytes)
| InvalidUrl (message : bytes)
| DnsTimeout
| CLHandshakeTimeout
| CLIo (e : io_error)
| CLInvalidCryptoConfiguration
| CLRustls (e : rustls_Error).
#[global] Arguments CLUnexpectedEnd {X}. #[global] Arguments CLConnection {X}. #[global] Arguments CLWriteError {X}.
#[global] Arguments CLReadError {X}. #[global] Arguments CLSettingsError {X}. #[global] Arguments CLHttpError {X}.
#[global] Arguments CLQuinnError {X}. #[global] Arguments InvalidDnsName {X}. #[global] Arguments InvalidUrl {X}.
#[global] Arguments DnsTimeout {X}. #[global] Arguments CLHandshakeTimeout {X}. #[global] Arguments CLIo {X}.
#[global] Arguments CLInvalidCryptoConfiguration {X}. #[global] Arguments CLRustls {X}.
End Errors.

Record Connect `{UrlLib} (SendS RecvS : Type) := MkConnect {
  connect_request : ConnectRequest; connect_send : SendS; connect_recv : RecvS }.
Arguments MkConnect {_ SendS RecvS}. Arguments connect_request {_ SendS RecvS}.
Arguments connect_send {_ SendS RecvS}. Arguments connect_recv {_ SendS RecvS}.

(** A future that runs beside another: what it does up to its next suspension,
    and how it goes on. *)
Inductive thread (S E A : Type) : Type :=
| Resolved (a : A)
| Await {X : Type} (m : M S E X) (k : X -> thread S E A).
Arguments Resolved {S E A} a.
Arguments Await {S E A X} m k.
Notation "'let&' p ':=' m 'in' k" := (Await m (fun p => k))
  (at level 10, p as pattern, m at level 100, k at level 200) : wt_scope.
Fixpoint run_thread {S E A} (t : thread S E A) : M S E A :=
  match t with
  | Resolved a => ret a
  | Await m k => let* x := m in run_thread (k x)
  end.

(** One poll that goes on to the next suspension. *)
Definition poll_thread {S E A} (t : thread S E A) : M S E (thread S E A) :=
  match t with
  | Resolved a => ret (Resolved a)
  | Await m k => let* x := m in ret (k x)
  end.

(** [try_join!]: the steps of the two futures in the order in which they turn out
    able to go on ([true] is the first; once the list is over, the first runs to
    its end, and then the second); a result when both have one, and the first error
    at once, where the other future is dropped with what it has done. *)
Fixpoint try_join {S E A B} (order : list bool) (a : thread S E A) (b : thread S E B) : M S E (A * B) :=
  match order with
  | [] => let* x := run_thread a in let* y := run_thread b in ret (x, y)
  | true :: order => let* a := poll_thread a in try_join order a b
  | false :: order => let* b := poll_thread b in try_join order a b
  end.

(** Two futures whose steps keep an invariant reach their ends in any order. *)
Section TryJoin.
Context {S E A B : Type} (I : thread S E A -> thread S E B -> S -> Prop).
Hypothesis step_left : forall a b s, I a b s -> exists a' s', poll_thread a s = (Ok a', s') /\ I a' b s'.
Hypothesis step_right : forall a b s, I a b s -> exists b' s', poll_thread b s = (Ok b', s') /\ I a b' s'.
Lemma poll_Ok {Y X} (m : M S E X) (k : X -> thread S E Y) s t s' :
  poll_thread (Await m k) s = (Ok t, s') -> exists x, m s = (Ok x, s') /\ t = k x.
Proof. cbn. unfold bind. destruct (m s) as [[x| | |] s1]; intros [= <- <-]. by exists x. Qed.
Lemma run_left b a : forall s, I a b s -> exists x s', run_thread a s = (Ok x, s') /\ I (Resolved x) b s'.
Proof.
  induction a as [x|X m k IH]; intros s Hs; [by exists x, s|].
  destruct (step_left _ _ _ Hs) as (a' & s' & (x & Hm & ->)%poll_Ok & Hs'). destruct (IH x s' Hs') as (y & t & Hy & Ht).
  exists y, t. cbn [run_thread]. unfold bind. by rewrite Hm.
Qed.
Lemma run_right a b : forall s, I a b s -> exists y s', run_thread b s = (Ok y, s') /\ I a (Resolved y) s'.
Proof.
  induction b as [y|X m k IH]; intros s Hs; [by exists y, s|].
  destruct (step_right _ _ _ Hs) as (b' & s' & (x & Hm & ->)%poll_Ok & Hs'). destruct (IH x s' Hs') as (y & t & Hy & Ht).
  exists y, t. cbn [run_thread]. unfold bind. by rewrite Hm.
Qed.
Lemma try_join_completes order : forall a b s, I a b s ->
  exists x y s', try_join order a b s = (Ok (x, y), s') /\ I (Resolved x) (Resolved y) s'.
Proof.
  induction order as [|[|] order IH]; intros a b s Hs; cbn [try_join]; unfold bind.
  - destruct (run_left b a s Hs) as (x & s1 & Hx & H1). destruct (run_right _ b s1 H1) as (y & s2 & Hy & H2).
    exists x, y, s2. by rewrite Hx, Hy.
  - destruct (step_left _ _ _ Hs) as (a' & s' & -> & Hs'). by apply IH.
  - destruct (step_right _ _ _ Hs) as (b' & s' & -> & Hs'). by apply IH.
Qed.
End TryJoin.

Section Handshake.
Context `{Platform} `{Quinn} `{UrlLib} `{HttpLib} `{!HttpStatus} `{!HashMapIter bytes bytes} `{!HashMapIter Setting VarInt}.
Context {C SendS RecvS : Type} `{!QuinnSend SendS} `{!QuinnConnection C SendS RecvS} `{AsyncRead RecvS} `{AsyncWrite SendS}.
Abbreviation Connection := (Connect SendS RecvS).

(** ** connect.rs *)
Definition Connect_accept (fuel : nat) : M C QConnectError Connection :=
  let* (send, recv) := map_err QCConnectionError conn_accept_bi in
  let '(r, recv) := request_read fuel recv in
  let* request := map_err QCProtoError (lift r) in
  ret (MkConnect request send recv).

Definition Connect_on_send {E A} (m : M SendS E A) : M Connection E A := fun c =>
  let '(r, send) := m (connect_send c) in (r, MkConnect (connect_request c) send (connect_recv c)).
Definition Connect_respond (status : StatusCode) : M Connection QConnectError unit :=
  Connect_on_send (map_err QCProtoError (response_write (MkConnectResponse status))).
(** The result of [stopped] is dropped. *)
Definition Connect_reject (status : StatusCode) : M Connection QConnectError unit :=
  Connect_respond status ;;;
  Connect_on_send (map_err (fun _ => QCUnexpectedEnd) qs_finish) ;;;
  (fun c =>
     let '(r, c) := Connect_on_send qs_stopped c in
     (match r with Panic => Panic | OutOfFuel => OutOfFuel | _ => Ok () end, c)).

Definition Connect_open (fuel : nat) (url : Url) : M C QConnectError Connection :=
  let* (send, recv) := map_err QCConnectionError conn_open_bi in
  let request := MkConnectRequest url in
  let '(r, send) := request_write request send in
  map_err QCProtoError (lift r) ;;;
  let '(r, recv) := response_read fuel recv in
  let* response := map_err QCProtoError (lift r) in
  if negb (bool_decide (response_status response = STATUS_OK))
  then throw (QCErrorStatus (response_status response))
  else ret (MkConnect request send recv).

Definition Connect_url (c : Connection) : Url := request_url (connect_request c).
Definition Connect_into_inner (c : Connection) : SendS * RecvS := (connect_send c, connect_recv c).

(** ** settings.rs *)
Record QSettings := MkQSettings { settings_send : SendS; settings_recv : RecvS }.
(** Each of the two halves waits for the connection, then for its own stream. *)
Definition Settings_accept (fuel : nat) (peer_is_server : bool) : thread C QSettingsError RecvS :=
  let& recv := map_err QSConnectionError conn_accept_uni in
  let& recv :=
    let '(r, recv) := Settings.read fuel recv in
    let* settings := map_err QSProtoError (lift r) in
    let supported :=
      if peer_is_server then Settings.supports_webtransport_server settings
      else Settings.supports_webtransport_client settings in
    if negb supported then throw QSWebTransportUnsupported else ret recv in
  Resolved recv.
Definition Settings_open : thread C QSettingsError SendS :=
  let settings := Settings.enable_webtransport 1 ∅ in
  let& send := map_err QSConnectionError conn_open_uni in
  let& send :=
    let '(r, send) := Settings.write settings send in
    map_err QSProtoError (lift r) ;;;
    ret send in
  Resolved send.
Definition Settings_connect (fuel : nat) (order : list bool) (peer_is_server : bool) : M C QSettingsError QSettings :=
  let* (recv, send) := try_join order (Settings_accept fuel peer_is_server) Settings_open in
  ret (MkQSettings send recv).

(** [Session::connect] of the client, up to [Session::new]. *)
Definition session_connect {X} (fuel : nat) (order : list bool) (url : Url)
  : M C (ClientError X) (QSettings * Connection) :=
  let* settings := map_err CLSettingsError (Settings_connect fuel order true) in
  let* connect := map_err CLHttpError (Connect_open fuel url) in
  ret (settings, connect).

(** ** server.rs: a request *)
Record Request := MkRequest {
  rq_conn : option C; rq_settings : option QSettings; rq_connect : option Connection; rq_url : Url }.

Definition Request_accept (fuel : nat) (order : list bool) (conn : C) : outcome ServerError Request :=
  let '(r, conn) := map_err SVSettingsError (Settings_connect fuel order false) conn in
  let? settings := r in
  let '(r, conn) := map_err SVConnectError (Connect_accept fuel) conn in
  let? connect := r in
  Ok (MkRequest (Some conn) (Some settings) (Some connect) (Connect_url connect)).

(** [self.connect.take()] and the like. *)
Definition Request_without_connect (r : Request) : Request := MkRequest (rq_conn r) (rq_settings r) None (rq_url r).
(** What is handed to [Session::new], what is left of the request for its
    [drop], and the CONNECT stream after the response. *)
Definition Request_ok (self : Request)
  : outcome ServerError (C * QSettings * Connection) * Request * option Connection :=
  match rq_connect self with
  | None => (Err RequestAlreadyCompleted, self, None)
  | Some connect =>
      let self := Request_without_connect self in
      let '(r, connect) := Connect_respond STATUS_OK connect in
      match r with
      | Ok _ =>
          match rq_conn self, rq_settings self with
          | None, _ => (Err RequestAlreadyCompleted, self, Some connect)
          | Some conn, None => (Err RequestAlreadyCompleted, MkRequest None None None (rq_url self), Some connect)
          | Some conn, Some settings => (Ok (conn, settings, connect), MkRequest None None None (rq_url self), Some connect)
          end
      | Err e => (Err (SVConnectError e), self, Some connect)
      | Panic => (Panic, self, Some connect)
      | OutOfFuel => (OutOfFuel, self, Some connect)
      end
  end.
Definition Request_close (status : StatusCode) (self : Request) : outcome ServerError unit * Request * option Connection :=
  match rq_connect self with
  | None => (Err RequestAlreadyCompleted, self, None)
  | Some connect =>
      let self := Request_without_connect self in
      let '(r, connect) := Connect_reject status connect in
      (match r with Ok _ => Ok () | Err e => Err (SVConnectError e) | Panic => Panic | OutOfFuel => OutOfFuel end,
       self, Some connect)
  end.
(** [Drop]: the CONNECT stream after the automatic rejection, if there was one to
    make; outside a runtime nothing can be sent. *)
Definition Request_drop (in_runtime : bool) (self : Request) : option Connection :=
  match rq_connect self with
  | None => None
  | Some connect =>
      if in_runtime then Some (snd (Connect_reject STATUS_INTERNAL_SERVER_ERROR connect)) else Some connect
  end.

(** ** server.rs: admission *)

(** A handshake in flight, with its time limit, if any. *)
Record Server (K : Type) := MkServer { sv_accept : list (K * option Z); handshake_timeout : option Z; max_pending_handshakes : Z }.
#[global] Arguments MkServer {K}. #[global] Arguments sv_accept {K}. #[global] Arguments handshake_timeout {K}.
#[global] Arguments max_pending_handshakes {K}.

(** What a poll of [select!] may find ready: an incoming connection or the end of
    the endpoint; or the [i]th handshake, done in time or cut by its limit. *)
Inductive ready (K : Type) :=
| EndpointReady (conn : option K)
| HandshakeDone (i : nat) (r : outcome ServerError Request)
| HandshakeLate (i : nat).
#[global] Arguments EndpointReady {K}. #[global] Arguments HandshakeDone {K}. #[global] Arguments HandshakeLate {K}.

Definition Server_new {K} : Server K := MkServer [] None usize_max.
Definition Server_with_accept_limits {K} (handshake_timeout : option Z) (max_pending_handshakes : Z) : Server K :=
  MkServer [] handshake_timeout max_pending_handshakes.

(** One branch of the loop; [None] when the branch is disabled or not ready, and
    another is waited for.  [select!] panics when every branch is disabled. *)
Definition Server_admission_open {K} (s : Server K) : bool := len (sv_accept s) <? max_pending_handshakes s.
Definition Server_forget {K} (i : nat) (s : Server K) : Server K :=
  MkServer (delete i (sv_accept s)) (handshake_timeout s) (max_pending_handshakes s).
Fixpoint Server_accept {K} (events : list (ready K)) : M (Server K) Empty_set (option (outcome ServerError Request)) :=
  match events with
  | [] => out_of_fuel
  | ev :: events => fun s =>
      if negb (Server_admission_open s) && bool_decide (sv_accept s = []) then (Panic, s) else
      match ev with
      | EndpointReady res =>
          if Server_admission_open s then
            match res with
            | None => (Ok None, s)
            | Some conn =>
                Server_accept events (MkServer (sv_accept s ++ [(conn, handshake_timeout s)])
                  (handshake_timeout s) (max_pending_handshakes s))
            end
          else Server_accept events s
      | HandshakeDone i r =>
          match sv_accept s !! i with
          | Some _ => (Ok (Some r), Server_forget i s)
          | None => Server_accept events s
          end
      | HandshakeLate i =>
          match sv_accept s !! i with
          | Some (_, Some _) => (Ok (Some (Err HandshakeTimeout)), Server_forget i s)
          | _ => Server_accept events s
          end
      end
  end.
End Handshake.

(** ** The two sides of the CONNECT exchange *)

(** An open stream can be finished once, and [stopped] comes to an end. *)
Class QuinnFinishes `{Quinn} `{!QuinnSend Outgoing} : Prop := {
  finish_works (s : Outgoing) : qs_finish s = (Ok (), s);
  stopped_works (s : Outgoing) : completes (qs_stopped s).1 /\ (qs_stopped s).2 = s
}.

Section Exchange.
Context `{Platform} `{Quinn} `{UrlLib} `{HttpLib} `{!HttpStatus} `{!UrlLaws} `{!HttpLaws} `{!HashMapIter bytes bytes}.
Context `{!HashMapIter Setting VarInt}.

Definition request_bytes (u : Url) : bytes := (request_encode (E:=ConnectError) (MkConnectRequest u) []).2.
Definition response_bytes (c : StatusCode) : bytes := (response_encode (E:=ConnectError) (MkConnectResponse c) []).2.

Lemma request_write_out u out :
  session_url u -> request_write (MkConnectRequest u) (MkOutgoing out None) = (Ok (), MkOutgoing (out ++ request_bytes u) None).
Proof.
  intros Hu. destruct (request_encodes u Hu) as (bs & He & _). unfold request_write, request_bytes.
  by rewrite He.
Qed.
Lemma response_write_out c out :
  response_write (MkConnectResponse c) (MkOutgoing out None) = (Ok (), MkOutgoing (out ++ response_bytes c) None).
Proof.
  destruct (response_encodes c) as (bs & He & _). unfold response_write, response_bytes. by rewrite He.
Qed.
Lemma request_read_back u rest e fuel :
  session_url u -> is_bytes rest -> (0 < fuel)%nat ->
  request_read fuel (MkIncoming (request_bytes u ++ rest) e) = (Ok (MkConnectRequest u), MkIncoming rest e).
Proof.
  intros Hu Hr Hf. destruct (request_encodes u Hu) as (bs & He & _ & Hread). unfold request_bytes. rewrite He. cbn [snd app].
  exact (Hread [] rest e fuel (List.Forall_nil _) Hr Hf).
Qed.
Lemma response_read_back c rest e fuel :
  is_bytes rest -> (0 < fuel)%nat ->
  response_read fuel (MkIncoming (response_bytes c ++ rest) e) = (Ok (MkConnectResponse c), MkIncoming rest e).
Proof.
  intros Hr Hf. destruct (response_encodes c) as (bs & He & _ & Hread). unfold response_bytes. rewrite He. cbn [snd app].
  exact (Hread [] rest e fuel (List.Forall_nil _) Hr Hf).
Qed.

Context {C : Type} `{!QuinnSend Outgoing} `{!QuinnConnection C Outgoing Incoming}.
Abbreviation Conn := (Connect Outgoing Incoming).

Lemma respond_out st r out recv :
  Connect_respond st (MkConnect r (MkOutgoing out None) recv : Conn)
  = (Ok (), MkConnect r (MkOutgoing (out ++ response_bytes st) None) recv).
Proof. unfold Connect_respond, Connect_on_send, map_err. cbn [connect_send]. by rewrite response_write_out. Qed.

Context `{!QuinnFinishes}.
Lemma reject_out st r out recv :
  Connect_reject st (MkConnect r (MkOutgoing out None) recv : Conn)
  = (Ok (), MkConnect r (MkOutgoing (out ++ response_bytes st) None) recv).
Proof.
  unfold Connect_reject, bind. rewrite respond_out. unfold Connect_on_send, map_err. cbn [connect_send].
  rewrite finish_works. cbn [connect_send connect_recv connect_request].
  pose proof (stopped_works (MkOutgoing (out ++ response_bytes st) None)) as [Hc Hs].
  destruct (qs_stopped _) as [o s]. cbn [fst snd] in *. subst s.
  destruct (completes_cases o Hc) as [[a ->]|[e ->]]; done.
Qed.
End Exchange.

(** ** The SETTINGS exchange *)
Section Offer.
Context `{Platform} `{!HashMapIter Setting VarInt}.

(** What [Settings::open] sends. *)
Definition offered : Settings := Settings.enable_webtransport 1 ∅.
Lemma offered_encodable : encodable offered.
Proof. split; [apply (bool_decide_unpack _); vm_compute; exact I|by vm_compute]. Qed.
Lemma offered_booleans : booleans_ok offered.
Proof. apply (bool_decide_unpack _). vm_compute. exact I. Qed.
Lemma offered_kept : filter kept offered = offered.
Proof. apply map_filter_id. apply (bool_decide_unpack _). vm_compute. exact I. Qed.
Lemma offered_payload_bound : len (payload_of offered) <= 112.
Proof.
  pose proof (len_entries_bound _ (hm_iter_entries _ offered_encodable)) as Hb. unfold len at 2 in Hb.
  rewrite hm_iter_length in Hb. exact Hb.
Qed.

Lemma offer_written out :
  Settings.write offered (MkOutgoing out None) = (Ok (), MkOutgoing (out ++ settings_bytes offered) None).
Proof.
  unfold Settings.write. rewrite (settings_encoded_len _ offered_encodable). cbn [never]. unfold lift, bind.
  by rewrite (settings_encode_vec offered [] offered_encodable).
Qed.
Lemma offer_read rest e fuel :
  is_bytes rest -> (0 < fuel)%nat ->
  Settings.read fuel (MkIncoming (settings_bytes offered ++ rest) e) = (Ok offered, MkIncoming rest e).
Proof.
  intros Hr Hf. pose proof offered_payload_bound as Hb. pose proof offered_encodable as He.
  unfold settings_bytes. rewrite <- app_assoc.
  assert (Hfr : is_bytes (frame_bytes Frame.SETTINGS (payload_of offered) ++ rest)).
  { apply is_bytes_app. split; [|done]. apply frame_bytes_is_bytes;
      [apply settings_frame_ok|by apply settings_payload_ok|by apply payload_is_bytes]. }
  rewrite settings_read_decode_control by (by apply read_varint_bytes; [apply control_ok|]).
  destruct fuel as [|fuel]; [lia|]. unfold Settings.read_loop.
  rewrite bounded_read_frame;
    [|apply settings_frame_ok|by apply settings_payload_ok|unfold MAX_SETTINGS_FRAME_SIZE; lia|by apply payload_is_bytes|done].
  change (Frame.is_grease Frame.SETTINGS) with false. cbv iota.
  rewrite finish_frame_control;
    [|apply settings_frame_ok|by apply settings_payload_ok|done|by apply payload_is_bytes|unfold MAX_SETTINGS_FRAME_SIZE; lia].
  rewrite bool_decide_eq_true_2 by done. rewrite decode_payload_of by (done || apply offered_booleans).
  cbn [fst]. by rewrite offered_kept.
Qed.
End Offer.

(** ** Admission *)
Section Admission.
Context `{Quinn} `{UrlLib} `{HttpLib} {C SendS RecvS K : Type}.
Abbreviation Ready := (ready (C:=C) (SendS:=SendS) (RecvS:=RecvS) K).

Definition bounded (s : Server K) : Prop := 1 <= max_pending_handshakes s /\ len (sv_accept s) <= max_pending_handshakes s.
Definition arrived (events : list Ready) : list K :=
  omap (fun ev => match ev with EndpointReady (Some k) => Some k | _ => None end) events.

(** The handshakes pending after [events], none of which ended the call: those of
    before, and one for each connection that arrived while there was room for it,
    in their order and with the server's limit. *)
Definition room (s : Server K) : nat := Z.to_nat (max_pending_handshakes s - len (sv_accept s)).
Definition pending_after (s : Server K) (events : list Ready) : list (K * option Z) :=
  sv_accept s ++ ((fun k => (k, handshake_timeout s)) <$> take (room s) (arrived events)).
(** What ends a call while [pending] is in flight, with its result and what it
    leaves pending: the end of the endpoint when there is room for a connection, a
    pending handshake that is done, with its own result, or one that has a limit
    and passed it. *)
Definition ends_call (max : Z) (pending : list (K * option Z)) (ev : Ready)
  : option (option (outcome ServerError Request) * list (K * option Z)) :=
  match ev with
  | EndpointReady None => if decide (len pending < max) then Some (None, pending) else None
  | EndpointReady (Some _) => None
  | HandshakeDone i r => if decide (i < length pending)%nat then Some (Some r, delete i pending) else None
  | HandshakeLate i =>
      match pending !! i with
      | Some (_, Some _) => Some (Some (Err HandshakeTimeout), delete i pending)
      | _ => None
      end
  end.
(** The first event that ends the call does, with the state it leaves. *)
Definition admission_run (events : list Ready) (s : Server K)
    (o : outcome Empty_set (option (outcome ServerError Request)) * Server K) : Prop :=
  exists used unused, events = used ++ unused /\
    (forall before ev after, used = before ++ ev :: after ->
       ends_call (max_pending_handshakes s) (pending_after s before) ev = None) /\
    match unused with
    | [] => o = (OutOfFuel, MkServer (pending_after s used) (handshake_timeout s) (max_pending_handshakes s))
    | ev :: _ => exists r rest, ends_call (max_pending_handshakes s) (pending_after s used) ev = Some (r, rest) /\
        o = (Ok r, MkServer rest (handshake_timeout s) (max_pending_handshakes s))
    end.

Lemma pending_after_nil s : pending_after s [] = sv_accept s.
Proof. unfold pending_after. cbn. by rewrite take_nil, app_nil_r. Qed.
Lemma server_eta (s : Server K) : s = MkServer (sv_accept s) (handshake_timeout s) (max_pending_handshakes s).
Proof. by destruct s. Qed.
(** A call that its first event ends. *)
Lemma admission_run_stop ev events s r rest :
  ends_call (max_pending_handshakes s) (sv_accept s) ev = Some (r, rest) ->
  admission_run (ev :: events) s (Ok r, MkServer rest (handshake_timeout s) (max_pending_handshakes s)).
Proof.
  intros He. exists [], (ev :: events). split; [done|]. split; [by intros [|? ?] ? ?|].
  rewrite pending_after_nil. by exists r, rest.
Qed.
(** An event after which the server is [t]. *)
Lemma admission_run_next ev events s t o :
  ends_call (max_pending_handshakes s) (sv_accept s) ev = None ->
  handshake_timeout t = handshake_timeout s -> max_pending_handshakes t = max_pending_handshakes s ->
  (forall l, pending_after t l = pending_after s (ev :: l)) ->
  admission_run events t o -> admission_run (ev :: events) s o.
Proof.
  intros Hev Ht Hm Hp (used & unused & -> & Hno & Ho). exists (ev :: used), unused. split; [done|]. split.
  - intros [|ev' before] ev1 after [= <- Hu]; [by rewrite pending_after_nil|]. rewrite <- Hp, <- Hm. by apply (Hno before ev1 after).
  - rewrite Ht, Hm, Hp in Ho. exact Ho.
Qed.
Lemma pending_after_skip ev s : match ev with EndpointReady (Some _) => room s = O | _ => True end ->
  forall l, pending_after s l = pending_after s (ev :: l).
Proof.
  intros Hev l. unfold pending_after, arrived. destruct ev as [[k|]| |]; cbn [omap list_omap]; try done. by rewrite Hev.
Qed.
Lemma pending_after_admit k s : (room s <> 0)%nat ->
  forall l, pending_after (MkServer (sv_accept s ++ [(k, handshake_timeout s)]) (handshake_timeout s) (max_pending_handshakes s)) l
    = pending_after s (EndpointReady (Some k) :: l).
Proof.
  intros Hr l. unfold pending_after, arrived. cbn [omap list_omap sv_accept handshake_timeout]. unfold room in *.
  cbn [sv_accept max_pending_handshakes]. rewrite len_app, len_cons, len_nil.
  destruct (Z.to_nat (max_pending_handshakes s - len (sv_accept s))) as [|n] eqn:E; [done|].
  replace (Z.to_nat (max_pending_handshakes s - (len (sv_accept s) + (1 + 0)))) with n by lia.
  cbn [take fmap list_fmap]. by rewrite <- app_assoc.
Qed.

Lemma server_accept_run events : forall s,
  bounded s -> admission_run events s (Server_accept (events : list Ready) s).
Proof.
  induction events as [|ev events IH]; intros s Hb.
  { exists [], []. split; [done|]. split; [by intros [|? ?] ? ?|]. rewrite pending_after_nil, <- server_eta. done. }
  cbn [Server_accept]. unfold Server_admission_open.
  assert (Hopen : negb (len (sv_accept s) <? max_pending_handshakes s) && bool_decide (sv_accept s = []) = false).
  { destruct Hb as [Hm _]. destruct (Z.ltb_spec (len (sv_accept s)) (max_pending_handshakes s)) as [|Hge]; [done|].
    apply bool_decide_eq_false. intros E. rewrite E, len_nil in Hge. lia. }
  rewrite Hopen. pose proof (IH s Hb) as Hskip.
  destruct ev as [res|i r|i].
  - destruct (Z.ltb_spec (len (sv_accept s)) (max_pending_handshakes s)) as [Hlt|Hge].
    + destruct res as [k|].
      * apply (admission_run_next _ _ s
          (MkServer (sv_accept s ++ [(k, handshake_timeout s)]) (handshake_timeout s) (max_pending_handshakes s)));
          [done..|apply pending_after_admit; unfold room; lia|].
        apply IH. destruct Hb as [Hm _]. split; cbn; [done|]. rewrite len_app, len_cons, len_nil. lia.
      * pose proof (admission_run_stop (EndpointReady None) events s None (sv_accept s)) as Hend.
        rewrite <- server_eta in Hend. apply Hend. cbn. by rewrite decide_True.
    + apply (admission_run_next _ _ s s); [|done|done| |done].
      * destruct res as [k|]; [done|]. cbn. by rewrite decide_False by lia.
      * apply pending_after_skip. destruct res; [unfold room; lia|done].
  - destruct (sv_accept s !! i) as [k|] eqn:Hi.
    + apply admission_run_stop. cbn. rewrite decide_True; [done|]. by eapply lookup_lt_Some.
    + apply (admission_run_next _ _ s s); [|done|done|by apply pending_after_skip|done].
      cbn. rewrite decide_False; [done|]. apply lookup_ge_None in Hi. lia.
  - destruct (sv_accept s !! i) as [[k [t|]]|] eqn:Hi.
    1: apply admission_run_stop; cbn; by rewrite Hi.
    all: apply (admission_run_next _ _ s s); [|done|done|by apply pending_after_skip|done]; cbn; by rewrite Hi.
Qed.
Lemma len_pending_after s l : bounded s -> len (pending_after s l) <= max_pending_handshakes s.
Proof.
  intros [_ Hb]. unfold pending_after. rewrite len_app. unfold len at 2. rewrite length_fmap, length_take. unfold room. lia.
Qed.
Lemma ends_call_len max pending ev r rest : ends_call max pending ev = Some (r, rest) -> len rest <= len pending.
Proof.
  assert (Hd : forall i, len (delete i pending) <= len pending).
  { intros i. pose proof (sublist_length _ _ (sublist_delete pending i)). unfold len. lia. }
  destruct ev as [[k|]|i o|i]; cbn; repeat case_decide; repeat case_match; intros; simplify_eq; auto; lia.
Qed.
Lemma server_accept_bounded events s :
  bounded s ->
  let '(r, s') := Server_accept (events : list Ready) s in
  r <> Panic /\ bounded s' /\ max_pending_handshakes s' = max_pending_handshakes s /\
  handshake_timeout s' = handshake_timeout s.
Proof.
  intros Hb. destruct (server_accept_run events s Hb) as (used & unused & -> & _ & Ho).
  pose proof (len_pending_after s used Hb) as Hl. destruct (Server_accept _ s) as [r s'], unused as [|ev unused].
  - injection Ho as -> ->. split; [done|]. split; [split; [apply Hb|exact Hl]|done].
  - destruct Ho as (x & rest & He%ends_call_len & [= -> ->]). split; [done|]. split; [split; [apply Hb|cbn; lia]|done].
Qed.
End Admission.

(** ** A connection on which nothing fails

    [in_uni] and [in_bi] are the receive sides of the streams the peer will be
    seen to open, and of those it answers on, in order. *)
Class QuinnWorks `{Quinn} {C} `{!QuinnConnection C Outgoing Incoming} (in_uni in_bi : C -> list Incoming) : Prop := {
  open_uni_works c : exists c', conn_open_uni c = (Ok (MkOutgoing [] None), c') /\ in_uni c' = in_uni c /\ in_bi c' = in_bi c;
  accept_uni_works c s ss : in_uni c = s :: ss ->
    exists c', conn_accept_uni c = (Ok s, c') /\ in_uni c' = ss /\ in_bi c' = in_bi c;
  open_bi_works c s ss : in_bi c = s :: ss ->
    exists c', conn_open_bi c = (Ok (MkOutgoing [] None, s), c') /\ in_uni c' = in_uni c /\ in_bi c' = ss;
  accept_bi_works c s ss : in_bi c = s :: ss ->
    exists c', conn_accept_bi c = (Ok (MkOutgoing [] None, s), c') /\ in_uni c' = in_uni c /\ in_bi c' = ss
}.

Section Established.
Context `{Platform} `{Quinn} `{UrlLib} `{HttpLib} `{!HttpStatus} `{!UrlLaws} `{!HttpLaws} `{!HashMapIter bytes bytes}.
Context `{!HashMapIter Setting VarInt} {C : Type} `{!QuinnConnection C Outgoing Incoming}.
Context (in_uni in_bi : C -> list Incoming) `{!QuinnWorks in_uni in_bi}.

(** How far the two halves of the SETTINGS exchange may be. *)
Definition exchanging (fuel : nat) (peer_is_server : bool) (c0 : C) (rest : bytes) (e : io_error)
  (a : thread C QSettingsError Incoming) (b : thread C QSettingsError Outgoing) (c : C) : Prop :=
  let recv := MkIncoming rest e in let send := MkOutgoing (settings_bytes offered) None in
  in_bi c = in_bi c0 /\
  ((a = Settings_accept fuel peer_is_server /\ in_uni c = [MkIncoming (settings_bytes offered ++ rest) e]) \/
   (in_uni c = [] /\ ((exists m, a = Await m Resolved /\ forall d, m d = (Ok recv, d)) \/ a = Resolved recv))) /\
  (b = Settings_open \/ (exists m, b = Await m Resolved /\ forall d, m d = (Ok send, d)) \/ b = Resolved send).

Lemma exchanging_accept fuel peer_is_server c0 rest e : is_bytes rest -> (0 < fuel)%nat ->
  forall a b c, exchanging fuel peer_is_server c0 rest e a b c ->
  exists a' c', poll_thread a c = (Ok a', c') /\ exchanging fuel peer_is_server c0 rest e a' b c'.
Proof.
  intros Hr Hf a b c (Hbi & [[-> Hc]|[Hc [(m & -> & Hm)| ->]]] & Hb).
  - destruct (accept_uni_works c _ _ Hc) as (d & Hacc & Hu & Hd). eexists _, d. cbn. unfold bind, map_err at 1.
    rewrite Hacc. split; [done|]. split; [congruence|]. split; [|done]. right. split; [done|]. left.
    eexists. split; [done|]. intros d'. rewrite offer_read by done. by destruct peer_is_server.
  - eexists _, c. cbn. unfold bind. rewrite Hm. split; [done|]. split; [done|]. split; [|done]. by auto.
  - eexists _, c. split; [done|]. split; [done|]. split; [|done]. by auto.
Qed.
Lemma exchanging_open fuel peer_is_server c0 rest e a b c : exchanging fuel peer_is_server c0 rest e a b c ->
  exists b' c', poll_thread b c = (Ok b', c') /\ exchanging fuel peer_is_server c0 rest e a b' c'.
Proof.
  intros (Hbi & Ha & [->|[(m & -> & Hm)| ->]]).
  - destruct (open_uni_works c) as (d & Hop & Hu & Hd). eexists _, d. cbn. unfold bind, map_err at 1. rewrite Hop.
    split; [done|]. unfold exchanging. rewrite Hu, Hd. split; [done|]. split; [done|]. right. left.
    eexists. split; [done|]. intros d'. change (Settings.enable_webtransport 1 ∅) with offered. by rewrite offer_written.
  - eexists _, c. cbn. unfold bind. rewrite Hm. split; [done|]. split; [done|]. split; [done|]. by auto.
  - eexists _, c. split; [done|]. split; [done|]. split; [done|]. by auto.
Qed.

Lemma settings_connect_offered fuel order peer_is_server c rest e :
  in_uni c = [MkIncoming (settings_bytes offered ++ rest) e] -> is_bytes rest -> (0 < fuel)%nat ->
  exists c', Settings_connect fuel order peer_is_server c
    = (Ok (MkQSettings (MkOutgoing (settings_bytes offered) None) (MkIncoming rest e)), c') /\
    in_uni c' = [] /\ in_bi c' = in_bi c.
Proof.
  intros Hc Hr Hf.
  destruct (try_join_completes (exchanging fuel peer_is_server c rest e)
    (exchanging_accept fuel peer_is_server c rest e Hr Hf) (exchanging_open fuel peer_is_server c rest e) order
    (Settings_accept fuel peer_is_server) Settings_open c) as (x & y & c' & E & Hb & Hx & Hy).
  { split; [done|]. split; [by left|by left]. }
  exists c'. unfold Settings_connect, bind. rewrite E.
  destruct Hx as [[Hx _]|[Hu [(m & Hx & _)|[= ->]]]]; [done..|].
  by destruct Hy as [Hy|[(m & Hy & _)|[= ->]]].
Qed.

Lemma connect_accept_request fuel c u rest e :
  session_url u -> in_bi c = [MkIncoming (request_bytes u ++ rest) e] -> is_bytes rest -> (0 < fuel)%nat ->
  exists c', Connect_accept fuel c = (Ok (MkConnect (MkConnectRequest u) (MkOutgoing [] None) (MkIncoming rest e)), c').
Proof.
  intros Hu Hc Hr Hf. destruct (accept_bi_works c _ _ Hc) as (c' & Hacc & _). exists c'.
  unfold Connect_accept, map_err, bind. by rewrite Hacc, request_read_back.
Qed.

Lemma connect_open_response fuel c u st rest e :
  session_url u -> in_bi c = [MkIncoming (response_bytes st ++ rest) e] -> is_bytes rest -> (0 < fuel)%nat ->
  exists c', Connect_open fuel u c =
    (if decide (st = STATUS_OK)
     then Ok (MkConnect (MkConnectRequest u) (MkOutgoing (request_bytes u) None) (MkIncoming rest e))
     else Err (QCErrorStatus st), c').
Proof.
  intros Hu Hc Hr Hf. destruct (open_bi_works c _ _ Hc) as (c' & Hop & _). exists c'.
  unfold Connect_open, map_err, bind. rewrite Hop, request_write_out by done. cbn [lift].
  rewrite response_read_back by done. cbn [lift response_status].
  destruct (decide (st = STATUS_OK)); [by rewrite bool_decide_eq_true_2|by rewrite bool_decide_eq_false_2].
Qed.

Lemma session_connect_response {X} fuel order c u st r1 r2 e :
  session_url u -> is_bytes r1 -> is_bytes r2 -> (0 < fuel)%nat ->
  in_uni c = [MkIncoming (settings_bytes offered ++ r1) e] -> in_bi c = [MkIncoming (response_bytes st ++ r2) e] ->
  exists c', session_connect (X:=X) fuel order u c =
    (if decide (st = STATUS_OK)
     then Ok (MkQSettings (MkOutgoing (settings_bytes offered) None) (MkIncoming r1 e),
              MkConnect (MkConnectRequest u) (MkOutgoing (request_bytes u) None) (MkIncoming r2 e))
     else Err (CLHttpError (QCErrorStatus st)), c').
Proof.
  intros Hu R1 R2 Hf Hcu Hcb.
  destruct (settings_connect_offered fuel order true c r1 e Hcu R1 Hf) as (c1 & E1 & _ & Hb1). rewrite Hcb in Hb1.
  destruct (connect_open_response fuel c1 u st r2 e Hu Hb1 R2 Hf) as (c2 & E2). exists c2.
  unfold session_connect, map_err, bind. rewrite E1, E2. by destruct (decide (st = STATUS_OK)).
Qed.
End Established.

(** ** Samples *)
#[local] Instance sample_status_eq_dec : EqDecision sample_status.
Proof.
  intros [i Hi] [j Hj]. destruct (decide (i = j)) as [->|Hne]; [left; f_equal; apply proof_irrel|right; congruence].
Defined.
Definition sample_http_status : @HttpStatus sample_http_lib :=
  Build_HttpStatus sample_http_lib sample_status_eq_dec status_200 (SampleStatus 400 eq_refl).
Definition status_403 : @StatusCode sample_http_lib := SampleStatus 303 eq_refl.

(** The streams a connection is about to see. *)
Record Pending := MkPending { pd_uni : list Incoming; pd_bi : list Incoming }.
Definition pending_connection : QuinnConnection (H:=sample_quinn) Pending Outgoing Incoming := {|
  conn_open_uni := ret (MkOutgoing [] None);
  conn_open_bi c := match pd_bi c with
    | s :: ss => (Ok (MkOutgoing [] None, s), MkPending (pd_uni c) ss) | [] => (Err (None : @ConnectionError sample_quinn), c) end;
  conn_accept_uni c := match pd_uni c with
    | s :: ss => (Ok s, MkPending ss (pd_bi c)) | [] => (Err (None : @ConnectionError sample_quinn), c) end;
  conn_accept_bi c := match pd_bi c with
    | s :: ss => (Ok (MkOutgoing [] None, s), MkPending (pd_uni c) ss) | [] => (Err (None : @ConnectionError sample_quinn), c) end;
  conn_read_datagram := throw (None : @ConnectionError sample_quinn);
  conn_send_datagram _ := ret ();
  conn_max_datagram_size _ := None |}.
Lemma pending_works : QuinnWorks (QuinnConnection0:=pending_connection) pd_uni pd_bi.
Proof. split; [intros c; by exists c|intros [u b] s ss; cbn; intros ->; by eexists..]. Qed.
Definition outgoing_send : QuinnSend (H:=sample_quinn) Outgoing := {|
  qs_reset _ := ret (); qs_stopped := ret None;
  qs_write l w := (Ok (len l), MkOutgoing (out_bytes w ++ l) (out_fail w));
  qs_write_all l w := (Ok (), MkOutgoing (out_bytes w ++ l) (out_fail w));
  qs_write_chunk l w := (Ok (), MkOutgoing (out_bytes w ++ l) (out_fail w));
  qs_write_chunks ls w := (Ok (len (concat ls), []), MkOutgoing (out_bytes w ++ concat ls) (out_fail w));
  qs_write_all_chunks ls w := (Ok [], MkOutgoing (out_bytes w ++ concat ls) (out_fail w));
  qs_finish := ret (); qs_set_priority _ := ret (); qs_priority := ret 0; qs_id _ := 0 |}.
Lemma outgoing_finishes : QuinnFinishes (QuinnSend0:=outgoing_send).
Proof. split; [done|]. intros s. split; [apply completes_Ok|done]. Qed.

(** ** Properties *)

(** C1: the handshake, for an https URL without user information or fragment, of at
    most 64,000 bytes of authority and path ([session_url]; the client checks all
    but the length before it connects, [Session::connect] by itself does not).  On connections that work, with each side seeing what the other
    sends (and anything after it), with the two halves of the SETTINGS exchange
    interleaved in any order: the server gets a request for exactly the URL the
    client asked for; and answered with a status, the client gets a session if it is
    200, and otherwise an error with that status.  The bytes each side sends are the
    bytes the other is assumed to see. *)
Theorem session_established `{Platform} `{Quinn} `{UrlLib} `{HttpLib} `{!HttpStatus} `{!UrlLaws} `{!HttpLaws}
  `{!HashMapIter bytes bytes} `{!HashMapIter Setting VarInt} {C X : Type} `{!QuinnConnection C Outgoing Incoming}
  (in_uni in_bi : C -> list Incoming) `{!QuinnWorks in_uni in_bi}
  (u : Url) (st : StatusCode) (client server : C) (fuel : nat) (b1 b2 : list bool) (r1 r2 r3 r4 : bytes) (e : io_error)
  (Hu : session_url u) (Hfuel : (0 < fuel)%nat) (Hr : Forall is_bytes [r1; r2; r3; r4])
  (Hcu : in_uni client = [MkIncoming (settings_bytes offered ++ r1) e])
  (Hcb : in_bi client = [MkIncoming (response_bytes st ++ r2) e])
  (Hsu : in_uni server = [MkIncoming (settings_bytes offered ++ r3) e])
  (Hsb : in_bi server = [MkIncoming (request_bytes u ++ r4) e]) :
  (exists conn settings connect,
     Request_accept fuel b2 server = Ok (MkRequest (Some conn) (Some settings) (Some connect) u) /\
     settings_send settings = MkOutgoing (settings_bytes offered) None /\
     connect = MkConnect (MkConnectRequest u) (MkOutgoing [] None) (MkIncoming r4 e) /\
     Connect_respond st connect
     = (Ok (), MkConnect (MkConnectRequest u) (MkOutgoing (response_bytes st) None) (MkIncoming r4 e))) /\
  match session_connect (X:=X) fuel b1 u client with
  | (Ok (settings, connect), _) =>
      st = STATUS_OK /\ settings = MkQSettings (MkOutgoing (settings_bytes offered) None) (MkIncoming r1 e) /\
      connect = MkConnect (MkConnectRequest u) (MkOutgoing (request_bytes u) None) (MkIncoming r2 e)
  | (Err x, _) => st <> STATUS_OK /\ x = CLHttpError (QCErrorStatus st)
  | _ => False
  end.
Proof.
  apply Forall_cons in Hr as [R1 Hr]. apply Forall_cons in Hr as [R2 Hr]. apply Forall_cons in Hr as [R3 Hr].
  apply Forall_cons in Hr as [R4 _]. split.
  - destruct (settings_connect_offered in_uni in_bi fuel b2 false server r3 e Hsu R3 Hfuel) as (c1 & E1 & _ & Hb1).
    rewrite Hsb in Hb1. destruct (connect_accept_request in_uni in_bi fuel c1 u r4 e Hu Hb1 R4 Hfuel) as (c2 & E2).
    eexists c2, _, _. unfold Request_accept, map_err. rewrite E1. cbn [obind]. rewrite E2. cbn [obind].
    split; [done|]. split; [done|]. split; [done|]. exact (respond_out st _ [] _).
  - destruct (session_connect_response (X:=X) in_uni in_bi fuel b1 client u st r1 r2 e Hu R1 R2 Hfuel Hcu Hcb) as (c & ->).
    by destruct (decide (st = STATUS_OK)).
Qed.

Lemma session_established_witness :
  let e := IoError UnexpectedEof [] in
  let order := hm_iter_rev bytes bytes in let settings_order := hm_iter_rev Setting VarInt in
  let offer := settings_bytes (HashMapIter0:=settings_order) offered in
  let client := MkPending [MkIncoming (offer ++ []) e]
    [MkIncoming (response_bytes (H:=Platform64) (H1:=sample_url_lib) (H2:=sample_http_lib) (HashMapIter0:=order) status_403 ++ [1]) e] in
  let server := MkPending [MkIncoming (offer ++ []) e]
    [MkIncoming (request_bytes (H:=Platform64) (H1:=sample_url_lib) (H2:=sample_http_lib) sample_chat ++ []) e] in
  match session_connect (X:=unit) (H:=Platform64) (H0:=sample_quinn) (H1:=sample_url_lib) (H2:=sample_http_lib) (H3:=sample_http_status)
    (HashMapIter0:=order) (HashMapIter1:=settings_order) (QuinnConnection0:=pending_connection) 1 [true; false] sample_chat client with
  | (Ok _, _) => False
  | (Err x, _) => x = CLHttpError (QCErrorStatus status_403)
  | _ => False
  end.
Proof.
  intros e order settings_order offer client server.
  pose proof (session_established (X:=unit) (H:=Platform64) (H0:=sample_quinn) (H1:=sample_url_lib) (H2:=sample_http_lib)
    (H3:=sample_http_status) (H4:=sample_url_laws) (H5:=sample_http_laws)
    (HashMapIter0:=order) (HashMapIter1:=settings_order) (QuinnConnection0:=pending_connection)
    pd_uni pd_bi (QuinnWorks0:=pending_works) sample_chat status_403 client server 1 [true; false] [false; true] [] [1] [] [] e
    ltac:(split_and!; first [reflexivity|by_eval]) ltac:(lia) ltac:(by_eval) eq_refl eq_refl eq_refl eq_refl) as [_ Hw].
  destruct (session_connect _ _ _ _) as [[[s c]|x| |] w]; try exact Hw.
  - destruct Hw as [Hw _]. discriminate Hw.
  - exact (proj2 Hw).
Defined.

(** C25: a request is answered once.  What is written to the CONNECT stream of a
    request is exactly one response: 200 when it is accepted, the caller's status
    when it is refused, 500 when it is dropped unanswered in a runtime; nothing
    when it is dropped after an answer, whether or not that answer could be sent,
    or outside a runtime; and an answered request cannot be answered again. *)
Theorem request_answered_once `{Platform} `{Quinn} `{UrlLib} `{HttpLib} `{!HttpStatus} `{!UrlLaws} `{!HttpLaws}
  `{!HashMapIter bytes bytes} `{!QuinnSend Outgoing} `{!QuinnFinishes} {C : Type}
  (conn : C) (settings : QSettings (SendS:=Outgoing) (RecvS:=Incoming)) (q : ConnectRequest) (recv : Incoming) (u : Url) :
  let connect out := MkConnect q (MkOutgoing out None) recv in
  let request := MkRequest (Some conn) (Some settings) (Some (connect [])) u in
  (let '(r, rest, sent) := Request_ok request in
   r = Ok (conn, settings, connect (response_bytes STATUS_OK)) /\ sent = Some (connect (response_bytes STATUS_OK)) /\
   rq_connect rest = None) /\
  (forall st, let '(r, rest, sent) := Request_close st request in
   r = Ok () /\ sent = Some (connect (response_bytes st)) /\ rq_connect rest = None) /\
  Request_drop true request = Some (connect (response_bytes STATUS_INTERNAL_SERVER_ERROR)) /\
  Request_drop false request = Some (connect []) /\
  (forall (r : Request (C:=C) (SendS:=Outgoing) (RecvS:=Incoming)) st, rq_connect (Request_ok r).1.2 = None /\ rq_connect (Request_close st r).1.2 = None) /\
  (forall (r : Request (C:=C) (SendS:=Outgoing) (RecvS:=Incoming)) st in_runtime, rq_connect r = None ->
   Request_drop in_runtime r = None /\ Request_ok r = (Err RequestAlreadyCompleted, r, None) /\
   Request_close st r = (Err RequestAlreadyCompleted, r, None)).
Proof.
  intros connect request. subst connect request. split; [|split; [|split; [|split; [|split]]]].
  - unfold Request_ok. cbn [rq_connect Request_without_connect rq_conn rq_settings rq_url]. by rewrite respond_out.
  - intros st. unfold Request_close. cbn [rq_connect Request_without_connect rq_conn rq_settings rq_url]. by rewrite reject_out.
  - unfold Request_drop. cbn [rq_connect]. by rewrite reject_out.
  - done.
  - intros [c s [k|] v] st; unfold Request_ok, Request_close; cbn [rq_connect Request_without_connect rq_conn rq_settings rq_url].
    + destruct (Connect_respond STATUS_OK k) as [[[]| | |] ?], (Connect_reject st k) as [? ?]; split; try done.
      by destruct c, s.
    + done.
  - intros r st b Hr. unfold Request_drop, Request_ok, Request_close. by rewrite Hr.
Qed.

Lemma request_answered_once_witness :
  let order := hm_iter_rev bytes bytes in
  let incoming := MkIncoming [] (IoError UnexpectedEof []) in
  let settings := MkQSettings (MkOutgoing [] None) incoming in
  let request := MkRequest (Some tt) (Some settings)
    (Some (MkConnect (MkConnectRequest (H:=sample_url_lib) sample_chat) (MkOutgoing [] None) incoming)) sample_chat in
  Request_drop (H:=Platform64) (H0:=sample_quinn) (H1:=sample_url_lib) (H2:=sample_http_lib) (H3:=sample_http_status)
    (HashMapIter0:=order) (QuinnSend0:=outgoing_send) true request
  = Some (MkConnect (MkConnectRequest (H:=sample_url_lib) sample_chat) (MkOutgoing (response_bytes (H:=Platform64) (H1:=sample_url_lib)
      (H2:=sample_http_lib) (HashMapIter0:=order) (SampleStatus 400 eq_refl)) None) incoming).
Proof.
  intros order incoming settings request.
  exact (proj1 (proj2 (proj2 (request_answered_once (H:=Platform64) (H0:=sample_quinn) (H1:=sample_url_lib) (H2:=sample_http_lib)
    (H3:=sample_http_status) (H4:=sample_url_laws) (H5:=sample_http_laws) (HashMapIter0:=order)
    (QuinnSend0:=outgoing_send) (H6:=outgoing_finishes) tt settings (MkConnectRequest (H:=sample_url_lib) sample_chat) incoming sample_chat)))).
Defined.

(** C22: admission.  With a positive bound on pending handshakes, and whatever
    becomes ready in whatever order, [accept] never panics and never has more
    handshakes pending than the bound.  What it does is determined by the events
    ([admission_run]): a connection is admitted exactly when it arrives while there
    is room for it, with the server's time limit, and in order; the call ends with
    the first event that may end it, which is a pending handshake that is done
    (it leaves, and its own result is returned), a pending handshake that has a
    limit and passed it (it leaves, with [HandshakeTimeout]), or the end of the
    endpoint while there is room (none leaves); every other handshake stays. *)
Theorem server_admission `{Quinn} `{UrlLib} `{HttpLib} {C SendS RecvS K : Type}
  (events : list (ready (C:=C) (SendS:=SendS) (RecvS:=RecvS) K)) (s : Server K) (Hs : bounded s) :
  admission_run events s (Server_accept events s) /\
  let '(r, s') := Server_accept events s in
  r <> Panic /\ bounded s' /\ max_pending_handshakes s' = max_pending_handshakes s /\
  handshake_timeout s' = handshake_timeout s.
Proof. split; [by apply server_accept_run|by apply server_accept_bounded]. Qed.
Lemma server_admission_witness :
  let s : Server nat := MkServer [] (Some 10) 1 in
  let r := Server_accept (H0:=sample_quinn) (H1:=sample_url_lib) (H2:=sample_http_lib) (C:=Pending) (SendS:=Outgoing) (RecvS:=Incoming)
    [EndpointReady (Some 1%nat); EndpointReady (Some 2%nat); HandshakeLate 0; EndpointReady (Some 3%nat)] s in
  r = (Ok (Some (Err HandshakeTimeout)), s) /\
  admission_run (H:=sample_quinn) (H0:=sample_url_lib) (C:=Pending) (SendS:=Outgoing) (RecvS:=Incoming)
    [EndpointReady (Some 1%nat); EndpointReady (Some 2%nat); HandshakeLate 0; EndpointReady (Some 3%nat)] s r /\
  r.1 <> Panic /\ bounded r.2.
Proof.
  intros s r. split; [reflexivity|].
  pose proof (server_admission (H:=sample_quinn) (H0:=sample_url_lib) (H1:=sample_http_lib) (C:=Pending) (SendS:=Outgoing) (RecvS:=Incoming)
    [EndpointReady (Some 1%nat); EndpointReady (Some 2%nat); HandshakeLate 0; EndpointReady (Some 3%nat)] s
    ltac:(by_eval)) as Hw.
  cbv zeta in Hw. fold r in Hw. destruct Hw as [Hr Hw]. split; [exact Hr|]. destruct r as [o s']. destruct Hw as (Hp & Hb & _). split; [exact Hp|exact Hb].
Defined.
