(* ===== verification/QuinnClient.v ===== *)
(** * The client (webtrans-quinn/src/client.rs)

    Checking the URL, finding the address to connect to, and establishing the
    session, with the limits on both.  Name resolution, Quinn's endpoint and the
    timer are a type class of their operations over the state of the network; the
    builders, which only configure them, are left out. *)
From S2P Require Import Prelude Buf Varint Frame Settings PrefixInt Qpack Connect QuinnStreams QuinnCapsules QuinnSession QuinnHandshake.

(** ** Addresses *)

(** Four octets; eight 16-bit segments. *)
Inductive IpAddr := V4 (octets : list Z) | V6 (segments : list Z).
Record SocketAddr := MkSocketAddr { ip : IpAddr; port : Z }.
(** [url::Host] *)
Inductive Host := Domain (domain : bytes) | Ipv4 (octets : list Z) | Ipv6 (segments : list Z).

(** The standard library's formatting of addresses. *)
Definition digit (n : Z) : Z := if n <? 10 then 48 + n else 87 + n.
Fixpoint radix (fuel : nat) (base n : Z) (tl : bytes) : bytes :=
  match fuel with
  | O => tl
  | S fuel => let tl := digit (n mod base) :: tl in if n <? base then tl else radix fuel base (n / base) tl
  end.
Fixpoint join (separator : bytes) (l : list bytes) : bytes :=
  match l with
  | [] => []
  | [x] => x
  | x :: l => x ++ separator ++ join separator l
  end.
Definition ipv4_to_string (octets : list Z) : bytes := join (lit ".") (map (fun n => radix 3 10 n []) octets).
Definition ipv6_segments (segments : list Z) : bytes := join (lit ":") (map (fun n => radix 4 16 n []) segments).
(** Start and length of the first longest run of zeroes. *)
Fixpoint zero_span (i : nat) (current longest : nat * nat) (segments : list Z) : nat * nat :=
  match segments with
  | [] => longest
  | s :: segments =>
      if s =? 0 then
        let current := (if bool_decide (current.2 = O) then i else current.1, S current.2) in
        zero_span (S i) current (if bool_decide (longest.2 < current.2)%nat then current else longest) segments
      else zero_span (S i) (O, O) longest segments
  end.
Definition ipv6_to_string (segments : list Z) : bytes :=
  match segments with
  | [0; 0; 0; 0; 0; 0xffff; a; b] =>
      lit "::ffff:" ++ ipv4_to_string [a / 256; a mod 256; b / 256; b mod 256]
  | _ =>
      let span := zero_span 0 (O, O) (O, O) segments in
      if bool_decide (1 < span.2)%nat
      then ipv6_segments (take span.1 segments) ++ lit "::" ++ ipv6_segments (drop (span.1 + span.2) segments)
      else ipv6_segments segments
  end.
Example ipv6_loopback : ipv6_to_string [0; 0; 0; 0; 0; 0; 0; 1] = lit "::1". Proof. reflexivity. Qed.
Example ipv6_longest : ipv6_to_string [0x2001; 0; 0; 0xdb8; 0; 0; 0; 0x10] = lit "2001:0:0:db8::10". Proof. reflexivity. Qed.
Example ipv4_local : ipv4_to_string [127; 0; 0; 1] = lit "127.0.0.1". Proof. reflexivity. Qed.

(** What the client looks at in a URL besides its parts. *)
Class UrlHost `{UrlLib} := {
  url_port : Url -> option Z;
  url_host : Url -> option Host;
  url_cannot_be_a_base : Url -> bool
}.

(** The network of a client: [lookup_host], the endpoint, and [timeout], which
    gives no result when its limit passes first. *)
Class Network `{Quinn} (N C Endpoint ClientConfig : Type) := {
  quinn_ConnectError : Type;
  Connecting : Type;
  lookup_host : bytes -> Z -> M N io_error (list SocketAddr);
  connect_with : Endpoint -> ClientConfig -> SocketAddr -> bytes -> M N quinn_ConnectError Connecting;
  connecting_await : Connecting -> M N ConnectionError C;
  timeout {A} : Z -> (N -> A * N) -> N -> option A * N
}.

Record Client (Endpoint ClientConfig : Type) := MkClient {
  endpoint : Endpoint; config : ClientConfig; dns_timeout : option Z; client_handshake_timeout : option Z }.
Arguments MkClient {Endpoint ClientConfig}. Arguments endpoint {Endpoint ClientConfig}. Arguments config {Endpoint ClientConfig}.
Arguments dns_timeout {Endpoint ClientConfig}. Arguments client_handshake_timeout {Endpoint ClientConfig}.

Section Client.
Context `{Platform} `{Quinn} `{UrlLib} `{HttpLib} `{!HttpStatus} `{!UrlHost} `{!HashMapIter bytes bytes} `{!HashMapIter Setting VarInt}.
Context {N C Endpoint ClientConfig SendS RecvS : Type} `{!QuinnConnection C SendS RecvS} `{AsyncRead RecvS} `{AsyncWrite SendS}.
Context `{!Network N C Endpoint ClientConfig}.
Abbreviation Error := (ClientError quinn_ConnectError).

Definition Client_new (endpoint : Endpoint) (config : ClientConfig) : Client Endpoint ClientConfig :=
  MkClient endpoint config None None.

Definition validate_url {X} (url : Url) : outcome (ClientError X) unit :=
  if negb (bool_decide (url_scheme url = lit "https"))
  then Err (InvalidUrl (lit "WebTransport requires an https URL"))
  else if negb (bool_decide (url_username url = [])) || bool_decide (is_Some (url_password url))
  then Err (InvalidUrl (lit "userinfo is not supported in the authority"))
  else if bool_decide (is_Some (url_fragment url))
  then Err (InvalidUrl (lit "URL fragments are not sent in HTTP request targets"))
  else if url_cannot_be_a_base url || bool_decide (~ is_Some (url_host url))
  then Err (InvalidUrl (lit "URL must contain a valid authority and path"))
  else Ok ().

(** [match limit { Some(t) => timeout(t, f).await.map_err(|_| late)?, None => f.await }] *)
Definition with_timeout {A} (limit : option Z) (late : Error) (f : M N Error A) : M N Error A :=
  match limit with
  | Some limit => fun n => match timeout limit f n with (Some r, n) => (r, n) | (None, n) => (Err late, n) end
  | None => f
  end.

(** The host name and the address to connect to. *)
Definition resolve (self : Client Endpoint ClientConfig) (url : Url) : M N Error (bytes * SocketAddr) :=
  let port := default 443 (url_port url) in
  match url_host url with
  | None => throw (InvalidDnsName [])
  | Some (Domain domain) =>
      let* remotes := with_timeout (dns_timeout self) DnsTimeout
        (map_err (fun _ => InvalidDnsName domain) (lookup_host domain port)) in
      match remotes with
      | remote :: _ => ret (domain, remote)
      | [] => throw (InvalidDnsName domain)
      end
  | Some (Ipv4 ipv4) => ret (ipv4_to_string ipv4, MkSocketAddr (V4 ipv4) port)
  | Some (Ipv6 ipv6) => ret (ipv6_to_string ipv6, MkSocketAddr (V6 ipv6) port)
  end.

(** What [Session::new] is then called with. *)
Definition establish (fuel : nat) (order : list bool) (connecting : Connecting) (url : Url)
  : M N Error (C * QSettings (SendS:=SendS) (RecvS:=RecvS) * Connect SendS RecvS) :=
  let* conn := map_err CLConnection (connecting_await connecting) in
  let '(r, conn) := session_connect fuel order url conn in
  let* (settings, connect) := lift r in
  ret (conn, settings, connect).

Definition Client_connect (fuel : nat) (order : list bool) (self : Client Endpoint ClientConfig) (url : Url)
  : M N Error (C * QSettings (SendS:=SendS) (RecvS:=RecvS) * Connect SendS RecvS) :=
  lift (validate_url url) ;;;
  let* (host, remote) := resolve self url in
  let* connecting := map_err CLQuinnError (connect_with (endpoint self) (config self) remote host) in
  with_timeout (client_handshake_timeout self) CLHandshakeTimeout (establish fuel order connecting url).
End Client.

(** ** Which URLs are let through *)
Definition connectable `{UrlLib} `{!UrlHost} (u : Url) : Prop :=
  url_scheme u = lit "https" /\ url_username u = [] /\ url_password u = None /\ url_fragment u = None /\
  url_cannot_be_a_base u = false /\ is_Some (url_host u).

Lemma validate_url_cases `{Quinn} `{UrlLib} `{HttpLib} `{!UrlHost} {X} (u : Url) :
  (connectable u /\ validate_url (X:=X) u = Ok ()) \/
  (~ connectable u /\ exists message, validate_url (X:=X) u = Err (InvalidUrl message)).
Proof.
  unfold validate_url, connectable.
  destruct (decide (url_scheme u = lit "https")) as [Hs|Hs];
    [rewrite bool_decide_eq_true_2 by done|rewrite bool_decide_eq_false_2 by done; right; split; [tauto|by eexists]].
  destruct (decide (url_username u = [])) as [Hn|Hn];
    [rewrite bool_decide_eq_true_2 by done|rewrite bool_decide_eq_false_2 by done; right; split; [tauto|by eexists]].
  cbn [negb orb]. destruct (url_password u) as [pw|]; cbn [is_Some]; [right; split; [naive_solver|by eexists]|].
  destruct (url_fragment u) as [fr|]; [right; split; [naive_solver|by eexists]|].
  rewrite (bool_decide_eq_false_2 (is_Some None)) by (by intros []). cbn [orb].
  destruct (url_cannot_be_a_base u); [right; split; [naive_solver|by eexists]|].
  destruct (url_host u) as [h|]; [left|right].
  - rewrite (bool_decide_eq_false_2 (~ is_Some (Some h))) by eauto. cbn [orb]. eauto 10.
  - rewrite (bool_decide_eq_true_2 (~ is_Some None)) by (by intros []). split; [|by eexists].
    intros (_ & _ & _ & _ & _ & []%is_Some_None).
Qed.

(** ** A network on which nothing fails *)
Section Works.
Context `{Platform} `{Quinn} `{UrlLib} `{HttpLib} `{!HttpStatus} `{!UrlHost} `{!UrlLaws} `{!HttpLaws}.
Context `{!HashMapIter bytes bytes} `{!HashMapIter Setting VarInt}.
Context {N C Endpoint ClientConfig : Type} `{!QuinnConnection C Outgoing Incoming} `{!Network N C Endpoint ClientConfig}.
Context (in_uni in_bi : C -> list Incoming) `{!QuinnWorks in_uni in_bi}.

(** No limit passes. *)
Definition punctual : Prop := forall A limit (f : N -> A * N) n, timeout limit f n = (Some (f n).1, (f n).2).
(** The first address that the host of the URL has, and the name for it. *)
Definition located (u : Url) (n : N) (host : bytes) (remote : SocketAddr) (n' : N) : Prop :=
  let port := default 443 (url_port u) in
  match url_host u with
  | Some (Domain domain) => host = domain /\ exists others, lookup_host domain port n = (Ok (remote :: others), n')
  | Some (Ipv4 octets) => host = ipv4_to_string octets /\ remote = MkSocketAddr (V4 octets) port /\ n' = n
  | Some (Ipv6 segments) => host = ipv6_to_string segments /\ remote = MkSocketAddr (V6 segments) port /\ n' = n
  | None => False
  end.

Lemma with_timeout_punctual {A} limit late (f : M N (ClientError quinn_ConnectError) A) n :
  punctual -> with_timeout limit late f n = f n.
Proof. intros Hp. destruct limit; [|done]. unfold with_timeout. rewrite Hp. by destruct (f n). Qed.

Lemma resolve_located self u n host remote n' :
  punctual -> located u n host remote n' -> resolve self u n = (Ok (host, remote), n').
Proof.
  intros Hp Hl. unfold located in Hl. unfold resolve. destruct (url_host u) as [[d|o|g]|]; [| | |done].
  - destruct Hl as (-> & others & Hl). unfold bind. rewrite with_timeout_punctual by done. unfold map_err. by rewrite Hl.
  - by destruct Hl as (-> & -> & ->).
  - by destruct Hl as (-> & -> & ->).
Qed.
End Works.

(** ** Samples: a network that resolves every name and connects at once *)
Definition sample_host : UrlHost (H:=sample_url_lib) := {|
  url_port u := match u : @Url sample_url_lib with sample_chat => Some 4433 | _ => None end;
  url_host _ := Some (Domain (lit "example.com"));
  url_cannot_be_a_base _ := false |}.
Definition sample_network (c : Pending) : Network (H:=sample_quinn) (list (bytes * SocketAddr)) Pending unit unit := {|
  quinn_ConnectError := unit;
  Connecting := unit;
  lookup_host _ p := ret [MkSocketAddr (V4 [192; 0; 2; 1]) p];
  connect_with _ _ remote host log := (Ok (), log ++ [(host, remote)]);
  connecting_await _ := ret c;
  timeout A _ f n := (Some (f n).1, (f n).2) |}.

(** ** Properties *)

(** C23: connecting.  A URL that is not an https URL with a host and without user
    information or fragment is refused before the network is touched.  For one that
    is, of at most 64,000 bytes of authority and path, on a network that works, the client connects to the first address its host
    has, at its port or 443, and gets a session for exactly that URL when the server
    answers 200, and otherwise an error with the status; and when the limit of the
    name resolution or of the handshake passes first, the error says which. *)
Theorem client_connect `{Platform} `{Quinn} `{UrlLib} `{HttpLib} `{!HttpStatus} `{!UrlHost} `{!UrlLaws} `{!HttpLaws}
  `{!HashMapIter bytes bytes} `{!HashMapIter Setting VarInt} {N C Endpoint ClientConfig : Type}
  `{!QuinnConnection C Outgoing Incoming} `{!Network N C Endpoint ClientConfig}
  (in_uni in_bi : C -> list Incoming) `{!QuinnWorks in_uni in_bi}
  (fuel : nat) (b : list bool) (self : Client Endpoint ClientConfig) (u : Url) (n : N) (Hfuel : (0 < fuel)%nat) :
  (~ connectable u -> exists message, Client_connect fuel b self u n = (Err (InvalidUrl message), n)) /\
  (forall host remote n1 k n2 c n3 st r1 r2 e,
     connectable u -> len (url_authority u) + len (path_and_query u) <= 64000 -> punctual (N:=N) ->
     located u n host remote n1 -> connect_with (endpoint self) (config self) remote host n1 = (Ok k, n2) ->
     connecting_await k n2 = (Ok c, n3) -> is_bytes r1 -> is_bytes r2 ->
     in_uni c = [MkIncoming (settings_bytes offered ++ r1) e] -> in_bi c = [MkIncoming (response_bytes st ++ r2) e] ->
     exists c', Client_connect fuel b self u n =
       (if decide (st = STATUS_OK)
        then Ok (c', MkQSettings (MkOutgoing (settings_bytes offered) None) (MkIncoming r1 e),
                 MkConnect (MkConnectRequest u) (MkOutgoing (request_bytes u) None) (MkIncoming r2 e))
        else Err (CLHttpError (QCErrorStatus st)), n3)) /\
  (forall d limit n', connectable u -> url_host u = Some (Domain d) -> dns_timeout self = Some limit ->
     timeout limit (map_err (E:=io_error) (fun _ => InvalidDnsName d) (lookup_host d (default 443 (url_port u)))) n
       = (None : option (outcome (ClientError quinn_ConnectError) _), n') ->
     Client_connect fuel b self u n = (Err DnsTimeout, n')) /\
  (forall host remote n1 k n2 limit n', connectable u -> resolve self u n = (Ok (host, remote), n1) ->
     connect_with (endpoint self) (config self) remote host n1 = (Ok k, n2) ->
     client_handshake_timeout self = Some limit -> timeout limit (establish fuel b k u) n2 = (None, n') ->
     Client_connect fuel b self u n = (Err CLHandshakeTimeout, n')).
Proof.
  unfold Client_connect, bind, lift. destruct (validate_url_cases (X:=quinn_ConnectError) u) as [[Hu ->]|[Hu (m & ->)]].
  2: { split; [eauto|]. split; [|split]; intros; contradiction. }
  split; [intros; contradiction|]. split; [|split].
  - intros host remote n1 k n2 c n3 st r1 r2 e _ Hlen Hp Hl Hk Hc R1 R2 Hcu Hcb.
    assert (Hs : session_url u) by (destruct Hu as (? & ? & ? & ? & _); by split_and!).
    destruct (session_connect_response (X:=quinn_ConnectError) in_uni in_bi fuel b c u st r1 r2 e Hs R1 R2 Hfuel Hcu Hcb) as (c' & E).
    exists c'. rewrite (resolve_located _ _ _ _ _ _ Hp Hl). unfold map_err at 1. rewrite Hk.
    rewrite with_timeout_punctual by done. unfold establish, bind, map_err. rewrite Hc, E.
    by destruct (decide (st = STATUS_OK)).
  - intros d limit n' _ Hd Hlim Hn. unfold resolve, bind. rewrite Hd, Hlim. cbn [with_timeout]. by rewrite Hn.
  - intros host remote n1 k n2 limit n' _ Hr Hk Hlim Hn. rewrite Hr. unfold map_err at 1. rewrite Hk, Hlim.
    cbn [with_timeout]. by rewrite Hn.
Qed.
Lemma client_connect_witness :
  let e := IoError UnexpectedEof [] in
  let order := hm_iter_rev bytes bytes in let settings_order := hm_iter_rev Setting VarInt in
  let offer := settings_bytes (HashMapIter0:=settings_order) offered in
  let c := MkPending [MkIncoming (offer ++ []) e]
    [MkIncoming (response_bytes (H:=Platform64) (H1:=sample_url_lib) (H2:=sample_http_lib) (HashMapIter0:=order) status_200 ++ [1]) e] in
  let self := MkClient tt tt (Some 5) (Some 9) in
  exists session, Client_connect (H:=Platform64) (H0:=sample_quinn) (H1:=sample_url_lib) (H2:=sample_http_lib) (H3:=sample_http_status)
    (H4:=sample_host) (HashMapIter0:=order) (HashMapIter1:=settings_order) (QuinnConnection0:=pending_connection)
    (Network0:=sample_network c) 1 [true] self sample_chat []
  = (Ok session, [(lit "example.com", MkSocketAddr (V4 [192; 0; 2; 1]) 4433)]).
Proof.
  intros e order settings_order offer c self.
  destruct (client_connect (H:=Platform64) (H0:=sample_quinn) (H1:=sample_url_lib) (H2:=sample_http_lib) (H3:=sample_http_status)
    (H4:=sample_host) (H5:=sample_url_laws) (H6:=sample_http_laws) (HashMapIter0:=order) (HashMapIter1:=settings_order)
    (QuinnConnection0:=pending_connection) (Network0:=sample_network c) pd_uni pd_bi (QuinnWorks0:=pending_works)
    1 [true] self sample_chat [] ltac:(lia)) as (_ & Hok & _).
  destruct (Hok (lit "example.com") (MkSocketAddr (V4 [192; 0; 2; 1]) 4433) [] tt
    [(lit "example.com", MkSocketAddr (V4 [192; 0; 2; 1]) 4433)] c
    [(lit "example.com", MkSocketAddr (V4 [192; 0; 2; 1]) 4433)] status_200 [] [1] e) as (c' & Hc); try reflexivity.
  - do 5 (split; [reflexivity|]). by eexists.
  - by_eval.
  - intros A limit f n. reflexivity.
  - split; [reflexivity|]. by eexists.
  - constructor.
  - by_eval.
  - rewrite decide_True in Hc by reflexivity. eexists. exact Hc.
Defined.
