(* ===== verification/QuinnBuilders.v ===== *)
(** * The builders and certificates (webtrans-quinn/src: crypto.rs, client.rs,
    server.rs)

    What a client or a server that a builder makes trusts, offers and is limited by.
    rustls and Quinn's configuration are type classes of their operations; the
    program's own are the verifiers, the hash of a certificate and the order in
    which everything is put together. *)
From S2P Require Import Prelude Buf Varint Frame Settings PrefixInt Qpack Connect QuinnStreams QuinnCapsules QuinnSession QuinnHandshake QuinnClient.

(** ** rustls *)
Class Rustls `{Quinn} := {
  CryptoProvider : Type;
  HashAlgorithm : Type;
  hash_algorithm_eq_dec :: EqDecision HashAlgorithm;
  SHA256 : HashAlgorithm;
  HashProvider : Type;
  hash_algorithm : HashProvider -> HashAlgorithm;
  hash : HashProvider -> bytes -> bytes;
  CipherSuite : Type;
  cipher_suites : CryptoProvider -> list CipherSuite;
  (** [suite.tls13()?.common.hash_provider] *)
  tls13_hash : CipherSuite -> option HashProvider;
  SignatureAlgorithms : Type;
  signature_algorithms : CryptoProvider -> SignatureAlgorithms;
  SignatureScheme : Type;
  supported_schemes : SignatureAlgorithms -> list SignatureScheme;
  ServerName : Type;
  UnixTime : Type;
  DigitallySigned : Type;
  rustls_verify_tls12 : bytes -> bytes -> DigitallySigned -> SignatureAlgorithms -> outcome rustls_Error unit;
  rustls_verify_tls13 : bytes -> bytes -> DigitallySigned -> SignatureAlgorithms -> outcome rustls_Error unit;
  (** [InvalidCertificate(CertificateError::UnknownIssuer)] *)
  UnknownIssuer : rustls_Error
}.

(** rustls' trait, and the object of a type that implements it. *)
Class ServerCertVerifier `{Rustls} (V : Type) := {
  verify_server_cert : V -> bytes -> list bytes -> ServerName -> bytes -> UnixTime -> outcome rustls_Error unit;
  verify_tls12_signature : V -> bytes -> bytes -> DigitallySigned -> outcome rustls_Error unit;
  verify_tls13_signature : V -> bytes -> bytes -> DigitallySigned -> outcome rustls_Error unit;
  supported_verify_schemes : V -> list SignatureScheme
}.
Record DynVerifier `{Rustls} := MkDynVerifier {
  dyn_server_cert : bytes -> list bytes -> ServerName -> bytes -> UnixTime -> outcome rustls_Error unit;
  dyn_tls12 : bytes -> bytes -> DigitallySigned -> outcome rustls_Error unit;
  dyn_tls13 : bytes -> bytes -> DigitallySigned -> outcome rustls_Error unit;
  dyn_schemes : list SignatureScheme
}.
Arguments MkDynVerifier {_ _}.
Definition as_dyn `{Rustls} {V} `{!ServerCertVerifier V} (self : V) : DynVerifier :=
  MkDynVerifier (verify_server_cert self) (verify_tls12_signature self) (verify_tls13_signature self) (supported_verify_schemes self).

Class RustlsConfig `{Rustls} := {
  ProtocolVersion : Type;
  TLS13 : ProtocolVersion;
  RootCertStore : Type;
  roots_empty : RootCertStore;
  roots_add : bytes -> M RootCertStore rustls_Error unit;
  ClientWantsVerifier : Type;
  ClientWantsCert : Type;
  TlsClientConfig : Type;
  client_builder : CryptoProvider -> list ProtocolVersion -> outcome rustls_Error ClientWantsVerifier;
  with_root_certificates : RootCertStore -> ClientWantsVerifier -> ClientWantsCert;
  with_custom_certificate_verifier : DynVerifier -> ClientWantsVerifier -> ClientWantsCert;
  client_no_auth : ClientWantsCert -> TlsClientConfig;
  client_alpn : list bytes -> TlsClientConfig -> TlsClientConfig;
  PrivateKey : Type;
  CertifiedKey : Type;
  certified_from_der : list bytes -> PrivateKey -> CryptoProvider -> outcome rustls_Error CertifiedKey;
  SniResolver : Type;
  sni_empty : SniResolver;
  sni_add : bytes -> CertifiedKey -> M SniResolver rustls_Error unit;
  ServerWantsVerifier : Type;
  ServerWantsCert : Type;
  TlsServerConfig : Type;
  server_builder : CryptoProvider -> list ProtocolVersion -> outcome rustls_Error ServerWantsVerifier;
  server_no_auth : ServerWantsVerifier -> ServerWantsCert;
  with_single_cert : list bytes -> PrivateKey -> ServerWantsCert -> outcome rustls_Error TlsServerConfig;
  with_cert_resolver : SniResolver -> ServerWantsCert -> TlsServerConfig;
  server_alpn : list bytes -> TlsServerConfig -> TlsServerConfig
}.

(** Documented behaviour of the configuration builders: what is in a configuration. *)
Record TlsView `{RustlsConfig} (T : Type) := MkTlsView {
  tls_provider : CryptoProvider; tls_versions : list ProtocolVersion; tls_auth : T; tls_alpn : list bytes }.
Arguments MkTlsView {_ _ _ T}. Arguments tls_provider {_ _ _ T}. Arguments tls_versions {_ _ _ T}.
Arguments tls_auth {_ _ _ T}. Arguments tls_alpn {_ _ _ T}.
Definition set_alpn `{RustlsConfig} {T} (alpn : list bytes) (v : TlsView T) : TlsView T :=
  MkTlsView (tls_provider v) (tls_versions v) (tls_auth v) alpn.

Class RustlsLaws `{RustlsConfig} := {
  client_view : TlsClientConfig -> TlsView (RootCertStore + DynVerifier);
  server_view : TlsServerConfig -> TlsView (list bytes * PrivateKey + SniResolver);
  view_roots p vs w r : client_builder p vs = Ok w ->
    client_view (client_no_auth (with_root_certificates r w)) = MkTlsView p vs (inl r) [];
  view_verifier p vs w v : client_builder p vs = Ok w ->
    client_view (client_no_auth (with_custom_certificate_verifier v w)) = MkTlsView p vs (inr v) [];
  view_client_alpn alpn c : client_view (client_alpn alpn c) = set_alpn alpn (client_view c);
  view_single p vs w chain key c : server_builder p vs = Ok w -> with_single_cert chain key (server_no_auth w) = Ok c ->
    server_view c = MkTlsView p vs (inl (chain, key)) [];
  view_resolver p vs w r : server_builder p vs = Ok w ->
    server_view (with_cert_resolver r (server_no_auth w)) = MkTlsView p vs (inr r) [];
  view_server_alpn alpn c : server_view (server_alpn alpn c) = set_alpn alpn (server_view c)
}.

Definition ALPN : bytes := lit "h3".
(** [Iterator::find_map] *)
Fixpoint find_map {A B} (f : A -> option B) (l : list A) : option B :=
  match l with
  | [] => None
  | a :: l => match f a with Some b => Some b | None => find_map f l end
  end.

(** ** crypto.rs *)
Module crypto.
Section Crypto.
Context `{Rustls}.
(** The process-wide provider, and those of the enabled features. *)
Definition default_provider (installed ring aws_lc_rs : option CryptoProvider) : outcome Empty_set CryptoProvider :=
  match installed with
  | Some provider => Ok provider
  | None =>
      match ring with
      | Some provider => Ok provider
      | None => match aws_lc_rs with Some provider => Ok provider | None => Panic end
      end
  end.
Definition sha256 (provider : CryptoProvider) (cert : bytes) : outcome Empty_set bytes :=
  let hash_provider := find_map (fun suite =>
    match tls13_hash suite with
    | None => None
    | Some hash_provider => if decide (hash_algorithm hash_provider = SHA256) then Some hash_provider else None
    end) (cipher_suites provider) in
  match hash_provider with
  | Some hash_provider => Ok (hash hash_provider cert)
  | None => Panic
  end.
(** The certificates' hashes, collected in order. *)
Fixpoint sha256_all (provider : CryptoProvider) (certs : list bytes) : outcome Empty_set (list bytes) :=
  match certs with
  | [] => Ok []
  | cert :: certs =>
      let? hash := sha256 provider cert in
      let? hashes := sha256_all provider certs in
      Ok (hash :: hashes)
  end.
End Crypto.
End crypto.

(** ** client.rs: the verifiers *)
Section Verifiers.
Context `{Rustls}.
Record ServerFingerprints := MkServerFingerprints { fp_provider : CryptoProvider; fingerprints : list bytes }.
(** Neither the other certificates, nor the name, nor the time is looked at. *)
Definition fingerprints_verify_server_cert (self : ServerFingerprints) (end_entity : bytes) (_intermediates : list bytes)
  (_server_name : ServerName) (_ocsp_response : bytes) (_now : UnixTime) : outcome rustls_Error unit :=
  let? cert_hash := never (crypto.sha256 (fp_provider self) end_entity) in
  if existsb (fun fingerprint => bool_decide (fingerprint = cert_hash)) (fingerprints self) then Ok ()
  else Err UnknownIssuer.
Definition fingerprints_verify_tls12_signature (self : ServerFingerprints) (message cert : bytes) (dss : DigitallySigned)
  : outcome rustls_Error unit := rustls_verify_tls12 message cert dss (signature_algorithms (fp_provider self)).
Definition fingerprints_verify_tls13_signature (self : ServerFingerprints) (message cert : bytes) (dss : DigitallySigned)
  : outcome rustls_Error unit := rustls_verify_tls13 message cert dss (signature_algorithms (fp_provider self)).
#[export] Instance ServerFingerprints_verifier : ServerCertVerifier ServerFingerprints := {|
  verify_server_cert := fingerprints_verify_server_cert;
  verify_tls12_signature := fingerprints_verify_tls12_signature;
  verify_tls13_signature := fingerprints_verify_tls13_signature;
  supported_verify_schemes self := supported_schemes (signature_algorithms (fp_provider self)) |}.

Record NoCertificateVerification := MkNoCertificateVerification { noop_provider : CryptoProvider }.
Definition noop_verify_server_cert (self : NoCertificateVerification) (_end_entity : bytes) (_intermediates : list bytes)
  (_server_name : ServerName) (_ocsp : bytes) (_now : UnixTime) : outcome rustls_Error unit := Ok ().
Definition noop_verify_tls12_signature (self : NoCertificateVerification) (message cert : bytes) (dss : DigitallySigned)
  : outcome rustls_Error unit := rustls_verify_tls12 message cert dss (signature_algorithms (noop_provider self)).
Definition noop_verify_tls13_signature (self : NoCertificateVerification) (message cert : bytes) (dss : DigitallySigned)
  : outcome rustls_Error unit := rustls_verify_tls13 message cert dss (signature_algorithms (noop_provider self)).
#[export] Instance NoCertificateVerification_verifier : ServerCertVerifier NoCertificateVerification := {|
  verify_server_cert := noop_verify_server_cert;
  verify_tls12_signature := noop_verify_tls12_signature;
  verify_tls13_signature := noop_verify_tls13_signature;
  supported_verify_schemes self := supported_schemes (signature_algorithms (noop_provider self)) |}.
End Verifiers.

(** ** Quinn's configuration and endpoints *)
Class QuinnConfig `{RustlsConfig} (Net Endpoint ClientConfig : Type) := {
  TransportConfig : Type;
  transport_default : TransportConfig;
  CongestionFactory : Type;
  NewReno : CongestionFactory;
  Bbr : CongestionFactory;
  Cubic : CongestionFactory;
  congestion_controller_factory : CongestionFactory -> TransportConfig -> TransportConfig;
  QuicClientConfig : Type;
  quic_client_try_from : TlsClientConfig -> option QuicClientConfig;
  client_config_new : QuicClientConfig -> ClientConfig;
  client_transport : TransportConfig -> ClientConfig -> ClientConfig;
  QuicServerConfig : Type;
  ServerConfig : Type;
  quic_server_try_from : TlsServerConfig -> option QuicServerConfig;
  server_with_crypto : QuicServerConfig -> ServerConfig;
  server_transport : TransportConfig -> ServerConfig -> ServerConfig;
  (** The world: the system's certificates, and sockets. *)
  load_native_certs : Net -> list bytes * Net;
  endpoint_client : SocketAddr -> M Net io_error Endpoint;
  endpoint_server : ServerConfig -> SocketAddr -> M Net io_error Endpoint
}.

(** Documented behaviour: a configuration has the TLS configuration and the
    transport it is given. *)
Class QuinnConfigLaws `{RustlsConfig} {Net Endpoint ClientConfig} `{!QuinnConfig Net Endpoint ClientConfig} := {
  config_tls : ClientConfig -> option TlsClientConfig;
  config_transport : ClientConfig -> option TransportConfig;
  server_config_tls : ServerConfig -> option TlsServerConfig;
  server_config_transport : ServerConfig -> option TransportConfig;
  client_config_tls c q t : quic_client_try_from c = Some q -> config_tls (client_transport t (client_config_new q)) = Some c;
  client_config_transport t q : config_transport (client_transport t q) = Some t;
  server_with_crypto_tls c q t : quic_server_try_from c = Some q -> server_config_tls (server_transport t (server_with_crypto q)) = Some c;
  server_transport_transport t q : server_config_transport (server_transport t q) = Some t
}.

(** ** client.rs: the builder *)
Inductive CongestionControl := Default | Throughput | LowLatency.
(** The errors a store of roots reports are logged, and the certificate left out. *)
Fixpoint add_roots `{RustlsConfig} (certs : list bytes) : M RootCertStore Empty_set unit :=
  match certs with
  | [] => ret ()
  | cert :: certs => fun roots =>
      match roots_add cert roots with
      | (Ok _, roots) | (Err _, roots) => add_roots certs roots
      | (Panic, roots) => (Panic, roots)
      | (OutOfFuel, roots) => (OutOfFuel, roots)
      end
  end.

Section ClientBuilder.
Context `{RustlsConfig} `{UrlLib} `{HttpLib} {Net Endpoint ClientConfig X : Type} `{!QuinnConfig Net Endpoint ClientConfig}.
Abbreviation Error := (ClientError X).
Abbreviation Client := (Client Endpoint ClientConfig).

Record ClientBuilder := MkClientBuilder {
  cb_provider : CryptoProvider; cb_transport : TransportConfig; cb_dns_timeout : option Z; cb_handshake_timeout : option Z }.
Definition ClientBuilder_new (installed ring aws_lc_rs : option CryptoProvider) : outcome Empty_set ClientBuilder :=
  let? provider := crypto.default_provider installed ring aws_lc_rs in
  Ok (MkClientBuilder provider transport_default None None).
Definition congestion_factory (algorithm : CongestionControl) : CongestionFactory :=
  match algorithm with LowLatency => NewReno | Throughput => Bbr | Default => Cubic end.
Definition with_congestion_control (algorithm : CongestionControl) (self : ClientBuilder) : ClientBuilder :=
  MkClientBuilder (cb_provider self) (congestion_controller_factory (congestion_factory algorithm) (cb_transport self))
    (cb_dns_timeout self) (cb_handshake_timeout self).
Definition with_transport_config (transport : TransportConfig) (self : ClientBuilder) : ClientBuilder :=
  MkClientBuilder (cb_provider self) transport (cb_dns_timeout self) (cb_handshake_timeout self).
Definition with_dns_timeout (timeout : Z) (self : ClientBuilder) : ClientBuilder :=
  MkClientBuilder (cb_provider self) (cb_transport self) (Some timeout) (cb_handshake_timeout self).
Definition with_handshake_timeout (timeout : Z) (self : ClientBuilder) : ClientBuilder :=
  MkClientBuilder (cb_provider self) (cb_transport self) (cb_dns_timeout self) (Some timeout).

Definition builder (self : ClientBuilder) : M Net Error ClientWantsVerifier :=
  map_err CLRustls (lift (client_builder (cb_provider self) [TLS13])).
Definition build (self : ClientBuilder) (crypto : TlsClientConfig) : M Net Error Client :=
  let crypto := client_alpn [ALPN] crypto in
  let* client_config := ok_or CLInvalidCryptoConfiguration (quic_client_try_from crypto) in
  let client_config := client_config_new client_config in
  let client_config := client_transport (cb_transport self) client_config in
  let* client := map_err CLIo (endpoint_client (MkSocketAddr (V6 (replicate 8 0)) 0)) in
  ret (MkClient client client_config (cb_dns_timeout self) (cb_handshake_timeout self)).
Definition with_system_roots (self : ClientBuilder) : M Net Error Client :=
  let* native := (fun n => let '(certs, n) := load_native_certs n in (Ok certs, n)) in
  let '(r, roots) := add_roots native roots_empty in
  lift (never r) ;;;
  let* crypto := builder self in
  build self (client_no_auth (with_root_certificates roots crypto)).
Definition with_server_certificate_hashes (hashes : list bytes) (self : ClientBuilder) : M Net Error Client :=
  let fingerprints := MkServerFingerprints (cb_provider self) hashes in
  let* crypto := builder self in
  build self (client_no_auth (with_custom_certificate_verifier (as_dyn fingerprints) crypto)).
Definition with_server_certificates (certs : list bytes) (self : ClientBuilder) : M Net Error Client :=
  let* hashes := lift (never (crypto.sha256_all (cb_provider self) certs)) in
  with_server_certificate_hashes hashes self.
(** [dangerous().with_no_certificate_verification()] *)
Definition with_no_certificate_verification (self : ClientBuilder) : M Net Error Client :=
  let noop := MkNoCertificateVerification (cb_provider self) in
  let* crypto := builder self in
  build self (client_no_auth (with_custom_certificate_verifier (as_dyn noop) crypto)).
End ClientBuilder.

(** ** server.rs: the builder *)
Module Server.
Section ServerBuilder.
Context `{Platform} `{RustlsConfig} `{UrlLib} `{HttpLib} {Net Endpoint ClientConfig K : Type} `{!QuinnConfig Net Endpoint ClientConfig}.
Abbreviation Server := (QuinnHandshake.Server K).

Record ServerBuilder := MkServerBuilder {
  sb_provider : CryptoProvider; sb_addr : SocketAddr; sb_transport : TransportConfig;
  sb_handshake_timeout : option Z; sb_max_pending_handshakes : Z }.
Definition ServerBuilder_new (installed ring aws_lc_rs : option CryptoProvider) : outcome Empty_set ServerBuilder :=
  let? provider := crypto.default_provider installed ring aws_lc_rs in
  Ok (MkServerBuilder provider (MkSocketAddr (V6 (replicate 8 0)) 443) transport_default None usize_max).
Definition with_addr (addr : SocketAddr) (self : ServerBuilder) : ServerBuilder :=
  MkServerBuilder (sb_provider self) addr (sb_transport self) (sb_handshake_timeout self) (sb_max_pending_handshakes self).
Definition with_congestion_control (algorithm : CongestionControl) (self : ServerBuilder) : ServerBuilder :=
  MkServerBuilder (sb_provider self) (sb_addr self) (congestion_controller_factory (congestion_factory algorithm) (sb_transport self))
    (sb_handshake_timeout self) (sb_max_pending_handshakes self).
Definition with_transport_config (transport : TransportConfig) (self : ServerBuilder) : ServerBuilder :=
  MkServerBuilder (sb_provider self) (sb_addr self) transport (sb_handshake_timeout self) (sb_max_pending_handshakes self).
Definition with_handshake_timeout (timeout : Z) (self : ServerBuilder) : ServerBuilder :=
  MkServerBuilder (sb_provider self) (sb_addr self) (sb_transport self) (Some timeout) (sb_max_pending_handshakes self).
Definition with_max_pending_handshakes (limit : Z) (self : ServerBuilder) : ServerBuilder :=
  MkServerBuilder (sb_provider self) (sb_addr self) (sb_transport self) (sb_handshake_timeout self) limit.

(** What both ways to supply certificates end in: a listening endpoint, and the
    server with its limits. *)
Definition serve (self : ServerBuilder) (config : TlsServerConfig) : M Net ServerError (Endpoint * Server) :=
  let config := server_alpn [ALPN] config in
  let* config := ok_or SVInvalidCryptoConfiguration (quic_server_try_from config) in
  let config := server_with_crypto config in
  let config := server_transport (sb_transport self) config in
  let* server := map_err SVIoError (endpoint_server config (sb_addr self)) in
  ret (server, Server_with_accept_limits (sb_handshake_timeout self) (sb_max_pending_handshakes self)).
Definition with_certificate (chain : list bytes) (key : PrivateKey) (self : ServerBuilder)
  : M Net ServerError (Endpoint * Server) :=
  let* config := map_err SVRustls (lift (
    let? config := server_builder (sb_provider self) [TLS13] in
    with_single_cert chain key (server_no_auth config))) in
  serve self config.
Fixpoint add_certificates (provider : CryptoProvider) (certificates : list (bytes * list bytes * PrivateKey))
  : M SniResolver rustls_Error unit :=
  match certificates with
  | [] => ret ()
  | (name, chain, key) :: certificates =>
      let* certified := lift (certified_from_der chain key provider) in
      sni_add name certified ;;;
      add_certificates provider certificates
  end.
Definition with_certificates (certificates : list (bytes * list bytes * PrivateKey)) (self : ServerBuilder)
  : M Net ServerError (Endpoint * Server) :=
  let '(r, resolver) := add_certificates (sb_provider self) certificates sni_empty in
  map_err SVRustls (lift r) ;;;
  let* config := map_err SVRustls (lift (server_builder (sb_provider self) [TLS13])) in
  serve self (with_cert_resolver resolver (server_no_auth config)).
End ServerBuilder.
End Server.

(** ** Lemmas *)
Section CryptoLemmas.
Context `{Rustls}.
(** A provider has a SHA-256, or hashing a certificate panics. *)
Definition has_sha256 (provider : CryptoProvider) (digest : bytes -> bytes) : Prop :=
  forall cert, crypto.sha256 provider cert = Ok (digest cert).
Lemma sha256_cases provider :
  (exists digest, has_sha256 provider digest) \/ (forall cert, crypto.sha256 provider cert = Panic).
Proof.
  unfold has_sha256, crypto.sha256. destruct (find_map _ _) as [hp|]; [left; by exists (hash hp)|by right].
Qed.
Lemma sha256_all_map provider digest certs :
  has_sha256 provider digest -> crypto.sha256_all provider certs = Ok (map digest certs).
Proof. intros Hd. induction certs as [|cert certs IH]; [done|]. cbn. rewrite Hd. cbn. by rewrite IH. Qed.
Lemma fingerprints_verify provider digest hashes leaf inter name ocsp now :
  has_sha256 provider digest ->
  fingerprints_verify_server_cert (MkServerFingerprints provider hashes) leaf inter name ocsp now
  = if bool_decide (digest leaf ∈ hashes) then Ok () else Err UnknownIssuer.
Proof.
  intros Hd. unfold fingerprints_verify_server_cert. cbn [fp_provider fingerprints]. rewrite Hd. cbn [never obind].
  replace (existsb _ hashes) with (bool_decide (digest leaf ∈ hashes)); [done|].
  apply eq_true_iff_eq. rewrite bool_decide_eq_true, existsb_exists, list_elem_of_In.
  split; [intros Hin; exists (digest leaf); by rewrite bool_decide_eq_true|].
  intros (x & Hin & Hx). apply bool_decide_eq_true in Hx. by subst.
Qed.
Lemma fingerprints_panic provider hashes leaf inter name ocsp now :
  crypto.sha256 provider leaf = Panic ->
  fingerprints_verify_server_cert (MkServerFingerprints provider hashes) leaf inter name ocsp now = Panic.
Proof. intros Hp. unfold fingerprints_verify_server_cert. cbn [fp_provider]. by rewrite Hp. Qed.
End CryptoLemmas.

(** Finds the step at which a chain of binds that succeeded, or failed, got there. *)
Lemma bind_Ok_inv {S E A B} (m : M S E A) (k : A -> M S E B) s b s' :
  bind m k s = (Ok b, s') -> exists a s1, m s = (Ok a, s1) /\ k a s1 = (Ok b, s').
Proof. unfold bind. destruct (m s) as [[a|e| |] s1]; intros; simplify_eq. by exists a, s1. Qed.
Lemma map_err_Ok_inv {S E F A} (f : E -> F) (m : M S E A) s a s' : map_err f m s = (Ok a, s') -> m s = (Ok a, s').
Proof. unfold map_err. destruct (m s) as [[?|e| |] s1]; intros; by simplify_eq. Qed.
Lemma lift_Ok_inv {S E A} (o : outcome E A) (s : S) a s' : lift o s = (Ok a, s') -> o = Ok a /\ s' = s.
Proof. unfold lift. intros. by simplify_eq. Qed.
Lemma ok_or_Ok_inv {S E A} (e : E) (o : option A) (s : S) a s' : ok_or e o s = (Ok a, s') -> o = Some a /\ s' = s.
Proof. destruct o; cbn; unfold ret, throw; intros; by simplify_eq. Qed.

Section ClientLemmas.
Context `{RustlsConfig} `{UrlLib} `{HttpLib} {Net Endpoint ClientConfig X : Type} `{!QuinnConfig Net Endpoint ClientConfig}.
Context `{!RustlsLaws} `{!QuinnConfigLaws}.
Abbreviation Client := (Client Endpoint ClientConfig).

(** A client that offers HTTP/3 over TLS 1.3 with the provider, trusting [trust],
    with the transport and the limits of its builder. *)
Definition built (b : ClientBuilder) (c : Client) (trust : RootCertStore + DynVerifier) : Prop :=
  (exists tls, config_tls (config c) = Some tls /\ client_view tls = MkTlsView (cb_provider b) [TLS13] trust [ALPN]) /\
  config_transport (config c) = Some (cb_transport b) /\
  dns_timeout c = cb_dns_timeout b /\ client_handshake_timeout c = cb_handshake_timeout b.
Lemma build_built b tls trust n c n' :
  client_view tls = MkTlsView (cb_provider b) [TLS13] trust [] ->
  build (X:=X) b tls n = (Ok c, n') -> built b c trust.
Proof.
  intros Hv Hb. unfold build in Hb. apply bind_Ok_inv in Hb as (q & n1 & Hq & Hb). apply ok_or_Ok_inv in Hq as [Hq ->].
  apply bind_Ok_inv in Hb as (ep & n2 & _ & Hb). injection Hb as <- <-. unfold built. cbn [config dns_timeout client_handshake_timeout].
  split; [|by rewrite client_config_transport]. eexists. split; [by apply client_config_tls|].
  by rewrite view_client_alpn, Hv.
Qed.
(** A failure before the socket is opened, or of opening it. *)
Definition opened_nothing (n : Net) (e : ClientError X) (n' : Net) : Prop :=
  n' = n \/ exists io, e = CLIo io /\ endpoint_client (MkSocketAddr (V6 (replicate 8 0)) 0) n = (Err io, n').
Lemma build_fails b tls n e n' : build (X:=X) b tls n = (Err e, n') -> opened_nothing n e n'.
Proof.
  unfold build, bind, opened_nothing. destruct (quic_client_try_from _); cbn; [|intros; simplify_eq; by left].
  unfold map_err. destruct (endpoint_client _ n) as [[ep|io| |] n1]; intros; simplify_eq; eauto.
Qed.
Lemma with_verifier_fails v b n e n' :
  (let* crypto := builder b in build (X:=X) b (client_no_auth (v crypto))) n = (Err e, n') -> opened_nothing n e n'.
Proof.
  unfold builder, bind, map_err, lift. destruct (client_builder _ _); intros Hb; [by apply build_fails in Hb|simplify_eq; by left..].
Qed.
Lemma with_verifier_built v b n c n' :
  (let* crypto := builder b in build (X:=X) b (client_no_auth (with_custom_certificate_verifier v crypto))) n = (Ok c, n') ->
  built b c (inr v).
Proof.
  intros Hb. apply bind_Ok_inv in Hb as (w & n1 & Hw & Hb). apply map_err_Ok_inv, lift_Ok_inv in Hw as [Hw ->].
  eapply build_built; [|done]. by apply view_verifier.
Qed.
End ClientLemmas.

(** Documented behaviour of the resolver: it gives the certificate that was added
    last for a name; names are compared by [same_host]. *)
Class SniLaws `{RustlsConfig} (same_host : bytes -> bytes -> bool) := {
  sni_resolve : SniResolver -> bytes -> option CertifiedKey;
  resolve_empty host : sni_resolve sni_empty host = None;
  resolve_add name ck r r' host : sni_add name ck r = (Ok (), r') ->
    sni_resolve r' host = if same_host name host then Some ck else sni_resolve r host
}.

Section ServerLemmas.
Context `{Platform} `{RustlsConfig} `{UrlLib} `{HttpLib} {Net Endpoint ClientConfig K : Type} `{!QuinnConfig Net Endpoint ClientConfig}.
Context `{!RustlsLaws} `{!QuinnConfigLaws}.

(** A server that listens at the address of its builder, with HTTP/3 over TLS 1.3,
    [auth] to prove who it is, and nothing admitted yet. *)
Definition serving (b : Server.ServerBuilder) (n n' : Net) (ep : Endpoint) (s : QuinnHandshake.Server K)
  (auth : list bytes * PrivateKey + SniResolver) : Prop :=
  (exists config tls, server_config_tls config = Some tls /\
     server_view tls = MkTlsView (Server.sb_provider b) [TLS13] auth [ALPN] /\
     server_config_transport config = Some (Server.sb_transport b) /\
     endpoint_server config (Server.sb_addr b) n = (Ok ep, n')) /\
  s = MkServer [] (Server.sb_handshake_timeout b) (Server.sb_max_pending_handshakes b).
Lemma serve_serving b tls auth n ep s n' :
  server_view tls = MkTlsView (Server.sb_provider b) [TLS13] auth [] ->
  Server.serve b tls n = (Ok (ep, s), n') -> serving b n n' ep s auth.
Proof.
  intros Hv Hb. unfold Server.serve in Hb. apply bind_Ok_inv in Hb as (q & n1 & Hq & Hb). apply ok_or_Ok_inv in Hq as [Hq ->].
  apply bind_Ok_inv in Hb as (ep' & n2 & He & Hb). apply map_err_Ok_inv in He. injection Hb as -> <- <-.
  split; [|done]. eexists _, _. split; [by apply server_with_crypto_tls|].
  by rewrite view_server_alpn, Hv, server_transport_transport.
Qed.
Lemma serve_fails b tls n e n' :
  Server.serve (K:=K) b tls n = (Err e, n') -> n' = n \/ exists io, e = SVIoError io.
Proof.
  unfold Server.serve, bind. destruct (quic_server_try_from _); cbn; [|intros; simplify_eq; by left].
  unfold map_err. destruct (endpoint_server _ _ n) as [[ep|io| |] n1]; intros; simplify_eq; eauto.
Qed.

(** The certificates an iterator's last match selects. *)
Context (same_host : bytes -> bytes -> bool) `{!SniLaws same_host}.
Fixpoint last_for (host : bytes) (named : list (bytes * CertifiedKey)) (otherwise : option CertifiedKey) : option CertifiedKey :=
  match named with
  | [] => otherwise
  | (name, ck) :: named => last_for host named (if same_host name host then Some ck else otherwise)
  end.
Definition certified (provider : CryptoProvider) (c : bytes * list bytes * PrivateKey) (named : bytes * CertifiedKey) : Prop :=
  named.1 = c.1.1 /\ certified_from_der c.1.2 c.2 provider = Ok named.2.
Lemma add_certificates_all provider certs : forall r r',
  Server.add_certificates provider certs r = (Ok (), r') ->
  exists named, Forall2 (certified provider) certs named /\
    forall host, sni_resolve r' host = last_for host named (sni_resolve r host).
Proof.
  induction certs as [|[[name chain] key] certs IH]; cbn [Server.add_certificates]; intros r r' Ha.
  { injection Ha as <-. exists []. by split; [constructor|]. }
  apply bind_Ok_inv in Ha as (ck & r1 & Hck & Ha). apply lift_Ok_inv in Hck as [Hck ->].
  apply bind_Ok_inv in Ha as ([] & r1 & Hadd & Ha). destruct (IH _ _ Ha) as (named & Hall & Hres).
  exists ((name, ck) :: named). split; [by constructor|]. intros host. rewrite Hres. cbn [last_for].
  by rewrite (resolve_add _ _ _ _ _ Hadd).
Qed.
Lemma add_certificates_stops provider before name chain key after e :
  certified_from_der chain key provider = Err e -> forall r,
  match (Server.add_certificates provider (before ++ (name, chain, key) :: after) r).1 with Ok _ => False | _ => True end.
Proof.
  intros He. induction before as [|[[name' chain'] key'] before IH]; intros r; cbn [app Server.add_certificates]; unfold bind, lift.
  - by rewrite He.
  - destruct (certified_from_der chain' key' provider); try done. destruct (sni_add _ _ r) as [[[]| | |] r1]; try done. apply IH.
Qed.
End ServerLemmas.

(** ** A sample of rustls and of the network *)
#[global] Instance sample_rustls : Rustls (H:=sample_quinn) := {|
  CryptoProvider := list (bool * bool); HashAlgorithm := bool; SHA256 := true; HashProvider := bool; hash_algorithm b := b;
  hash b cert := if b then [len cert; nth 0 cert 0] else []; CipherSuite := bool * bool; cipher_suites p := p;
  tls13_hash s := if s.1 then Some s.2 else None; SignatureAlgorithms := unit; signature_algorithms _ := tt;
  SignatureScheme := unit; supported_schemes _ := [tt]; ServerName := unit; UnixTime := Z; DigitallySigned := unit;
  rustls_verify_tls12 _ _ _ _ := Ok (); rustls_verify_tls13 _ _ _ _ := Ok (); UnknownIssuer := (tt : @rustls_Error sample_quinn) |}.
(** Configurations that hold what they are given; a certificate is taken when it is
    not empty, a key when it is positive; sockets are numbered. *)
Definition SampleTls (T : Type) : Type := list (bool * bool) * list bool * option T * list bytes.
#[global] Instance sample_rustls_config : RustlsConfig (H0:=sample_rustls) := {|
  ProtocolVersion := bool; TLS13 := true; RootCertStore := list bytes; roots_empty := [];
  roots_add cert r := if bool_decide (cert = []) then (Err (tt : @rustls_Error sample_quinn), r) else (Ok (), r ++ [cert]);
  ClientWantsVerifier := list (bool * bool) * list bool;
  ClientWantsCert := SampleTls (list bytes + DynVerifier (H0:=sample_rustls));
  TlsClientConfig := SampleTls (list bytes + DynVerifier (H0:=sample_rustls));
  client_builder p vs := Ok (p, vs);
  with_root_certificates r w := (w, Some (inl r), []);
  with_custom_certificate_verifier v w := (w, Some (inr v), []);
  client_no_auth c := c; client_alpn alpn c := (c.1, alpn);
  PrivateKey := Z; CertifiedKey := list bytes * Z;
  certified_from_der chain key _ := if 0 <? key then Ok (chain, key) else Err (tt : @rustls_Error sample_quinn);
  SniResolver := list (bytes * (list bytes * Z)); sni_empty := [];
  sni_add name ck r := (Ok (), (name, ck) :: r);
  ServerWantsVerifier := list (bool * bool) * list bool; ServerWantsCert := list (bool * bool) * list bool;
  TlsServerConfig := SampleTls (list bytes * Z + list (bytes * (list bytes * Z)));
  server_builder p vs := Ok (p, vs); server_no_auth w := w;
  with_single_cert chain key w := if 0 <? key then Ok (w, Some (inl (chain, key)), []) else Err (tt : @rustls_Error sample_quinn);
  with_cert_resolver r w := (w, Some (inr r), []); server_alpn alpn c := (c.1, alpn) |}.
Definition sample_view {T} (otherwise : T) (c : SampleTls T) : TlsView (H1:=sample_rustls_config) T :=
  @MkTlsView sample_quinn sample_rustls sample_rustls_config T c.1.1.1 c.1.1.2 (default otherwise c.1.2) c.2.
#[global] Instance sample_rustls_laws : RustlsLaws (H1:=sample_rustls_config).
Proof.
  refine (@Build_RustlsLaws sample_quinn sample_rustls sample_rustls_config (sample_view (inl [])) (sample_view (inr [])) _ _ _ _ _ _).
  - intros p vs w r Hw. by injection Hw as <-.
  - intros p vs w v Hw. by injection Hw as <-.
  - done.
  - intros p vs w chain key c Hw Hc. injection Hw as <-. cbn in Hc. destruct (0 <? key); by simplify_eq.
  - intros p vs w r Hw. by injection Hw as <-.
  - done.
Defined.
#[global] Instance sample_sni : SniLaws (H1:=sample_rustls_config) (fun a b => bool_decide (a = b)).
Proof.
  refine (@Build_SniLaws sample_quinn sample_rustls sample_rustls_config _
    (fun r host => option_map snd (List.find (fun p => bool_decide (p.1 = host)) r)) _ _).
  - done.
  - intros name ck r r' host Ha. injection Ha as <-. cbn. by case_bool_decide.
Defined.
Abbreviation SampleClientTls := (@TlsClientConfig sample_quinn sample_rustls sample_rustls_config).
Abbreviation SampleServerTls := (@TlsServerConfig sample_quinn sample_rustls sample_rustls_config).
#[global] Instance sample_quinn_config : QuinnConfig (H1:=sample_rustls_config) (list bytes * Z) Z
    (option SampleClientTls * option Z) := {|
  TransportConfig := Z; transport_default := 0; CongestionFactory := Z; NewReno := 1; Bbr := 2; Cubic := 3;
  congestion_controller_factory f _ := f;
  QuicClientConfig := SampleClientTls; quic_client_try_from c := Some c;
  client_config_new q := (Some q, None); client_transport t q := (q.1, Some t);
  QuicServerConfig := SampleServerTls;
  ServerConfig := option SampleServerTls * option Z;
  quic_server_try_from c := Some c; server_with_crypto q := (Some q, None); server_transport t q := (q.1, Some t);
  load_native_certs n := (n.1, n);
  endpoint_client _ n := (Ok n.2, (n.1, n.2 + 1)); endpoint_server _ _ n := (Ok n.2, (n.1, n.2 + 1)) |}.
#[global] Instance sample_quinn_config_laws : QuinnConfigLaws (QuinnConfig0:=sample_quinn_config).
Proof.
  refine (@Build_QuinnConfigLaws sample_quinn sample_rustls sample_rustls_config _ _ _ sample_quinn_config
    fst snd fst snd _ _ _ _); try done; intros c q t Hq; by injection Hq as <-.
Defined.

(** ** Properties *)

(** C24: whom a client trusts.  Whatever way a client is built, it offers h3 over TLS
    1.3 alone, with the transport and the limits of its builder.  Built from
    certificates, or their hashes, it accepts a server exactly when the SHA-256 of
    its certificate is one of them, whatever its chain, its name or the time.  A
    provider without SHA-256 makes the build from certificates panic before
    anything is opened, while the build from hashes does not ask for it: a client
    made so panics at the first certificate it has to verify.  Built from the
    system's roots, a client trusts those that rustls takes; only the client built
    through [dangerous] accepts every certificate.  Each still has rustls check that
    the server holds the key.  Whatever way it was tried, a build that fails has
    opened no socket: it fails before, or opening the socket is what failed. *)
Theorem quinn_client_trust `{RustlsConfig} `{UrlLib} `{HttpLib} {Net Endpoint ClientConfig X : Type}
  `{!QuinnConfig Net Endpoint ClientConfig} `{!RustlsLaws} `{!QuinnConfigLaws} (b : ClientBuilder) (n : Net) :
  let signed v := forall message cert dss,
    dyn_tls13 v message cert dss = rustls_verify_tls13 message cert dss (signature_algorithms (cb_provider b)) in
  (forall hashes c n', with_server_certificate_hashes (X:=X) hashes b n = (Ok c, n') ->
     exists v, built b c (inr v) /\ signed v /\
       (forall digest leaf inter name ocsp now, has_sha256 (cb_provider b) digest ->
          dyn_server_cert v leaf inter name ocsp now = if bool_decide (digest leaf ∈ hashes) then Ok () else Err UnknownIssuer) /\
       (forall leaf inter name ocsp now, crypto.sha256 (cb_provider b) leaf = Panic ->
          dyn_server_cert v leaf inter name ocsp now = Panic)) /\
  (forall certs,
     (exists digest, has_sha256 (cb_provider b) digest /\
        with_server_certificates certs b n = with_server_certificate_hashes (X:=X) (map digest certs) b n) \/
     ((forall cert, crypto.sha256 (cb_provider b) cert = Panic) /\
      (certs <> [] -> with_server_certificates (X:=X) certs b n = (Panic, n)))) /\
  (forall c n', with_system_roots (X:=X) b n = (Ok c, n') ->
     exists certs n1 roots, load_native_certs n = (certs, n1) /\ add_roots certs roots_empty = (Ok (), roots) /\
       built b c (inl roots)) /\
  (forall c n', with_no_certificate_verification (X:=X) b n = (Ok c, n') ->
     exists v, built b c (inr v) /\ signed v /\ forall leaf inter name ocsp now, dyn_server_cert v leaf inter name ocsp now = Ok ()) /\
  (forall e n',
     (forall hashes, with_server_certificate_hashes (X:=X) hashes b n = (Err e, n') -> opened_nothing n e n') /\
     (forall certs, with_server_certificates (X:=X) certs b n = (Err e, n') -> opened_nothing n e n') /\
     (with_no_certificate_verification (X:=X) b n = (Err e, n') -> opened_nothing n e n') /\
     (with_system_roots (X:=X) b n = (Err e, n') -> opened_nothing (load_native_certs n).2 e n')).
Proof.
  intros signed. split; [|split; [|split; [|split]]].
  - intros hashes c n' Hb. eexists. split; [by eapply with_verifier_built|]. split; [done|].
    split; intros; [by apply fingerprints_verify|by apply fingerprints_panic].
  - intros certs. destruct (sha256_cases (cb_provider b)) as [[digest Hd]|Hno]; [left; exists digest|right].
    + split; [done|]. unfold with_server_certificates. by rewrite (sha256_all_map _ digest).
    + split; [done|]. intros Hne. unfold with_server_certificates. destruct certs as [|cert certs]; [done|]. cbn. by rewrite Hno.
  - intros c n' Hb. unfold with_system_roots in Hb. apply bind_Ok_inv in Hb as (certs & n1 & Hn & Hb). destruct (load_native_certs n) as [certs' n1'] eqn:El.
    injection Hn as -> ->. destruct (add_roots certs roots_empty) as [[[]|[]| |] roots] eqn:Er; try done.
    exists certs, n1, roots. split; [done|]. split; [done|].
    apply bind_Ok_inv in Hb as (? & n2 & Hr & Hb). apply lift_Ok_inv in Hr as [_ ->].
    apply bind_Ok_inv in Hb as (w & n3 & Hw & Hb). apply map_err_Ok_inv, lift_Ok_inv in Hw as [Hw ->].
    eapply build_built; [|done]. by apply view_roots.
  - intros c n' Hb. eexists. split; [by eapply with_verifier_built|]. done.
  - intros e n'. split; [|split; [|split]].
    + intros hashes. by apply with_verifier_fails.
    + intros certs. unfold with_server_certificates, bind at 1, lift at 1.
      destruct (never _) as [hashes|?| |]; [by apply with_verifier_fails|intros; simplify_eq; by left..].
    + by apply with_verifier_fails.
    + unfold with_system_roots. unfold bind at 1. destruct (load_native_certs n) as [certs n1]. cbn [snd].
      destruct (add_roots certs roots_empty) as [r roots]. unfold bind at 1, lift at 1.
      destruct (never r) as [[]|?| |]; [apply with_verifier_fails|intros; simplify_eq; by left..].
Qed.
Lemma quinn_client_trust_witness :
  let b := @MkClientBuilder sample_quinn sample_rustls sample_rustls_config _ _ _ sample_quinn_config [(false, true); (true, true)] 3 (Some 5) None in
  exists c v, with_server_certificates (H2:=sample_url_lib) (H3:=sample_http_lib) (X:=unit) [[9; 9]; [7; 1; 1]] b ([], 0) = (Ok c, ([], 1)) /\
    built b c (inr v) /\ dyn_server_cert v [7; 0; 0] [] tt [] 0 = Ok () /\ dyn_server_cert v [8; 0; 0] [] tt [] 0 = Err tt.
Proof.
  intros b. assert (Hd : has_sha256 (cb_provider b) (fun cert => [len cert; nth 0 cert 0])) by (intros cert; reflexivity).
  destruct (proj1 (quinn_client_trust (X:=unit) (H2:=sample_url_lib) (H3:=sample_http_lib) b ([], 0)) [[2; 9]; [3; 7]] _ _ eq_refl) as (v & Hb & _ & Hv & _).
  match type of Hb with built _ ?client _ => exists client, v end. split; [unfold with_server_certificates; rewrite (sha256_all_map _ _ _ Hd); reflexivity|]. split; [exact Hb|]. split; [exact (Hv _ [7; 0; 0] [] tt [] 0 Hd)|exact (Hv _ [8; 0; 0] [] tt [] 0 Hd)].
Defined.

(** What a server proves itself with.  A server built from certificates listens
    at the address of its builder, offers h3 over TLS 1.3 alone, with the transport
    and the limits of its builder and no handshake pending; it proves itself with
    the chain and key given, or, given several by name, with the last one whose name
    is that of the host asked for, and with none for another host.  A certificate
    rustls refuses, in whatever place, is the error, and nothing listens. *)
Theorem quinn_server_certificates `{Platform} `{RustlsConfig} `{UrlLib} `{HttpLib} {Net Endpoint ClientConfig K : Type}
  `{!QuinnConfig Net Endpoint ClientConfig} `{!RustlsLaws} `{!QuinnConfigLaws} (same_host : bytes -> bytes -> bool) `{!SniLaws same_host}
  (b : Server.ServerBuilder) (n : Net) :
  (forall chain key ep (s : QuinnHandshake.Server K) n', Server.with_certificate chain key b n = (Ok (ep, s), n') ->
     serving b n n' ep s (inl (chain, key))) /\
  (forall certs ep (s : QuinnHandshake.Server K) n', Server.with_certificates certs b n = (Ok (ep, s), n') ->
     exists resolver named, serving b n n' ep s (inr resolver) /\
       Forall2 (certified (Server.sb_provider b)) certs named /\
       forall host, sni_resolve resolver host = last_for same_host host named None) /\
  (forall before name chain key after e, certified_from_der chain key (Server.sb_provider b) = Err e ->
     forall r n', Server.with_certificates (K:=K) (before ++ (name, chain, key) :: after) b n = (r, n') ->
     n' = n /\ ((exists e, r = Err (SVRustls e)) \/ panics r)) /\
  (forall certs e n', Server.with_certificates (K:=K) certs b n = (Err e, n') -> n' = n \/ exists io, e = SVIoError io).
Proof.
  split; [|split; [|split]].
  - intros chain key ep s n' Hb. unfold Server.with_certificate in Hb. apply bind_Ok_inv in Hb as (c & n1 & Hc & Hb).
    apply map_err_Ok_inv, lift_Ok_inv in Hc as [Hc ->].
    destruct (server_builder (Server.sb_provider b) [TLS13]) as [w|e| |] eqn:Ew; try done. cbn in Hc.
    eapply serve_serving; [|done]. by eapply view_single.
  - intros certs ep s n' Hb. unfold Server.with_certificates in Hb.
    destruct (Server.add_certificates _ certs sni_empty) as [[[]|e| |] resolver] eqn:Ea; try done.
    destruct (add_certificates_all same_host _ _ _ _ Ea) as (named & Hall & Hres).
    apply bind_Ok_inv in Hb as ([] & n1 & Hc & Hb). apply map_err_Ok_inv, lift_Ok_inv in Hc as [_ ->].
    apply bind_Ok_inv in Hb as (w & n1 & Hw & Hb). apply map_err_Ok_inv, lift_Ok_inv in Hw as [Hw ->].
    exists resolver, named. split; [eapply serve_serving; [by apply view_resolver|done]|]. split; [done|].
    intros host. by rewrite Hres, resolve_empty.
  - intros before name chain key after e He r n'. unfold Server.with_certificates.
    pose proof (add_certificates_stops (Server.sb_provider b) before name chain key after e He sni_empty) as Hstop.
    destruct (Server.add_certificates _ _ sni_empty) as [[[]|e'| |] resolver]; [done|..];
      unfold bind, map_err, lift; intros Hr; simplify_eq; (split; [done|]); [left; by exists e'|right..]; unfold panics; auto.
  - intros certs e n'. unfold Server.with_certificates, bind, map_err, lift.
    destruct (Server.add_certificates _ certs sni_empty) as [[[]|e'| |] resolver]; [|intros; simplify_eq; by left..].
    destruct (server_builder _ _); intros Hb; [by apply serve_fails in Hb|simplify_eq; by left..].
Qed.
Lemma quinn_server_certificates_witness :
  let b := @Server.MkServerBuilder sample_quinn sample_rustls sample_rustls_config _ _ _ sample_quinn_config [(true, true)] (MkSocketAddr (V4 [127; 0; 0; 1]) 443) 3 (Some 5) 9 in
  exists resolver, serving (K:=unit) b ([], 0) ([], 1) 0 (MkServer [] (Some 5) 9) (inr resolver) /\
    sni_resolve resolver (lit "a") = Some ([[7]], 4) /\ sni_resolve resolver (lit "c") = None.
Proof.
  intros b.
  destruct (proj1 (proj2 (quinn_server_certificates (H:=Platform64) (H3:=sample_url_lib) (H4:=sample_http_lib) (K:=unit) (fun a b => bool_decide (a = b)) b ([], 0)))
    [(lit "a", [[5]], 2); (lit "b", [[6]], 3); (lit "a", [[7]], 4)] _ _ _ eq_refl) as (resolver & named & Hs & Hall & Hres).
  exists resolver. split; [exact Hs|]. rewrite !Hres.
  do 3 (apply Forall2_cons_inv_l in Hall as ([nm ck] & ? & [Hn Hd] & Hall & ->); cbn in Hn, Hd; injection Hd as <-; subst nm).
  apply Forall2_nil_inv_l in Hall as ->. by split.
Defined.
