(* ===== verification/Tls.v ===== *)
(** * TLS configurations over Quinn (webtrans-quinn/src/tls, webtrans-proto/src/error.rs)

    Certificates and keys from files or made on the spot, and the configurations
    for those who set up endpoints themselves.  What the other backend shares, the
    errors, the paths and the libraries below, is here too. *)
From S2P Require Import Prelude Buf Varint Frame Settings PrefixInt Qpack Connect QuinnStreams QuinnCapsules QuinnSession QuinnHandshake.
From S2P Require Import QuinnClient QuinnBuilders.

(** ** error.rs of webtrans-proto: the errors of [tls] *)
Inductive ProtoError :=
| PEClosed
| PEInvalidUrl (message : bytes)
| PEProtocol (message : bytes)
| PEIo (message : bytes)
| PETls (message : bytes)
| PEUnsupported (message : bytes)
| PESession (message : bytes)
| PEOther (message : bytes).

(** ** tls: certificates and keys from files *)

(** Unix paths as [std::path] splits them: the last component that is not [.], if it
    is not [..], and what is behind its last dot, if that is not its first byte. *)
Definition SLASH : Z := 47.
Definition DOT : Z := 46.
Fixpoint split_on (separator : Z) (l : bytes) : list bytes :=
  match l with
  | [] => [[]]
  | b :: l =>
      if b =? separator then [] :: split_on separator l
      else match split_on separator l with part :: parts => (b :: part) :: parts | [] => [[b]] end
  end.
Definition file_name (path : bytes) : option bytes :=
  let components := filter (fun c => c <> [] /\ c <> [DOT]) (split_on SLASH path) in
  match last components with
  | Some name => if bool_decide (name = [DOT; DOT]) then None else Some name
  | None => None
  end.
Definition extension (path : bytes) : option bytes :=
  match file_name path with
  | None => None
  | Some name =>
      match rev (split_on DOT name) with
      | extension :: ((_ :: _) as before) => if bool_decide (before = [[]]) then None else Some extension
      | _ => None
      end
  end.
Example extension_der : extension (lit "/etc/certs.d/server.der") = Some (lit "der"). Proof. reflexivity. Qed.
Example extension_hidden : extension (lit "certs/.der") = None. Proof. reflexivity. Qed.
Example extension_dir : extension (lit "certs.der/./server/.") = None. Proof. reflexivity. Qed.
Definition is_der (path : bytes) : bool := bool_decide (extension path = Some (lit "der")).

(** What else [tls] uses: files, PEM, rcgen and the versions rustls calls safe. *)
Class TlsLib `{RustlsConfig} (W : Type) := {
  safe_default_versions : list ProtocolVersion;
  rustls_to_string : rustls_Error -> bytes;
  fs_read : bytes -> M W io_error bytes;
  io_to_string : io_error -> bytes;
  PemError : Type;
  pem_to_string : PemError -> bytes;
  pem_slice_iter : bytes -> list (bytes + PemError);
  from_pem_slice : bytes -> outcome PemError PrivateKey;
  Pkcs8 : bytes -> PrivateKey;
  RcgenError : Type;
  rcgen_to_string : RcgenError -> bytes;
  SelfSigned : Type;
  generate_simple_self_signed : list bytes -> M W RcgenError SelfSigned;
  cert_der : SelfSigned -> bytes;
  cert_pem : SelfSigned -> bytes;
  key_der : SelfSigned -> bytes;
  key_pem : SelfSigned -> bytes;
  WebPkiServerVerifier : Type;
  with_webpki_verifier : WebPkiServerVerifier -> ClientWantsVerifier -> ClientWantsCert;
  system_certs : W -> list bytes * W;
  (** The process-wide provider, and those of the enabled features. *)
  providers : W -> option CryptoProvider * option CryptoProvider * option CryptoProvider
}.
(** [iter.collect::<Result<Vec<_>, _>>()] *)
Fixpoint collect {A E} (l : list (A + E)) : outcome E (list A) :=
  match l with
  | [] => Ok []
  | inl a :: l => let? l := collect l in Ok (a :: l)
  | inr e :: _ => Err e
  end.

(** ** The verifier that verifies nothing *)
Section Skip.
Context `{Rustls}.
Record SkipServerVerification := MkSkipServerVerification { skip_provider : CryptoProvider }.
Definition skip_verify_server_cert (self : SkipServerVerification) (_end_entity : bytes) (_intermediates : list bytes)
  (_server_name : ServerName) (_ocsp : bytes) (_now : UnixTime) : outcome rustls_Error unit := Ok ().
Definition skip_verify_tls12_signature (self : SkipServerVerification) (message cert : bytes) (dss : DigitallySigned)
  : outcome rustls_Error unit := rustls_verify_tls12 message cert dss (signature_algorithms (skip_provider self)).
Definition skip_verify_tls13_signature (self : SkipServerVerification) (message cert : bytes) (dss : DigitallySigned)
  : outcome rustls_Error unit := rustls_verify_tls13 message cert dss (signature_algorithms (skip_provider self)).
#[export] Instance SkipServerVerification_verifier : ServerCertVerifier SkipServerVerification := {|
  verify_server_cert := skip_verify_server_cert;
  verify_tls12_signature := skip_verify_tls12_signature;
  verify_tls13_signature := skip_verify_tls13_signature;
  supported_verify_schemes self := supported_schemes (signature_algorithms (skip_provider self)) |}.
End Skip.

(** ** The configurations *)
Module tls.
Section Tls.
Context `{RustlsConfig} {W : Type} `{!TlsLib W}.
Definition get_native_certs : M W ProtoError RootCertStore := fun w =>
  let '(certs, w) := system_certs w in
  let '(r, roots) := add_roots certs roots_empty in
  (let? _ := never r in Ok roots, w).
Definition load_certs (cert_path : bytes) : M W ProtoError (list bytes) :=
  let* cert_bytes := map_err (fun e => PEIo (io_to_string e)) (fs_read cert_path) in
  if is_der cert_path then ret [cert_bytes]
  else map_err (fun e => PETls (pem_to_string e)) (lift (collect (pem_slice_iter cert_bytes))).
Definition load_key (key_path : bytes) : M W ProtoError PrivateKey :=
  let* key := map_err (fun e => PEIo (io_to_string e)) (fs_read key_path) in
  if is_der key_path then ret (Pkcs8 key)
  else map_err (fun e => PETls (pem_to_string e)) (lift (from_pem_slice key)).
Definition load_cert (cert_path key_path : bytes) : M W ProtoError (list bytes * PrivateKey) :=
  let* cert_chain := load_certs cert_path in
  let* key := load_key key_path in
  ret (cert_chain, key).
Definition generate_self_signed_pair_der (subject_alt_names : list bytes) : M W ProtoError (list bytes * PrivateKey) :=
  let* cert := map_err (fun e => PETls (rcgen_to_string e)) (generate_simple_self_signed subject_alt_names) in
  ret ([cert_der cert], Pkcs8 (key_der cert)).
Definition generate_self_signed_pair_pem (subject_alt_names : list bytes) : M W ProtoError (list bytes * bytes) :=
  let* cert := map_err (fun e => PETls (rcgen_to_string e)) (generate_simple_self_signed subject_alt_names) in
  ret ([cert_pem cert], key_pem cert).

Definition tls_error {A} (o : outcome rustls_Error A) : M W ProtoError A := map_err (fun e => PETls (rustls_to_string e)) (lift o).
Definition provider_of_crate : M W ProtoError CryptoProvider := fun w =>
  let '(installed, ring, aws_lc_rs) := providers w in
  (never (crypto.default_provider installed ring aws_lc_rs), w).

(** *** Server configurations: a builder is the configuration it owns *)
Definition server_with_alpn_protocols (protocols : list bytes) (inner : TlsServerConfig) : TlsServerConfig :=
  server_alpn protocols inner.
Definition server_build (inner : TlsServerConfig) : TlsServerConfig := inner.
Definition server_with_pair (certs : list bytes) (key : PrivateKey) : M W ProtoError TlsServerConfig :=
  let* provider := provider_of_crate in
  let* w := tls_error (server_builder provider safe_default_versions) in
  tls_error (with_single_cert certs key (server_no_auth w)).
Definition server_new_insecure (subject_alt_names : list bytes) : M W ProtoError TlsServerConfig :=
  let* (certs, key) := generate_self_signed_pair_der subject_alt_names in
  server_with_pair certs key.
Definition server_new_with_cert (cert_path key_path : bytes) : M W ProtoError TlsServerConfig :=
  let* (certs, key) := load_cert cert_path key_path in
  server_with_pair certs key.
Definition server_new_with_self_signed_certs (subject_alt_names : list bytes) : M W ProtoError TlsServerConfig :=
  server_new_insecure subject_alt_names.

(** *** Client configurations *)
Definition client_with_alpn_protocols (protocols : list bytes) (inner : TlsClientConfig) : TlsClientConfig :=
  client_alpn protocols inner.
Definition client_build (inner : TlsClientConfig) : TlsClientConfig := inner.
(** The provider of the verifier is looked up after that of the configuration. *)
Definition client_new_insecure : M W ProtoError TlsClientConfig :=
  let* provider := provider_of_crate in
  let* w := tls_error (client_builder provider safe_default_versions) in
  let* skip := provider_of_crate in
  ret (client_no_auth (with_custom_certificate_verifier (as_dyn (MkSkipServerVerification skip)) w)).
Definition client_new_with_native_certs : M W ProtoError TlsClientConfig :=
  let* native_certs := get_native_certs in
  let* provider := provider_of_crate in
  let* w := tls_error (client_builder provider safe_default_versions) in
  ret (client_no_auth (with_root_certificates native_certs w)).
Definition client_new_with_webpki_verifier (verifier : WebPkiServerVerifier) : M W ProtoError TlsClientConfig :=
  let* provider := provider_of_crate in
  let* w := tls_error (client_builder provider safe_default_versions) in
  ret (client_no_auth (with_webpki_verifier verifier w)).

(** *** Both *)
Record TlsConfig := MkTlsConfig { client_config : TlsClientConfig; server_config : TlsServerConfig }.
Definition h3 : list bytes := [lit "h3"].
Definition both (client : M W ProtoError TlsClientConfig) (server : M W ProtoError TlsServerConfig) : M W ProtoError TlsConfig :=
  let* client_config := client in
  let client_config := client_build (client_with_alpn_protocols h3 client_config) in
  let* server_config := server in
  let server_config := server_build (server_with_alpn_protocols h3 server_config) in
  ret (MkTlsConfig client_config server_config).
Definition with_cert (cert_path key_path : bytes) : M W ProtoError TlsConfig :=
  both client_new_with_native_certs (server_new_with_cert cert_path key_path).
Definition with_self_signed_certs : M W ProtoError TlsConfig :=
  both client_new_with_native_certs (server_new_with_self_signed_certs [lit "localhost"]).
Definition new_native_config : M W ProtoError TlsConfig :=
  both client_new_with_native_certs (server_new_with_self_signed_certs [lit "localhost"]).
Definition new_insecure_config : M W ProtoError TlsConfig :=
  both client_new_insecure (server_new_with_self_signed_certs [lit "localhost"]).
End Tls.
End tls.

(** ** What they trust and offer *)
Section TlsLemmas.
Context `{RustlsConfig} `{!RustlsLaws} {W : Type} `{!TlsLib W}.
Abbreviation client_auth c := (tls_auth (client_view (tls.client_config c))).
(** Both sides of a configuration offer HTTP/3. *)
Definition offers_h3 (c : tls.TlsConfig) : Prop :=
  tls_alpn (client_view (tls.client_config c)) = [lit "h3"] /\ tls_alpn (server_view (tls.server_config c)) = [lit "h3"].
Lemma both_ok client server w c w' :
  tls.both (W:=W) client server w = (Ok c, w') ->
  offers_h3 c /\ exists cl w1, client w = (Ok cl, w1) /\ client_auth c = tls_auth (client_view cl).
Proof.
  intros Hb. unfold tls.both in Hb. apply bind_Ok_inv in Hb as (cl & w1 & Hc & Hb).
  apply bind_Ok_inv in Hb as (sv & w2 & Hs & Hb). injection Hb as <- <-. unfold offers_h3. cbn [tls.client_config tls.server_config].
  unfold tls.client_build, tls.client_with_alpn_protocols, tls.server_build, tls.server_with_alpn_protocols.
  rewrite view_client_alpn, view_server_alpn. split; [done|]. by exists cl, w1.
Qed.
Lemma client_native_trusts w cl w1 :
  tls.client_new_with_native_certs (W:=W) w = (Ok cl, w1) ->
  exists roots, add_roots (system_certs w).1 roots_empty = (Ok (), roots) /\ tls_auth (client_view cl) = inl roots.
Proof.
  intros Hc. unfold tls.client_new_with_native_certs in Hc. apply bind_Ok_inv in Hc as (roots & w2 & Hr & Hc).
  unfold tls.get_native_certs in Hr. destruct (system_certs w) as [certs w0].
  destruct (add_roots certs roots_empty) as [[[]|[]| |] roots'] eqn:Ea; cbn in Hr; simplify_eq.
  exists roots. split; [done|]. apply bind_Ok_inv in Hc as (p & w3 & Hp & Hc).
  apply bind_Ok_inv in Hc as (b & w4 & Hb & Hc). apply map_err_Ok_inv, lift_Ok_inv in Hb as [Hb ->]. injection Hc as <- <-.
  by rewrite (view_roots _ _ _ _ Hb).
Qed.
Lemma client_insecure_trusts w cl w1 :
  tls.client_new_insecure (W:=W) w = (Ok cl, w1) ->
  exists v, tls_auth (client_view cl) = inr v /\ forall leaf inter name ocsp now, dyn_server_cert v leaf inter name ocsp now = Ok ().
Proof.
  intros Hc. unfold tls.client_new_insecure in Hc. apply bind_Ok_inv in Hc as (p & w2 & Hp & Hc).
  apply bind_Ok_inv in Hc as (b & w3 & Hb & Hc). apply map_err_Ok_inv, lift_Ok_inv in Hb as [Hb ->].
  apply bind_Ok_inv in Hc as (skip & w4 & Hs & Hc). injection Hc as <- <-.
  eexists. by rewrite (view_verifier _ _ _ _ Hb).
Qed.
End TlsLemmas.

(** The configurations of [tls] offer HTTP/3 on both sides; all but the insecure one
    trust the certificates of the system that rustls takes; the insecure one trusts
    everyone.  What a file is taken for depends on its extension alone. *)
Theorem tls_configurations `{RustlsConfig} `{!RustlsLaws} {W : Type} `{!TlsLib W} (w w' : W) (c : tls.TlsConfig) :
  let native := exists roots, add_roots (system_certs w).1 roots_empty = (Ok (), roots) /\
    tls_auth (client_view (tls.client_config c)) = inl roots in
  (forall cert_path key_path, tls.with_cert cert_path key_path w = (Ok c, w') -> offers_h3 c /\ native) /\
  (tls.with_self_signed_certs w = (Ok c, w') -> offers_h3 c /\ native) /\
  (tls.new_native_config w = (Ok c, w') -> offers_h3 c /\ native) /\
  (tls.new_insecure_config w = (Ok c, w') -> offers_h3 c /\
     exists v, tls_auth (client_view (tls.client_config c)) = inr v /\
       forall leaf inter name ocsp now, dyn_server_cert v leaf inter name ocsp now = Ok ()) /\
  (forall path content, fs_read path w = (Ok content, w') -> is_der path = true ->
     tls.load_certs path w = (Ok [content], w') /\ tls.load_key path w = (Ok (Pkcs8 content), w')).
Proof.
  intros native.
  assert (Hnative : forall server, tls.both tls.client_new_with_native_certs server w = (Ok c, w') -> offers_h3 c /\ native).
  { intros server Hb. apply both_ok in Hb as (Ho & cl & w1 & Hc & Ht). split; [done|].
    apply client_native_trusts in Hc as (roots & Hr & Hv). exists roots. by rewrite Ht. }
  split; [intros ? ?; apply Hnative|]. split; [apply Hnative|]. split; [apply Hnative|]. split.
  - intros Hb. apply both_ok in Hb as (Ho & cl & w1 & Hc & Ht). split; [done|].
    apply client_insecure_trusts in Hc as (v & Hv & Hall). exists v. by rewrite Ht.
  - intros path content Hr Hd. unfold tls.load_certs, tls.load_key, bind, map_err. by rewrite Hr, Hd.
Qed.
