(* ===== verification/QuionStreams.v ===== *)
(** * The Quion streams (webtrans-quion/src: error.rs, send.rs, recv.rs)

    The wrappers of the second backend.  They differ from the Quinn ones in their
    errors, in keeping the priority, in a handle on the socket driver, and in
    resets that still deliver the header of the stream.  Quion is a parameter: of
    its errors the source looks into those named here and passes the others on. *)
From S2P Require Import Prelude Buf Utf8 Varint ErrorCode Frame Streams QuinnStreams QuinnCapsules QuinnSession.

(** ** Quion: the connection errors have the form of Quinn's *)
Class Quion := {
  quion_base :: Quinn;
  other_write_error : Type;
  other_read_error : Type
}.

Section Errors.
Context `{Quion}.

Inductive quion_WriteError :=
| NWStopped (code : Z)
| NWConnectionLost (e : ConnectionError)
| NWOther (e : other_write_error).
Inductive quion_ReadError :=
| NRReset (code : Z)
| NRConnectionLost (e : ConnectionError)
| NRIllegalOrderedState
| NROther (e : other_read_error).

(** ** error.rs *)
Inductive WebTransportError :=
| Closed (code : Z) (reason : bytes)
| UnknownSession
| WTReadError (e : quion_ReadError)
| WTWriteError (e : quion_WriteError).
Inductive SessionError :=
| SEConnectionError (e : ConnectionError)
| SEWebTransportError (e : WebTransportError)
| SESendDatagramError (e : SendDatagramError).

(** The reason is a [String] already. *)
Definition session_error_from (e : ConnectionError) : SessionError :=
  match application_closed e with
  | Some (code, reason) =>
      match error_from_http3 code with
      | Some code => SEWebTransportError (Closed code reason)
      | None => SEConnectionError e
      end
  | None => SEConnectionError e
  end.

Inductive WriteError :=
| WETransport (e : quion_WriteError)
| WEStopped (code : Z)
| WEInvalidStopped (code : Z)
| WESessionError (e : SessionError)
| WEClosedStream.
Definition write_error_from (e : quion_WriteError) : WriteError :=
  match e with
  | NWStopped code =>
      match error_from_http3 code with
      | Some code => WEStopped code
      | None => WEInvalidStopped code
      end
  | NWConnectionLost e => WESessionError (session_error_from e)
  | other => WETransport other
  end.

Inductive ReadError :=
| RETransport (e : quion_ReadError)
| RESessionError (e : SessionError)
| REReset (code : Z)
| REInvalidReset (code : Z)
| REClosedStream
| REIllegalOrderedRead.
Definition read_error_from (value : quion_ReadError) : ReadError :=
  match value with
  | NRReset code =>
      match error_from_http3 code with
      | Some code => REReset code
      | None => REInvalidReset code
      end
  | NRConnectionLost e => RESessionError (session_error_from e)
  | NRIllegalOrderedState => REIllegalOrderedRead
  | other => RETransport other
  end.

(** [impl webtrans_trait::Error] *)
Definition session_session_error (e : SessionError) : option (Z * bytes) :=
  match e with
  | SEWebTransportError (Closed code reason) => Some (code, reason)
  | _ => None
  end.
Definition write_session_error (e : WriteError) : option (Z * bytes) :=
  match e with WESessionError e => session_session_error e | _ => None end.
Definition write_stream_error (e : WriteError) : option Z :=
  match e with WEStopped code => Some code | _ => None end.
Definition read_session_error (e : ReadError) : option (Z * bytes) :=
  match e with RESessionError e => session_session_error e | _ => None end.
Definition read_stream_error (e : ReadError) : option Z :=
  match e with REReset code => Some code | _ => None end.
End Errors.

(** ** send.rs *)
Class QuionSend `{Quion} (S : Type) := {
  ns_reset : Z -> M S quion_WriteError unit;
  ns_reset_at : Z -> Z -> M S quion_WriteError unit;
  ns_stopped : M S quion_WriteError (option Z);
  ns_write : bytes -> M S quion_WriteError Z;
  ns_write_all : bytes -> M S quion_WriteError unit;
  ns_finish : M S quion_WriteError unit;
  ns_set_priority : Z -> S -> S;
  ns_id : S -> option Z
}.

(** [driver] is a handle that keeps the socket driver running. *)
Record SendStream (S D : Type) := MkSendStream {
  stream : S; send_driver : option D; reliable_prefix : option Z; stream_priority : Z }.
Arguments MkSendStream {S D}. Arguments stream {S D}. Arguments send_driver {S D}.
Arguments reliable_prefix {S D}. Arguments stream_priority {S D}.

Module Send.
Section Send.
Context `{Quion} {S D : Type} `{!QuionSend S}.
Abbreviation Stream := (SendStream S D).

Definition new (stream : S) : Stream := MkSendStream stream None None 0.
Definition with_reliable_prefix (stream : S) (size : Z) (enabled : bool) : Stream :=
  MkSendStream stream None (if enabled then Some (as_u32 size) else None) 0.
Definition with_driver (driver : option D) (self : Stream) : Stream :=
  MkSendStream (stream self) driver (reliable_prefix self) (stream_priority self).

Definition on_stream {E A} (m : M S E A) : M Stream E A := fun self =>
  let '(r, s) := m (stream self) in (r, MkSendStream s (send_driver self) (reliable_prefix self) (stream_priority self)).

Definition reset (code : Z) : M Stream WriteError unit := fun self =>
  (let* code := on_stream (quinn_varint (error_to_http3 code)) in
   map_err write_error_from (on_stream
     match reliable_prefix self with
     | Some size => ns_reset_at code size
     | None => ns_reset code
     end)) self.
Definition stopped : M Stream WriteError (option Z) :=
  let* code := map_err write_error_from (on_stream ns_stopped) in
  ret (match code with Some code => error_from_http3 code | None => None end).
Definition write (buf : bytes) : M Stream WriteError Z := map_err write_error_from (on_stream (ns_write buf)).
Definition write_all (buf : bytes) : M Stream WriteError unit := map_err write_error_from (on_stream (ns_write_all buf)).
Definition write_chunk (buf : bytes) : M Stream WriteError unit := write_all buf.

(** [while !buf.is_empty()] for one chunk, and the loop over the chunks, which
    are advanced in place. *)
Fixpoint write_one (fuel : nat) : M (Stream * bytes) WriteError unit :=
  match fuel with
  | O => out_of_fuel
  | Datatypes.S fuel => fun st =>
      if bool_decide (st.2 = []) then (Ok (), st) else
      (let* written := on_fst (write st.2) in
       on_snd (advance written) ;;;
       write_one fuel) st
  end.
Fixpoint write_all_chunks (bufs : list bytes) (self : Stream) : outcome WriteError unit * (Stream * list bytes) :=
  match bufs with
  | [] => (Ok (), (self, []))
  | buf :: bufs =>
      let '(r, (self, buf)) := write_one (Datatypes.S (length buf)) (self, buf) in
      match r with
      | Ok _ => let '(r, (self, bufs)) := write_all_chunks bufs self in (r, (self, buf :: bufs))
      | r => (r, (self, buf :: bufs))
      end
  end.
Definition finish : M Stream WriteError unit := map_err write_error_from (on_stream ns_finish).
Definition set_priority (order : Z) (self : Stream) : Stream :=
  MkSendStream (ns_set_priority order (stream self)) (send_driver self) (reliable_prefix self) order.
Definition priority (self : Stream) : Z := stream_priority self.
Definition quic_id (self : Stream) : option Z := ns_id (stream self).

(** [impl webtrans_trait::SendStream] *)
Definition trait_set_priority (order : Z) (self : Stream) : Stream := set_priority order self.
Definition trait_reset (code : Z) : M Stream Empty_set unit := SendStream.drop_err (reset code).
Definition trait_finish : M Stream WriteError unit := finish.
Definition trait_write_buf {B} `{Buf B} `{!ChunkBuf B} : M (Stream * B) WriteError Z :=
  let* chunk := (fun st => (Ok (chunk st.2), st)) in
  let* size := on_fst (write chunk) in
  on_snd (advance size) ;;;
  ret size.
Definition trait_closed : M Stream WriteError unit :=
  let* r := stopped in
  match r with
  | Some code => throw (WEStopped code)
  | None => ret ()
  end.
#[export] Instance trait_send : Streams.SendStream Stream WriteError := {|
  Streams.write := write;
  Streams.write_buf B _ _ := trait_write_buf
|}.
End Send.
End Send.

(** ** recv.rs *)
Class QuionRecv `{Quion} (S : Type) := {
  NChunk : Type;
  nchunk_bytes : NChunk -> bytes;
  nr_stop : Z -> M S quion_ReadError unit;
  nr_read : bytes -> M S quion_ReadError (option Z * bytes);
  nr_read_exact : bytes -> M S quion_ReadError bytes;
  nr_read_chunk : Z -> bool -> M S quion_ReadError (option NChunk);
  nr_read_to_end : Z -> M S quion_ReadError bytes;
  nr_received_reset : M S quion_ReadError (option Z);
  nr_id : S -> option Z
}.
Record RecvStream (S D : Type) := MkRecvStream { inner : S; recv_driver : option D }.
Arguments MkRecvStream {S D}. Arguments inner {S D}. Arguments recv_driver {S D}.

Module Recv.
Section Recv.
Context `{Quion} {S D : Type} `{!QuionRecv S}.
Abbreviation Stream := (RecvStream S D).

Definition new (stream : S) : Stream := MkRecvStream stream None.
Definition with_driver (driver : option D) (self : Stream) : Stream := MkRecvStream (inner self) driver.
Definition on_inner {E A} (m : M S E A) : M Stream E A := fun self =>
  let '(r, s) := m (inner self) in (r, MkRecvStream s (recv_driver self)).

Definition stop (code : Z) : M Stream ReadError unit :=
  let* code := on_inner (quinn_varint (error_to_http3 code)) in
  map_err read_error_from (on_inner (nr_stop code)).
Definition read (buf : bytes) : M Stream ReadError (option Z * bytes) := map_err read_error_from (on_inner (nr_read buf)).
Definition read_exact (buf : bytes) : M Stream ReadError bytes := map_err read_error_from (on_inner (nr_read_exact buf)).
Definition read_chunk (max_length : Z) (ordered : bool) : M Stream ReadError (option NChunk) :=
  map_err read_error_from (on_inner (nr_read_chunk max_length ordered)).
Definition read_to_end (size_limit : Z) : M Stream ReadError bytes :=
  map_err read_error_from (on_inner (nr_read_to_end size_limit)).
Definition received_reset : M Stream ReadError (option Z) :=
  let* code := map_err read_error_from (on_inner nr_received_reset) in
  ret (match code with Some code => error_from_http3 code | None => None end).
Definition quic_id (self : Stream) : option Z := nr_id (inner self).

(** [impl webtrans_trait::RecvStream] *)
Definition trait_stop (code : Z) : M Stream Empty_set unit := SendStream.drop_err (stop code).
Definition trait_read_chunk (max : Z) : M Stream ReadError (option bytes) :=
  let* r := read_chunk max true in ret (option_map nchunk_bytes r).
Definition trait_closed : M Stream ReadError unit :=
  let* r := received_reset in
  match r with
  | Some code => throw (REReset code)
  | None => ret ()
  end.
#[export] Instance trait_recv : Streams.RecvStream Stream ReadError := {| Streams.read := read |}.
End Recv.
End Recv.

(** ** Documented behaviour of Quion's streams *)
Class QuionSendLaws `{Quion} {S} `{!QuionSend S} (sent : S -> bytes) : Prop := {
  ns_write_accepts l s : accepts sent l s (ns_write l s).1 (ns_write l s).2
}.
Class QuionRecvLaws `{Quion} {S} `{!QuionRecv S} (rest : S -> bytes) : Prop := {
  nr_read_delivers dst s : dst <> [] -> let '(o, s') := nr_read dst s in
    completes o /\
    match o with
    | Ok (Some n, dst') => len dst' = len dst /\ 0 < n <= len dst /\ rest s = take (Z.to_nat n) dst' ++ rest s'
    | Ok (None, _) => rest s = [] /\ rest s' = []
    | _ => True
    end
}.

Section Lemmas.
Context `{Quion} {S D : Type} `{!QuionSend S} (sent : S -> bytes) `{!QuionSendLaws sent}.
Abbreviation Stream := (SendStream S D).
Definition stream_sent (self : Stream) : bytes := sent (stream self).

Lemma quion_write_accepts l (s : Stream) : accepts stream_sent l s (Send.write l s).1 (Send.write l s).2.
Proof.
  unfold Send.write, map_err, Send.on_stream, stream_sent. pose proof (ns_write_accepts l (stream s)) as [Hc Hw].
  destruct (ns_write l (stream s)) as [r s']. cbn [fst snd] in *.
  destruct (completes_cases r Hc) as [[n ->]|[e ->]]; cbn; (split; [apply completes_Ok || apply completes_Err|exact Hw]).
Qed.
(** The assertions that the provided [write_buf] makes hold. *)
Lemma quion_write_buf_default {B} `{Buf B} `{!ChunkBuf B} (s : Stream) (b : B) :
  Send.trait_write_buf (s, b) = SendStream.default_write_buf Send.write (s, b).
Proof.
  unfold Send.trait_write_buf, SendStream.default_write_buf, bind, on_fst. cbn [fst snd].
  pose proof (quion_write_accepts (chunk b) s) as (Hc & n & Hn & _ & Hr).
  destruct (Send.write (chunk b) s) as [r s']. cbn [fst snd] in *.
  destruct (completes_cases r Hc) as [[k ->]|[e ->]]; [|done]. destruct Hr as [-> Hpos].
  assert (Hok : (0 <? n) || bool_decide (chunk b = []) = true).
  { destruct (bool_decide_reflect (chunk b = [])) as [|Hne]; [by rewrite orb_true_r|].
    by rewrite (proj2 (Z.ltb_lt _ _)) by by apply Hpos. }
  rewrite Hok, (proj2 (Z.leb_le _ _)) by lia. done.
Qed.

(** What is left of a buffer is what is not known to be accepted: bytes accepted
    before an error are not taken off. *)
Lemma write_one_sends fuel : forall l (s : Stream), (length l < fuel)%nat ->
  let '(r, (s', l')) := Send.write_one fuel (s, l) in
  completes r /\ exists n m, 0 <= m <= n /\ n <= len l /\ stream_sent s' = stream_sent s ++ take (Z.to_nat n) l /\
    l' = drop (Z.to_nat m) l /\ (r = Ok () -> m = len l).
Proof.
  induction fuel as [|fuel IH]; intros l s Hf; [lia|]. cbn [Send.write_one fst snd].
  case_bool_decide as Hl.
  { subst l. split; [done|]. exists 0, 0. cbn. by rewrite app_nil_r. }
  unfold bind, on_fst. cbn [fst snd]. pose proof (quion_write_accepts l s) as (Hc & n & Hn & Hs & Hr).
  destruct (Send.write l s) as [r s']. cbn [fst snd] in *.
  destruct (completes_cases r Hc) as [[k ->]|[e ->]].
  2: { split; [done|]. exists n, 0. split; [lia|]. split; [lia|]. by split_and!. }
  destruct Hr as [-> Hpos]. specialize (Hpos Hl).
  assert (Hadv : on_snd (advance n) (s', l) = (Ok () : outcome WriteError unit, (s', drop (Z.to_nat n) l))).
  { unfold on_snd, advance, bind. cbn [fst snd]. by rewrite copy_to_bytes_slice_take. }
  rewrite Hadv. assert (Hlen : len (drop (Z.to_nat n) l) = len l - n) by (unfold len in *; rewrite length_drop; lia).
  specialize (IH (drop (Z.to_nat n) l) s' ltac:(unfold len in *; lia)).
  destruct (Send.write_one fuel (s', drop (Z.to_nat n) l)) as [r [s'' l'']].
  destruct IH as (Hc' & n' & m' & Hm & Hn' & Hs' & -> & Hr). split; [done|].
  exists (n + n'), (n + m'). rewrite Hlen in *. split; [lia|]. split; [lia|]. split.
  - rewrite Hs', Hs, <- app_assoc. f_equal. apply take_len_add; lia.
  - split; [apply drop_len_add; lia|]. intros E. specialize (Hr E). lia.
Qed.

Lemma write_all_chunks_sends ls : forall (s : Stream),
  let '(r, (s', ls')) := Send.write_all_chunks ls s in
  completes r /\ exists n m, 0 <= m <= n /\ n <= len (concat ls) /\
    stream_sent s' = stream_sent s ++ take (Z.to_nat n) (concat ls) /\
    concat ls' = drop (Z.to_nat m) (concat ls) /\ length ls' = length ls /\ (r = Ok () -> m = len (concat ls)).
Proof.
  induction ls as [|l ls IH]; intros s.
  { cbn. split; [apply completes_Ok|]. exists 0, 0. cbn. by rewrite app_nil_r. }
  cbn [Send.write_all_chunks concat]. pose proof (write_one_sends (Datatypes.S (length l)) l s ltac:(lia)) as H1.
  destruct (Send.write_one _ (s, l)) as [r [s' l']]. destruct H1 as (Hc & n & m & Hm & Hn & Hs & -> & Hr).
  assert (Hlen : len (l ++ concat ls) = len l + len (concat ls)) by apply len_app.
  destruct (completes_cases r Hc) as [[[] ->]|[e ->]].
  - specialize (Hr eq_refl). assert (n = len l) as -> by lia. subst m. specialize (IH s').
    destruct (Send.write_all_chunks ls s') as [r [s'' ls']]. destruct IH as (Hc' & n' & m' & Hm' & Hn' & Hs' & Hls & Hlen' & Hr').
    split; [done|]. exists (len l + n'), (len l + m'). rewrite Hlen. split; [lia|]. split; [lia|].
    cbn [concat length]. split; [|split; [|split; [lia|intros E; specialize (Hr' E); lia]]].
    + rewrite Hs', Hs, <- app_assoc. f_equal. rewrite <- take_len_add by (pose_len; lia). by rewrite take_len_all, take_len_app, drop_len_app.
    + rewrite Hls, <- drop_len_add by (pose_len; lia). by rewrite drop_len_app, drop_len_all.
  - split; [done|]. exists n, m. rewrite Hlen. pose_len. split; [lia|]. split; [lia|]. cbn [concat length].
    split; [rewrite Hs, take_app_le; [done|unfold len in *; lia]|].
    split; [|by split]. rewrite drop_app_le; [done|unfold len in *; lia].
Qed.
End Lemmas.

(** ** A sample Quion: the sample streams of Quinn, with what was reset kept *)
Definition sample_quion : Quion := {|
  quion_base := sample_quinn; other_write_error := Empty_set; other_read_error := Empty_set |}.
Record QStream := MkQStream { qs_out : WStream; qs_cut : option (Z * option Z) }.
Definition sample_quion_send : QuionSend (H:=sample_quion) QStream := {|
  ns_reset code s := (Ok (), MkQStream (qs_out s) (Some (code, None)));
  ns_reset_at code size s := (Ok (), MkQStream (qs_out s) (Some (code, Some size)));
  ns_stopped := ret None;
  ns_write l s := let w := qs_out s in
    (Ok (Z.min (len l) (1 + Z.of_nat (ws_max w))),
     MkQStream (MkWStream (ws_sent w ++ take (Datatypes.S (ws_max w)) l) (ws_max w)) (qs_cut s));
  ns_write_all l s := (Ok (), MkQStream (MkWStream (ws_sent (qs_out s) ++ l) (ws_max (qs_out s))) (qs_cut s));
  ns_finish := ret (); ns_set_priority _ s := s; ns_id _ := Some 0 |}.
Lemma sample_quion_send_laws : QuionSendLaws (QuionSend0:=sample_quion_send) (fun s => ws_sent (qs_out s)).
Proof.
  split. intros l [w c]. destruct (wstream_write l w) as [Hc Hw]. split; [apply completes_Ok|]. exact Hw.
Qed.
Definition sample_quion_recv : QuionRecv (H:=sample_quion) RStream := {|
  NChunk := bytes; nchunk_bytes c := c; nr_stop _ := ret ();
  nr_read dst r := match Streams.read (E:=unit) dst r with (Ok a, r) => (Ok a, r) | (_, r) => (Err NRIllegalOrderedState, r) end;
  nr_read_exact dst := throw NRIllegalOrderedState;
  nr_read_chunk max _ r := match rs_rest r with
    | [] => (Ok None, r)
    | l => (Ok (Some (take (Z.to_nat max) l)), MkRStream (drop (Z.to_nat max) l) (rs_max r)) end;
  nr_read_to_end limit r := (Ok (rs_rest r), MkRStream [] (rs_max r));
  nr_received_reset := ret None; nr_id _ := Some 0 |}.
Lemma sample_quion_recv_laws : QuionRecvLaws (QuionRecv0:=sample_quion_recv) rs_rest.
Proof.
  split. intros dst r Hdst. pose proof (read_delivers (rest:=rs_rest) dst r Hdst) as Hr. cbn [nr_read sample_quion_recv].
  destruct (Streams.read dst r) as [[[[n|] dst']| | |] r']; destruct Hr as [Hc Hr];
    try (exfalso; apply Hc; (by left) || (by right)).
  all: split; [apply completes_Ok || apply completes_Err|exact Hr].
Qed.

(** ** Properties *)
Section Codes.
Context `{Quion} {S T D : Type} `{!QuionSend S} `{!QuionRecv T}.

Lemma quion_reset_wire code (s : SendStream S D) :
  is_u32 code ->
  Send.reset code s = map_err write_error_from (Send.on_stream match reliable_prefix s with
    | Some size => ns_reset_at (error_to_http3 code) size
    | None => ns_reset (error_to_http3 code)
    end) s.
Proof.
  intros Hc. unfold Send.reset.
  assert (E : Send.on_stream (quinn_varint (E:=WriteError) (error_to_http3 code)) s = (Ok (error_to_http3 code), s)).
  { unfold Send.on_stream. rewrite quinn_varint_code by done. by destruct s. }
  by mstep E.
Qed.
Lemma quion_stop_wire code (t : RecvStream T D) :
  is_u32 code -> Recv.stop code t = map_err read_error_from (Recv.on_inner (nr_stop (error_to_http3 code))) t.
Proof.
  intros Hc. unfold Recv.stop.
  assert (E : Recv.on_inner (quinn_varint (E:=ReadError) (error_to_http3 code)) t = (Ok (error_to_http3 code), t)).
  { unfold Recv.on_inner. rewrite quinn_varint_code by done. by destruct t. }
  by mstep E.
Qed.
Lemma session_error_closed code e reason :
  is_u32 code -> application_closed e = Some (error_to_http3 code, reason) ->
  session_error_from e = SEWebTransportError (Closed code reason).
Proof. intros Hc He. unfold session_error_from. by rewrite He, from_to_http3. Qed.
End Codes.

(** C35: over Quion, too, an application code keeps its value from end to end.
    Resetting or stopping a stream with any 32-bit code hands Quion the mapped code
    without a panic, a reset of a stream with a reliable prefix as a reset that
    still delivers the prefix; the code coming back as a reset, a STOP_SENDING or
    the close of the connection is reported as that code, and both waits for the
    end of a stream end with it as their error.  A raw code outside the
    WebTransport range is no stream error. *)
Theorem quion_codes `{Quion} {S T D : Type} `{!QuionSend S} `{!QuionRecv T} (code : Z) (Hc : is_u32 code) :
  let wire := error_to_http3 code in
  (forall (s : SendStream S D) r st',
     match reliable_prefix s with Some size => ns_reset_at wire size | None => ns_reset wire end (stream s) = (r, st') ->
     (Send.reset code s).2 = MkSendStream st' (send_driver s) (reliable_prefix s) (stream_priority s) /\
     (r = Ok () -> (Send.reset code s).1 = Ok ())) /\
  (forall (t : RecvStream T D) r t', nr_stop wire (inner t) = (r, t') ->
     (Recv.stop code t).2 = MkRecvStream t' (recv_driver t) /\ (r = Ok () -> (Recv.stop code t).1 = Ok ())) /\
  (forall (s : SendStream S D) s', ns_stopped (stream s) = (Ok (Some wire), s') ->
     (Send.trait_closed s).1 = Err (WEStopped code)) /\
  (forall (t : RecvStream T D) t', nr_received_reset (inner t) = (Ok (Some wire), t') ->
     (Recv.received_reset t).1 = Ok (Some code) /\ (Recv.trait_closed t).1 = Err (REReset code)) /\
  write_stream_error (write_error_from (NWStopped wire)) = Some code /\
  read_stream_error (read_error_from (NRReset wire)) = Some code /\
  (forall e reason, application_closed e = Some (wire, reason) ->
     session_session_error (session_error_from e) = Some (code, reason) /\
     write_session_error (write_error_from (NWConnectionLost e)) = Some (code, reason) /\
     read_session_error (read_error_from (NRConnectionLost e)) = Some (code, reason)) /\
  (forall raw, error_from_http3 raw = None ->
     write_error_from (NWStopped raw) = WEInvalidStopped raw /\ write_stream_error (WEInvalidStopped raw) = None /\
     read_error_from (NRReset raw) = REInvalidReset raw /\ read_stream_error (REInvalidReset raw) = None).
Proof.
  intros wire. pose proof (from_to_http3 code Hc) as Hf. fold wire in Hf.
  split; [|split; [|split; [|split; [|split; [|split; [|split]]]]]].
  - intros s r st' E. rewrite (quion_reset_wire code s Hc). fold wire. unfold map_err, Send.on_stream.
    destruct (reliable_prefix s); rewrite E; destruct r as [[]| | |]; split; try done; by intros [=].
  - intros t r t' E. rewrite (quion_stop_wire code t Hc). fold wire. unfold map_err, Recv.on_inner. rewrite E.
    destruct r as [[]| | |]; split; try done; by intros [=].
  - intros s s' E. unfold Send.trait_closed, Send.stopped, map_err, Send.on_stream, bind. rewrite E. cbn. by rewrite Hf.
  - intros t t' E. unfold Recv.trait_closed, Recv.received_reset, map_err, Recv.on_inner, bind. rewrite E. cbn. by rewrite Hf.
  - cbn. by rewrite Hf.
  - cbn. by rewrite Hf.
  - intros e reason He. cbn. by rewrite !(session_error_closed code e reason Hc He).
  - intros raw Hr. cbn. by rewrite Hr.
Qed.
Lemma quion_codes_witness :
  is_u32 7 /\
  (Send.reset (QuionSend0:=sample_quion_send) 7
    (Send.with_reliable_prefix (D:=unit) (MkQStream (MkWStream [] 0) None) 3 true)).2
  = MkSendStream (MkQStream (MkWStream [] 0) (Some (error_to_http3 7, Some 3))) None (Some 3) 0 /\
  read_stream_error (H:=sample_quion) (read_error_from (NRReset (error_to_http3 7))) = Some 7.
Proof.
  assert (Hu : is_u32 7) by (unfold is_u; lia).
  destruct (quion_codes (H:=sample_quion) (D:=unit) (QuionSend0:=sample_quion_send) (QuionRecv0:=sample_quion_recv) 7 Hu)
    as (Hr & _ & _ & _ & _ & Hread & _).
  split; [exact Hu|]. split; [|exact Hread].
  exact (proj1 (Hr (Send.with_reliable_prefix (MkQStream (MkWStream [] 0) None) 3 true) (Ok ()) _ eq_refl)).
Defined.

(** Over Quion streams that do what Quion documents, the wrappers honour the
    contracts of the stream traits, and writing several chunks sends them in order:
    what reaches the stream is the front of the data, all of it on success; on an
    error no byte is taken off the buffers that was not accepted. *)
Theorem quion_honours_contracts `{Quion} {S T D : Type} `{!QuionSend S} `{!QuionRecv T}
  (sent : S -> bytes) (rest : T -> bytes) (Hs : QuionSendLaws sent) (Hr : QuionRecvLaws rest) :
  SendContract (SendStream0:=Send.trait_send (D:=D)) (stream_sent sent) /\
  RecvContract (RecvStream0:=Recv.trait_recv (D:=D)) (fun t => rest (inner t)) /\
  forall ls (s : SendStream S D), let '(r, (s', ls')) := Send.write_all_chunks ls s in
    completes r /\ exists n m, 0 <= m <= n /\ n <= len (concat ls) /\
      stream_sent sent s' = stream_sent sent s ++ take (Z.to_nat n) (concat ls) /\
      concat ls' = drop (Z.to_nat m) (concat ls) /\ length ls' = length ls /\ (r = Ok () -> m = len (concat ls)).
Proof.
  split; [split|split; [split|]].
  - intros l w. exact (quion_write_accepts sent l w).
  - intros B ? ? R ? ? b l w Hb. cbn [Streams.write_buf Send.trait_send].
    rewrite (quion_write_buf_default sent w b).
    apply (default_write_buf_accepts (stream_sent sent) _ R b l w); [exact (quion_write_accepts sent)|done].
  - intros dst r Hdst. cbn [Streams.read Recv.trait_recv]. unfold Recv.read, map_err, Recv.on_inner.
    pose proof (nr_read_delivers dst (inner r) Hdst) as Hd. destruct (nr_read dst (inner r)) as [o r']. destruct Hd as (Hc & Hd).
    destruct (completes_cases o Hc) as [[a ->]|[e ->]]; [by split|]. by split.
  - intros ls s. exact (write_all_chunks_sends sent ls s).
Qed.
Lemma quion_honours_contracts_witness :
  SendContract (SendStream0:=Send.trait_send (QuionSend0:=sample_quion_send) (D:=unit)) (stream_sent (fun s => ws_sent (qs_out s))) /\
  RecvContract (RecvStream0:=Recv.trait_recv (QuionRecv0:=sample_quion_recv) (D:=unit)) (fun t => rs_rest (inner t)).
Proof.
  destruct (quion_honours_contracts (H:=sample_quion) (D:=unit) (QuionSend0:=sample_quion_send) (QuionRecv0:=sample_quion_recv)
    _ rs_rest sample_quion_send_laws sample_quion_recv_laws) as (Hs & Hr & _).
  split; [exact Hs|exact Hr].
Defined.
