(* ===== verification/QuionTask.v ===== *)
(** * The session task over Quion (webtrans-quion/src/session.rs)

    The CONNECT stream as over Quinn, and what is Quion's own: the end of the task
    publishes why the session closed and wakes whoever waits in [closed]. *)
From S2P Require Import Prelude Buf Utf8 Varint ErrorCode Frame Capsule Streams QuinnStreams QuinnCapsules QuionStreams.

(** ** The CONNECT stream *)
Module Session.
Definition MAX_CAPSULE_FRAME_SIZE : Z := 2 * 1024.
Definition is_graceful_close (e : CapsuleError) : bool :=
  match e with
  | CEIo ioe =>
      match io_kind ioe with
      | UnexpectedEof | BrokenPipe | ConnectionReset | ConnectionAborted | NotConnected => true
      | _ => false
      end || contains (lit "connection lost") (to_ascii_lowercase (io_message ioe))
  | CEUnexpectedEnd => true
  | _ => false
  end.

Section Capsules.
Context `{Platform}.
Definition decode_buffered_capsule : M bytes CapsuleError (option Capsule) := fun pending =>
  match VarInt.decode pending with
  | (Err _, _) => (Ok None, pending)
  | (Panic, _) => (Panic, pending)
  | (OutOfFuel, _) => (OutOfFuel, pending)
  | (Ok _, cursor) =>
      match VarInt.decode cursor with
      | (Err _, _) => (Ok None, pending)
      | (Panic, _) => (Panic, pending)
      | (OutOfFuel, _) => (OutOfFuel, pending)
      | (Ok length, cursor) =>
          let position := len pending - len cursor in
          (let* length := ok_or CEMessageTooLong (usize_try_from (into_inner length)) in
           if 1028 <? length then throw CEMessageTooLong else
           let* total := lift (never (usize_add position length)) in
           if len pending <? total then ret None else
           let* capsule := lift (fst (Capsule.decode (T:=Take bytes) (take (Z.to_nat total) pending))) in
           advance total ;;;
           ret (Some capsule)) pending
      end
  end.
Fixpoint read_capsule_frame {S} `{AsyncRead S} (fuel : nat) : M (S * bytes) CapsuleError Capsule :=
  match fuel with
  | O => out_of_fuel
  | Datatypes.S fuel =>
      let* c := on_pending decode_buffered_capsule in
      match c with
      | Some capsule => ret capsule
      | None =>
          let* typ := on_recv (map_err (fun _ => CEUnexpectedEnd) VarInt.read) in
          let* length := on_recv (map_err (fun _ => CEUnexpectedEnd) VarInt.read) in
          let* length := ok_or CEMessageTooLong (usize_try_from (into_inner length)) in
          if MAX_CAPSULE_FRAME_SIZE <? length then throw CEMessageTooLong else
          let* payload := on_recv (map_err CEIo (read_exact length)) in
          let typ := MkFrame typ in
          if Frame.is_grease typ then read_capsule_frame fuel
          else if negb (bool_decide (typ = Frame.DATA)) then read_capsule_frame fuel
          else
            on_pending (put_slice payload) ;;;
            read_capsule_frame fuel
      end
  end.
Definition write_capsule_frame {W} `{AsyncWrite W} (capsule : Capsule) : M W CapsuleError unit :=
  let '(r, payload) := Capsule.encode capsule ([] : bytes) in
  lift r ;;;
  let '(r, frame) := (
    Frame.encode Frame.DATA ;;;
    Capsule.encode_len (len payload) ;;;
    put_slice payload) ([] : bytes) in
  lift r ;;;
  map_err CEIo (write_all frame).
Definition capsule_reason (reason : bytes) : outcome Empty_set bytes :=
  let reason := from_utf8_lossy reason in
  pop_to_limit (S (length reason)) reason.
Definition close_connection {C} `{QuicConn C} (code : Z) (reason : bytes) : C -> C :=
  let mapped := error_to_http3 code in
  let code := if mapped <? 2 ^ 62 then mapped else 1 in
  conn_close code reason.
End Capsules.

Section Run.
Context `{Platform} `{Timer} {W S : Type} `{AsyncWrite W} `{CloseStream W} `{AsyncRead S}.
Definition submit_close (capsule : Capsule) : M W CapsuleError unit :=
  write_capsule_frame capsule ;;;
  (fun send => (Ok (), stopped_quietly (finish_quietly send))).
Fixpoint run_closed (fuel : nat) (schedule : list select_branch)
  : M (RunState W S) CapsuleError (option (Z * bytes)) :=
  match schedule with
  | [] => out_of_fuel
  | CapsuleBranch :: schedule => fun st =>
      let '(r, (recv, pending)) := read_capsule_frame fuel (rc_recv st, rc_pending st) in
      let st := MkRunState (rc_send st) recv pending in
      match r with
      | Ok (CloseWebTransportSession code reason) => (Ok (Some (code, reason)), st)
      | Ok (Unknown _ _) => run_closed fuel schedule st
      | Err e => if is_graceful_close e then (Ok None, st) else (Err e, st)
      | Panic => (Panic, st)
      | OutOfFuel => (OutOfFuel, st)
      end
  | CloseBranch None :: _ => ret (Some (0, lit "last session handle dropped"))
  | CloseBranch (Some close) :: _ => fun st =>
      match capsule_reason (cc_reason close) with
      | Ok reason =>
          let capsule := CloseWebTransportSession (cc_code close) reason in
          let send := within 5 (submit_close capsule) (rc_send st) in
          (Ok (Some (cc_code close, reason)), MkRunState send (rc_recv st) (rc_pending st))
      | Err x => match x with end
      | Panic => (Panic, st)
      | OutOfFuel => (OutOfFuel, st)
      end
  end.
End Run.
End Session.

(** What the two backends do with a CONNECT stream is the same, on any stream. *)
Lemma quion_run_closed_same `{Platform} `{Timer} {W S} `{AsyncWrite W} `{CloseStream W} `{AsyncRead S} fuel schedule :
  Session.run_closed (W:=W) (S:=S) fuel schedule = QuinnCapsules.run_closed fuel schedule.
Proof. reflexivity. Qed.

(** ** The end of the task *)

(** [closed().now_or_never()]: the error of a connection that has one ready. *)
Class QuionConn `{Quion} (C : Type) := { quion_conn :: QuicConn C; closed_now : C -> option ConnectionError }.

Record Shared (C X : Type) := MkShared { sh_conn : C; close_error : option X }.
Arguments MkShared {C X}. Arguments sh_conn {C X}. Arguments close_error {C X}.

Section Task.
Context `{Quion} {C : Type} `{!QuionConn C}.
Abbreviation State := (Shared C SessionError).

Definition connection_close_reason (conn : C) : option ConnectionError :=
  if conn_is_closed conn then closed_now conn else None.
Definition close_reason (sh : State) : option SessionError :=
  match close_error sh with
  | Some e => Some e
  | None => option_map session_error_from (connection_close_reason (sh_conn sh))
  end.

(** The steps of the end, between which others may run. *)
Definition set_close_error (code : Z) (reason : bytes) (sh : State) : State :=
  MkShared (sh_conn sh) (Some (SEWebTransportError (Closed code reason))).
Definition close_if_open (code : Z) (reason : bytes) (sh : State) : State :=
  match connection_close_reason (sh_conn sh) with
  | None => MkShared (Session.close_connection code reason (sh_conn sh)) (close_error sh)
  | Some _ => sh
  end.
Definition ensure_closed (sh : State) : State :=
  if conn_is_closed (sh_conn sh) then sh
  else MkShared (Session.close_connection 0 (lit "CONNECT stream ended") (sh_conn sh)) (close_error sh).
Definition fill_error (sh : State) : State :=
  match close_error sh with
  | Some _ => sh
  | None => MkShared (sh_conn sh) (option_map session_error_from (connection_close_reason (sh_conn sh)))
  end.
Definition task_end (result : option (Z * bytes) + CapsuleError) : list (State -> State) :=
  match result with
  | inl (Some (code, reason)) => [set_close_error code reason; close_if_open code reason]
  | inl None => []
  | inr e => if Session.is_graceful_close e then [] else [close_if_open 1 (lit "capsule error")]
  end ++ [ensure_closed; fill_error].

(** The task of a session made from a raw connection: it waits for the connection
    to close, or for a command to close it with the code as it is. *)
Definition set_reason (sh : State) : State :=
  MkShared (sh_conn sh) (option_map session_error_from (closed_now (sh_conn sh))).
Definition raw_close (command : option CloseCommand) (sh : State) : State :=
  let command := default (MkCloseCommand 0 (lit "last session handle dropped")) command in
  MkShared (conn_close (cc_code command) (cc_reason command) (sh_conn sh)) (close_error sh).
Definition raw_end (command : option (option CloseCommand)) : list (State -> State) :=
  match command with
  | None => [set_reason]
  | Some command => [raw_close command; set_reason]
  end.

(** ** Waiting for the close *)

(** The loop of [closed]: a [Notified] is created (and enabled); the reason is
    looked up; without one, the notification is awaited.  A notification reaches
    every [Notified] that exists. *)
Inductive waiter := Looping | Registered (notified : bool) | Awaiting (notified : bool) | Returned (e : SessionError).
Inductive task := Running | Ending (steps : list (State -> State)) | Finished.
Record System := MkSystem { shared : State; waiters : list waiter; the_task : task }.

Definition closed_step (sh : State) (w : waiter) : option waiter :=
  match w with
  | Looping => Some (Registered false)
  | Registered notified =>
      match close_reason sh with
      | Some error => Some (Returned error)
      | None => Some (Awaiting notified)
      end
  | Awaiting true => Some Looping
  | Awaiting false | Returned _ => None
  end.
Definition notify_waiters (w : waiter) : waiter :=
  match w with
  | Registered _ => Registered true
  | Awaiting _ => Awaiting true
  | w => w
  end.

(** What the connection may do by itself or at another's call ([moves]), and how
    the task may come to its end ([may_end]). *)
Inductive label := Waits (i : nat) | Joins | Task | Conn.
Context (moves : C -> C -> Prop) (may_end : State -> list (State -> State) -> Prop).
Inductive step : label -> System -> System -> Prop :=
| step_wait i w w' s : waiters s !! i = Some w -> closed_step (shared s) w = Some w' ->
    step (Waits i) s (MkSystem (shared s) (<[i:=w']> (waiters s)) (the_task s))
| step_join s : step Joins s (MkSystem (shared s) (waiters s ++ [Looping]) (the_task s))
| step_end acts s : the_task s = Running -> may_end (shared s) acts ->
    step Task s (MkSystem (shared s) (waiters s) (Ending acts))
| step_act act acts s : the_task s = Ending (act :: acts) ->
    step Task s (MkSystem (act (shared s)) (waiters s) (Ending acts))
| step_notify s : the_task s = Ending [] ->
    step Task s (MkSystem (shared s) (notify_waiters <$> waiters s) Finished)
| step_conn c s : moves (sh_conn (shared s)) c ->
    step Conn s (MkSystem (MkShared c (close_error (shared s))) (waiters s) (the_task s)).
Inductive steps : list label -> System -> System -> Prop :=
| steps_nil s : steps [] s s
| steps_cons l ls s s' s'' : step l s s' -> steps ls s' s'' -> steps (l :: ls) s s''.
Definition start (conn : C) : System := MkSystem (MkShared conn None) [] Running.
End Task.

(** ** Documented behaviour of a Quion connection: a closed one has its reason, and
    stays closed. *)
Class QuionConnLaws `{Quion} {C} `{!QuionConn C} (moves : C -> C -> Prop) : Prop := {
  close_closes code reason (c : C) : conn_is_closed (conn_close code reason c) = true;
  closed_has_reason (c : C) : conn_is_closed c = true -> is_Some (closed_now c);
  moves_stay c c' : moves c c' -> conn_is_closed c = true -> conn_is_closed c' = true
}.

Section Proofs.
Context `{Quion} {C : Type} `{!QuionConn C} (moves : C -> C -> Prop) `{!QuionConnLaws moves}.
Abbreviation State := (Shared C SessionError).
Abbreviation Sys := (System (C:=C)).

(** Whatever the connection does in between, these steps leave a reason. *)
Fixpoint settles (acts : list (State -> State)) (sh : State) : Prop :=
  match acts with
  | [] => is_Some (close_error sh)
  | act :: acts => forall c, rtc moves (sh_conn sh) c -> settles acts (act (MkShared c (close_error sh)))
  end.
Lemma settles_moves acts sh c :
  settles acts sh -> moves (sh_conn sh) c -> settles acts (MkShared c (close_error sh)).
Proof. destruct acts; cbn; [done|]. intros Hs Hm c' Hc. apply Hs. by eapply rtc_l. Qed.
Lemma rtc_moves_stay c c' : rtc moves c c' -> conn_is_closed c = true -> conn_is_closed c' = true.
Proof. induction 1; [done|]. eauto using moves_stay. Qed.

Lemma closed_reason (c : C) : conn_is_closed c = true -> is_Some (connection_close_reason c).
Proof. intros Hc. unfold connection_close_reason. rewrite Hc. by apply closed_has_reason. Qed.
Lemma ensure_closed_closes (sh : State) : conn_is_closed (sh_conn (ensure_closed sh)) = true.
Proof. unfold ensure_closed. case_match eqn:E; [done|]. apply close_closes. Qed.
Lemma fill_error_some (sh : State) : conn_is_closed (sh_conn sh) = true -> is_Some (close_error (fill_error sh)).
Proof.
  intros Hc. unfold fill_error. destruct (close_error sh) as [e|] eqn:E; [by rewrite E|].
  destruct (closed_reason _ Hc) as [e He]. cbn. rewrite He. by eexists.
Qed.
Lemma end_settles acts sh : settles (acts ++ [ensure_closed; fill_error]) sh.
Proof.
  revert sh. induction acts as [|act acts IH]; intros sh c Hc; [|by apply IH].
  intros c' Hc'. cbn [settles]. apply fill_error_some.
  apply (rtc_moves_stay _ _ Hc'). apply ensure_closed_closes.
Qed.
Lemma task_end_settles result sh : settles (task_end result) sh.
Proof. apply end_settles. Qed.
Lemma raw_end_settles command sh :
  (command = None -> conn_is_closed (sh_conn sh) = true) -> settles (raw_end command) sh.
Proof.
  assert (Hset : forall c x, conn_is_closed c = true -> is_Some (close_error (set_reason (MkShared c x)))).
  { intros c x Hc. destruct (closed_has_reason c Hc) as [e He]. unfold set_reason. cbn. rewrite He. by eexists. }
  destruct command as [command|]; cbn [settles raw_end]; intros Hclosed c Hc.
  - intros c' Hc'. apply Hset, (rtc_moves_stay _ _ Hc'), close_closes.
  - apply Hset, (rtc_moves_stay _ _ Hc). by apply Hclosed.
Qed.

Context (may_end : State -> list (State -> State) -> Prop)
  (ends_settle : forall sh acts, may_end sh acts -> settles acts sh).

Definition inv (s : Sys) : Prop :=
  match the_task s with
  | Running => True
  | Ending acts => settles acts (shared s)
  | Finished => is_Some (close_error (shared s)) /\ Awaiting false ∉ waiters s
  end.

Lemma notified_none (ws : list waiter) : Awaiting false ∉ notify_waiters <$> ws.
Proof. rewrite list_elem_of_fmap. intros (w & E & _). by destruct w. Qed.
Lemma not_in_insert (ws : list waiter) i w : Awaiting false ∉ ws -> w <> Awaiting false -> Awaiting false ∉ <[i:=w]> ws.
Proof.
  intros Hws Hw Hin. apply list_elem_of_lookup in Hin as [j Hj].
  apply list_lookup_insert_Some in Hj as [(_ & E & _)|[_ Hj]]; [done|].
  apply Hws, list_elem_of_lookup. by exists j.
Qed.
Lemma close_reason_some (sh : State) e : close_error sh = Some e -> close_reason sh = Some e.
Proof. unfold close_reason. by intros ->. Qed.

Lemma step_inv l s s' : step moves may_end l s s' -> inv s -> inv s'.
Proof.
  unfold inv. destruct 1 as [i w w' s Hw Hs|s|acts s Ht Hm|act acts s Ht|s Ht|c s Hm]; cbn [shared waiters the_task].
  - destruct (the_task s); try done. intros [[e He] Hno]. split; [by eexists|]. apply not_in_insert; [done|]. intros ->.
    destruct w as [|b|[]|]; cbn in Hs; try done. by rewrite (close_reason_some _ e He) in Hs.
  - destruct (the_task s); try done. intros [He Hno]. split; [done|]. rewrite not_elem_of_app, list_elem_of_singleton. by split.
  - intros _. by apply ends_settle.
  - rewrite Ht. cbn [settles]. intros Hs. destruct (shared s) as [c x] eqn:E. exact (Hs c ltac:(apply rtc_refl)).
  - rewrite Ht. cbn [settles]. intros Hs. split; [done|apply notified_none].
  - destruct (the_task s) as [|acts|]; try done. intros Hs. by apply settles_moves.
Qed.
Lemma steps_inv ls s s' : steps moves may_end ls s s' -> inv s -> inv s'.
Proof. induction 1; eauto using step_inv. Qed.

(** Once the task has finished the reason stays, and the steps a waiter has left. *)
Definition steps_left (w : option waiter) : nat :=
  match w with
  | Some (Awaiting _) => 3
  | Some Looping | None => 2
  | Some (Registered _) => 1
  | Some (Returned _) => 0
  end.
Definition waits_of (i : nat) (l : label) : nat :=
  match l with Waits j => if bool_decide (i = j) then 1 else 0 | _ => 0 end.
Definition returned_early (e : SessionError) (before after : option waiter) : Prop :=
  forall e', after = Some (Returned e') -> before = Some (Returned e') \/ e' = e.

Lemma finished_step l s s' e :
  step moves may_end l s s' -> inv s -> the_task s = Finished -> close_error (shared s) = Some e ->
  the_task s' = Finished /\ close_error (shared s') = Some e /\
  forall i, (steps_left (waiters s' !! i) + waits_of i l <= steps_left (waiters s !! i))%nat /\
    returned_early e (waiters s !! i) (waiters s' !! i).
Proof.
  unfold inv, returned_early.
  destruct 1 as [i w w' s Hw Hs|s|acts s Ht Hm|act acts s Ht|s Ht|c s Hm]; intros Hinv Hfin He;
    rewrite Hfin in Hinv; cbn [shared waiters the_task]; try (rewrite Hfin in Ht; done).
  - split; [done|]. split; [done|]. destruct Hinv as [_ Hno]. intros j. cbn [waits_of].
    destruct (decide (j = i)) as [->|Hne].
    + rewrite bool_decide_eq_true_2 by done. rewrite list_lookup_insert_eq by by eapply lookup_lt_Some. rewrite Hw.
      destruct w as [|b|[]|]; cbn in Hs; rewrite ?(close_reason_some _ e He) in Hs; simplify_eq; cbn;
        (split; [lia|]); intros e' [= <-]; auto.
    + rewrite bool_decide_eq_false_2 by done. rewrite list_lookup_insert_ne by done. split; [lia|]. auto.
  - split; [done|]. split; [done|]. intros j. cbn [waits_of].
    destruct (Nat.lt_ge_cases j (length (waiters s))) as [Hlt|Hge].
    + rewrite lookup_app_l by done. split; [lia|]. auto.
    + rewrite lookup_app_r by done. rewrite (lookup_ge_None_2 (waiters s)) by done.
      destruct (j - length (waiters s))%nat as [|[|k]]; cbn; (split; [lia|]); intros e'; done.
  - split; [done|]. split; [done|]. intros j. split; [cbn; lia|]. auto.
Qed.
Lemma finished_steps ls s s' e :
  steps moves may_end ls s s' -> inv s -> the_task s = Finished -> close_error (shared s) = Some e ->
  the_task s' = Finished /\ close_error (shared s') = Some e /\
  forall i, (steps_left (waiters s' !! i) + sum_list_with (waits_of i) ls <= steps_left (waiters s !! i))%nat /\
    returned_early e (waiters s !! i) (waiters s' !! i).
Proof.
  induction 1 as [s|l ls s s1 s' Hl Hls IH]; intros Hinv Hfin He.
  { split; [done|]. split; [done|]. intros i. cbn. split; [lia|]. intros e'. auto. }
  destruct (finished_step _ _ _ _ Hl Hinv Hfin He) as (Hfin1 & He1 & Hw1).
  destruct (IH (step_inv _ _ _ Hl Hinv) Hfin1 He1) as (Hfin' & He' & Hw').
  split; [done|]. split; [done|]. intros i. destruct (Hw1 i) as [Hm1 Hr1]. destruct (Hw' i) as [Hm' Hr'].
  cbn [sum_list_with]. split; [lia|]. intros e' E. destruct (Hr' e' E) as [E'|]; [|by right]. by apply Hr1.
Qed.

Lemma waiter_enabled s i w :
  inv s -> the_task s = Finished -> waiters s !! i = Some w ->
  (exists e, w = Returned e) \/ exists s', step moves may_end (Waits i) s s'.
Proof.
  unfold inv. intros Hinv Hfin Hw. rewrite Hfin in Hinv. destruct Hinv as [[e He] Hno].
  destruct w as [|b|[]|e']; [right..|left; by eexists].
  - eexists. by eapply step_wait.
  - eexists. eapply step_wait; [done|]. cbn. by rewrite (close_reason_some _ e He).
  - eexists. by eapply step_wait.
  - exfalso. apply Hno, list_elem_of_lookup. by exists i.
Qed.
Lemma ending_finishes acts : forall s,
  the_task s = Ending acts ->
  exists s', steps moves may_end (replicate (S (length acts)) Task) s s' /\ the_task s' = Finished.
Proof.
  induction acts as [|act acts IH]; intros s Ht.
  - eexists. split; [|shelve]. eapply steps_cons; [by apply step_notify|apply steps_nil]. Unshelve. done.
  - destruct (IH (MkSystem (act (shared s)) (waiters s) (Ending acts)) eq_refl) as (s' & Hs & Hfin).
    exists s'. split; [|done]. eapply steps_cons; [by apply step_act|exact Hs].
Qed.
End Proofs.

(** How the tasks of the two kinds of session may come to their end. *)
Definition session_may_end `{Quion} {C} `{!QuionConn C} (sh : Shared C SessionError)
  (acts : list (Shared C SessionError -> Shared C SessionError)) : Prop := exists result, acts = task_end result.
Definition raw_may_end `{Quion} {C} `{!QuionConn C} (sh : Shared C SessionError)
  (acts : list (Shared C SessionError -> Shared C SessionError)) : Prop :=
  exists command, acts = raw_end command /\ (command = None -> conn_is_closed (sh_conn sh) = true).

(** ** A sample connection *)
Record SampleLink := MkSampleLink { link_closed : option (Z * bytes) }.
#[export] Instance sample_quic : QuicConn SampleLink := {|
  conn_is_closed c := bool_decide (is_Some (link_closed c));
  conn_close code reason c := match link_closed c with Some _ => c | None => MkSampleLink (Some (code, reason)) end |}.
#[export] Instance sample_link : QuionConn (H:=sample_quion) SampleLink := 
  @Build_QuionConn sample_quion SampleLink sample_quic (fun c => Some (link_closed c)).
Definition link_moves (c c' : SampleLink) : Prop := is_Some (link_closed c) -> c' = c.
#[export] Instance sample_link_laws : QuionConnLaws (QuionConn0:=sample_link) link_moves.
Proof.
  split.
  - intros code reason [[x|]]; by apply bool_decide_eq_true_2; eexists.
  - intros c _. by eexists.
  - intros c c' Hm Hc. cbn in *. apply bool_decide_eq_true in Hc. by rewrite (Hm Hc), bool_decide_eq_true_2.
Qed.

(** ** Where the task of a closed session stands *)
Section Published.
Context `{Quion} {C : Type} `{!QuionConn C} (moves : C -> C -> Prop) `{!QuionConnLaws moves}
  (conn : C) (code : Z) (reason : bytes) (Hopen : conn_is_closed conn = false) (Hcode : is_u32 code).
Let err := SEWebTransportError (Closed code reason).
Let closed := conn_close (error_to_http3 code) reason conn.
Let may_end := fun (_ : Shared C SessionError) acts => acts = task_end (inl (Some (code, reason))).

Inductive publishing : C -> option SessionError -> task (C:=C) -> Prop :=
| pub_running : publishing conn None Running
| pub_begun : publishing conn None (Ending (task_end (inl (Some (code, reason)))))
| pub_set : publishing conn (Some err) (Ending [close_if_open code reason; ensure_closed; fill_error])
| pub_closed : publishing closed (Some err) (Ending [ensure_closed; fill_error])
| pub_ensured : publishing closed (Some err) (Ending [fill_error])
| pub_filled : publishing closed (Some err) (Ending [])
| pub_finished : publishing closed (Some err) Finished.

Lemma close_connection_wire : Session.close_connection code reason conn = closed.
Proof.
  unfold Session.close_connection, closed. pose proof (to_http3_range _ Hcode) as Hm. unfold ERROR_LAST in Hm.
  by rewrite (proj2 (Z.ltb_lt _ _)) by lia.
Qed.
Lemma publishing_act act acts sh :
  publishing (sh_conn sh) (close_error sh) (Ending (act :: acts)) ->
  publishing (sh_conn (act sh)) (close_error (act sh)) (Ending acts).
Proof.
  destruct sh as [c x]. cbn [sh_conn close_error]. inversion 1; subst; cbn.
  - apply pub_set.
  - unfold close_if_open, connection_close_reason. cbn. rewrite Hopen. cbn. rewrite close_connection_wire. apply pub_closed.
  - unfold ensure_closed. cbn. rewrite (close_closes _ _ conn : conn_is_closed closed = true). apply pub_ensured.
  - apply pub_filled.
Qed.
Lemma publishing_begins c x : publishing c x Running -> publishing c x (Ending (task_end (inl (Some (code, reason))))).
Proof. inversion 1; subst. apply pub_begun. Qed.
Lemma publishing_ends c x : publishing c x (Ending []) -> publishing c x Finished.
Proof. inversion 1; subst. apply pub_finished. Qed.
Lemma publishing_reason sh t e : publishing (sh_conn sh) (close_error sh) t -> close_reason sh = Some e -> e = err.
Proof.
  destruct sh as [c x]. unfold close_reason, connection_close_reason. cbn.
  inversion 1; subst; rewrite ?Hopen; cbn; congruence.
Qed.
Lemma published_steps trace s s' :
  steps moves may_end trace s s' -> Forall (fun l => l <> Conn) trace ->
  publishing (sh_conn (shared s)) (close_error (shared s)) (the_task s) ->
  (forall i e, waiters s !! i = Some (Returned e) -> e = err) ->
  publishing (sh_conn (shared s')) (close_error (shared s')) (the_task s') /\
  (forall i e, waiters s' !! i = Some (Returned e) -> e = err).
Proof.
  induction 1 as [|l ls s s1 s' Hl Hls IH]; [done|]. intros [Hq1 Hq]%Forall_cons Hp Hw. apply (IH Hq); clear IH Hls Hq;
    destruct Hl as [i w w' s Hi Hs|s|acts s Ht Hm|act acts s Ht|s Ht|c s Hm]; cbn [shared waiters the_task]; try done.
  - rewrite Hm. rewrite Ht in Hp. by apply publishing_begins.
  - rewrite Ht in Hp. by apply publishing_act.
  - rewrite Ht in Hp. by apply publishing_ends.
  - intros j e Hj. apply list_lookup_insert_Some in Hj as [(-> & -> & _)|[_ Hj]]; [|by eapply Hw].
    destruct w as [|b|[]|]; cbn in Hs; try done. case_match eqn:E; simplify_eq. by eapply publishing_reason.
  - intros j e Hj. apply lookup_app_Some in Hj as [Hj|[_ Hj]]; [by eapply Hw|].
    by destruct (j - length (waiters s))%nat as [|[|k]].
  - intros j e Hj. rewrite list_lookup_fmap in Hj. apply fmap_Some in Hj as (w & Hj & E).
    destruct w; try done. eapply Hw. rewrite Hj. cbn in E. congruence.
Qed.
End Published.

(** ** Properties *)

(** C10: [closed] always returns once the session is over, in whatever order the
    task, the connection and any number of waiters run.  When the task of a session
    (or of a raw one) has come to its end, its remaining steps are a fixed number
    and lead to its last; from there on the reason is recorded and never changes,
    no waiter ever blocks, each takes at most three more steps, and what those that
    had not returned yet return is that reason. *)
Theorem closed_returns `{Quion} {C} `{!QuionConn C} (moves : C -> C -> Prop) `{!QuionConnLaws moves}
  may_end (Hends : forall sh acts, may_end sh acts -> session_may_end sh acts \/ raw_may_end sh acts)
  (conn : C) trace s (Htrace : steps moves may_end trace (start conn) s) (Hended : the_task s <> Running) :
  exists n s1, steps moves may_end (replicate n Task) s s1 /\ the_task s1 = Finished /\
    forall s2 trace2, steps moves may_end trace2 s s2 -> the_task s2 = Finished ->
    exists e, close_error (shared s2) = Some e /\
      forall trace' s', steps moves may_end trace' s2 s' ->
        close_error (shared s') = Some e /\
        forall i, (sum_list_with (waits_of i) trace' <= 3)%nat /\
          (forall w, waiters s' !! i = Some w -> (exists e', w = Returned e') \/ exists s'', step moves may_end (Waits i) s' s'') /\
          returned_early e (waiters s2 !! i) (waiters s' !! i).
Proof.
  assert (Hsettle : forall sh acts, may_end sh acts -> settles moves acts sh).
  { intros sh acts Hm. destruct (Hends _ _ Hm) as [(result & ->)|(command & -> & Hc)];
      [by apply task_end_settles|by apply raw_end_settles]. }
  assert (Hinv : inv moves s) by by eapply (steps_inv moves may_end Hsettle).
  assert (Hfinish : exists n s1, steps moves may_end (replicate n Task) s s1 /\ the_task s1 = Finished).
  { destruct (the_task s) as [|acts|] eqn:Et; [done| |].
    - destruct (ending_finishes moves may_end acts s Et) as (s1 & Hs & Hf). by exists (S (length acts)), s1.
    - exists 0%nat, s. split; [apply steps_nil|done]. }
  destruct Hfinish as (n & s1 & Hs1 & Hf1). exists n, s1. split; [done|]. split; [done|].
  intros s2 trace2 Hs2 Hf2. assert (Hinv2 : inv moves s2) by by eapply (steps_inv moves may_end Hsettle).
  pose proof Hinv2 as Hi. unfold inv in Hi. rewrite Hf2 in Hi. destruct Hi as [[e He] _]. exists e. split; [done|].
  intros trace' s' Hs'. destruct (finished_steps moves may_end Hsettle _ _ _ _ Hs' Hinv2 Hf2 He) as (Hf' & He' & Hw).
  split; [done|]. intros i. destruct (Hw i) as [Hm Hr]. split.
  - assert (steps_left (waiters s2 !! i) <= 3)%nat by (destruct (waiters s2 !! i) as [[| | |]|]; cbn; lia). lia.
  - split; [|done]. intros w Hwi. apply (waiter_enabled moves may_end s' i w); [|done|done].
    by eapply (steps_inv moves may_end Hsettle).
Qed.
Lemma closed_returns_witness :
  exists s : System (H:=sample_quion) (C:=SampleLink), the_task s <> Running /\ waiters s = [Awaiting false] /\
  exists n s1, steps link_moves session_may_end (replicate n Task) s s1 /\ the_task s1 = Finished.
Proof.
  set (sh := MkShared (MkSampleLink None) None : Shared SampleLink (SessionError (H:=sample_quion))).
  set (s := MkSystem (C:=SampleLink) sh [Awaiting false] (Ending (task_end (inl (Some (7, lit "bye")))))).
  exists s. split; [discriminate|]. split; [reflexivity|].
  assert (Htr : steps link_moves session_may_end [Joins; Waits 0; Waits 0; Task] (start (MkSampleLink None)) s).
  { eapply steps_cons; [by apply step_join|]. eapply steps_cons; [by eapply (step_wait _ _ 0)|].
    eapply steps_cons; [by eapply (step_wait _ _ 0)|]. eapply steps_cons; [|apply steps_nil].
    apply step_end; [reflexivity|by eexists]. }
  destruct (closed_returns (QuionConn0:=sample_link) link_moves (QuionConnLaws0:=sample_link_laws) session_may_end
    (fun _ _ Hm => or_introl Hm) (MkSampleLink None) _ s Htr ltac:(discriminate)) as (n & s1 & Hs & Hf & _).
  exists n, s1. split; [exact Hs|exact Hf].
Defined.

(** C26: the close of the peer is what the waiters see.  When the task ends with a
    close capsule of any code and reason, and nothing else closes the connection,
    every waiter returns that code and reason, never the error of the connection
    that the task itself closes: the reason is published before the connection is
    closed.  The connection is then closed, with the code's HTTP/3 value. *)
Theorem close_published `{Quion} {C} `{!QuionConn C} (moves : C -> C -> Prop) `{!QuionConnLaws moves}
  (conn : C) code reason (Hopen : conn_is_closed conn = false) (Hcode : is_u32 code) trace s
  (Htrace : steps moves (fun _ acts => acts = task_end (inl (Some (code, reason)))) trace (start conn) s)
  (Hquiet : Forall (fun l => l <> Conn) trace) :
  (forall i e, waiters s !! i = Some (Returned e) -> e = SEWebTransportError (Closed code reason)) /\
     (the_task s = Finished -> close_error (shared s) = Some (SEWebTransportError (Closed code reason)) /\
     sh_conn (shared s) = conn_close (error_to_http3 code) reason conn).
Proof.
  destruct (published_steps moves conn code reason Hopen Hcode trace _ s Htrace Hquiet) as [Hp Hw];
    [apply pub_running|done|].
  split; [done|]. intros Hf. rewrite Hf in Hp. clear -Hp. revert Hp. destruct (shared s) as [c x]. cbn. by inversion 1.
Qed.
Lemma close_published_witness :
  exists s : System (H:=sample_quion) (C:=SampleLink), the_task s = Finished /\
    close_error (shared s) = Some (SEWebTransportError (Closed 7 (lit "bye"))).
Proof.
  set (err := SEWebTransportError (H:=sample_quion) (Closed 7 (lit "bye"))).
  set (s := MkSystem (C:=SampleLink) (MkShared (MkSampleLink (Some (error_to_http3 7, lit "bye"))) (Some err)) [] Finished).
  exists s. split; [reflexivity|].
  assert (Htr : steps link_moves (fun _ acts => acts = task_end (inl (Some (7, lit "bye")))) (replicate 6 Task) (start (MkSampleLink None)) s).
  { cbn [replicate]. eapply steps_cons; [by apply step_end|]. do 4 (eapply steps_cons; [by apply step_act|]).
    eapply steps_cons; [apply step_notify; reflexivity|exact (steps_nil _ _ s)]. }
  refine (proj1 (proj2 (close_published link_moves (MkSampleLink None) 7 (lit "bye") _ _ _ s Htr _) eq_refl)).
  - reflexivity.
  - by_eval.
  - cbn [replicate]. repeat constructor; discriminate.
Defined.
