(* ===== verification/QuionSession.v ===== *)
(** * Sessions over Quion (webtrans-quion/src/session.rs)

    Opening streams with a reliable prefix, accepting them, datagrams and [close].
    The accept loop has the state of the one over Quinn and, on any stream and in
    any order of events, does the same. *)
From S2P Require Import Prelude Buf Utf8 Varint ErrorCode Frame Capsule Streams QuinnStreams QuinnCapsules QuinnSession.
From S2P Require Import QuionStreams QuionTask.

(** [negotiated_transport()] as far as it is looked into: whether it is there, and
    its [reset_stream_at]. *)
Class QuionConnection `{Quion} (C SendS RecvS : Type) := {
  nc_open_uni : M C ConnectionError SendS;
  nc_open_bi : M C ConnectionError (SendS * RecvS);
  nc_accept_uni : M C ConnectionError RecvS;
  nc_accept_bi : M C ConnectionError (SendS * RecvS);
  nc_read_datagram : M C ConnectionError bytes;
  nc_send_datagram : bytes -> M C SendDatagramError unit;
  nc_max_datagram_size : C -> option Z;
  nc_reset_stream_at : C -> option bool
}.

Record Session (U D : Type) := MkSession {
  session_id : option VarInt;
  driver : option D;
  header_uni : bytes;
  header_bi : bytes;
  header_datagram : bytes;
  url : U
}.
Arguments MkSession {U D}. Arguments session_id {U D}. Arguments driver {U D}. Arguments header_uni {U D}.
Arguments header_bi {U D}. Arguments header_datagram {U D}. Arguments url {U D}.

(** ** The streams a peer opens *)
Module SessionAccept.
Section Accept.
Context `{Quion} {SendS RecvS D : Type} `{AsyncRead RecvS}.
Import QuinnSession.SessionAccept(State, MkState, acc_session_id, qpack_encoder, qpack_decoder, pending_uni, pending_bi,
  Arrived, Finished, NotReady).
Abbreviation unknown_session := (SEWebTransportError UnknownSession).

Definition decode_uni (expected_session : VarInt) : M RecvS SessionError UniStream :=
  let* typ := map_err (fun _ => unknown_session) VarInt.read in
  let typ := MkUniStream typ in
  if bool_decide (typ = UniStream.WEBTRANSPORT) then
    let* session_id := map_err (fun _ => unknown_session) VarInt.read in
    if negb (bool_decide (session_id = expected_session)) then throw unknown_session
    else ret typ
  else ret typ.
Definition decode_bi (expected_session : VarInt) : M RecvS SessionError bool :=
  let* typ := map_err (fun _ => unknown_session) VarInt.read in
  if negb (bool_decide (MkFrame typ = Frame.WEBTRANSPORT)) then ret false else
  let* session_id := map_err (fun _ => unknown_session) VarInt.read in
  if negb (bool_decide (session_id = expected_session)) then throw unknown_session
  else ret true.

Abbreviation Accepting := (State (SendS:=SendS) (RecvS:=RecvS)).
Fixpoint poll_accept_uni (answers : list (QuinnSession.SessionAccept.answer RecvS))
  : M Accepting SessionError (option (RecvStream RecvS D)) :=
  match answers with
  | [] => out_of_fuel
  | Arrived (inr e) :: _ => throw (session_error_from e)
  | Arrived (inl recv) :: answers => fun st =>
      poll_accept_uni answers
        (MkState (acc_session_id st) (qpack_encoder st) (qpack_decoder st) (pending_uni st ++ [recv]) (pending_bi st))
  | Finished i :: answers => fun st =>
      match pending_uni st !! i with
      | None => (Ok None, st)
      | Some recv =>
          let '(r, recv) := decode_uni (acc_session_id st) recv in
          let left := delete i (pending_uni st) in
          let st' := MkState (acc_session_id st) (qpack_encoder st) (qpack_decoder st) left (pending_bi st) in
          match r with
          | Ok typ =>
              if bool_decide (typ = UniStream.WEBTRANSPORT) then (Ok (Some (Recv.new recv)), st')
              else if bool_decide (typ = UniStream.QPACK_DECODER) then
                poll_accept_uni answers
                  (MkState (acc_session_id st) (qpack_encoder st) (Some recv) left (pending_bi st))
              else if bool_decide (typ = UniStream.QPACK_ENCODER) then
                poll_accept_uni answers
                  (MkState (acc_session_id st) (Some recv) (qpack_decoder st) left (pending_bi st))
              else poll_accept_uni answers st'
          | Err _ => poll_accept_uni answers st'
          | Panic => (Panic, st')
          | OutOfFuel => (OutOfFuel, st')
          end
      end
  | NotReady :: _ => ret None
  end.
Fixpoint poll_accept_bi (answers : list (QuinnSession.SessionAccept.answer (SendS * RecvS)))
  : M Accepting SessionError (option (SendStream SendS D * RecvStream RecvS D)) :=
  match answers with
  | [] => out_of_fuel
  | Arrived (inr e) :: _ => throw (session_error_from e)
  | Arrived (inl streams) :: answers => fun st =>
      poll_accept_bi answers
        (MkState (acc_session_id st) (qpack_encoder st) (qpack_decoder st) (pending_uni st) (pending_bi st ++ [streams]))
  | Finished i :: answers => fun st =>
      match pending_bi st !! i with
      | None => (Ok None, st)
      | Some (send, recv) =>
          let '(r, recv) := decode_bi (acc_session_id st) recv in
          let st' := MkState (acc_session_id st) (qpack_encoder st) (qpack_decoder st) (pending_uni st)
            (delete i (pending_bi st)) in
          match r with
          | Ok true => (Ok (Some (Send.new send, Recv.new recv)), st')
          | Ok false => poll_accept_bi answers st'
          | Err _ => poll_accept_bi answers st'
          | Panic => (Panic, st')
          | OutOfFuel => (OutOfFuel, st')
          end
      end
  | NotReady :: _ => ret None
  end.

(** [poll_fn(..).await]: polled until it is ready. *)
Fixpoint poll_fn {St E A X} (poll : list X -> M St E (option A)) (polls : list (list X)) : M St E A :=
  match polls with
  | [] => out_of_fuel
  | answers :: polls =>
      let* r := poll answers in
      match r with
      | Some a => ret a
      | None => poll_fn poll polls
      end
  end.
End Accept.
End SessionAccept.

Module Session.
Definition new {U D} (session_id : VarInt) (url : U) (driver : option D) : outcome Empty_set (Session U D) :=
  let encode_into (m : M bytes Empty_set unit) := let '(r, v) := m [] in let? _ := r in Ok v in
  let? header_uni := encode_into (UniStream.encode UniStream.WEBTRANSPORT ;;; VarInt.encode session_id) in
  let? header_bi := encode_into (Frame.encode Frame.WEBTRANSPORT ;;; VarInt.encode session_id) in
  let? header_datagram := encode_into (VarInt.encode session_id) in
  Ok (MkSession (Some session_id) driver header_uni header_bi header_datagram url).
Definition raw {U D} (url : U) : Session U D := MkSession None None [] [] [] url.

Section Ops.
Context `{Platform} `{Quion} {C SendS RecvS U D : Type} `{!QuionSend SendS} `{!QuionConnection C SendS RecvS} `{AsyncRead RecvS}.
Abbreviation Self := (Session U D).
Abbreviation Accepting := (QuinnSession.SessionAccept.State (SendS:=SendS) (RecvS:=RecvS)).

(** ** Opening streams *)
Definition write_full (buf : bytes) : M SendS SessionError unit :=
  map_err (fun e => match e with
    | NWConnectionLost err => session_error_from err
    | err => SEWebTransportError (WTWriteError err)
    end) (ns_write_all buf).
Definition reset_stream_at_negotiated (conn : C) : bool :=
  match nc_reset_stream_at conn with Some reset_stream_at => reset_stream_at | None => false end.
Definition open_uni (s : Self) : M C SessionError (SendStream SendS D) :=
  let* send := map_err session_error_from nc_open_uni in
  let '(r, send) := write_full (header_uni s) send in
  lift r ;;;
  let* negotiated := (fun conn => (Ok (reset_stream_at_negotiated conn), conn)) in
  ret (Send.with_driver (driver s) (Send.with_reliable_prefix send (len (header_uni s)) negotiated)).
Definition open_bi (s : Self) : M C SessionError (SendStream SendS D * RecvStream RecvS D) :=
  let* (send, recv) := map_err session_error_from nc_open_bi in
  let '(r, send) := write_full (header_bi s) send in
  lift r ;;;
  let* negotiated := (fun conn => (Ok (reset_stream_at_negotiated conn), conn)) in
  ret (Send.with_driver (driver s) (Send.with_reliable_prefix send (len (header_bi s)) negotiated),
       Recv.with_driver (driver s) (Recv.new recv)).

(** ** Accepting streams: a raw session has no accept state *)
Definition accept_uni (s : Self) (polls : list (list (QuinnSession.SessionAccept.answer RecvS)))
  : M (option Accepting * C) SessionError (RecvStream RecvS D) := fun '(accept, conn) =>
  match accept with
  | Some accept =>
      let '(r, accept) := (
        let* recv := SessionAccept.poll_fn SessionAccept.poll_accept_uni polls in
        ret (Recv.with_driver (driver s) recv)) accept in
      (r, (Some accept, conn))
  | None =>
      let '(r, conn) := (
        let* recv := map_err session_error_from nc_accept_uni in
        ret (Recv.new recv)) conn in
      (r, (None, conn))
  end.
Definition accept_bi (s : Self) (polls : list (list (QuinnSession.SessionAccept.answer (SendS * RecvS))))
  : M (option Accepting * C) SessionError (SendStream SendS D * RecvStream RecvS D) := fun '(accept, conn) =>
  match accept with
  | Some accept =>
      let '(r, accept) := (
        let* (send, recv) := SessionAccept.poll_fn SessionAccept.poll_accept_bi polls in
        ret (Send.with_driver (driver s) send, Recv.with_driver (driver s) recv)) accept in
      (r, (Some accept, conn))
  | None =>
      let '(r, conn) := (
        let* (send, recv) := map_err session_error_from nc_accept_bi in
        ret (Send.new send, Recv.new recv)) conn in
      (r, (None, conn))
  end.

(** ** Datagrams *)
Definition read_datagram (s : Self) : M C SessionError bytes :=
  let* datagram := map_err session_error_from nc_read_datagram in
  match session_id s with
  | Some session_id =>
      let '(r, cursor) := VarInt.decode datagram in
      let* actual_id := map_err (fun _ => SEWebTransportError UnknownSession) (lift r) in
      if negb (bool_decide (actual_id = session_id)) then throw (SEWebTransportError UnknownSession)
      else ret (drop (Z.to_nat (len datagram - len cursor)) datagram)
  | None => ret datagram
  end.
Definition send_datagram (s : Self) (data : bytes) : M C SessionError unit :=
  if negb (bool_decide (header_datagram s = [])) then
    map_err SESendDatagramError (nc_send_datagram (header_datagram s ++ data))
  else map_err SESendDatagramError (nc_send_datagram data).
Definition max_datagram_size (s : Self) (conn : C) : Z :=
  let mtu := default 0 (nc_max_datagram_size conn) in
  Z.max 0 (mtu - len (header_datagram s)).

(** ** Closing *)
Definition close {Q} `{CloseQueue Q} `{QuicConn C} (s : Self) (code : Z) (reason : bytes)
  : M (C * option Q) Empty_set unit := fun '(conn, close_tx) =>
  if bool_decide (session_id s = None) then (Ok (), (conn_close code reason conn, close_tx)) else
  let close_now (tx : option Q) : outcome Empty_set unit * (C * option Q) :=
    (Ok (), (if bool_decide (is_Some (session_id s)) then QuionTask.Session.close_connection code reason conn
             else conn_close code reason conn, tx)) in
  match close_tx with
  | Some tx =>
      match QuionTask.Session.capsule_reason (take (Z.to_nat (Z.min (len reason) 1024)) reason) with
      | Ok cut =>
          let '(sent, tx) := try_send (MkCloseCommand code cut) tx in
          match sent with
          | Sent | QueueFull => (Ok (), (conn, Some tx))
          | QueueClosed => close_now (Some tx)
          end
      | Err x => match x with end
      | Panic => (Panic, (conn, Some tx))
      | OutOfFuel => (OutOfFuel, (conn, Some tx))
      end
  | None => close_now None
  end.
End Ops.
End Session.

(** ** Agreement with the loops over Quinn: the same streams, states and answers *)
Definition same_result {E E' A B} (errors : E -> E' -> Prop) (f : A -> B) (r : outcome E A) (r' : outcome E' B) : Prop :=
  match r, r' with
  | Ok a, Ok b => b = f a
  | Err e, Err e' => errors e e'
  | Panic, Panic | OutOfFuel, OutOfFuel => True
  | _, _ => False
  end.

Section Agreement.
Context `{Quion} {SendS RecvS D : Type} `{AsyncRead RecvS}.
Import QuinnSession.SessionAccept(acc_session_id, pending_uni, pending_bi).

(** The errors of the two backends for one error of the connection: the same
    error, or the same code with the reason, which Quinn has as bytes. *)
Definition same_error (e : QuinnStreams.SessionError) (e' : SessionError) : Prop :=
  match e, e' with
  | QuinnStreams.SEConnectionError c, SEConnectionError c' => c = c'
  | QuinnStreams.SEWebTransportError (QuinnStreams.Closed code reason), SEWebTransportError (Closed code' reason') =>
      code = code' /\ reason = from_utf8_lossy reason'
  | QuinnStreams.SEWebTransportError QuinnStreams.UnknownSession, SEWebTransportError UnknownSession => True
  | _, _ => False
  end.
Lemma session_errors_same c : same_error (QuinnStreams.session_error_from c) (session_error_from c).
Proof.
  unfold QuinnStreams.session_error_from, session_error_from. destruct (application_closed c) as [[code reason]|]; [|done].
  by destruct (error_from_http3 code).
Qed.
(** Both are that of an error the connection gave. *)
Definition connection_error {X} (answers : list (QuinnSession.SessionAccept.answer X))
    (e : QuinnStreams.SessionError) (e' : SessionError) : Prop :=
  exists c, QuinnSession.SessionAccept.Arrived (inr c) ∈ answers /\
    e = QuinnStreams.session_error_from c /\ e' = session_error_from c.
Lemma connection_error_cons {X A B} (f : A -> B) a (answers : list (QuinnSession.SessionAccept.answer X)) r r' :
  same_result (connection_error answers) f r r' -> same_result (connection_error (a :: answers)) f r r'.
Proof.
  destruct r as [|e| |], r' as [|e'| |]; try done. cbn. intros (c & Hc & He). exists c. split; [by right|done].
Qed.
Definition both_unknown (e : QuinnStreams.SessionError) (e' : SessionError) : Prop :=
  e = QuinnStreams.SEWebTransportError QuinnStreams.UnknownSession /\ e' = SEWebTransportError UnknownSession.

Lemma decode_uni_agrees sid (s : RecvS) :
  let '(r, t) := QuinnSession.SessionAccept.decode_uni sid s in
  exists r', SessionAccept.decode_uni sid s = (r', t) /\ same_result both_unknown id r r'.
Proof.
  unfold QuinnSession.SessionAccept.decode_uni, SessionAccept.decode_uni, map_err, bind.
  destruct (VarInt.read s) as [[typ| | |] s1]; try (eexists; by split).
  cbv zeta. case_bool_decide; [|by eexists].
  destruct (VarInt.read s1) as [[sid'| | |] s2]; try (eexists; by split).
  destruct (negb _); by eexists.
Qed.
Lemma decode_bi_agrees sid (s : RecvS) :
  let '(r, t) := QuinnSession.SessionAccept.decode_bi sid s in
  exists r', SessionAccept.decode_bi sid s = (r', t) /\ same_result both_unknown id r r'.
Proof.
  unfold QuinnSession.SessionAccept.decode_bi, SessionAccept.decode_bi, map_err, bind.
  destruct (VarInt.read s) as [[typ| | |] s1]; try (eexists; by split).
  destruct (negb _); [by eexists|].
  destruct (VarInt.read s1) as [[sid'| | |] s2]; try (eexists; by split).
  destruct (negb _); by eexists.
Qed.

Lemma poll_uni_agrees answers : forall st : QuinnSession.SessionAccept.State (SendS:=SendS) (RecvS:=RecvS),
  let '(r, st') := QuinnSession.SessionAccept.poll_accept_uni answers st in
  exists r', SessionAccept.poll_accept_uni (D:=D) answers st = (r', st') /\
    same_result (connection_error answers) (option_map Recv.new) r r'.
Proof.
  induction answers as [|a answers IH]; intros st; [by eexists|].
  assert (Hgo : forall st : QuinnSession.SessionAccept.State (SendS:=SendS) (RecvS:=RecvS), let '(r, st') := QuinnSession.SessionAccept.poll_accept_uni answers st in
    exists r', SessionAccept.poll_accept_uni (D:=D) answers st = (r', st') /\
      same_result (connection_error (a :: answers)) (option_map Recv.new) r r').
  { intros st1. specialize (IH st1). destruct (QuinnSession.SessionAccept.poll_accept_uni answers st1).
    destruct IH as (r' & ? & ?). exists r'. split; [done|by apply connection_error_cons]. }
  destruct a as [[recv|e]|i|]; cbn [QuinnSession.SessionAccept.poll_accept_uni SessionAccept.poll_accept_uni]; try (by eexists).
  - apply Hgo.
  - eexists. split; [done|]. exists e. split; [by left|done].
  - destruct (pending_uni st !! i) as [recv|]; [|by eexists].
    pose proof (decode_uni_agrees (acc_session_id st) recv) as Hd.
    destruct (QuinnSession.SessionAccept.decode_uni _ recv) as [r t]. destruct Hd as (r' & -> & Hr).
    destruct r as [typ| | |], r' as [typ'| | |]; try done; try (by eexists); try apply Hgo.
    cbn in Hr. subst typ'. cbv zeta. repeat case_bool_decide; try apply Hgo. by eexists.
Qed.
Lemma poll_bi_agrees answers : forall st : QuinnSession.SessionAccept.State (SendS:=SendS) (RecvS:=RecvS),
  let '(r, st') := QuinnSession.SessionAccept.poll_accept_bi answers st in
  exists r', SessionAccept.poll_accept_bi (D:=D) answers st = (r', st') /\
    same_result (connection_error answers) (option_map (fun sr => (Send.new sr.1, Recv.new sr.2))) r r'.
Proof.
  induction answers as [|a answers IH]; intros st; [by eexists|].
  assert (Hgo : forall st : QuinnSession.SessionAccept.State (SendS:=SendS) (RecvS:=RecvS), let '(r, st') := QuinnSession.SessionAccept.poll_accept_bi answers st in
    exists r', SessionAccept.poll_accept_bi (D:=D) answers st = (r', st') /\
      same_result (connection_error (a :: answers)) (option_map (fun sr => (Send.new sr.1, Recv.new sr.2))) r r').
  { intros st1. specialize (IH st1). destruct (QuinnSession.SessionAccept.poll_accept_bi answers st1).
    destruct IH as (r' & ? & ?). exists r'. split; [done|by apply connection_error_cons]. }
  destruct a as [[streams|e]|i|]; cbn [QuinnSession.SessionAccept.poll_accept_bi SessionAccept.poll_accept_bi]; try (by eexists).
  - apply Hgo.
  - eexists. split; [done|]. exists e. split; [by left|done].
  - destruct (pending_bi st !! i) as [[send recv]|]; [|by eexists].
    pose proof (decode_bi_agrees (acc_session_id st) recv) as Hd.
    destruct (QuinnSession.SessionAccept.decode_bi _ recv) as [r t]. destruct Hd as (r' & -> & Hr).
    destruct r as [[]| | |], r' as [[]| | |]; try done; try (by eexists); try apply Hgo.
Qed.

Lemma conserved_same {A B B' E E'} (errors : E -> E' -> Prop) typ sid (recv : A -> Incoming) (out : B -> Incoming) (out' : B' -> Incoming) f
    before arrived after (r : outcome E (option B)) (r' : outcome E' (option B')) :
  same_result errors (option_map f) r r' -> (forall b, out' (f b) = out b) ->
  conserved typ sid recv out before arrived after r -> conserved typ sid recv out' before arrived after r'.
Proof.
  intros Hs Hout (dropped & Hd & Hr). exists dropped. split; [done|].
  destruct r as [[b|]| | |], r' as [[b'|]| | |]; cbn in Hs; try done. injection Hs as ->. by rewrite Hout.
Qed.
End Agreement.

(** ** Opening *)
Class QuionOpenLaws `{Quion} {C SendS RecvS} `{!QuionSend SendS} `{!QuionConnection C SendS RecvS}
    (sent : SendS -> bytes) : Prop := {
  nopen_uni_fresh conn : match nc_open_uni conn with (Ok send, _) => sent send = [] | _ => True end;
  nopen_bi_fresh conn : match nc_open_bi conn with (Ok (send, _), _) => sent send = [] | _ => True end;
  nwrite_all_sends l s : match ns_write_all l s with (Ok _, s') => sent s' = sent s ++ l | _ => True end
}.

Lemma quion_new_session {U D} sid (u : U) (d : option D) :
  varint_ok sid ->
  Session.new sid u d = Ok (MkSession (Some sid) d (uni_header sid) (bi_header sid) (varint_bytes sid) u).
Proof.
  intros Hs. pose proof (QuinnSession.new_session sid u Hs) as Hn.
  unfold QuinnSession.Session.new, QuinnSession.Session.encode_into in Hn. unfold Session.new. cbv zeta.
  destruct ((UniStream.encode UniStream.WEBTRANSPORT ;;; VarInt.encode sid) []) as [[[]| | |] v1]; try done.
  destruct ((Frame.encode Frame.WEBTRANSPORT ;;; VarInt.encode sid) []) as [[[]| | |] v2]; try done.
  destruct (VarInt.encode sid []) as [[[]| | |] v3]; try done. cbn in *. congruence.
Qed.
Lemma header_small sid : varint_ok sid -> len (uni_header sid) <= 10 /\ len (bi_header sid) <= 10.
Proof.
  intros Hs. pose proof (len_varint_bytes sid Hs) as Hl. unfold uni_header, bi_header. rewrite !len_app.
  change (len (varint_bytes (stream_type UniStream.WEBTRANSPORT))) with 2.
  change (len (varint_bytes (frame_type Frame.WEBTRANSPORT))) with 2. repeat case_match; lia.
Qed.

Section Open.
Context `{Quion} {C SendS RecvS U D : Type} `{!QuionSend SendS} `{!QuionConnection C SendS RecvS}
  (sent : SendS -> bytes) `{!QuionOpenLaws sent}.

(** A stream with the header in it, to be reset reliably if the connection can. *)
Definition opened (s : Session U D) (header : bytes) (conn : C) (send : SendStream SendS D) : Prop :=
  sent (stream send) = header /\ send_driver send = driver s /\
  reliable_prefix send = (if Session.reset_stream_at_negotiated conn then Some (as_u32 (len header)) else None).

Lemma write_full_sent header s s' : Session.write_full header s = (Ok (), s') -> sent s' = sent s ++ header.
Proof.
  unfold Session.write_full, map_err. pose proof (nwrite_all_sends header s) as Hw.
  destruct (ns_write_all header s) as [[[]| | |] s1]; try done. by intros [= <-].
Qed.
Lemma open_uni_opened (s : Session U D) conn conn' send :
  Session.open_uni s conn = (Ok send, conn') -> opened s (header_uni s) conn' send.
Proof.
  unfold Session.open_uni, bind, map_err, lift, ret. pose proof (nopen_uni_fresh conn) as Hf.
  destruct (nc_open_uni conn) as [[s0| | |] c]; try done.
  destruct (Session.write_full (header_uni s) s0) as [[[]| | |] s1] eqn:E; try done.
  intros [= <- <-]. split; [cbn; by rewrite (write_full_sent _ _ _ E), Hf|]. split; [done|].
  unfold Send.with_reliable_prefix, Send.with_driver. cbn. by destruct (Session.reset_stream_at_negotiated _).
Qed.
Lemma open_bi_opened (s : Session U D) conn conn' send recv :
  Session.open_bi s conn = (Ok (send, recv), conn') -> opened s (header_bi s) conn' send /\ recv_driver recv = driver s.
Proof.
  unfold Session.open_bi, bind, map_err, lift, ret. pose proof (nopen_bi_fresh conn) as Hf.
  destruct (nc_open_bi conn) as [[[s0 r0]| | |] c]; try done.
  destruct (Session.write_full (header_bi s) s0) as [[[]| | |] s1] eqn:E; try done.
  intros [= <- <- <-]. split; [|done]. split; [cbn; by rewrite (write_full_sent _ _ _ E), Hf|]. split; [done|].
  unfold Send.with_reliable_prefix, Send.with_driver. cbn. by destruct (Session.reset_stream_at_negotiated _).
Qed.

End Open.

(** ** What is done with a stream before it is reset *)
Section Resetting.
Context `{Quion} {SendS D : Type} `{!QuionSend SendS}.
Abbreviation Stream := (SendStream SendS D).
Inductive send_op :=
| WriteOp (buf : bytes) | WriteAllOp (buf : bytes) | WriteChunkOp (buf : bytes) | WriteBufOp (buf : bytes)
| WriteAllChunksOp (bufs : list bytes) | SetPriorityOp (order : Z) | StoppedOp | FinishOp.
(** The stream after an operation, whatever it answered. *)
Definition perform (self : Stream) (op : send_op) : Stream :=
  match op with
  | WriteOp buf => (Send.write buf self).2
  | WriteAllOp buf => (Send.write_all buf self).2
  | WriteChunkOp buf => (Send.write_chunk buf self).2
  | WriteBufOp buf => (Send.trait_write_buf (self, buf)).2.1
  | WriteAllChunksOp bufs => (Send.write_all_chunks bufs self).2.1
  | SetPriorityOp order => Send.set_priority order self
  | StoppedOp => (Send.stopped self).2
  | FinishOp => (Send.finish self).2
  end.

(** Documented behaviour: what a stream was given to send is not taken back. *)
Class QuionAppendLaws (sent : SendS -> bytes) : Prop := {
  nwrite_appends l s : sent s `prefix_of` sent (ns_write l s).2;
  nwrite_all_appends l s : sent s `prefix_of` sent (ns_write_all l s).2;
  nstopped_keeps s : sent (ns_stopped s).2 = sent s;
  nfinish_keeps s : sent (ns_finish s).2 = sent s;
  npriority_keeps order s : sent (ns_set_priority order s) = sent s
}.
Context (sent : SendS -> bytes) `{!QuionAppendLaws sent}.

(** The stream may have sent more, and is otherwise the one it was. *)
Definition extends (a b : Stream) : Prop :=
  sent (stream a) `prefix_of` sent (stream b) /\ reliable_prefix b = reliable_prefix a /\ send_driver b = send_driver a.
Lemma extends_refl a : extends a a.
Proof. by split. Qed.
Lemma extends_trans a b c : extends a b -> extends b c -> extends a c.
Proof. intros (H1 & H2 & H3) (H4 & H5 & H6). split; [by etrans|]. split; congruence. Qed.
Lemma on_stream_extends {E A} (m : M SendS E A) (s : Stream) :
  sent (stream s) `prefix_of` sent (m (stream s)).2 -> extends s (Send.on_stream m s).2.
Proof. unfold Send.on_stream. by destruct (m (stream s)). Qed.
Lemma map_err_state {S E F A} (f : E -> F) (m : M S E A) s : (map_err f m s).2 = (m s).2.
Proof. unfold map_err. by destruct (m s) as [[| | |] ?]. Qed.
Lemma write_extends buf (s : Stream) : extends s (Send.write buf s).2.
Proof. unfold Send.write. rewrite map_err_state. apply on_stream_extends, nwrite_appends. Qed.
Lemma write_all_extends buf (s : Stream) : extends s (Send.write_all buf s).2.
Proof. unfold Send.write_all. rewrite map_err_state. apply on_stream_extends, nwrite_all_appends. Qed.
Lemma write_one_extends fuel : forall (s : Stream) buf, extends s (Send.write_one fuel (s, buf)).2.1.
Proof.
  induction fuel as [|fuel IH]; intros s buf; [apply extends_refl|]. cbn [Send.write_one fst snd].
  case_bool_decide; [apply extends_refl|]. unfold bind, on_fst. cbn [fst snd]. pose proof (write_extends buf s) as Hw.
  destruct (Send.write buf s) as [[n| | |] s']; cbn [fst snd] in *; try done. unfold on_snd. cbn [fst snd].
  destruct (advance n buf) as [[[]| | |] buf']; try done. eapply extends_trans; [exact Hw|apply IH].
Qed.
Lemma write_all_chunks_extends bufs : forall (s : Stream), extends s (Send.write_all_chunks bufs s).2.1.
Proof.
  induction bufs as [|buf bufs IH]; intros s; [apply extends_refl|]. cbn [Send.write_all_chunks].
  pose proof (write_one_extends (Datatypes.S (length buf)) s buf) as Hw.
  destruct (Send.write_one _ (s, buf)) as [[[]| | |] [s' buf']]; try exact Hw. specialize (IH s').
  destruct (Send.write_all_chunks bufs s') as [o [s'' bufs']]. by eapply extends_trans.
Qed.
Lemma perform_extends (s : Stream) op : extends s (perform s op).
Proof.
  destruct op as [buf|buf|buf|buf|bufs|order| |]; cbn [perform].
  - apply write_extends.
  - apply write_all_extends.
  - apply write_all_extends.
  - unfold Send.trait_write_buf, bind, on_fst. cbn [fst snd]. pose proof (write_extends (chunk buf) s) as Hw.
    destruct (Send.write (chunk buf) s) as [[n| | |] s']; cbn [fst snd] in *; try exact Hw. unfold on_snd. cbn [fst snd].
    by destruct (advance n buf) as [[[]| | |] buf'].
  - apply write_all_chunks_extends.
  - split; [|done]. cbn. by rewrite npriority_keeps.
  - unfold Send.stopped, bind, map_err. pose proof (on_stream_extends ns_stopped s) as He. rewrite nstopped_keeps in He.
    specialize (He ltac:(done)). by destruct (Send.on_stream ns_stopped s) as [[| | |] ?].
  - unfold Send.finish. rewrite map_err_state. apply on_stream_extends. by rewrite nfinish_keeps.
Qed.
Definition performed (self : Stream) (ops : list send_op) : Stream := fold_left perform ops self.
Lemma performed_extends ops : forall s : Stream, extends s (performed s ops).
Proof.
  induction ops as [|op ops IH]; intros s; [apply extends_refl|].
  eapply extends_trans; [apply perform_extends|apply IH].
Qed.

(** Resetting an opened stream, after whatever was done with it, has all of the
    header, and nothing else, delivered, if the connection can. *)
Lemma reset_keeps_header (header : bytes) negotiated send ops code :
  reliable_prefix send = (if negotiated : bool then Some (as_u32 (len header)) else None) ->
  len header <= 10 -> is_u32 code ->
  Send.reset code (performed send ops)
  = map_err write_error_from (Send.on_stream
      (if negotiated then ns_reset_at (error_to_http3 code) (len header) else ns_reset (error_to_http3 code))) (performed send ops).
Proof.
  intros Hp Hl Hc. destruct (performed_extends ops send) as (_ & Hr & _). rewrite quion_reset_wire by done.
  rewrite Hr, Hp. destruct negotiated; [|done]. unfold as_u32, as_u. pose_len. by rewrite Z.mod_small by lia.
Qed.
(** As much of the stream as a peer may get, from the header on. *)
Lemma header_part header (send : Stream) ops got :
  sent (stream send) = header -> got `prefix_of` sent (stream (performed send ops)) -> len header <= len got ->
  exists part, got = header ++ part.
Proof.
  intros Hs [k Hk] Hl. destruct (performed_extends ops send) as ([k' Hk'] & _). rewrite Hk, Hs in Hk'.
  destruct (split_at (len header) got ltac:(pose_len; lia)) as (h & part & -> & Hh). exists part. f_equal.
  rewrite <- app_assoc in Hk'. apply app_inj_1 in Hk' as [Hk' _]; [done|]. unfold len in Hh. lia.
Qed.
End Resetting.

(** What a peer makes of a stream that begins with the header. *)
Lemma uni_header_read `{Quinn} sid data e :
  varint_ok sid -> is_bytes data ->
  QuinnSession.SessionAccept.decode_uni sid (MkIncoming (uni_header sid ++ data) e) = (Ok UniStream.WEBTRANSPORT, MkIncoming data e).
Proof.
  intros Hs Hd. unfold uni_header. rewrite <- app_assoc. unfold QuinnSession.SessionAccept.decode_uni.
  mstep (read_varint_bytes (stream_type UniStream.WEBTRANSPORT) (varint_bytes sid ++ data) e ltac:(by_eval) ltac:(apply is_bytes_app; auto with wt)).
  cbv zeta. rewrite bool_decide_eq_true_2 by done. mstep (read_varint_bytes sid data e Hs Hd). by rewrite bool_decide_eq_true_2.
Qed.
Lemma bi_header_read `{Quinn} sid data e :
  varint_ok sid -> is_bytes data ->
  QuinnSession.SessionAccept.decode_bi sid (MkIncoming (bi_header sid ++ data) e) = (Ok true, MkIncoming data e).
Proof.
  intros Hs Hd. unfold bi_header. rewrite <- app_assoc. unfold QuinnSession.SessionAccept.decode_bi.
  mstep (read_varint_bytes (frame_type Frame.WEBTRANSPORT) (varint_bytes sid ++ data) e ltac:(by_eval) ltac:(apply is_bytes_app; auto with wt)).
  rewrite bool_decide_eq_true_2 by done. cbn [negb]. mstep (read_varint_bytes sid data e Hs Hd). by rewrite bool_decide_eq_true_2.
Qed.

Section Reading.
Context `{Quion}.
Lemma quion_uni_header_read sid data e :
  varint_ok sid -> is_bytes data ->
  SessionAccept.decode_uni sid (MkIncoming (uni_header sid ++ data) e) = (Ok UniStream.WEBTRANSPORT, MkIncoming data e).
Proof.
  intros Hs Hd. pose proof (decode_uni_agrees sid (MkIncoming (uni_header sid ++ data) e)) as Ha.
  rewrite uni_header_read in Ha by done. destruct Ha as (r' & -> & Hr). destruct r'; try done. cbn in Hr. by subst.
Qed.
Lemma quion_bi_header_read sid data e :
  varint_ok sid -> is_bytes data ->
  SessionAccept.decode_bi sid (MkIncoming (bi_header sid ++ data) e) = (Ok true, MkIncoming data e).
Proof.
  intros Hs Hd. pose proof (decode_bi_agrees sid (MkIncoming (bi_header sid ++ data) e)) as Ha.
  rewrite bi_header_read in Ha by done. destruct Ha as (r' & -> & Hr). destruct r'; try done. cbn in Hr. by subst.
Qed.
End Reading.

(** ** A sample connection *)
Record SampleQConn := MkSampleQConn { sq_datagrams : list bytes; sq_incoming : list bytes; sq_reset_at : bool }.
Definition fresh_stream : QStream := MkQStream (MkWStream [] 3) None.
#[export] Instance sample_quion_connection : QuionConnection (H:=sample_quion) SampleQConn QStream RStream :=
  @Build_QuionConnection sample_quion SampleQConn QStream RStream
    (ret fresh_stream) (ret (fresh_stream, MkRStream [] 3)) (throw None) (throw None)
    (fun c => match sq_incoming c with
      | d :: ds => (Ok d, MkSampleQConn (sq_datagrams c) ds (sq_reset_at c)) | [] => (Err None, c) end)
    (fun d c => (Ok (), MkSampleQConn (sq_datagrams c ++ [d]) (sq_incoming c) (sq_reset_at c)))
    (fun _ => Some 1200) (fun c => Some (sq_reset_at c)).
#[export] Instance sample_quion_open_laws : QuionOpenLaws (QuionSend0:=sample_quion_send) (QuionConnection0:=sample_quion_connection) (fun s => ws_sent (qs_out s)).
Proof. by split. Qed.
#[export] Instance sample_quion_append_laws : QuionAppendLaws (QuionSend0:=sample_quion_send) (fun s => ws_sent (qs_out s)).
Proof. split; intros; try done; by eexists. Qed.

(** ** Properties *)

(** C27: a reset does not lose the stream for the session.  A stream a session
    opens begins with the header of the session and keeps the session's driver.
    After any sequence of its methods that write (in whole, in part, or failing), set
    the priority, finish or wait for the peer, resetting it with any code asks Quion to deliver still
    exactly the header when the connection negotiated reliable resets, and is a
    plain reset otherwise.  And a peer that gets any part of what the stream sent
    that has the header, be it all the reset delivers, takes the stream for one of
    the session, with only its header consumed. *)
Theorem reliable_reset_attributed `{Quion} {C SendS RecvS U D} `{!QuionSend SendS} `{!QuionConnection C SendS RecvS}
  (sent : SendS -> bytes) `{!QuionOpenLaws sent} `{!QuionAppendLaws sent} (sid : VarInt) (u : U) (d : option D) (Hsid : varint_ok sid) :
  let attributed (header : bytes) (negotiated : bool) (send : SendStream SendS D) (taken : bytes -> bytes -> Prop) :=
    sent (stream send) = header /\ send_driver send = d /\
    forall ops code, is_u32 code ->
      let send' := performed send ops in
      Send.reset code send' = map_err write_error_from (Send.on_stream
        (if negotiated then ns_reset_at (error_to_http3 code) (len header) else ns_reset (error_to_http3 code))) send' /\
      forall got, is_bytes got -> got `prefix_of` sent (stream send') -> len header <= len got ->
        exists part, got = header ++ part /\ taken got part in
  exists s, Session.new sid u d = Ok s /\
    (forall conn conn' send, Session.open_uni s conn = (Ok send, conn') ->
       attributed (uni_header sid) (Session.reset_stream_at_negotiated conn') send (fun got part => forall e,
         SessionAccept.decode_uni sid (MkIncoming got e) = (Ok UniStream.WEBTRANSPORT, MkIncoming part e))) /\
    (forall conn conn' send recv, Session.open_bi s conn = (Ok (send, recv), conn') ->
       recv_driver recv = d /\
       attributed (bi_header sid) (Session.reset_stream_at_negotiated conn') send (fun got part => forall e,
         SessionAccept.decode_bi sid (MkIncoming got e) = (Ok true, MkIncoming part e))).
Proof.
  intros attributed. eexists. split; [by apply quion_new_session|]. destruct (header_small sid Hsid) as [Hu Hb]. split.
  - intros conn conn' send Ho. destruct (open_uni_opened sent _ _ _ _ Ho) as (Hs & Hd & Hp).
    split; [done|]. split; [done|]. intros ops code Hc. split; [by eapply (reset_keeps_header sent)|].
    intros got Hg Hpre Hl. destruct (header_part sent _ send ops got Hs Hpre Hl) as [part ->]. exists part. split; [done|].
    intros e. apply is_bytes_app in Hg as [_ Hg]. by apply quion_uni_header_read.
  - intros conn conn' send recv Ho. destruct (open_bi_opened sent _ _ _ _ _ Ho) as [(Hs & Hd & Hp) Hr].
    split; [done|]. split; [done|]. split; [done|]. intros ops code Hc. split; [by eapply (reset_keeps_header sent)|].
    intros got Hg Hpre Hl. destruct (header_part sent _ send ops got Hs Hpre Hl) as [part ->]. exists part. split; [done|].
    intros e. apply is_bytes_app in Hg as [_ Hg]. by apply quion_bi_header_read.
Qed.
Lemma reliable_reset_attributed_witness :
  exists s : Session bytes unit, Session.new (MkVarInt 4) (lit "https://a/") (Some tt) = Ok s /\
    exists send conn', Session.open_uni (QuionSend0:=sample_quion_send) (QuionConnection0:=sample_quion_connection) s (MkSampleQConn [] [] true) = (Ok send, conn') /\
      let send' := performed (QuionSend0:=sample_quion_send) send [WriteOp [1; 2; 3; 4; 5]; WriteAllOp [9]] in
      ws_sent (qs_out (stream send')) = uni_header (MkVarInt 4) ++ [1; 2; 3; 4; 9] /\
      Send.reset (QuionSend0:=sample_quion_send) 7 send'
          = map_err write_error_from (Send.on_stream (ns_reset_at (QuionSend:=sample_quion_send) (error_to_http3 7) 3)) send' /\
      (Send.reset (QuionSend0:=sample_quion_send) 7 send').2.(stream).(qs_cut) = Some (error_to_http3 7, Some 3).
Proof.
  destruct (reliable_reset_attributed (QuionSend0:=sample_quion_send) (QuionConnection0:=sample_quion_connection) (fun s => ws_sent (qs_out s)) (MkVarInt 4) (lit "https://a/") (Some tt) ltac:(by_eval))
    as (s & Hs & Hu & _).
  exists s. split; [exact Hs|]. rewrite quion_new_session in Hs by by_eval. injection Hs as <-.
  eexists _, _. split; [reflexivity|]. intros send'. split; [reflexivity|]. split; [|reflexivity].
  destruct (Hu (MkSampleQConn [] [] true) _ _ eq_refl) as (_ & _ & Hr).
  exact (proj1 (Hr [WriteOp [1; 2; 3; 4; 5]; WriteAllOp [9]] 7 ltac:(by_eval))).
Defined.

(** C28: the session logic of the two backends is the same where they share it.  On
    the same stream, the same schedule and the same events the background task and
    both accept loops end with the same answer and the same state.  An error of a
    loop is in both backends that of an error the connection gave, each as its own
    type has it, which is the same error, or the same code and reason (as UTF-8).  So the loops
    over Quion, for streams in one direction and in both, lose no stream either: one
    that was pending or arrived is returned, still pending, or dropped as not of the
    session. *)
Theorem quion_matches_quinn `{Platform} `{Quion} :
  (forall T W S (HW : AsyncWrite W) (HC : CloseStream W) (HR : AsyncRead S) fuel schedule (st : RunState W S),
     QuionTask.Session.run_closed (H0:=T) fuel schedule st = QuinnCapsules.run_closed (H0:=T) fuel schedule st) /\
  (forall SendS RecvS D (HR : AsyncRead RecvS) answers (st : QuinnSession.SessionAccept.State (SendS:=SendS) (RecvS:=RecvS)),
     let '(r, st') := QuinnSession.SessionAccept.poll_accept_uni answers st in
     exists r', SessionAccept.poll_accept_uni (D:=D) answers st = (r', st') /\
       same_result (connection_error answers) (option_map Recv.new) r r') /\
  (forall SendS RecvS D (HR : AsyncRead RecvS) answers (st : QuinnSession.SessionAccept.State (SendS:=SendS) (RecvS:=RecvS)),
     let '(r, st') := QuinnSession.SessionAccept.poll_accept_bi answers st in
     exists r', SessionAccept.poll_accept_bi (D:=D) answers st = (r', st') /\
       same_result (connection_error answers) (option_map (fun sr => (Send.new sr.1, Recv.new sr.2))) r r') /\
  (forall c, same_error (QuinnStreams.session_error_from c) (session_error_from c)) /\
  (forall SendS D answers (st : QuinnSession.SessionAccept.State (SendS:=SendS) (RecvS:=Incoming)),
     Forall stream_ok (QuinnSession.SessionAccept.pending_uni st) -> Forall stream_ok (arrivals answers) ->
     let '(r, st') := SessionAccept.poll_accept_uni (D:=D) answers st in
     exists used unused, answers = used ++ unused /\
       conserved (stream_type UniStream.WEBTRANSPORT) (QuinnSession.SessionAccept.acc_session_id st) id inner
         (QuinnSession.SessionAccept.pending_uni st) (arrivals used) (QuinnSession.SessionAccept.pending_uni st') r) /\
  (forall SendS D answers (st : QuinnSession.SessionAccept.State (SendS:=SendS) (RecvS:=Incoming)),
     Forall (fun sr => stream_ok sr.2) (QuinnSession.SessionAccept.pending_bi st) ->
     Forall (fun sr => stream_ok sr.2) (arrivals answers) ->
     let '(r, st') := SessionAccept.poll_accept_bi (D:=D) answers st in
     exists used unused, answers = used ++ unused /\
       conserved (frame_type Frame.WEBTRANSPORT) (QuinnSession.SessionAccept.acc_session_id st) snd (fun sr => inner sr.2)
         (QuinnSession.SessionAccept.pending_bi st) (arrivals used) (QuinnSession.SessionAccept.pending_bi st') r).
Proof.
  split; [|split; [|split; [|split; [|split]]]].
  - intros. by rewrite quion_run_closed_same.
  - intros. apply poll_uni_agrees.
  - intros. apply poll_bi_agrees.
  - apply session_errors_same.
  - intros SendS D answers st Hp Ha. pose proof (poll_uni_conserves answers st Hp Ha) as Hc.
    pose proof (poll_uni_agrees (D:=D) answers st) as Hr.
    destruct (QuinnSession.SessionAccept.poll_accept_uni answers st) as [r st']. destruct Hr as (r' & -> & Hr).
    destruct Hc as (_ & _ & used & unused & -> & Hc). exists used, unused. split; [done|].
    by eapply (conserved_same _ _ _ id id inner Recv.new).
  - intros SendS D answers st Hp Ha. pose proof (poll_bi_conserves answers st Hp Ha) as Hc.
    pose proof (poll_bi_agrees (D:=D) answers st) as Hr.
    destruct (QuinnSession.SessionAccept.poll_accept_bi answers st) as [r st']. destruct Hr as (r' & -> & Hr).
    destruct Hc as (_ & _ & used & unused & -> & Hc). exists used, unused. split; [done|].
    by eapply (conserved_same _ _ _ snd snd (fun sr => inner sr.2)).
Qed.

(** [close] asks for the close at most once, with a bounded request.  On a
    session the command that is queued carries the code and a reason that is valid
    UTF-8 of at most 1,024 bytes, the reason itself if it is such; the task then
    sends exactly that reason.  A full queue keeps the first request and drops this
    one; without a task to take it the connection is closed with the mapped code.
    A raw session's connection is closed at once with the code as it is. *)
Theorem close_request `{Platform} {C Q U D} `{QuicConn C} `{CloseQueue Q} (code : Z) (reason : bytes)
  (Hreason : is_bytes reason) (conn : C) (tx : Q) (s : Session U D) :
  (session_id s = None ->
     forall queue, Session.close s code reason (conn, queue) = (Ok (), (conn_close code reason conn, queue))) /\
  (session_id s <> None -> exists cut, is_bytes cut /\ valid_utf8 cut = true /\ len cut <= 1024 /\
     (valid_utf8 reason = true -> len reason <= 1024 -> cut = reason) /\
     QuionTask.Session.capsule_reason cut = Ok cut /\
     Session.close s code reason (conn, Some tx) =
       (let '(sent, tx') := try_send (MkCloseCommand code cut) tx in
       (Ok (), (match sent with
                | Sent | QueueFull => conn
                | QueueClosed => QuionTask.Session.close_connection code reason conn
                end, Some tx'))) /\
     Session.close s code reason (conn, None) = (Ok (), (QuionTask.Session.close_connection code reason conn, None))).
Proof.
  unfold Session.close. split.
  - intros Hn queue. by rewrite bool_decide_eq_true_2.
  - intros Hn. rewrite bool_decide_eq_false_2 by done.
    assert (Hsome : is_Some (session_id s)) by by apply not_eq_None_Some. rewrite bool_decide_eq_true_2 by done.
    set (front := take (Z.to_nat (Z.min (len reason) 1024)) reason).
    assert (Hfront : is_bytes front) by by apply Forall_take.
    destruct (reason_ok front Hfront) as (cut & Hcut & Hb & Hv & Hl). exists cut.
    split; [done|]. split; [done|]. split; [done|]. split; [|split; [|split]].
    + intros Hrv Hrl. assert (front = reason) as E.
      { unfold front. rewrite Z.min_l by done. apply take_len_all. }
      rewrite E, capsule_reason_id in Hcut by done. congruence.
    + by apply capsule_reason_id.
    + change (QuionTask.Session.capsule_reason front) with (capsule_reason front). rewrite Hcut. cbv zeta.
      by destruct (try_send _ tx) as [[| |] tx'].
    + done.
Qed.
#[export] Instance sample_queue : CloseQueue (option CloseCommand) := {|
  try_send c q := match q with None => (Sent, Some c) | Some c' => (QueueFull, Some c') end |}.
Lemma close_request_witness :
  Session.close (MkSession (U:=unit) (D:=unit) None None [] [] [] tt) 7 (lit "bye") (MkSampleLink None, Some (None : option CloseCommand))
  = (Ok (), (MkSampleLink (Some (7, lit "bye")), Some None)).
Proof.
  exact (proj1 (close_request (H:=Platform64) 7 (lit "bye") ltac:(by_eval) (MkSampleLink None) (None : option CloseCommand) (MkSession None None [] [] [] tt)) eq_refl _).
Defined.

(** A datagram of a Quion session carries the identifier of the session, is
    given back by the peer without it, and is refused when it carries another or
    none. *)
Theorem quion_datagrams `{Platform} `{Quion} {C SendS RecvS U D} `{!QuionSend SendS} `{!QuionConnection C SendS RecvS} `{AsyncRead RecvS}
  (sid : VarInt) (u : U) (d : option D) (Hsid : varint_ok sid) :
  exists s, Session.new sid u d = Ok s /\
    (forall data conn, Session.send_datagram s data conn = map_err SESendDatagramError (nc_send_datagram (varint_bytes sid ++ data)) conn) /\
    (forall dg conn conn', is_bytes dg -> nc_read_datagram conn = (Ok dg, conn') ->
       match Session.read_datagram s conn with
       | (Ok data, _) => VarInt.decode dg = (Ok sid, data)
       | (Err e, _) => e = SEWebTransportError UnknownSession /\ forall data, VarInt.decode dg <> (Ok sid, data)
       | _ => False
       end) /\
    (forall conn mtu data, nc_max_datagram_size conn = Some mtu -> 0 < Session.max_datagram_size s conn ->
       (len data <= Session.max_datagram_size s conn <-> len (varint_bytes sid ++ data) <= mtu)).
Proof.
  eexists. split; [by apply quion_new_session|]. split; [|split].
  - intros data conn. unfold Session.send_datagram. cbn [header_datagram]. pose proof (len_varint_bytes sid Hsid) as Hl.
    rewrite bool_decide_eq_false_2; [done|]. intros E. rewrite E, len_nil in Hl. repeat case_match; lia.
  - intros dg conn conn' Hd Hr. unfold Session.read_datagram, map_err, bind. rewrite Hr. cbn [session_id].
    destruct (decode_split dg Hd) as [(l' & E & _)|(v & pre & rest & -> & E & _)]; rewrite E; unfold lift, ret.
    { split; [done|]. intros data Hdata. congruence. }
    case_bool_decide as Hv; cbn [negb].
    + subst v. rewrite len_app. replace (len pre + len rest - len rest) with (len pre) by lia. by rewrite drop_len_app.
    + split; [done|]. intros data Hdata. congruence.
  - intros conn mtu data Hm. unfold Session.max_datagram_size. rewrite Hm. change (default 0 (Some mtu)) with mtu.
    cbv zeta. cbn [header_datagram]. rewrite len_app. pose_len. lia.
Qed.
