(* ===== verification/Accepting.v ===== *)
(** * Waiting for a stream: the calls of [accept_uni] and [accept_bi]

    All handles of a session share one accept loop behind a mutex, and every call
    polls it with the waker of its own task (webtrans-quinn/src/session.rs and
    webtrans-quion/src/session.rs: [accept_uni], [accept_bi], [SessionAccept]).  An
    interface states what a loop does in one turn; a labelled system has the calls,
    what the connection announces and whom it wakes; the loops of both backends,
    in both directions, implement the interface. *)
From S2P Require Import Prelude Buf Utf8 Varint ErrorCode Frame Capsule Streams QuinnStreams QuinnCapsules QuinnSession.
From S2P Require Import QuionStreams QuionTask QuionSession.
Import QuinnSession.SessionAccept(answer, Arrived, Finished, NotReady).

(** ** The interface of an accept loop *)
Class AcceptLoop `{Quinn} (Machine E A B : Type) := {
  poll : list (answer A) -> M Machine E (option B);
  pending : Machine -> list A
}.

Section Turns.
Context `{Quinn} {Machine E A B : Type} `{!AcceptLoop Machine E A B}.

(** A new stream joins the pending ones. *)
Definition push (m : Machine) (a : A) : Machine := (poll [Arrived (inl a)] m).2.
(** The header of the [i]th pending stream is complete: the stream, or nothing. *)
Definition turn (i : nat) (m : Machine) : option B * Machine :=
  match poll [Finished i] m with
  | (Ok (Some b), m) => (Some b, m)
  | (_, m) => (None, m)
  end.
(** The turns up to the first that yields a stream, and the headers left. *)
Fixpoint turns (hs : list nat) (m : Machine) : option B * Machine * list nat :=
  match hs with
  | [] => (None, m, [])
  | i :: hs =>
      match turn i m with
      | (Some b, m) => (Some b, m, hs)
      | (None, m) => turns hs m
      end
  end.
(** Each index is in range when its turn comes: a turn takes one stream out. *)
Fixpoint valid (n : nat) (hs : list nat) : bool :=
  match hs with
  | [] => true
  | i :: hs => (i <? n)%nat && valid (n - 1) hs
  end.
End Turns.

(** What a loop promises: [good] holds of its states, [ok] of the streams, and [owns a b]
    when the stream [a] is of the session and [b] is what a call gets of it. *)
Class AcceptLaws `{Quinn} {Machine E A B : Type} (L : AcceptLoop Machine E A B)
    (good : Machine -> Prop) (ok : A -> Prop) (owns : A -> B -> Prop) := {
  poll_arrived a l m : poll (Arrived (inl a) :: l) m = poll l (push m a);
  pending_push m a : pending (push m a) = pending m ++ [a];
  good_push m a : good m -> ok a -> good (push m a);
  poll_lost e l m : exists e', poll (Arrived (inr e) :: l) m = (Err e', m);
  poll_not_ready m : poll [NotReady] m = (Ok None, m);
  poll_turn i a m : good m -> pending m !! i = Some a ->
    good (turn i m).2 /\ pending (turn i m).2 = delete i (pending m) /\
    match (turn i m).1 with Some b => owns a b | None => forall b, ~ owns a b end /\
    forall l, poll (Finished i :: l) m =
      match turn i m with (Some b, m') => (Ok (Some b), m') | (None, m') => poll l m' end
}.

(** ** Calls and wake-ups *)
Section System.
Context `{Quinn} {Machine E A B : Type} `{!AcceptLoop Machine E A B}.

(** A call of its own task: it waits, and its task is due to run or not; or it has
    returned; or its future was dropped. *)
Inductive call := Waiting (woken : bool) | Returned (r : outcome E B) | Dropped.

(** Streams the connection has and the loop has not taken, the error it was lost
    with, the headers that are complete and have not had their turn, and the call
    that either source would wake: the last that polled it. *)
Record World := MkWorld {
  machine : Machine;
  incoming : list A;
  lost : option ConnectionError;
  headers : list nat;
  stream_waker : option nat;
  header_waker : option nat;
  calls : list call
}.
Definition start (m : Machine) : World := MkWorld m [] None [] None None [].

Definition rouse (k : call) : call := match k with Waiting _ => Waiting true | k => k end.
Definition wake (waker : option nat) (ks : list call) : list call :=
  match waker with Some c => alter rouse c ks | None => ks end.
Definition settle (r : outcome E (option B)) : call :=
  match r with
  | Ok (Some b) => Returned (Ok b)
  | Ok None => Waiting false
  | Err e => Returned (Err e)
  | Panic => Returned Panic
  | OutOfFuel => Returned OutOfFuel
  end.

(** One poll by the call [c].  New streams are taken first; then, unless the
    connection is lost, the complete headers have their turns, those of the streams
    just taken ([fresh]) behind the others.  A source that is found empty, or not
    ready, keeps the waker of this call in place of any other. *)
Definition poll_by (c : nat) (fresh : list nat) (w : World) : World :=
  let arrived := map (fun a => Arrived (inl a)) (incoming w) in
  match lost w with
  | Some e =>
      let '(r, m) := poll (arrived ++ [Arrived (inr e)]) (machine w) in
      MkWorld m [] (lost w) (headers w) None (header_waker w) (<[c := settle r]> (calls w))
  | None =>
      let hs := headers w ++ fresh in
      let '(r, m) := poll (arrived ++ map Finished hs ++ [NotReady]) (machine w) in
      let left := (turns hs (foldl push (machine w) (incoming w))).2 in
      MkWorld m [] None left (Some c) (Some c) (<[c := settle r]> (calls w))
  end.

(** A handle calls; a call whose task was woken polls; its future is dropped; its
    task is woken for a reason of its own; and the connection has a stream, a
    complete header, or an error. *)
Inductive label := Call | Poll (c : nat) (fresh : list nat) | Drop (c : nat) | Stir (c : nat)
  | Arrive (a : A) | HeaderRead (i : nat) | Lose (e : ConnectionError).

Definition step (l : label) (w : World) : option World :=
  match l with
  | Call => Some (MkWorld (machine w) (incoming w) (lost w) (headers w) (stream_waker w) (header_waker w)
      (calls w ++ [Waiting true]))
  | Poll c fresh =>
      match calls w !! c with
      | Some (Waiting true) =>
          if valid (length (pending (machine w)) + length (incoming w)) (headers w ++ fresh)
          then Some (poll_by c fresh w) else None
      | _ => None
      end
  | Drop c =>
      match calls w !! c with
      | Some (Waiting _) => Some (MkWorld (machine w) (incoming w) (lost w) (headers w) (stream_waker w) (header_waker w)
          (<[c := Dropped]> (calls w)))
      | _ => None
      end
  | Stir c => Some (MkWorld (machine w) (incoming w) (lost w) (headers w) (stream_waker w) (header_waker w)
      (wake (Some c) (calls w)))
  | Arrive a =>
      match lost w with
      | Some _ => None
      | None => Some (MkWorld (machine w) (incoming w ++ [a]) None (headers w) None (header_waker w)
          (wake (stream_waker w) (calls w)))
      end
  | HeaderRead i =>
      if valid (length (pending (machine w))) (headers w ++ [i])
      then Some (MkWorld (machine w) (incoming w) (lost w) (headers w ++ [i]) (stream_waker w) None
        (wake (header_waker w) (calls w)))
      else None
  | Lose e =>
      match lost w with
      | Some _ => None
      | None => Some (MkWorld (machine w) (incoming w) (Some e) (headers w) None (header_waker w)
          (wake (stream_waker w) (calls w)))
      end
  end.

Inductive steps (w : World) : list label -> World -> Prop :=
  | steps_refl : steps w [] w
  | steps_snoc tr l w1 w2 : steps w tr w1 -> step l w1 = Some w2 -> steps w (tr ++ [l]) w2.

Fixpoint run (tr : list label) (w : World) : option World :=
  match tr with
  | [] => Some w
  | l :: tr => match step l w with Some w => run tr w | None => None end
  end.

(** Nothing waits to be processed. *)
Definition idle (w : World) : Prop := incoming w = [] /\ lost w = None /\ headers w = [].
Definition arrived (tr : list label) : list A := omap (fun l => match l with Arrive a => Some a | _ => None end) tr.
Definition result_of (k : call) : option B := match k with Returned (Ok b) => Some b | _ => None end.
Definition returned (w : World) : list B := omap result_of (calls w).
Definition last_poll (tr : list label) : option nat :=
  last (omap (fun l => match l with Poll c _ => Some c | _ => None end) tr).
(** Calls one at a time: none begins while another waits. *)
Definition waiting (k : call) : bool := match k with Waiting _ => true | _ => false end.
Inductive serial (w : World) : list label -> World -> Prop :=
  | serial_refl : serial w [] w
  | serial_snoc tr l w1 w2 : serial w tr w1 -> step l w1 = Some w2 ->
      (l = Call -> existsb waiting (calls w1) = false) -> serial w (tr ++ [l]) w2.
End System.

(** ** What one poll does *)
Section Poll.
Context `{Quinn} {Machine E A B : Type} {L : AcceptLoop Machine E A B} {good : Machine -> Prop} {ok : A -> Prop} {owns : A -> B -> Prop}
  `{!AcceptLaws L good ok owns}.

Lemma poll_streams l rest m :
  poll (map (fun a => Arrived (inl a)) l ++ rest) m = poll rest (foldl push m l).
Proof. revert m. induction l as [|a l IH]; intros m; cbn; [done|]. by rewrite poll_arrived, IH. Qed.
Lemma push_streams l m : good m -> Forall ok l ->
  good (foldl push m l) /\ pending (foldl push m l) = pending m ++ l.
Proof.
  revert m. induction l as [|a l IH]; intros m Hm Hl; cbn; [by rewrite app_nil_r|].
  apply Forall_cons in Hl as [Ha Hl]. destruct (IH (push m a)) as [Hg ->]; [by apply good_push|done|].
  split; [done|]. by rewrite pending_push, <- app_assoc.
Qed.

Lemma valid_mono n n' hs : (n <= n')%nat -> valid n hs -> valid n' hs.
Proof.
  revert n n'. induction hs as [|i hs IH]; intros n n' Hn; cbn [valid]; [done|]. intros [Hi Hv]%andb_prop_elim.
  apply andb_prop_intro. split; [|apply (IH (n - 1)%nat); [lia|done]].
  destruct (Nat.ltb_spec i n); [|by destruct Hi]. destruct (Nat.ltb_spec i n'); [done|lia].
Qed.

Definition foreign (a : A) : Prop := forall b, ~ owns a b.
Lemma poll_turns hs m : good m -> valid (length (pending m)) hs ->
  let '(b, m', later) := turns hs m in
  poll (map Finished hs ++ [NotReady]) m = (Ok b, m') /\ good m' /\ valid (length (pending m')) later /\
  exists dropped, Forall foreign dropped /\
    match b with
    | Some b => exists a, owns a b /\ pending m ≡ₚ a :: dropped ++ pending m'
    | None => later = [] /\ pending m ≡ₚ dropped ++ pending m'
    end.
Proof.
  revert m. induction hs as [|i hs IH]; intros m Hm Hv; cbn [turns map app].
  { rewrite poll_not_ready. split_and!; try done. exists []. by repeat split. }
  cbn [valid] in Hv. apply andb_prop_elim in Hv as [Hi Hv]. destruct (Nat.ltb_spec i (length (pending m))); [|by destruct Hi].
  destruct (lookup_lt_is_Some_2 (pending m) i) as [a Ha]; [done|].
  destruct (poll_turn i a m Hm Ha) as (Hg & Hd & Ho & Hp). rewrite Hp.
  pose proof (delete_Permutation _ _ _ Ha) as Hperm. pose proof (length_delete (pending m) i (mk_is_Some _ _ Ha)) as Hlen.
  destruct (turn i m) as [[b|] m']; cbn in *; rewrite <- Hd in *.
  - split_and!; [done..|by rewrite Hlen|]. exists []. split; [constructor|]. by exists a.
  - rewrite <- Hlen in Hv. specialize (IH m' Hg Hv). destruct (turns hs m') as [[b m''] later].
    destruct IH as (-> & Hg' & Hv' & dropped & Hf & Hr). split_and!; try done.
    exists (a :: dropped). split; [by constructor|]. destruct b as [b|].
    + destruct Hr as (a' & Ho' & Hr). exists a'. split; [done|]. rewrite Hperm, Hr. apply Permutation_swap.
    + destruct Hr as [-> Hr]. split; [done|]. by rewrite Hperm, Hr.
Qed.

Lemma poll_by_lost c fresh w e : lost w = Some e -> exists e',
  poll_by c fresh w = MkWorld (foldl push (machine w) (incoming w)) [] (Some e) (headers w) None (header_waker w)
    (<[c := Returned (Err e')]> (calls w)).
Proof.
  intros He. unfold poll_by. rewrite He, poll_streams.
  destruct (poll_lost e [] (foldl push (machine w) (incoming w))) as [e' ->]. by exists e'.
Qed.

(** A poll of a live connection: it returns a stream of the session, or it waits
    with nothing later to process; what it drops is not of the session. *)
Lemma poll_by_live c fresh w : good (machine w) -> Forall ok (incoming w) -> lost w = None ->
  valid (length (pending (machine w)) + length (incoming w)) (headers w ++ fresh) ->
  exists b m later dropped,
    poll_by c fresh w = MkWorld m [] None later (Some c) (Some c) (<[c := settle (Ok b)]> (calls w)) /\
    good m /\ valid (length (pending m)) later /\ Forall foreign dropped /\
    match b with
    | Some b => exists a, owns a b /\ pending (machine w) ++ incoming w ≡ₚ a :: dropped ++ pending m
    | None => later = [] /\ pending (machine w) ++ incoming w ≡ₚ dropped ++ pending m
    end.
Proof.
  intros Hg Hok Hl Hv. unfold poll_by. rewrite Hl, poll_streams.
  destruct (push_streams (incoming w) (machine w) Hg Hok) as [Hg' Hp].
  rewrite <- length_app, <- Hp in Hv. pose proof (poll_turns _ _ Hg' Hv) as Ht.
  destruct (turns _ _) as [[b m] later]. destruct Ht as (-> & Hgm & Hvm & dropped & Hf & Hr).
  rewrite Hp in Hr. by exists b, m, later, dropped.
Qed.
End Poll.

(** ** Every reachable world *)
Section Calls.
Context {E B : Type}.
Implicit Types ks : list (call (E:=E) (B:=B)).

Lemma lookup_wake waker ks c :
  wake waker ks !! c = (fun k => if decide (waker = Some c) then rouse k else k) <$> ks !! c.
Proof.
  destruct waker as [c'|]; cbn [wake].
  - destruct (decide (Some c' = Some c)) as [[= ->]|Hn].
    + apply list_lookup_alter_eq.
    + rewrite list_lookup_alter_ne by congruence. by destruct (ks !! c).
  - by destruct (ks !! c).
Qed.
Lemma wake_asleep waker ks c : wake waker ks !! c = Some (Waiting false) ->
  waker <> Some c /\ ks !! c = Some (Waiting false).
Proof.
  rewrite lookup_wake. destruct (ks !! c) as [k|]; cbn; [|done]. case_decide as Hw; [by destruct k|]. by intros [= ->].
Qed.
Lemma wake_waiting waker ks c x : wake waker ks !! c = Some (Waiting x) -> exists y, ks !! c = Some (Waiting y) /\ (x = false -> y = false).
Proof.
  rewrite lookup_wake. destruct (ks !! c) as [k|]; cbn; [|done]. case_decide as Hw.
  - destruct k as [y| |]; cbn; [|done..]. intros [= <-]. by exists y.
  - intros [= ->]. by exists x.
Qed.
Lemma wake_returned waker ks c r : wake waker ks !! c = Some (Returned r) -> ks !! c = Some (Returned r).
Proof.
  rewrite lookup_wake. destruct (ks !! c) as [k|]; cbn; [|done]. by case_decide; [destruct k|].
Qed.

Lemma results_insert ks c k x : ks !! c = Some (Waiting x) ->
  omap result_of (<[c := k]> ks) ≡ₚ option_list (result_of k) ++ omap result_of ks.
Proof.
  intros Hc. pose proof (lookup_lt_Some _ _ _ Hc) as Hlt. rewrite (insert_take_drop ks c k) by done.
  rewrite <- (take_drop_middle ks c _ Hc) at 3. rewrite !omap_app. cbn. rewrite app_assoc, (Permutation_app_comm (option_list _)).
  rewrite <- app_assoc. by destruct (result_of k).
Qed.
Lemma results_wake waker ks : omap result_of (wake waker ks) = omap result_of ks.
Proof.
  destruct waker as [c|]; [|done]. cbn. revert c. induction ks as [|k ks IH]; intros [|c]; cbn; try done.
  - by destruct k.
  - by rewrite (IH c).
Qed.
End Calls.

Section Reachable.
Context `{Quinn} {Machine E A B : Type} {L : AcceptLoop Machine E A B} {good : Machine -> Prop} {ok : A -> Prop} {owns : A -> B -> Prop}
  `{!AcceptLaws L good ok owns}.
Abbreviation foreign := (foreign (owns:=owns)).
Abbreviation Trace := (list (label (A:=A))).
Abbreviation World := (World (Machine:=Machine) (E:=E) (A:=A) (B:=B)).

(** The streams that arrived are where they should be: each is returned to exactly
    one call, or it is not of the session, or it is pending or not yet taken. *)
Definition accounted (tr : Trace) (w : World) : Prop :=
  exists returns origins dropped, returns ≡ₚ returned w /\ Forall2 owns origins returns /\ Forall foreign dropped /\
    arrived tr ≡ₚ origins ++ dropped ++ pending (machine w) ++ incoming w.
(** A call ends with a stream, or with an error once the connection is lost. *)
Definition answered (w : World) : Prop := forall c r, calls w !! c = Some (Returned r) ->
  match r with Ok _ => True | Err _ => is_Some (lost w) | _ => False end.
(** The call that polled last is the one that will be woken, and it left nothing. *)
Definition watched (tr : Trace) (w : World) : Prop := forall c,
  last_poll tr = Some c -> calls w !! c = Some (Waiting false) ->
  stream_waker w = Some c /\ header_waker w = Some c /\ idle w.
Record sound (tr : Trace) (w : World) : Prop := MkSound {
  sound_good : good (machine w);
  sound_incoming : Forall ok (incoming w);
  sound_valid : valid (length (pending (machine w))) (headers w);
  sound_accounted : accounted tr w;
  sound_answered : answered w;
  sound_watched : watched tr w
}.

Lemma arrived_snoc (tr : Trace) l : arrived (tr ++ [l]) = arrived tr ++ match l with Arrive a => [a] | _ => [] end.
Proof. unfold arrived. rewrite omap_app. cbn. by destruct l. Qed.
Lemma last_poll_snoc (tr : Trace) l : last_poll (tr ++ [l]) = match l with Poll c _ => Some c | _ => last_poll tr end.
Proof.
  unfold last_poll. rewrite omap_app. cbn. destruct l; cbn; rewrite ?app_nil_r; try done. apply last_snoc.
Qed.

Lemma sound_start m : good m -> pending m = [] -> sound [] (start m).
Proof.
  intros Hg Hp. split; cbn; try done.
  exists [], [], []. cbn. rewrite Hp. by repeat split.
Qed.

(** Steps that neither poll nor take anything change the calls only by waking them,
    by dropping one, or by a new one. *)
Lemma sound_calls (tr : Trace) (w : World) l ks : sound tr w ->
  match l with Poll _ _ | Arrive _ => False | _ => True end ->
  omap result_of ks ≡ₚ omap result_of (calls w) ->
  (forall c r, ks !! c = Some (Returned r) -> calls w !! c = Some (Returned r)) ->
  (forall c, ks !! c = Some (Waiting false) -> calls w !! c = Some (Waiting false)) ->
  sound (tr ++ [l]) (MkWorld (machine w) (incoming w) (lost w) (headers w) (stream_waker w) (header_waker w) ks).
Proof.
  intros [Hg Hi Hv (bs & os & ds & Hb & Ho & Hd & Ha) Hr Hw] Hl Hks Hret Hwait. split; cbn; try done.
  - exists bs, os, ds. split; [by rewrite Hks|]. split; [done|]. split; [done|]. rewrite arrived_snoc. destruct l; try done; by rewrite app_nil_r.
  - intros c r Hc. apply (Hr c r). by apply Hret.
  - intros c Hc Hcw. rewrite last_poll_snoc in Hc. apply (Hw c); [by destruct l|]. by apply Hwait.
Qed.

(** What the connection announces wakes the call that waits for it. *)
Lemma watched_woken (tr : Trace) (w : World) l waker m inc lst hs sw hw : watched tr w ->
  match l with Poll _ _ => False | _ => True end -> waker = stream_waker w \/ waker = header_waker w ->
  watched (tr ++ [l]) (MkWorld m inc lst hs sw hw (wake waker (calls w))).
Proof.
  intros Hw Hl Hk c Hc Hcw. cbn in *. apply wake_asleep in Hcw as [Hn Hcw]. rewrite last_poll_snoc in Hc.
  destruct (Hw c) as (? & ? & _); [by destruct l|done|]. destruct Hk; congruence.
Qed.
Lemma answered_woken (w : World) waker m inc lst hs sw hw : answered w -> (is_Some (lost w) -> is_Some lst) ->
  answered (MkWorld m inc lst hs sw hw (wake waker (calls w))).
Proof.
  intros Hr Hl c r Hc. cbn in *. apply wake_returned, Hr in Hc. destruct r; auto.
Qed.
Lemma accounted_woken (tr : Trace) (w : World) l waker lst hs sw hw : accounted tr w ->
  match l with Arrive _ => False | _ => True end ->
  accounted (tr ++ [l]) (MkWorld (machine w) (incoming w) lst hs sw hw (wake waker (calls w))).
Proof.
  intros (bs & os & ds & Hb & Ho & Hd & Ha) Hl. exists bs, os, ds. unfold returned. cbn. rewrite results_wake.
  split_and!; try done. rewrite arrived_snoc. destruct l; try done; by rewrite app_nil_r.
Qed.

Lemma sound_poll (tr : Trace) (w : World) c fresh : sound tr w -> calls w !! c = Some (Waiting true) ->
  valid (length (pending (machine w)) + length (incoming w)) (headers w ++ fresh) ->
  sound (tr ++ [Poll c fresh]) (poll_by c fresh w).
Proof.
  intros [Hg Hi Hv (bs & os & ds & Hb & Ho & Hd & Ha) Hr Hw] Hc Hv'.
  pose proof (lookup_lt_Some _ _ _ Hc) as Hlt. destruct (lost w) as [e|] eqn:El.
  - destruct (poll_by_lost c fresh w e El) as [e' ->]. destruct (push_streams (incoming w) (machine w) Hg Hi) as [Hg' Hp].
    split; cbn; try done.
    + rewrite Hp. apply (valid_mono (length (pending (machine w)))); [rewrite length_app; lia|done].
    + exists bs, os, ds. cbn. unfold returned. cbn. rewrite (results_insert _ _ _ _ Hc), Hp, arrived_snoc, !app_nil_r. by split_and!.
    + intros c' r' Hc'. cbn in *. apply list_lookup_insert_Some in Hc' as [(<- & [= <-] & _)|(_ & Hc')]; [done|].
      apply Hr in Hc'. rewrite El in Hc'. by destruct r'.
    + intros c' Hc' Hcw. cbn in *. rewrite last_poll_snoc in Hc'. injection Hc' as <-.
      rewrite list_lookup_insert_eq in Hcw by done. done.
  - destruct (poll_by_live c fresh w Hg Hi El Hv') as (b & m & later & dropped & -> & Hgm & Hvm & Hf & Hperm).
    split; cbn; try done.
    + unfold accounted, returned. cbn. rewrite arrived_snoc, app_nil_r. destruct b as [b|]; cbn.
      * destruct Hperm as (a & Hab & Hperm). exists (b :: bs), (a :: os), (dropped ++ ds). split; [|split; [|split]].
        -- rewrite (results_insert _ _ _ _ Hc), Hb. done.
        -- by constructor.
        -- by apply Forall_app.
        -- rewrite Ha, Hperm, app_nil_r. solve_Permutation.
      * destruct Hperm as [-> Hperm]. exists bs, os, (dropped ++ ds). split; [|split; [|split]].
        -- rewrite (results_insert _ _ _ _ Hc), Hb. done.
        -- done.
        -- by apply Forall_app.
        -- rewrite Ha, Hperm, app_nil_r. solve_Permutation.
    + intros c' r' Hc'. cbn in *. apply list_lookup_insert_Some in Hc' as [(<- & Hs & _)|(_ & Hc')].
      * destruct b; [by injection Hs as <-|done].
      * apply Hr in Hc'. rewrite El in Hc'. by destruct r'.
    + intros c' Hc' Hcw. cbn in *. rewrite last_poll_snoc in Hc'. injection Hc' as <-.
      rewrite list_lookup_insert_eq in Hcw by done. destruct b; [done|]. by destruct Hperm as [-> _].
Qed.

Lemma sound_step (tr : Trace) (w w' : World) l : sound tr w -> step l w = Some w' ->
  Forall ok (arrived [l]) -> sound (tr ++ [l]) w'.
Proof.
  intros Hs Hstep Hl. pose proof Hs as [Hg Hi Hv Hacc Hans Hwat]. destruct l as [|c fresh|c|c|a|i|e]; cbn in Hstep.
  - injection Hstep as <-. apply sound_calls; try done.
    + by rewrite omap_app, app_nil_r.
    + intros c r [Hc|[_ Hc]]%lookup_app_Some; [done|]. by apply list_lookup_singleton_Some in Hc as [_ ?].
    + intros c [Hc|[_ Hc]]%lookup_app_Some; [done|]. by apply list_lookup_singleton_Some in Hc as [_ ?].
  - destruct (calls w !! c) as [[[]| |]|] eqn:Hc; try done. destruct (valid _ _) eqn:Evalid; [|done].
    injection Hstep as <-. apply sound_poll; [done..|by rewrite Evalid].
  - destruct (calls w !! c) as [[x| |]|] eqn:Hc; try done. injection Hstep as <-. apply sound_calls; try done.
    + by rewrite (results_insert _ _ _ _ Hc).
    + intros c' r [(_ & ? & _)|[_ ?]]%list_lookup_insert_Some; done.
    + intros c' [(_ & ? & _)|[_ ?]]%list_lookup_insert_Some; done.
  - injection Hstep as <-. apply sound_calls; try done.
    + pose proof (results_wake (Some c) (calls w)) as Hr. cbn in Hr. by rewrite Hr.
    + intros c' r. apply (wake_returned (Some c)).
    + intros c' Hc'. by apply (wake_asleep (Some c)) in Hc' as [_ ?].
  - destruct (lost w) as [e|] eqn:El; [done|]. injection Hstep as <-. split; cbn; try done.
    + apply Forall_app. by split.
    + destruct Hacc as (bs & os & ds & Hb & Ho & Hd & Ha). exists bs, os, ds. unfold returned. cbn. rewrite results_wake.
      split; [done|]. split; [done|]. split; [done|]. rewrite arrived_snoc, Ha. by rewrite <- !app_assoc.
    + apply answered_woken; [done|]. by rewrite El.
    + by apply watched_woken; [| |left].
  - destruct (valid _ _) eqn:Evalid; [|done]. injection Hstep as <-. split; cbn; try done.
    + by rewrite Evalid.
    + by apply accounted_woken.
    + by apply answered_woken.
    + by apply watched_woken; [| |right].
  - destruct (lost w) as [e'|] eqn:El; [done|]. injection Hstep as <-. split; cbn; try done.
    + by apply accounted_woken.
    + apply answered_woken; [done|]. by rewrite El.
    + by apply watched_woken; [| |left].
Qed.
Lemma sound_steps m (tr : Trace) (w : World) : good m -> pending m = [] -> steps (start m) tr w ->
  Forall ok (arrived tr) -> sound tr w.
Proof.
  intros Hg Hp Hsteps. induction Hsteps as [|tr l w1 w2 _ IH Hl]; intros Hok; [by apply sound_start|].
  rewrite arrived_snoc in Hok. apply Forall_app in Hok as [Hok Hok']. apply (sound_step tr w1); [auto|done|].
  unfold arrived. cbn. by destruct l.
Qed.

(** A woken call polls: it returns, or it waits again with nothing left. *)
Lemma poll_progress (tr : Trace) (w : World) c : sound tr w -> calls w !! c = Some (Waiting true) ->
  exists w', step (Poll c []) w = Some w' /\
    ((exists r, calls w' !! c = Some (Returned r)) \/ (calls w' !! c = Some (Waiting false) /\ idle w')).
Proof.
  intros Hs Hc. pose proof (lookup_lt_Some _ _ _ Hc) as Hlt.
  assert (Hv : valid (length (pending (machine w)) + length (incoming w)) (headers w ++ [])).
  { rewrite app_nil_r. eapply valid_mono; [|apply Hs]. lia. }
  cbn. rewrite Hc, (Is_true_true_1 _ Hv). eexists. split; [done|].
  pose proof Hs as [Hg Hi _ _ _ _]. destruct (lost w) as [e|] eqn:El.
  - destruct (poll_by_lost c [] w e El) as [e' ->]. left. exists (Err e'). cbn. by apply list_lookup_insert_eq.
  - destruct (poll_by_live c [] w Hg Hi El) as (b & m & later & dropped & -> & _ & _ & _ & Hperm); [done|].
    cbn. rewrite list_lookup_insert_eq by done. destruct b as [b|]; cbn; [left; by exists (Ok b)|].
    right. split; [done|]. by destruct Hperm as [-> _].
Qed.
End Reachable.

(** ** One call at a time *)
Section Serial.
Context `{Quinn} {Machine E A B : Type} {L : AcceptLoop Machine E A B}.
Abbreviation Trace := (list (label (A:=A))).
Abbreviation World := (World (Machine:=Machine) (E:=E) (A:=A) (B:=B)).

Lemma serial_steps (w : World) (tr : Trace) w' : serial w tr w' -> steps w tr w'.
Proof. induction 1; econstructor; eauto. Qed.

(** A call that waits is the only one; asleep, it is the one that polled last. *)
Definition alone (tr : Trace) (w : World) : Prop := forall c x, calls w !! c = Some (Waiting x) ->
  (forall c' x', calls w !! c' = Some (Waiting x') -> c' = c) /\ (x = false -> last_poll tr = Some c).

Lemma alone_fewer (tr : Trace) (w w' : World) l : alone tr w ->
  match l with Poll _ _ => False | _ => True end ->
  (forall c x, calls w' !! c = Some (Waiting x) -> exists y, calls w !! c = Some (Waiting y) /\ (x = false -> y = false)) ->
  alone (tr ++ [l]) w'.
Proof.
  intros Ha Hl Hc c x Hx. destruct (Hc c x Hx) as (y & Hy & Hxy). destruct (Ha c y Hy) as [Hone Hlast]. split.
  - intros c' x' Hx'. destruct (Hc c' x' Hx') as (y' & Hy' & _). by eapply Hone.
  - intros Hf. rewrite last_poll_snoc. destruct l; [auto..|done|auto|auto|auto|auto|auto].
Qed.

Lemma call_poll_calls c fresh (w : World) : exists r, calls (poll_by c fresh w) = <[c := settle r]> (calls w).
Proof. unfold poll_by. destruct (lost w); destruct (poll _ _) as [r m]; by exists r. Qed.

Lemma alone_serial m (tr : Trace) (w : World) : serial (start m) tr w -> alone tr w.
Proof.
  induction 1 as [|tr l w1 w2 _ IH Hstep Hcall]; [by intros c x Hc|]. destruct l as [|c fresh|c|c|a|i|e]; cbn in Hstep.
  - injection Hstep as <-. specialize (Hcall eq_refl).
    assert (Hnone : forall c x, calls w1 !! c <> Some (Waiting x)).
    { intros c x Hc. apply list_elem_of_lookup_2, list_elem_of_In in Hc.
      assert (existsb waiting (calls w1) = true) by (apply existsb_exists; by exists (Waiting x)). congruence. }
    intros c x Hc. cbn in Hc. apply lookup_app_Some in Hc as [Hc|[Hle Hc]]; [by apply Hnone in Hc|].
    apply list_lookup_singleton_Some in Hc as [Hz [= <-]]. split; [|done].
    intros c' x' Hc'. cbn in Hc'. apply lookup_app_Some in Hc' as [Hc'|[Hle' Hc']]; [by apply Hnone in Hc'|].
    apply list_lookup_singleton_Some in Hc' as [Hz' _]. lia.
  - destruct (calls w1 !! c) as [[[]| |]|] eqn:Hc; try done. destruct (valid _ _); [|done]. injection Hstep as <-.
    destruct (call_poll_calls c fresh w1) as [r Hr]. unfold alone. rewrite Hr.
    assert (Hone : forall c' x', <[c := settle r]> (calls w1) !! c' = Some (Waiting x') -> c' = c).
    { intros c' x' [(-> & _)|[_ Hc']]%list_lookup_insert_Some; [done|]. by destruct (IH c' x' Hc') as [Ho _]; rewrite (Ho c _ Hc). }
    intros c' x' Hc'. pose proof (Hone c' x' Hc'). subst c'. split; [done|]. intros _. by rewrite last_poll_snoc.
  - destruct (calls w1 !! c) as [[x| |]|] eqn:Hc; try done. injection Hstep as <-. apply (alone_fewer _ w1); try done.
    intros c' x' Hc'. cbn in Hc'. apply list_lookup_insert_Some in Hc' as [(_ & ? & _)|[_ Hc']]; [done|]. by exists x'.
  - injection Hstep as <-. apply (alone_fewer _ w1); try done. intros c' x'. apply (wake_waiting (Some c)).
  - destruct (lost w1); [done|]. injection Hstep as <-. apply (alone_fewer _ w1); try done. intros c' x'. apply wake_waiting.
  - destruct (valid _ _); [|done]. injection Hstep as <-. apply (alone_fewer _ w1); try done. intros c' x'. apply wake_waiting.
  - destruct (lost w1); [done|]. injection Hstep as <-. apply (alone_fewer _ w1); try done. intros c' x'. apply wake_waiting.
Qed.
End Serial.

(** ** A call that is not the last to poll *)
Section Stranded.
Context `{Quinn} {Machine E A B : Type} {L : AcceptLoop Machine E A B}.
Abbreviation Trace := (list (label (A:=A))).
Abbreviation World := (World (Machine:=Machine) (E:=E) (A:=A) (B:=B)).

(** The call sleeps and neither source has its waker. *)
Definition stranded (c : nat) (w : World) : Prop :=
  calls w !! c = Some (Waiting false) /\ stream_waker w <> Some c /\ header_waker w <> Some c.

(** Nothing the connection announces and no other call wakes it again. *)
Lemma stranded_forever c (w : World) (tr : Trace) w' : stranded c w -> steps w tr w' ->
  Forall (fun l => match l with Stir c' | Drop c' => c' <> c | _ => True end) tr -> stranded c w'.
Proof.
  intros Hs Hsteps. induction Hsteps as [|tr l w1 w2 _ IH Hstep]; intros Hf; [done|].
  apply Forall_app in Hf as [Hf Hl]. apply Forall_cons in Hl as [Hl _]. destruct (IH Hf) as (Hc & Hsw & Hhw).
  assert (Hwake : forall waker, waker <> Some c -> wake waker (calls w1) !! c = Some (Waiting false)).
  { intros waker Hn. rewrite lookup_wake, Hc. cbn. by rewrite decide_False. }
  destruct l as [|c' fresh|c'|c'|a|i|e]; cbn in Hstep, Hl.
  - injection Hstep as <-. split; [|done]. cbn. by apply lookup_app_l_Some.
  - destruct (calls w1 !! c') as [[[]| |]|] eqn:Hc'; try done. destruct (valid _ _); [|done]. injection Hstep as <-.
    assert (c' <> c) by congruence. unfold stranded, poll_by. destruct (lost w1); destruct (poll _ _) as [r m]; cbn;
      (split; [by rewrite list_lookup_insert_ne|]); split; congruence.
  - destruct (calls w1 !! c') as [[x| |]|] eqn:Hc'; try done. injection Hstep as <-. split; [|done]. cbn. by rewrite list_lookup_insert_ne.
  - injection Hstep as <-. split; [|done]. apply (Hwake (Some c')). congruence.
  - destruct (lost w1); [done|]. injection Hstep as <-. split; [|done]. cbn. by apply Hwake.
  - destruct (valid _ _); [|done]. injection Hstep as <-. split; [|done]. cbn. by apply Hwake.
  - destruct (lost w1); [done|]. injection Hstep as <-. split; [|done]. cbn. by apply Hwake.
Qed.
End Stranded.

(** ** The loops of both backends *)
Module Session.
Section Accept.
Context `{Quinn} {C SendS RecvS : Type} `{!QuinnSend SendS} `{!QuinnConnection C SendS RecvS} `{AsyncRead RecvS}.
Abbreviation Accepting := (QuinnSession.SessionAccept.State (SendS:=SendS) (RecvS:=RecvS)).

(** One call over Quinn, by the answers its polls get; a raw session has no accept
    state. *)
Definition accept_uni (polls : list (list (answer RecvS))) : M (option Accepting * C) QuinnStreams.SessionError RecvS := fun '(accept, conn) =>
  match accept with
  | Some accept =>
      let '(r, accept) := SessionAccept.poll_fn QuinnSession.SessionAccept.poll_accept_uni polls accept in
      (r, (Some accept, conn))
  | None =>
      let '(r, conn) := map_err QuinnStreams.session_error_from conn_accept_uni conn in
      (r, (None, conn))
  end.
Definition accept_bi (polls : list (list (answer (SendS * RecvS)))) : M (option Accepting * C) QuinnStreams.SessionError (SendS * RecvS) := fun '(accept, conn) =>
  match accept with
  | Some accept =>
      let '(r, accept) := SessionAccept.poll_fn QuinnSession.SessionAccept.poll_accept_bi polls accept in
      (r, (Some accept, conn))
  | None =>
      let '(r, conn) := map_err QuinnStreams.session_error_from conn_accept_bi conn in
      (r, (None, conn))
  end.
End Accept.
End Session.

Section Loops.
Context `{Quinn} {SendS : Type}.
Import QuinnSession.SessionAccept(acc_session_id, pending_uni, pending_bi).
Abbreviation Accepting := (QuinnSession.SessionAccept.State (SendS:=SendS) (RecvS:=Incoming)).

Definition quinn_uni : AcceptLoop Accepting QuinnStreams.SessionError Incoming Incoming :=
  {| poll := QuinnSession.SessionAccept.poll_accept_uni; pending := pending_uni |}.
Definition quinn_bi : AcceptLoop Accepting QuinnStreams.SessionError (SendS * Incoming) (SendS * Incoming) :=
  {| poll := QuinnSession.SessionAccept.poll_accept_bi; pending := pending_bi |}.

Definition good_uni (sid : VarInt) (st : Accepting) : Prop := acc_session_id st = sid /\ Forall stream_ok (pending_uni st).
Definition good_bi (sid : VarInt) (st : Accepting) : Prop :=
  acc_session_id st = sid /\ Forall (fun sr => stream_ok sr.2) (pending_bi st).
(** What is returned is the stream that arrived, read up to the end of its header. *)
Definition owns_uni (sid : VarInt) (a b : Incoming) : Prop :=
  begins (stream_type UniStream.WEBTRANSPORT) sid (in_bytes a) (in_bytes b) /\ in_end a = in_end b.
Definition owns_bi (sid : VarInt) (a b : SendS * Incoming) : Prop :=
  a.1 = b.1 /\ begins (frame_type Frame.WEBTRANSPORT) sid (in_bytes a.2) (in_bytes b.2) /\ in_end a.2 = in_end b.2.

Lemma quinn_uni_laws sid : AcceptLaws quinn_uni (good_uni sid) stream_ok (owns_uni sid).
Proof.
  split; try done.
  - intros m a [Hm Hp] Ha. split; [done|]. cbn. apply Forall_app. by repeat constructor.
  - intros e l m. by eexists.
  - intros i [l e] m [<- Hp] Ha. cbn in Ha.
    assert (Hl : is_bytes l) by exact (Forall_lookup_1 stream_ok _ _ _ Hp Ha).
    assert (Hd : Forall stream_ok (delete i (pending_uni m))) by by apply Forall_delete.
    unfold turn, good_uni, owns_uni. cbn [poll quinn_uni QuinnSession.SessionAccept.poll_accept_uni pending]. rewrite Ha.
    destruct (decode_uni_cases (acc_session_id m) l e Hl) as [(rest & Hb & ->)|[Hb Hcase]].
    + rewrite bool_decide_eq_true_2 by done. by split_and!.
    + destruct Hcase as [(s & ->)|(t & s & Ht & ->)].
      * cbn. split_and!; try done. intros b [? _]. by apply (Hb (in_bytes b)).
      * rewrite bool_decide_eq_false_2 by done. repeat case_bool_decide; cbn; split_and!; try done;
          intros b [? _]; by apply (Hb (in_bytes b)).
Qed.
Lemma quinn_bi_laws sid : AcceptLaws quinn_bi (good_bi sid) (fun sr => stream_ok sr.2) (owns_bi sid).
Proof.
  split; try done.
  - intros m a [Hm Hp] Ha. split; [done|]. cbn. apply Forall_app. by repeat constructor.
  - intros e l m. by eexists.
  - intros i [send [l e]] m [<- Hp] Ha. cbn in Ha.
    assert (Hl : is_bytes l) by exact (Forall_lookup_1 (fun sr => stream_ok sr.2) _ _ _ Hp Ha).
    assert (Hd : Forall (fun sr => stream_ok sr.2) (delete i (pending_bi m))) by by apply Forall_delete.
    unfold turn, good_bi, owns_bi. cbn [poll quinn_bi QuinnSession.SessionAccept.poll_accept_bi pending]. rewrite Ha.
    destruct (decode_bi_cases (acc_session_id m) l e Hl) as [(rest & Hb & ->)|[Hb Hcase]].
    + by split_and!.
    + destruct Hcase as [(s & ->)|(s & ->)]; cbn; split_and!; try done; intros b (_ & ? & _); by apply (Hb (in_bytes b.2)).
Qed.
End Loops.

Section QuionLoops.
Context `{Quion} {SendS D : Type}.
Import QuinnSession.SessionAccept(acc_session_id, pending_uni, pending_bi).
Abbreviation Accepting := (QuinnSession.SessionAccept.State (SendS:=SendS) (RecvS:=Incoming)).

Definition quion_uni : AcceptLoop Accepting SessionError Incoming (RecvStream Incoming D) :=
  {| poll := SessionAccept.poll_accept_uni; pending := pending_uni |}.
Definition quion_bi : AcceptLoop Accepting SessionError (SendS * Incoming) (SendStream SendS D * RecvStream Incoming D) :=
  {| poll := SessionAccept.poll_accept_bi; pending := pending_bi |}.
(** As over Quinn, in the wrappers of this backend. *)
Definition wraps_uni (sid : VarInt) (a : Incoming) (b : RecvStream Incoming D) : Prop :=
  exists b0, b = Recv.new b0 /\ owns_uni sid a b0.
Definition wraps_bi (sid : VarInt) (a : SendS * Incoming) (b : SendStream SendS D * RecvStream Incoming D) : Prop :=
  exists b0, b = (Send.new b0.1, Recv.new b0.2) /\ owns_bi sid a b0.

Lemma quion_uni_laws sid : AcceptLaws quion_uni (good_uni sid) stream_ok (wraps_uni sid).
Proof.
  split; try done.
  - apply quinn_uni_laws.
  - intros e l m. by eexists.
  - intros i [l e] m [<- Hp] Ha. cbn in Ha.
    assert (Hl : is_bytes l) by exact (Forall_lookup_1 stream_ok _ _ _ Hp Ha).
    assert (Hd : Forall stream_ok (delete i (pending_uni m))) by by apply Forall_delete.
    unfold turn, good_uni, wraps_uni, owns_uni. cbn [poll quion_uni SessionAccept.poll_accept_uni pending]. rewrite Ha.
    pose proof (decode_uni_agrees (acc_session_id m) (MkIncoming l e)) as Hagree.
    destruct (decode_uni_cases (acc_session_id m) l e Hl) as [(rest & Hb & Hq)|[Hb Hcase]].
    + rewrite Hq in Hagree. destruct Hagree as ([t'| | |] & -> & Hr); try done. cbn in Hr. subst t'.
      rewrite bool_decide_eq_true_2 by done. cbn. split_and!; try done. by eexists.
    + assert (Hno : forall b, ~ exists b0, b = Recv.new (D:=D) b0 /\
        begins (stream_type UniStream.WEBTRANSPORT) (acc_session_id m) l (in_bytes b0) /\ e = in_end b0).
      { intros b (b0 & _ & Hbb & _). by apply (Hb (in_bytes b0)). }
      destruct Hcase as [(s & Hq)|(t & s & Ht & Hq)]; rewrite Hq in Hagree;
        destruct Hagree as ([t'| | |] & -> & Hr); try done; cbn in Hr; subst.
      rewrite bool_decide_eq_false_2 by done. repeat case_bool_decide; cbn; by split_and!.
Qed.
Lemma quion_bi_laws sid : AcceptLaws quion_bi (good_bi sid) (fun sr => stream_ok sr.2) (wraps_bi sid).
Proof.
  split; try done.
  - apply quinn_bi_laws.
  - intros e l m. by eexists.
  - intros i [send [l e]] m [<- Hp] Ha. cbn in Ha.
    assert (Hl : is_bytes l) by exact (Forall_lookup_1 (fun sr => stream_ok sr.2) _ _ _ Hp Ha).
    assert (Hd : Forall (fun sr => stream_ok sr.2) (delete i (pending_bi m))) by by apply Forall_delete.
    unfold turn, good_bi, wraps_bi, owns_bi. cbn [poll quion_bi SessionAccept.poll_accept_bi pending]. rewrite Ha.
    pose proof (decode_bi_agrees (acc_session_id m) (MkIncoming l e)) as Hagree.
    destruct (decode_bi_cases (acc_session_id m) l e Hl) as [(rest & Hb & Hq)|[Hb Hcase]].
    + rewrite Hq in Hagree. destruct Hagree as ([t'| | |] & -> & Hr); try done. cbn in Hr. subst t'.
      cbn. split_and!; try done. by eexists (_, _).
    + assert (Hno : forall b, ~ exists b0, b = (Send.new (D:=D) b0.1, Recv.new (D:=D) b0.2) /\ send = b0.1 /\
        begins (frame_type Frame.WEBTRANSPORT) (acc_session_id m) l (in_bytes b0.2) /\ e = in_end b0.2).
      { intros b (b0 & _ & _ & Hbb & _). by apply (Hb (in_bytes b0.2)). }
      destruct Hcase as [(s & Hq)|(s & Hq)]; rewrite Hq in Hagree;
        destruct Hagree as ([t'| | |] & -> & Hr); try done; cbn in Hr; subst; cbn; by split_and!.
Qed.
End QuionLoops.

(** ** What the loops promise to the calls *)
Section Contract.
Context `{Quinn} {Machine E A B : Type} (L : AcceptLoop Machine E A B).
Abbreviation Start := (start (Machine:=Machine) (E:=E) (A:=A) (B:=B)).

Definition exactly_once (ok : A -> Prop) (owns : A -> B -> Prop) (m : Machine) : Prop :=
  forall tr w, steps (Start m) tr w -> Forall ok (arrived tr) -> accounted (owns:=owns) tr w /\ answered w.

(** No wake-up is lost: the call that polled last, and with one call at a time any
    call, sleeps only while nothing waits to be processed; and a woken call polls,
    and returns or leaves nothing. *)
Definition never_forgets (ok : A -> Prop) (m : Machine) : Prop :=
  forall tr w, steps (Start m) tr w -> Forall ok (arrived tr) ->
    (forall c, last_poll tr = Some c -> calls w !! c = Some (Waiting false) -> idle w) /\
    (serial (Start m) tr w -> forall c, calls w !! c = Some (Waiting false) -> idle w) /\
    (forall c, calls w !! c = Some (Waiting true) -> exists w', step (Poll c []) w = Some w' /\
       ((exists r, calls w' !! c = Some (Returned r)) \/ (calls w' !! c = Some (Waiting false) /\ idle w'))).

(** Two calls at once: the second to poll gives up, and the first sleeps on with a
    stream there, whatever else happens. *)
Definition forgets_first (m : Machine) (a : A) : Prop :=
  exists w, run [Call; Call; Poll 0 []; Poll 1 []; Drop 1; Arrive a] (Start m) = Some w /\ incoming w = [a] /\
    forall tr w', steps w tr w' -> Forall (fun l => match l with Stir c | Drop c => c <> 0%nat | _ => True end) tr ->
      calls w' !! 0%nat = Some (Waiting false).
End Contract.

Section Contracts.
Context `{Quinn} {Machine E A B : Type} {L : AcceptLoop Machine E A B} {good : Machine -> Prop} {ok : A -> Prop} {owns : A -> B -> Prop}
  `{!AcceptLaws L good ok owns}.

Lemma laws_exactly_once m : good m -> pending m = [] -> exactly_once L ok owns m.
Proof.
  intros Hg Hp tr w Hs Hok. destruct (sound_steps m tr w Hg Hp Hs Hok) as [_ _ _ Hacc Hans _]. by split.
Qed.
Lemma laws_never_forgets m : good m -> pending m = [] -> never_forgets L ok m.
Proof.
  intros Hg Hp tr w Hs Hok. pose proof (sound_steps m tr w Hg Hp Hs Hok) as Hsound. pose proof (sound_watched _ _ Hsound) as Hw.
  split; [|split].
  - intros c Hc Hcw. apply (Hw c Hc Hcw).
  - intros Hser c Hc. destruct (alone_serial m tr w Hser c false Hc) as [_ Hl]. apply (Hw c); [by apply Hl|done].
  - intros c Hc. by apply (poll_progress tr).
Qed.
Lemma laws_forget_first m a : good m -> pending m = [] -> forgets_first L m a.
Proof.
  intros Hg Hp. unfold forgets_first. eexists. split; [|split].
  - cbn. rewrite poll_not_ready. cbn. rewrite poll_not_ready. reflexivity.
  - done.
  - intros tr w' Hs Hf. eapply stranded_forever; [|done|done]. by split_and!.
Qed.
End Contracts.

(** C4: the calls of [accept_uni] and [accept_bi], of any number of handles, share one
    accept loop without losing or doubling a stream.  In every world that calls,
    polls, dropped calls, arriving streams, complete headers and the loss of the
    connection lead to, over either backend and in either direction: every stream
    that arrived was returned to exactly one call, read up to the end of its header,
    or is still pending or not yet taken, or does not begin with the header of the
    session; dropping a call loses none; and a call ends only with a stream, or with
    an error after the connection was lost, never with a panic. *)
Theorem accept_exactly_once `{Quion} {SendS D : Type} (sid : VarInt) :
  let m := QuinnSession.SessionAccept.new (SendS:=SendS) (RecvS:=Incoming) sid in
  exactly_once quinn_uni stream_ok (owns_uni sid) m /\
  exactly_once quinn_bi (fun sr => stream_ok sr.2) (owns_bi sid) m /\
  exactly_once (quion_uni (D:=D)) stream_ok (wraps_uni sid) m /\
  exactly_once (quion_bi (D:=D)) (fun sr => stream_ok sr.2) (wraps_bi sid) m.
Proof.
  intros m. pose proof (quinn_uni_laws (SendS:=SendS) sid). pose proof (quinn_bi_laws (SendS:=SendS) sid).
  pose proof (quion_uni_laws (SendS:=SendS) (D:=D) sid). pose proof (quion_bi_laws (SendS:=SendS) (D:=D) sid).
  split_and!; (eapply laws_exactly_once; [by split; [|constructor]|done]).
Qed.

(** C5: no wake-up of an accept call is lost while one call waits at a time.  Over
    either backend and in either direction, the call that polled last sleeps only
    while no stream, no complete header and no loss of the connection waits to be
    processed; so does every call when none begins before the one before it ended or
    was dropped; and a call that is woken can poll, and then returns or leaves
    nothing unprocessed. *)
Theorem accept_never_forgets `{Quion} {SendS D : Type} (sid : VarInt) :
  let m := QuinnSession.SessionAccept.new (SendS:=SendS) (RecvS:=Incoming) sid in
  never_forgets quinn_uni stream_ok m /\ never_forgets quinn_bi (fun sr => stream_ok sr.2) m /\
  never_forgets (quion_uni (D:=D)) stream_ok m /\ never_forgets (quion_bi (D:=D)) (fun sr => stream_ok sr.2) m.
Proof.
  intros m. pose proof (quinn_uni_laws (SendS:=SendS) sid). pose proof (quinn_bi_laws (SendS:=SendS) sid).
  pose proof (quion_uni_laws (SendS:=SendS) (D:=D) sid). pose proof (quion_bi_laws (SendS:=SendS) (D:=D) sid).
  split_and!; (eapply laws_never_forgets; [by split; [|constructor]|done]).
Qed.

(** C11: with two calls at once the one that did not poll last may wait for ever.  The
    loop keeps one waker, that of the last poll; when that call is dropped, a stream
    that arrives wakes nobody: the other call sleeps on, and nothing the connection
    announces later and no other call wakes it. *)
Theorem accept_second_call_forgotten `{Quion} {SendS D : Type} (sid : VarInt) :
  let m := QuinnSession.SessionAccept.new (SendS:=SendS) (RecvS:=Incoming) sid in
  (forall a, forgets_first quinn_uni m a /\ forgets_first (quion_uni (D:=D)) m a) /\
  (forall a, forgets_first quinn_bi m a /\ forgets_first (quion_bi (D:=D)) m a).
Proof.
  intros m. pose proof (quinn_uni_laws (SendS:=SendS) sid). pose proof (quinn_bi_laws (SendS:=SendS) sid).
  pose proof (quion_uni_laws (SendS:=SendS) (D:=D) sid). pose proof (quion_bi_laws (SendS:=SendS) (D:=D) sid).
  split; intros a; (split; (eapply laws_forget_first; [by split; [|constructor]|done])).
Qed.
