(* ===== verification/Interop.v ===== *)
(** * One endpoint to another

    The sending and the accepting side together: a stream that a session of either
    backend opens, written to and handed to the peer by the transport, reaches
    exactly one accept call of the peer's session, over either backend. *)
From S2P Require Import Prelude Buf Varint Frame Streams QuinnStreams QuinnCapsules QuinnSession QuionStreams QuionTask QuionSession Accepting.
Import QuinnSession.SessionAccept(answer).

(** ** A stream that arrived *)
Section Delivered.
Context `{Quinn} {Machine E A B : Type} {L : AcceptLoop Machine E A B} {good : Machine -> Prop} {ok : A -> Prop} {owns : A -> B -> Prop}
  `{!AcceptLaws L good ok owns}.

Lemma run_steps tr (w0 w w' : World (Machine:=Machine) (E:=E) (A:=A) (B:=B)) tr0 :
  steps w0 tr0 w -> run tr w = Some w' -> steps w0 (tr0 ++ tr) w'.
Proof.
  revert w tr0. induction tr as [|l tr IH]; intros w tr0 Hs Hr; cbn in Hr; [injection Hr as <-; by rewrite app_nil_r|].
  destruct (step l w) as [w1|] eqn:Hl; [|done].
  replace (tr0 ++ l :: tr) with ((tr0 ++ [l]) ++ tr) by by rewrite <- app_assoc.
  apply (IH w1); [by econstructor|done].
Qed.

(** A stream of the session is on its way, or one call has it. *)
Lemma delivered m tr (w : World (Machine:=Machine) (E:=E) (A:=A) (B:=B)) a :
  good m -> pending m = [] -> steps (start m) tr w -> Forall ok (arrived tr) -> a ∈ arrived tr -> (exists b, owns a b) ->
  a ∈ pending (machine w) \/ a ∈ incoming w \/ exists c b, calls w !! c = Some (Returned (Ok b)) /\ owns a b.
Proof.
  intros Hg Hp Hs Hok Ha [b0 Hb0]. destruct (sound_steps m tr w Hg Hp Hs Hok) as [_ _ _ (bs & os & ds & Hbs & Ho & Hd & Hacc) _ _].
  rewrite Hacc, !elem_of_app in Ha. destruct Ha as [Ha|[Ha|[Ha|Ha]]].
  - right; right. apply list_elem_of_lookup in Ha as [i Hi]. destruct (Forall2_lookup_l _ _ _ _ _ Ho Hi) as (b & Hb & Hab).
    assert (Hr : b ∈ returned w) by (rewrite <- Hbs; by eapply list_elem_of_lookup_2).
    unfold returned in Hr. apply list_elem_of_omap in Hr as (k & Hk & Hkb). apply list_elem_of_lookup in Hk as [c Hc].
    exists c, b. split; [|done]. rewrite Hc. destruct k as [|[b'| | |]|]; cbn in Hkb; try done. by injection Hkb as ->.
  - rewrite Forall_forall in Hd. by destruct (Hd a Ha b0).
  - by left.
  - by right; left.
Qed.
End Delivered.

(** Whatever the calls, polls and events, a stream [a] that arrived is still on its
    way, or a call has [result] of it. *)
Definition delivers `{Quinn} {Machine E A B} (L : AcceptLoop Machine E A B) (ok : A -> Prop) (m : Machine) (a : A) (result : B) : Prop :=
  forall tr w, steps (start (E:=E) (B:=B) m) tr w -> Forall ok (arrived tr) -> a ∈ arrived tr ->
    a ∈ pending (machine w) \/ a ∈ incoming w \/ exists c, calls w !! c = Some (Returned (Ok result)).

Lemma laws_deliver `{Quinn} {Machine E A B} (L : AcceptLoop Machine E A B) good ok owns `{!AcceptLaws L good ok owns} m a result :
  good m -> pending m = [] -> owns a result -> (forall b, owns a b -> b = result) -> delivers L ok m a result.
Proof.
  intros Hg Hp Hr Hall tr w Hs Hok Ha. destruct (delivered m tr w a Hg Hp Hs Hok Ha) as [?|[?|(c & b & Hc & Hb)]].
  - by exists result.
  - by left.
  - by right; left.
  - right; right. exists c. by rewrite Hc, (Hall b Hb).
Qed.

(** ** The stream of a session, at the peer *)
Section Reaches.
Context `{Quion} {SendS D : Type}.
Abbreviation Accepting := (QuinnSession.SessionAccept.State (SendS:=SendS) (RecvS:=Incoming)).
Abbreviation New := (QuinnSession.SessionAccept.new (SendS:=SendS) (RecvS:=Incoming)).

(** The bytes sent are [sent]; the application's are [data]; both loops hand these
    on, with the end of the stream. *)
Definition reaches_uni (sid : VarInt) (sent data : bytes) (e : io_error) : Prop :=
  delivers (quinn_uni (SendS:=SendS)) stream_ok (New sid) (MkIncoming sent e) (MkIncoming data e) /\
  delivers (quion_uni (SendS:=SendS) (D:=D)) stream_ok (New sid) (MkIncoming sent e) (Recv.new (MkIncoming data e)).
Definition reaches_bi (sid : VarInt) (sent data : bytes) (e : io_error) : Prop := forall back : SendS,
  delivers quinn_bi (fun sr => stream_ok sr.2) (New sid) (back, MkIncoming sent e) (back, MkIncoming data e) /\
  delivers (quion_bi (D:=D)) (fun sr => stream_ok sr.2) (New sid) (back, MkIncoming sent e) (Send.new back, Recv.new (MkIncoming data e)).

Lemma begins_unique typ sid l rest rest' : begins typ sid l rest -> begins typ sid l rest' -> rest = rest'.
Proof. intros (l1 & E1 & E2) (l2 & E3 & E4). congruence. Qed.
Lemma incoming_eq (a b : Incoming) : in_bytes a = in_bytes b -> in_end a = in_end b -> a = b.
Proof. destruct a, b. cbn. congruence. Qed.

Lemma uni_reaches sid data e : varint_ok sid -> reaches_uni sid (uni_header sid ++ data) data e.
Proof.
  intros Hs. assert (Hb : begins (stream_type UniStream.WEBTRANSPORT) sid (uni_header sid ++ data) data).
  { unfold uni_header. rewrite <- app_assoc. by apply begins_header. }
  assert (Hu : forall b, owns_uni sid (MkIncoming (uni_header sid ++ data) e) b -> b = MkIncoming data e).
  { intros b [Hb' He]. apply incoming_eq; [by eapply begins_unique|done]. }
  pose proof (quinn_uni_laws (SendS:=SendS) sid). pose proof (quion_uni_laws (SendS:=SendS) (D:=D) sid). split.
  - apply (laws_deliver _ (good_uni sid) _ (owns_uni sid)); [by split; [|constructor]|done|by split|done].
  - apply (laws_deliver _ (good_uni sid) _ (wraps_uni sid)); [by split; [|constructor]|done|by eexists|]. intros b (b0 & -> & Hb0). by rewrite (Hu b0 Hb0).
Qed.
Lemma bi_reaches sid data e : varint_ok sid -> reaches_bi sid (bi_header sid ++ data) data e.
Proof.
  intros Hs back. assert (Hb : begins (frame_type Frame.WEBTRANSPORT) sid (bi_header sid ++ data) data).
  { unfold bi_header. rewrite <- app_assoc. by apply begins_header. }
  assert (Hu : forall b, owns_bi sid (back, MkIncoming (bi_header sid ++ data) e) b -> b = (back, MkIncoming data e)).
  { intros [back' b] (Hk & Hb' & He). cbn in *. subst. f_equal. apply incoming_eq; [by eapply begins_unique|done]. }
  pose proof (quinn_bi_laws (SendS:=SendS) sid). pose proof (quion_bi_laws (SendS:=SendS) (D:=D) sid). split.
  - apply (laws_deliver _ (good_bi sid) _ (owns_bi sid)); [by split; [|constructor]|done|by split_and!|done].
  - apply (laws_deliver _ (good_bi sid) _ (wraps_bi sid)); [by split; [|constructor]|done|by exists (back, MkIncoming data e)|]. intros b (b0 & -> & Hb0). by rewrite (Hu b0 Hb0).
Qed.
End Reaches.

(** C3: what one endpoint sends on a stream the other receives, across backends.  On
    a stream that a session over Quinn or over Quion opens, uni- or bidirectional,
    the bytes on the wire are its header and the application's data; and when the
    transport has handed them to the peer's session of the same identifier, over
    Quinn or over Quion, the stream is on its way or a call of [accept_uni] or
    [accept_bi] has returned it with exactly the application's data, however many
    handles call, poll, and drop their calls, and whatever else arrives. *)
Theorem streams_delivered `{Quion} {CQ CN SQ SN RQ RN U D SendS : Type} `{!QuinnSend SQ} `{!QuinnConnection CQ SQ RQ}
  `{!QuionSend SN} `{!QuionConnection CN SN RN} (sentq : SQ -> bytes) (sentn : SN -> bytes)
  `{!QuinnOpenLaws sentq} `{!QuionOpenLaws sentn} (sid : VarInt) (url : U) (Hsid : varint_ok sid) (data : bytes) (e : io_error) :
  (forall s conn send conn', QuinnSession.Session.new sid url = Ok s -> QuinnSession.Session.open_uni s conn = (Ok send, conn') ->
     reaches_uni (SendS:=SendS) (D:=D) sid (sentq send ++ data) data e) /\
  (forall s conn send recv conn', QuinnSession.Session.new sid url = Ok s -> QuinnSession.Session.open_bi s conn = (Ok (send, recv), conn') ->
     reaches_bi (SendS:=SendS) (D:=D) sid (sentq send ++ data) data e) /\
  (forall (driver : option D) s conn send conn', Session.new sid url driver = Ok s -> Session.open_uni s conn = (Ok send, conn') ->
     reaches_uni (SendS:=SendS) (D:=D) sid (sentn (stream send) ++ data) data e) /\
  (forall (driver : option D) s conn send recv conn', Session.new sid url driver = Ok s -> Session.open_bi s conn = (Ok (send, recv), conn') ->
     reaches_bi (SendS:=SendS) (D:=D) sid (sentn (stream send) ++ data) data e).
Proof.
  split; [|split; [|split]].
  - intros s conn send conn' Hn Ho. rewrite new_session in Hn by done. injection Hn as <-.
    rewrite (QuinnSession.open_uni_sends sentq _ _ _ _ Ho). by apply uni_reaches.
  - intros s conn send recv conn' Hn Ho. rewrite new_session in Hn by done. injection Hn as <-.
    rewrite (QuinnSession.open_bi_sends sentq _ _ _ _ _ Ho). by apply bi_reaches.
  - intros driver s conn send conn' Hn Ho. rewrite quion_new_session in Hn by done. injection Hn as <-.
    destruct (open_uni_opened sentn _ _ _ _ Ho) as (-> & _). by apply uni_reaches.
  - intros driver s conn send recv conn' Hn Ho. rewrite quion_new_session in Hn by done. injection Hn as <-.
    destruct (open_bi_opened sentn _ _ _ _ _ Ho) as [(-> & _) _]. by apply bi_reaches.
Qed.
(** A call is made, the stream arrives with its header, and the call polls. *)
Lemma streams_delivered_witness :
  let sid := MkVarInt 4 in let fin := IoError UnexpectedEof [] in
  let a := MkIncoming (uni_header sid ++ [1; 2; 3]) fin in
  let start := start (H:=sample_quinn) (Machine:=QuinnSession.SessionAccept.State (SendS:=unit) (RecvS:=Incoming)) (E:=QuinnStreams.SessionError) (A:=Incoming) (B:=Incoming)
    (QuinnSession.SessionAccept.new sid) in
  exists w, run (AcceptLoop0:=quinn_uni (H:=sample_quinn)) [Call; Arrive a; Poll 0 [0%nat]] start = Some w /\
    (a ∈ pending (AcceptLoop:=quinn_uni (H:=sample_quinn)) (machine w) \/ a ∈ incoming w \/ exists c, calls w !! c = Some (Returned (Ok (MkIncoming [1; 2; 3] fin)))).
Proof.
  intros sid fin a start. eexists. split; [reflexivity|].
  assert (Hok : Forall stream_ok [a]) by (constructor; [by_eval|constructor]).
  destruct (proj1 (streams_delivered (H:=sample_quion) (QuinnSend0:=sample_send) (QuinnConnection0:=sample_connection)
    (QuionSend0:=sample_quion_send) (QuionConnection0:=sample_quion_connection) (D:=unit) (SendS:=unit) ws_sent (fun s => ws_sent (qs_out s))
    (QuinnOpenLaws0:=sample_open_laws) (QuionOpenLaws0:=sample_quion_open_laws) sid (lit "https://a/") ltac:(by_eval) [1; 2; 3] fin)
    _ (MkSampleConn [] []) _ _ eq_refl eq_refl) as [Hq _].
  refine (Hq [Call; Arrive a; Poll 0 [0%nat]] _ _ Hok _).
  - eapply (run_steps _ _ start _ []); [apply steps_refl|reflexivity].
  - by left.
Defined.
