(* ===== verification/QuionHandshake.v ===== *)
(** * The handshake over Quion (webtrans-quion/src: connect.rs, settings.rs,
    server.rs, client.rs, lib.rs)

    The exchanges are those of the Quinn backend, with Quion's errors.  Quion's own
    are the guard that closes the connection of a handshake that fails or is
    dropped, the handles on the socket driver, and the second endpoint for IPv6. *)
From S2P Require Import Prelude Buf Varint Frame Settings PrefixInt Qpack Connect Streams QuinnStreams QuinnCapsules QuinnSession.
From S2P Require Import QuinnHandshake QuinnClient QuionStreams QuionTask QuionSession.

Section Errors.
Context `{Quion} `{UrlLib} `{HttpLib}.
Inductive NConnectError :=
| NCUnexpectedEnd
| NCProtoError (e : ConnectError)
| NCConnectionError (e : ConnectionError)
| NCReadError (e : quion_ReadError)
| NCWriteError (e : quion_WriteError)
| NCErrorStatus (s : StatusCode).
Inductive NSettingsError :=
| NSUnexpectedEnd
| NSProtoError (e : SettingsError)
| NSWebTransportUnsupported
| NSConnectionError (e : ConnectionError)
| NSReadError (e : quion_ReadError)
| NSWriteError (e : quion_WriteError).
(** [EP] and [CF] are Quion's errors of
    making an endpoint and of a configuration. *)
Inductive ServerError (EP CF : Type) :=
| SVEndpoint (e : EP)
| SVConfiguration (e : CF)
| RequestAlreadyCompleted
| SVUnexpectedEnd
| SVConnection (e : ConnectionError)
| HandshakeTimeout
| SVWriteError (e : quion_WriteError)
| SVReadError (e : quion_ReadError)
| SVSettingsError (e : NSettingsError)
| SVConnectError (e : NConnectError)
| SVIoError (e : io_error)
| SVInvalidCryptoConfiguration
| SVRustls (e : rustls_Error).
Inductive ClientError (EP : Type) :=
| CLUnexpectedEnd
| CLConnection (e : ConnectionError)
| CLWriteError (e : quion_WriteError)
| CLReadError (e : quion_ReadError)
| CLSettingsError (e : NSettingsError)
| CLHttpError (e : NConnectError)
| CLEndpoint (e : EP)
| InvalidDnsName (name : bytes)
| InvalidUrl (message : bytes)
| DnsTimeout
| CLHandshakeTimeout
| CLIo (e : io_error)
| CLInvalidCryptoConfiguration
| CLRustls (e : rustls_Error).
End Errors.
Arguments SVEndpoint {_ _ _ EP CF}. Arguments SVConfiguration {_ _ _ EP CF}. Arguments RequestAlreadyCompleted {_ _ _ EP CF}.
Arguments SVUnexpectedEnd {_ _ _ EP CF}. Arguments SVConnection {_ _ _ EP CF}. Arguments HandshakeTimeout {_ _ _ EP CF}.
Arguments SVWriteError {_ _ _ EP CF}. Arguments SVReadError {_ _ _ EP CF}. Arguments SVSettingsError {_ _ _ EP CF}.
Arguments SVConnectError {_ _ _ EP CF}. Arguments SVIoError {_ _ _ EP CF}. Arguments SVInvalidCryptoConfiguration {_ _ _ EP CF}.
Arguments SVRustls {_ _ _ EP CF}. Arguments CLRustls {_ _ _ EP}.
Arguments CLUnexpectedEnd {_ _ _ EP}. Arguments CLConnection {_ _ _ EP}. Arguments CLWriteError {_ _ _ EP}.
Arguments CLReadError {_ _ _ EP}. Arguments CLSettingsError {_ _ _ EP}. Arguments CLHttpError {_ _ _ EP}.
Arguments CLEndpoint {_ _ _ EP}. Arguments InvalidDnsName {_ _ _ EP}. Arguments InvalidUrl {_ _ _ EP}.
Arguments DnsTimeout {_ _ _ EP}. Arguments CLHandshakeTimeout {_ _ _ EP}. Arguments CLIo {_ _ _ EP}.
Arguments CLInvalidCryptoConfiguration {_ _ _ EP}.

(** ** lib.rs: the guard

    A future may be dropped before it has a result: [drive] says how far it gets.
    Before its first poll nothing of it has run; after it, what it had done by then
    stays.  The guard is made at the first poll and lives in the future; unless
    completed it closes the connection when it is dropped. *)
Inductive driven (E A : Type) :=
| NeverPolled
| Dropped
| Ended (r : outcome E A).
Arguments NeverPolled {E A}. Arguments Dropped {E A}. Arguments Ended {E A} r.
Class Driving (C : Type) := { drive {E A} : M C E A -> C -> driven E A * C }.
Definition HandshakeGuard_drop {C} `{QuicConn C} (completed : bool) (conn : C) : C :=
  if completed then conn else conn_close 0x102 (lit "WebTransport handshake aborted") conn.
Definition guarded {C E A} `{QuicConn C} `{Driving C} (m : M C E A) (conn : C) : option (outcome E A) * C :=
  match drive m conn with
  | (NeverPolled, _) => (None, conn)
  | (Dropped, conn) => (None, HandshakeGuard_drop false conn)
  | (Ended r, conn) => (Some r, HandshakeGuard_drop (match r with Ok _ => true | _ => false end) conn)
  end.

Section Handshake.
Context `{Platform} `{Quion} `{UrlLib} `{HttpLib} `{!HttpStatus} `{!HashMapIter bytes bytes} `{!HashMapIter Setting VarInt}.
Context {C SendS RecvS D EP CF : Type} `{!QuionSend SendS} `{!QuionConnection C SendS RecvS} `{AsyncRead RecvS} `{AsyncWrite SendS}.
Context `{!QuicConn C} `{!Driving C}.
Abbreviation Connection := (Connect SendS RecvS).
Abbreviation Settings := (QSettings (SendS:=SendS) (RecvS:=RecvS)).

(** ** connect.rs *)
Definition Connect_accept (fuel : nat) : M C NConnectError Connection :=
  let* (send, recv) := map_err NCConnectionError nc_accept_bi in
  let '(r, recv) := request_read fuel recv in
  let* request := map_err NCProtoError (lift r) in
  ret (MkConnect request send recv).
Definition Connect_on_send {E A} (m : M SendS E A) : M Connection E A := fun c =>
  let '(r, send) := m (connect_send c) in (r, MkConnect (connect_request c) send (connect_recv c)).
Definition Connect_respond (status : StatusCode) : M Connection NConnectError unit :=
  Connect_on_send (map_err NCProtoError (response_write (MkConnectResponse status))).
Definition Connect_reject (status : StatusCode) : M Connection NConnectError unit :=
  Connect_respond status ;;;
  Connect_on_send (map_err (fun _ => NCUnexpectedEnd) ns_finish) ;;;
  (fun c =>
     let '(r, c) := Connect_on_send ns_stopped c in
     (match r with Panic => Panic | OutOfFuel => OutOfFuel | _ => Ok () end, c)).
Definition Connect_open (fuel : nat) (url : Url) : M C NConnectError Connection :=
  let* (send, recv) := map_err NCConnectionError nc_open_bi in
  let request := MkConnectRequest url in
  let '(r, send) := request_write request send in
  map_err NCProtoError (lift r) ;;;
  let '(r, recv) := response_read fuel recv in
  let* response := map_err NCProtoError (lift r) in
  if negb (bool_decide (response_status response = STATUS_OK))
  then throw (NCErrorStatus (response_status response))
  else ret (MkConnect request send recv).
(** [expect] and [unwrap] are panics. *)
Definition Connect_session_id (c : Connection) : outcome Empty_set VarInt :=
  match ns_id (connect_send c) with
  | Some stream_id => match VarInt.try_from_u64 stream_id with Ok v => Ok v | _ => Panic end
  | None => Panic
  end.
Definition Connect_url (c : Connection) : Url := request_url (connect_request c).
Definition Connect_into_inner (c : Connection) : SendS * RecvS := (connect_send c, connect_recv c).

(** ** settings.rs *)
Definition Settings_accept (fuel : nat) (peer_is_server : bool) : thread C NSettingsError RecvS :=
  let& recv := map_err NSConnectionError nc_accept_uni in
  let& recv :=
    let '(r, recv) := Settings.read fuel recv in
    let* settings := map_err NSProtoError (lift r) in
    let supported :=
      if peer_is_server then Settings.supports_webtransport_server settings
      else Settings.supports_webtransport_client settings in
    if negb supported then throw NSWebTransportUnsupported else ret recv in
  Resolved recv.
Definition Settings_open : thread C NSettingsError SendS :=
  let settings := Settings.enable_webtransport 1 ∅ in
  let& send := map_err NSConnectionError nc_open_uni in
  let& send :=
    let '(r, send) := Settings.write settings send in
    map_err NSProtoError (lift r) ;;;
    ret send in
  Resolved send.
Definition Settings_connect (fuel : nat) (order : list bool) (peer_is_server : bool) : M C NSettingsError Settings :=
  let* (recv, send) := try_join order (Settings_accept fuel peer_is_server) Settings_open in
  ret (MkQSettings send recv).

(** [Session::connect] up to [Session::new], inside and with its guard. *)
Definition session_exchange (fuel : nat) (order : list bool) (url : Url) : M C (ClientError EP) (Settings * Connection) :=
  let* settings := map_err CLSettingsError (Settings_connect fuel order true) in
  let* connect := map_err CLHttpError (Connect_open fuel url) in
  ret (settings, connect).
Definition session_connect (fuel : nat) (order : list bool) (url : Url)
  : C -> option (outcome (ClientError EP) (Settings * Connection)) * C :=
  guarded (session_exchange fuel order url).

(** ** server.rs: a request *)
Record Request := MkRequest {
  rq_driver : option D; rq_conn : option C; rq_settings : option Settings; rq_connect : option Connection; rq_url : Url }.

Definition request_exchange (fuel : nat) (order : list bool) : M C (ServerError EP CF) (Settings * Connection) :=
  let* settings := map_err SVSettingsError (Settings_connect fuel order false) in
  let* connect := map_err SVConnectError (Connect_accept fuel) in
  ret (settings, connect).
Definition Request_accept (fuel : nat) (order : list bool) (conn : C) : option (outcome (ServerError EP CF) Request) * C :=
  let '(r, conn) := guarded (request_exchange fuel order) conn in
  (match r with
   | Some (Ok (settings, connect)) => Some (Ok (MkRequest None (Some conn) (Some settings) (Some connect) (Connect_url connect)))
   | Some (Err e) => Some (Err e)
   | Some Panic => Some Panic
   | Some OutOfFuel => Some OutOfFuel
   | None => None
   end, conn).

(** What [ok] hands to [Session::with_driver], what is left of the request, and the
    CONNECT stream after the response. *)
Definition Request_ok (self : Request)
  : outcome (ServerError EP CF) (C * Settings * Connection * option D) * Request * option Connection :=
  match rq_connect self with
  | None => (Err RequestAlreadyCompleted, self, None)
  | Some connect =>
      let self := MkRequest (rq_driver self) (rq_conn self) (rq_settings self) None (rq_url self) in
      let '(r, connect) := Connect_respond STATUS_OK connect in
      match r with
      | Ok _ =>
          match rq_conn self, rq_settings self with
          | None, _ => (Err RequestAlreadyCompleted, self, Some connect)
          | Some conn, None =>
              (Err RequestAlreadyCompleted, MkRequest (rq_driver self) None None None (rq_url self), Some connect)
          | Some conn, Some settings =>
              (Ok (conn, settings, connect, rq_driver self), MkRequest None None None None (rq_url self), Some connect)
          end
      | Err e => (Err (SVConnectError e), self, Some connect)
      | Panic => (Panic, self, Some connect)
      | OutOfFuel => (OutOfFuel, self, Some connect)
      end
  end.
Definition Request_close (status : StatusCode) (self : Request)
  : outcome (ServerError EP CF) unit * Request * option Connection :=
  match rq_connect self with
  | None => (Err RequestAlreadyCompleted, self, None)
  | Some connect =>
      let self := MkRequest (rq_driver self) (rq_conn self) (rq_settings self) None (rq_url self) in
      let '(r, connect) := Connect_reject status connect in
      (match r with Ok _ => Ok () | Err e => Err (SVConnectError e) | Panic => Panic | OutOfFuel => OutOfFuel end,
       self, Some connect)
  end.
Definition Request_drop (in_runtime : bool) (self : Request) : option Connection :=
  match rq_connect self with
  | None => None
  | Some connect =>
      if in_runtime then Some (snd (Connect_reject STATUS_INTERNAL_SERVER_ERROR connect)) else Some connect
  end.

(** ** server.rs: admission *)
Record Server (K : Type) := MkServer {
  sv_driver : option D; sv_accept : list (K * option Z); handshake_timeout : option Z; max_pending_handshakes : Z }.
#[global] Arguments MkServer {K}. #[global] Arguments sv_driver {K}. #[global] Arguments sv_accept {K}.
#[global] Arguments handshake_timeout {K}. #[global] Arguments max_pending_handshakes {K}.
Inductive ready (K : Type) :=
| EndpointReady (conn : option K)
| HandshakeDone (i : nat) (r : outcome (ServerError EP CF) Request)
| HandshakeLate (i : nat).
#[global] Arguments EndpointReady {K}. #[global] Arguments HandshakeDone {K}. #[global] Arguments HandshakeLate {K}.

Definition Server_new {K} : Server K := MkServer None [] None usize_max.
Definition Server_with_accept_limits {K} (driver : D) (handshake_timeout : option Z) (max_pending_handshakes : Z) : Server K :=
  MkServer (Some driver) [] handshake_timeout max_pending_handshakes.
(** [request.driver = driver] *)
Definition Request_set_driver (driver : option D) (r : outcome (ServerError EP CF) Request) : outcome (ServerError EP CF) Request :=
  match r with
  | Ok request => Ok (MkRequest driver (rq_conn request) (rq_settings request) (rq_connect request) (rq_url request))
  | r => r
  end.
Definition Server_admission_open {K} (s : Server K) : bool := len (sv_accept s) <? max_pending_handshakes s.
Definition Server_forget {K} (i : nat) (s : Server K) : Server K :=
  MkServer (sv_driver s) (delete i (sv_accept s)) (handshake_timeout s) (max_pending_handshakes s).
Fixpoint Server_accept {K} (events : list (ready K))
  : M (Server K) Empty_set (option (outcome (ServerError EP CF) Request)) :=
  match events with
  | [] => out_of_fuel
  | ev :: events => fun s =>
      if negb (Server_admission_open s) && bool_decide (sv_accept s = []) then (Panic, s) else
      match ev with
      | EndpointReady res =>
          if Server_admission_open s then
            match res with
            | None => (Ok None, s)
            | Some conn =>
                Server_accept events (MkServer (sv_driver s) (sv_accept s ++ [(conn, handshake_timeout s)])
                  (handshake_timeout s) (max_pending_handshakes s))
            end
          else Server_accept events s
      | HandshakeDone i r =>
          match sv_accept s !! i with
          | Some _ => (Ok (Some (Request_set_driver (sv_driver s) r)), Server_forget i s)
          | None => Server_accept events s
          end
      | HandshakeLate i =>
          match sv_accept s !! i with
          | Some (_, Some _) => (Ok (Some (Err HandshakeTimeout)), Server_forget i s)
          | _ => Server_accept events s
          end
      end
  end.
End Handshake.

(** ** client.rs *)

(** Name resolution, Quion's endpoints and the limits; [timeout] leaves what
    dropping the future on the way did.  What [connect] fails with is converted by
    Quion's own error types. *)
Class QuionNetwork `{Quion} (N C Endpoint EP : Type) := {
  NConnecting : Type;
  nlookup_host : bytes -> Z -> M N io_error (list SocketAddr);
  nconnect : Endpoint -> SocketAddr -> bytes -> M N (EP + ConnectionError) NConnecting;
  nconnecting_await : NConnecting -> M N ConnectionError C;
  ntimeout {A} : Z -> (N -> A * N) -> N -> option A * N
}.
Record Client (Endpoint : Type) := MkClient {
  endpoint : Endpoint; ipv6 : option Endpoint; dns_timeout : option Z; client_handshake_timeout : option Z }.
Arguments MkClient {Endpoint}. Arguments endpoint {Endpoint}. Arguments ipv6 {Endpoint}.
Arguments dns_timeout {Endpoint}. Arguments client_handshake_timeout {Endpoint}.

Section Client.
Context `{Platform} `{Quion} `{UrlLib} `{HttpLib} `{!HttpStatus} `{!UrlHost} `{!HashMapIter bytes bytes} `{!HashMapIter Setting VarInt}.
Context {N C Endpoint EP SendS RecvS : Type} `{!QuionConnection C SendS RecvS} `{AsyncRead RecvS} `{AsyncWrite SendS}.
Context `{!QuicConn C} `{!Driving C} `{!QuionNetwork N C Endpoint EP}.
Abbreviation Error := (ClientError EP).

(** [set_default_client_config] is Quion's. *)
Definition Client_new {Config} (set_default_client_config : Endpoint -> Config -> Endpoint) (endpoint : Endpoint) (config : Config)
  : Client Endpoint := MkClient (set_default_client_config endpoint config) None None None.
Definition validate_url (url : Url) : outcome Error unit :=
  if negb (bool_decide (url_scheme url = lit "https"))
  then Err (InvalidUrl (lit "WebTransport requires an https URL"))
  else if negb (bool_decide (url_username url = [])) || bool_decide (is_Some (url_password url))
  then Err (InvalidUrl (lit "userinfo is not supported in the authority"))
  else if bool_decide (is_Some (url_fragment url))
  then Err (InvalidUrl (lit "URL fragments are not sent in HTTP request targets"))
  else if url_cannot_be_a_base url || bool_decide (~ is_Some (url_host url))
  then Err (InvalidUrl (lit "URL must contain a valid authority and path"))
  else Ok ().

Definition with_timeout {A} (limit : option Z) (late : Error) (f : M N Error A) : M N Error A :=
  match limit with
  | Some limit => fun n => match ntimeout limit f n with (Some r, n) => (r, n) | (None, n) => (Err late, n) end
  | None => f
  end.
Definition resolve (self : Client Endpoint) (url : Url) : M N Error (bytes * SocketAddr) :=
  let port := default 443 (url_port url) in
  match url_host url with
  | None => throw (InvalidDnsName [])
  | Some (Domain domain) =>
      let* remotes := with_timeout (dns_timeout self) DnsTimeout
        (map_err (fun _ => InvalidDnsName domain) (nlookup_host domain port)) in
      match remotes with
      | remote :: _ => ret (domain, remote)
      | [] => throw (InvalidDnsName domain)
      end
  | Some (Ipv4 ipv4) => ret (ipv4_to_string ipv4, MkSocketAddr (V4 ipv4) port)
  | Some (Ipv6 ipv6) => ret (ipv6_to_string ipv6, MkSocketAddr (V6 ipv6) port)
  end.
Definition is_ipv6 (a : SocketAddr) : bool := match ip a with V6 _ => true | V4 _ => false end.
(** A socket routes one address family: IPv6 has an endpoint of its own. *)
Definition endpoint_for (self : Client Endpoint) (remote : SocketAddr) : Endpoint :=
  if is_ipv6 remote then default (endpoint self) (ipv6 self) else endpoint self.
Definition connect_error (e : EP + ConnectionError) : Error :=
  match e with inl e => CLEndpoint e | inr e => CLConnection e end.
(** A connection that is not driven to the end of its exchange yields nothing; the
    limit, if any, then passes. *)
Definition establish (fuel : nat) (order : list bool) (connecting : NConnecting) (url : Url)
  : M N Error (C * QSettings (SendS:=SendS) (RecvS:=RecvS) * Connect SendS RecvS) :=
  let* conn := map_err CLConnection (nconnecting_await connecting) in
  let '(r, conn) := session_connect fuel order url conn in
  match r with
  | Some r =>
      let* (settings, connect) := lift r in
      ret (conn, settings, connect)
  | None => out_of_fuel
  end.
Definition Client_connect (fuel : nat) (order : list bool) (self : Client Endpoint) (url : Url)
  : M N Error (C * QSettings (SendS:=SendS) (RecvS:=RecvS) * Connect SendS RecvS) :=
  lift (validate_url url) ;;;
  let* (host, remote) := resolve self url in
  let* connecting := map_err connect_error (nconnect (endpoint_for self remote) remote host) in
  with_timeout (client_handshake_timeout self) CLHandshakeTimeout (establish fuel order connecting url).
End Client.

(** ** Agreement with the handshake over Quinn

    [as_quinn] is a Quion connection as one of Quinn; the exchanges do the same on
    both, with the corresponding errors. *)
Definition as_quinn `{Quion} {C SendS RecvS} (nc : QuionConnection C SendS RecvS) : QuinnConnection C SendS RecvS := {|
  conn_open_uni := nc_open_uni; conn_open_bi := nc_open_bi; conn_accept_uni := nc_accept_uni; conn_accept_bi := nc_accept_bi;
  conn_read_datagram := nc_read_datagram; conn_send_datagram := nc_send_datagram; conn_max_datagram_size := nc_max_datagram_size |}.

Definition agree {S E E' A} (R : E -> E' -> Prop) (m : M S E A) (m' : M S E' A) : Prop :=
  forall s, let '(r, t) := m s in exists r', m' s = (r', t) /\
    match r, r' with
    | Ok a, Ok a' => a' = a
    | Err e, Err e' => R e e'
    | Panic, Panic | OutOfFuel, OutOfFuel => True
    | _, _ => False
    end.
Section Agree.
Context {S E E' : Type} (R : E -> E' -> Prop).
Lemma agree_bind {A B} (m : M S E A) (m' : M S E' A) (k : A -> M S E B) (k' : A -> M S E' B) :
  agree R m m' -> (forall a, agree R (k a) (k' a)) -> agree R (bind m k) (bind m' k').
Proof.
  intros Hm Hk s. unfold bind. specialize (Hm s). destruct (m s) as [r t]. destruct Hm as (r' & -> & Hr).
  destruct r as [a| | |], r' as [a'| | |]; try done; [|by eexists..]. subst a'. exact (Hk a t).
Qed.
Lemma agree_ret {A} (a : A) : agree R (ret a : M S E A) (ret a : M S E' A).
Proof. intros s. by eexists. Qed.
Lemma agree_throw {A} e e' : R e e' -> agree R (throw e : M S E A) (throw e' : M S E' A).
Proof. intros HR s. by eexists. Qed.
Lemma agree_map {F A} (f : F -> E) (f' : F -> E') (m : M S F A) :
  (forall e, R (f e) (f' e)) -> agree R (map_err f m) (map_err f' m).
Proof. intros Hf s. unfold map_err. destruct (m s) as [[a|e| |] t]; eexists; split; try done; apply Hf. Qed.
Lemma agree_map2 {F F' A} (Q : F -> F' -> Prop) (f : F -> E) (f' : F' -> E') (m : M S F A) (m' : M S F' A) :
  agree Q m m' -> (forall e e', Q e e' -> R (f e) (f' e')) -> agree R (map_err f m) (map_err f' m').
Proof.
  intros Hm Hf s. unfold map_err. specialize (Hm s). destruct (m s) as [r t]. destruct Hm as (r' & -> & Hr).
  destruct r as [a|e| |], r' as [a'|e'| |]; try done; (eexists; split; [done|]); cbn; auto.
Qed.
(** Two futures that agree step by step. *)
Fixpoint thread_agree {A} (t : thread S E A) (t' : thread S E' A) : Prop :=
  match t with
  | Resolved a => t' = Resolved a
  | @Await _ _ _ X m k => exists (m' : M S E' X) k', t' = Await m' k' /\ agree R m m' /\ forall x, thread_agree (k x) (k' x)
  end.
Lemma thread_agree_await {A X} (m : M S E X) (m' : M S E' X) (k : X -> thread S E A) (k' : X -> thread S E' A) :
  agree R m m' -> (forall x, thread_agree (k x) (k' x)) -> thread_agree (Await m k) (Await m' k').
Proof. intros Hm Hk. by exists m', k'. Qed.
Lemma agree_run {A} (t : thread S E A) : forall t', thread_agree t t' -> agree R (run_thread t) (run_thread t').
Proof.
  induction t as [a|X m k IH]; cbn [thread_agree].
  - intros ? ->. apply agree_ret.
  - intros ? (m' & k' & -> & Hm & Hk). apply agree_bind; [done|]. intros x. by apply IH.
Qed.
Lemma agree_poll {A B} (t : thread S E A) (t' : thread S E' A) (f : thread S E A -> M S E B) (f' : thread S E' A -> M S E' B) :
  thread_agree t t' -> (forall u u', thread_agree u u' -> agree R (f u) (f' u')) ->
  agree R (let* u := poll_thread t in f u) (let* u := poll_thread t' in f' u).
Proof.
  intros Ht Hf. destruct t as [a|X m k]; cbn [thread_agree] in Ht.
  - subst t'. intros s. by apply (Hf (Resolved a) (Resolved a)).
  - destruct Ht as (m' & k' & -> & Hm & Hk). intros s. cbn [poll_thread]. unfold bind. specialize (Hm s).
    destruct (m s) as [r u]. destruct Hm as (r' & -> & Hr). destruct r as [x| | |], r' as [x'| | |]; try done; [|by eexists..].
    subst x'. by apply Hf.
Qed.
Lemma agree_try_join {A B} order : forall (a : thread S E A) (a' : thread S E' A) (b : thread S E B) (b' : thread S E' B),
  thread_agree a a' -> thread_agree b b' -> agree R (try_join order a b) (try_join order a' b').
Proof.
  induction order as [|[|] order IH]; intros a a' b b' Ha Hb; cbn [try_join].
  - apply agree_bind; [by apply agree_run|]. intros x. apply agree_bind; [by apply agree_run|]. intros y. apply agree_ret.
  - apply agree_poll; [done|]. intros u u' Hu. by apply IH.
  - apply agree_poll; [done|]. intros u u' Hu. by apply IH.
Qed.
End Agree.

Section Same.
Context `{Platform} `{Quion} `{UrlLib} `{HttpLib} `{!HttpStatus} `{!HashMapIter bytes bytes} `{!HashMapIter Setting VarInt}.
Context {C SendS RecvS : Type} `{nc : !QuionConnection C SendS RecvS} `{AsyncRead RecvS} `{AsyncWrite SendS}.
#[local] Existing Instance as_quinn.

Inductive same_connect : QConnectError -> NConnectError -> Prop :=
| same_proto e : same_connect (QCProtoError e) (NCProtoError e)
| same_conn e : same_connect (QCConnectionError e) (NCConnectionError e)
| same_status s : same_connect (QCErrorStatus s) (NCErrorStatus s).
Inductive same_settings : QSettingsError -> NSettingsError -> Prop :=
| same_sproto e : same_settings (QSProtoError e) (NSProtoError e)
| same_unsupported : same_settings QSWebTransportUnsupported NSWebTransportUnsupported
| same_sconn e : same_settings (QSConnectionError e) (NSConnectionError e).
#[local] Hint Constructors same_connect same_settings : core.

Lemma Connect_accept_agrees fuel : agree same_connect (QuinnHandshake.Connect_accept (SendS:=SendS) (RecvS:=RecvS) fuel) (Connect_accept fuel).
Proof.
  apply agree_bind; [by apply agree_map|]. intros [send recv]. destruct (request_read fuel recv) as [r recv'].
  apply agree_bind; [by apply agree_map|]. intros q. apply agree_ret.
Qed.
Lemma Connect_open_agrees fuel u : agree same_connect (QuinnHandshake.Connect_open (SendS:=SendS) (RecvS:=RecvS) fuel u) (Connect_open fuel u).
Proof.
  apply agree_bind; [by apply agree_map|]. intros [send recv]. cbv zeta. destruct (request_write (MkConnectRequest u) send) as [r send'].
  apply agree_bind; [by apply agree_map|]. intros _. destruct (response_read fuel recv) as [r' recv'].
  apply agree_bind; [by apply agree_map|]. intros q. destruct (negb _); [by apply agree_throw|apply agree_ret].
Qed.
Lemma Settings_accept_agrees fuel b :
  thread_agree same_settings (QuinnHandshake.Settings_accept (SendS:=SendS) (RecvS:=RecvS) fuel b) (Settings_accept fuel b).
Proof.
  apply thread_agree_await; [by apply agree_map|]. intros recv. apply thread_agree_await; [|done].
  destruct (Settings.read fuel recv) as [r recv'].
  apply agree_bind; [by apply agree_map|]. intros q. cbv zeta. destruct (negb _); [by apply agree_throw|apply agree_ret].
Qed.
Lemma Settings_open_agrees :
  thread_agree same_settings (QuinnHandshake.Settings_open (SendS:=SendS) (RecvS:=RecvS)) Settings_open.
Proof.
  apply thread_agree_await; [by apply agree_map|]. intros send. apply thread_agree_await; [|done].
  destruct (Settings.write _ send) as [r send'].
  apply agree_bind; [by apply agree_map|]. intros _. apply agree_ret.
Qed.
Lemma Settings_connect_agrees fuel b1 b2 :
  agree same_settings (QuinnHandshake.Settings_connect (SendS:=SendS) (RecvS:=RecvS) fuel b1 b2) (Settings_connect fuel b1 b2).
Proof.
  apply agree_bind; [|intros []; apply agree_ret]. apply agree_try_join; [apply Settings_accept_agrees|apply Settings_open_agrees].
Qed.

Inductive same_client {X EP} : QuinnHandshake.ClientError X -> ClientError EP -> Prop :=
| same_csettings e e' : same_settings e e' -> same_client (QuinnHandshake.CLSettingsError e) (CLSettingsError e')
| same_chttp e e' : same_connect e e' -> same_client (QuinnHandshake.CLHttpError e) (CLHttpError e').
#[local] Hint Constructors same_client : core.
Lemma session_exchange_agrees {X EP} fuel b u :
  agree same_client (QuinnHandshake.session_connect (X:=X) (SendS:=SendS) (RecvS:=RecvS) fuel b u) (session_exchange (EP:=EP) fuel b u).
Proof.
  apply agree_bind; [by eapply agree_map2; [apply Settings_connect_agrees|auto]|]. intros s.
  apply agree_bind; [by eapply agree_map2; [apply Connect_open_agrees|auto]|]. intros c. apply agree_ret.
Qed.
End Same.

(** ** The exchanges on a connection that works *)
Section Established.
Context `{Platform} `{Quion} `{UrlLib} `{HttpLib} `{!HttpStatus} `{!UrlLaws} `{!HttpLaws} `{!HashMapIter bytes bytes} `{!HashMapIter Setting VarInt}.
Context {C : Type} `{nc : !QuionConnection C Outgoing Incoming}.
#[local] Existing Instance as_quinn.
Context (in_uni in_bi : C -> list Incoming) `{!QuinnWorks in_uni in_bi}.

Lemma agree_Ok {S E E' A} (R : E -> E' -> Prop) (m : M S E A) (m' : M S E' A) s a t :
  agree R m m' -> m s = (Ok a, t) -> m' s = (Ok a, t).
Proof. intros Hm E1. specialize (Hm s). rewrite E1 in Hm. destruct Hm as ([a'| | |] & -> & Ha); try done. by subst. Qed.
Lemma agree_Err {S E E' A} (R : E -> E' -> Prop) (m : M S E A) (m' : M S E' A) s e t :
  agree R m m' -> m s = (Err e, t) -> exists e', m' s = (Err e', t) /\ R e e'.
Proof. intros Hm E1. specialize (Hm s). rewrite E1 in Hm. destruct Hm as ([|e'| |] & -> & He); try done. by exists e'. Qed.

(** The answer of the client's exchange when the server sends a status. *)
Lemma session_exchange_response {EP} fuel order c u st r1 r2 e :
  session_url u -> is_bytes r1 -> is_bytes r2 -> (0 < fuel)%nat ->
  in_uni c = [MkIncoming (settings_bytes offered ++ r1) e] -> in_bi c = [MkIncoming (response_bytes st ++ r2) e] ->
  exists c', session_exchange (EP:=EP) fuel order u c =
    (if decide (st = STATUS_OK)
     then Ok (MkQSettings (MkOutgoing (settings_bytes offered) None) (MkIncoming r1 e),
              MkConnect (MkConnectRequest u) (MkOutgoing (request_bytes u) None) (MkIncoming r2 e))
     else Err (CLHttpError (NCErrorStatus st)), c').
Proof.
  intros Hu R1 R2 Hf Hcu Hcb.
  destruct (session_connect_response (X:=EP) in_uni in_bi fuel order c u st r1 r2 e Hu R1 R2 Hf Hcu Hcb) as (c' & E1).
  exists c'. destruct (decide (st = STATUS_OK)).
  - by apply (agree_Ok _ _ _ _ _ _ (session_exchange_agrees (X:=EP) fuel order u)).
  - destruct (agree_Err _ _ _ _ _ _ (session_exchange_agrees (X:=EP) (EP:=EP) fuel order u) E1) as (e' & -> & Hr).
    inversion Hr as [|? x Hx]; subst. by inversion Hx; subst.
Qed.
Lemma request_exchange_request {EP CF} fuel order c u r3 r4 e :
  session_url u -> is_bytes r3 -> is_bytes r4 -> (0 < fuel)%nat ->
  in_uni c = [MkIncoming (settings_bytes offered ++ r3) e] -> in_bi c = [MkIncoming (request_bytes u ++ r4) e] ->
  exists c', request_exchange (EP:=EP) (CF:=CF) fuel order c =
    (Ok (MkQSettings (MkOutgoing (settings_bytes offered) None) (MkIncoming r3 e),
         MkConnect (MkConnectRequest u) (MkOutgoing [] None) (MkIncoming r4 e)), c').
Proof.
  intros Hu R3 R4 Hf Hsu Hsb.
  destruct (settings_connect_offered in_uni in_bi fuel order false c r3 e Hsu R3 Hf) as (c1 & E1 & _ & Hb1).
  rewrite Hsb in Hb1. destruct (connect_accept_request in_uni in_bi fuel c1 u r4 e Hu Hb1 R4 Hf) as (c2 & E2). exists c2.
  unfold request_exchange, map_err, bind.
  rewrite (agree_Ok _ _ _ _ _ _ (Settings_connect_agrees fuel order false) E1).
  by rewrite (agree_Ok _ _ _ _ _ _ (Connect_accept_agrees fuel) E2).
Qed.

Context `{!QuicConn C} `{!Driving C}.
(** A future that is not dropped runs as it is written. *)
Definition undropped : Prop := forall E A (m : M C E A) c, drive m c = (Ended (m c).1, (m c).2).
Lemma guarded_undropped {E A} (m : M C E A) c :
  undropped -> guarded m c = (Some (m c).1, HandshakeGuard_drop (match (m c).1 with Ok _ => true | _ => false end) (m c).2).
Proof. intros Hd. unfold guarded. by rewrite Hd. Qed.
(** Without a result the guard closes the connection, unless it was never made. *)
Definition aborted {E A} (m : M C E A) (c c' : C) : Prop :=
  match drive m c with
  | (NeverPolled, _) => c' = c
  | (_, c1) => c' = conn_close 0x102 (lit "WebTransport handshake aborted") c1
  end.
(** With one, the connection is as the exchange left it. *)
Lemma guarded_ends {E A} (m : M C E A) c r c' :
  guarded m c = (r, c') ->
  match r with Some (Ok a) => drive m c = (Ended (Ok a), c') | _ => aborted m c c' end.
Proof. unfold guarded, aborted. destruct (drive m c) as [[| |[a|e| |]] c0]; by intros [= <- <-]. Qed.
End Established.

(** ** Admission: that of the Quinn server *)
Section Admission.
Context `{Quion} `{UrlLib} `{HttpLib} {C SendS RecvS D EP CF K : Type}.
Abbreviation QuionReady := (ready (C:=C) (SendS:=SendS) (RecvS:=RecvS) (D:=D) (EP:=EP) (CF:=CF) K).
Definition quinn_server (s : Server (D:=D) K) : QuinnHandshake.Server K :=
  QuinnHandshake.MkServer (sv_accept s) (handshake_timeout s) (max_pending_handshakes s).
(** An event without the result of the handshake. *)
Definition quinn_ready (ev : QuionReady) : QuinnHandshake.ready (C:=C) (SendS:=SendS) (RecvS:=RecvS) K :=
  match ev with
  | EndpointReady conn => QuinnHandshake.EndpointReady conn
  | HandshakeDone i _ => QuinnHandshake.HandshakeDone i OutOfFuel
  | HandshakeLate i => QuinnHandshake.HandshakeLate i
  end.
Definition same_admission {X Y} (r : outcome Empty_set (option X)) (r' : outcome Empty_set (option Y)) : Prop :=
  match r, r' with
  | Ok (Some _), Ok (Some _) | Ok None, Ok None | Panic, Panic | OutOfFuel, OutOfFuel => True
  | _, _ => False
  end.
Lemma server_accept_agrees (events : list QuionReady) : forall s,
  let '(r, s') := Server_accept events s in
  let '(r', s'') := QuinnHandshake.Server_accept (quinn_ready <$> events) (quinn_server s) in
  s'' = quinn_server s' /\ sv_driver s' = sv_driver s /\ same_admission r r'.
Proof.
  induction events as [|ev events IH]; intros s; [done|]. cbn [fmap list_fmap Server_accept QuinnHandshake.Server_accept].
  change (QuinnHandshake.Server_admission_open (quinn_server s)) with (Server_admission_open s).
  change (QuinnHandshake.sv_accept (quinn_server s)) with (sv_accept s).
  destruct (negb (Server_admission_open s) && bool_decide (sv_accept s = [])); [done|].
  destruct ev as [[k|]|i r|i]; cbn [quinn_ready].
  - destruct (Server_admission_open s); [|apply IH].
    match goal with |- context [Server_accept events ?t] => exact (IH t) end.
  - destruct (Server_admission_open s); [done|apply IH].
  - destruct (sv_accept s !! i); [done|apply IH].
  - destruct (sv_accept s !! i) as [[k [t|]]|]; [done|apply IH|apply IH].
Qed.
End Admission.

(** ** Samples *)
Record LinkedPending := MkLinkedPending { lp_pending : Pending; lp_closed : option (Z * bytes) }.
Definition on_pending_streams {A} (m : M Pending (@ConnectionError sample_quinn) A) : M LinkedPending (@ConnectionError sample_quinn) A :=
  fun c => let '(r, p) := m (lp_pending c) in (r, MkLinkedPending p (lp_closed c)).
#[export] Instance linked_connection : QuionConnection (H:=sample_quion) LinkedPending Outgoing Incoming :=
  @Build_QuionConnection sample_quion LinkedPending Outgoing Incoming
    (on_pending_streams (conn_open_uni (QuinnConnection:=pending_connection)))
    (on_pending_streams (conn_open_bi (QuinnConnection:=pending_connection)))
    (on_pending_streams (conn_accept_uni (QuinnConnection:=pending_connection)))
    (on_pending_streams (conn_accept_bi (QuinnConnection:=pending_connection)))
    (throw None) (fun _ => ret ()) (fun _ => None) (fun _ => None).
#[export] Instance linked_quic : QuicConn LinkedPending := {|
  conn_is_closed c := bool_decide (is_Some (lp_closed c));
  conn_close code reason c := MkLinkedPending (lp_pending c) (Some (code, reason)) |}.
#[export] Instance linked_driving : Driving LinkedPending := {| drive E A m c := (Ended (m c).1, (m c).2) |}.
Lemma linked_works : QuinnWorks (H:=sample_quinn) (QuinnConnection0:=as_quinn linked_connection)
  (fun c => pd_uni (lp_pending c)) (fun c => pd_bi (lp_pending c)).
Proof.
  split; [intros [p x]; by eexists|intros [[u b] x] s ss; cbn; intros ->; by eexists..].
Qed.

(** ** Properties *)

(** C14: the handshake over Quion, for an https URL without user information or
    fragment, of at most 64,000 bytes of authority and path ([session_url]; the
    client checks all but the length before it connects, [Session::connect] by
    itself does not).  Between sides that see what the other sends, the
    server gets a request for exactly the URL of the client, with the connection
    left open; the client gets a session when the answer is 200, and otherwise the
    status as its error.  Whenever an exchange ends without a session or a request,
    by an error or by being dropped after its first poll, at whatever point, its
    connection is closed with H3_INTERNAL_ERROR (0x102) by the guard; one dropped
    before its first poll leaves the connection as it is, since the guard is not
    made yet, and so does one that ends with a session or a request. *)
Theorem quion_handshake `{Platform} `{Quion} `{UrlLib} `{HttpLib} `{!HttpStatus} `{!UrlLaws} `{!HttpLaws}
  `{!HashMapIter bytes bytes} `{!HashMapIter Setting VarInt} {C D EP CF : Type} (nc : QuionConnection C Outgoing Incoming)
  `{!QuicConn C} `{!Driving C} (in_uni in_bi : C -> list Incoming)
  (Hworks : QuinnWorks (QuinnConnection0:=as_quinn nc) in_uni in_bi)
  (u : Url) (st : StatusCode) (client server : C) (fuel : nat) (b1 b2 : list bool) (r1 r2 r3 r4 : bytes) (e : io_error)
  (Hu : session_url u) (Hfuel : (0 < fuel)%nat) (Hr : Forall is_bytes [r1; r2; r3; r4])
  (Hcu : in_uni client = [MkIncoming (settings_bytes offered ++ r1) e])
  (Hcb : in_bi client = [MkIncoming (response_bytes st ++ r2) e])
  (Hsu : in_uni server = [MkIncoming (settings_bytes offered ++ r3) e])
  (Hsb : in_bi server = [MkIncoming (request_bytes u ++ r4) e]) :
  (undropped (C:=C) ->
     (exists conn settings, Request_accept (D:=D) (EP:=EP) (CF:=CF) fuel b2 server
        = (Some (Ok (MkRequest None (Some conn) (Some settings)
            (Some (MkConnect (MkConnectRequest u) (MkOutgoing [] None) (MkIncoming r4 e))) u)), conn) /\
        conn = (request_exchange (EP:=EP) (CF:=CF) fuel b2 server).2) /\
     (exists conn, session_connect (EP:=EP) fuel b1 u client =
        if decide (st = STATUS_OK)
        then (Some (Ok (MkQSettings (MkOutgoing (settings_bytes offered) None) (MkIncoming r1 e),
                        MkConnect (MkConnectRequest u) (MkOutgoing (request_bytes u) None) (MkIncoming r2 e))), conn)
        else (Some (Err (CLHttpError (NCErrorStatus st))), conn_close 0x102 (lit "WebTransport handshake aborted") conn))) /\
  (forall c r c', session_connect (EP:=EP) fuel b1 u c = (r, c') ->
     match r, drive (session_exchange (EP:=EP) fuel b1 u) c with
     | Some (Ok a), o => o = (Ended (Ok a), c')
     | _, (NeverPolled, _) => c' = c
     | _, (_, conn) => c' = conn_close 0x102 (lit "WebTransport handshake aborted") conn
     end) /\
  (forall c r c', Request_accept (D:=D) (EP:=EP) (CF:=CF) fuel b2 c = (r, c') ->
     match r, drive (request_exchange (EP:=EP) (CF:=CF) fuel b2) c with
     | Some (Ok request), (o, conn) => rq_conn request = Some c' /\ c' = conn /\ exists a, o = Ended (Ok a)
     | _, (NeverPolled, _) => c' = c
     | _, (_, conn) => c' = conn_close 0x102 (lit "WebTransport handshake aborted") conn
     end).
Proof.
  apply Forall_cons in Hr as [R1 Hr]. apply Forall_cons in Hr as [R2 Hr]. apply Forall_cons in Hr as [R3 Hr].
  apply Forall_cons in Hr as [R4 _]. split; [intros Hdrive; split|split].
  - destruct (request_exchange_request (EP:=EP) (CF:=CF) in_uni in_bi fuel b2 server u r3 r4 e Hu R3 R4 Hfuel Hsu Hsb) as (c & E1).
    exists c. eexists. unfold Request_accept. rewrite guarded_undropped, E1 by done. by cbn.
  - destruct (session_exchange_response (EP:=EP) in_uni in_bi fuel b1 client u st r1 r2 e Hu R1 R2 Hfuel Hcu Hcb) as (c & E1).
    exists c. unfold session_connect. rewrite guarded_undropped, E1 by done. by destruct (decide (st = STATUS_OK)).
  - intros c r c' E1. apply guarded_ends in E1. unfold aborted in E1. by destruct r as [[| | |]|], (drive _ c) as [[] ?].
  - intros c r c' E1. unfold Request_accept in E1.
    destruct (guarded (request_exchange fuel b2) c) as [r0 c0] eqn:E0. apply guarded_ends in E0. unfold aborted in E0.
    injection E1 as <- <-. destruct r0 as [[[settings connect]| | |]|], (drive _ c) as [[] ?]; simplify_eq; eauto.
Qed.
Lemma quion_handshake_witness :
  let e := IoError UnexpectedEof [] in
  let order := hm_iter_rev bytes bytes in let settings_order := hm_iter_rev Setting VarInt in
  let offer := settings_bytes (HashMapIter0:=settings_order) offered in
  let client := MkLinkedPending (MkPending [MkIncoming (offer ++ []) e]
    [MkIncoming (response_bytes (H:=Platform64) (H1:=sample_url_lib) (H2:=sample_http_lib) (HashMapIter0:=order) status_403 ++ [1]) e]) None in
  let server := MkLinkedPending (MkPending [MkIncoming (offer ++ []) e]
    [MkIncoming (request_bytes (H:=Platform64) (H1:=sample_url_lib) (H2:=sample_http_lib) sample_chat ++ []) e]) None in
  exists conn, session_connect (EP:=unit) (H:=Platform64) (H0:=sample_quion) (H1:=sample_url_lib) (H2:=sample_http_lib) (H3:=sample_http_status)
    (HashMapIter0:=order) (HashMapIter1:=settings_order) (QuionConnection0:=linked_connection) 1 [true; false] sample_chat client
  = (Some (Err (CLHttpError (NCErrorStatus status_403))), conn_close 0x102 (lit "WebTransport handshake aborted") conn).
Proof.
  intros e order settings_order offer client server.
  destruct (quion_handshake (D:=unit) (EP:=unit) (CF:=unit) (H:=Platform64) (H0:=sample_quion) (H1:=sample_url_lib) (H2:=sample_http_lib)
    (H3:=sample_http_status) (H4:=sample_url_laws) (H5:=sample_http_laws)
    (HashMapIter0:=order) (HashMapIter1:=settings_order) linked_connection
    (fun c => pd_uni (lp_pending c)) (fun c => pd_bi (lp_pending c)) linked_works
    sample_chat status_403 client server 1 [true; false] [false; true] [] [1] [] [] e
    ltac:(split_and!; first [reflexivity|by_eval]) ltac:(lia) ltac:(by_eval) eq_refl eq_refl eq_refl eq_refl) as [Hrun _].
  destruct (Hrun ltac:(intros E A m c; reflexivity)) as [_ [conn Hc]]. exists conn.
  rewrite decide_False in Hc by discriminate. exact Hc.
Defined.

(** The Quion client.  A URL that is not an https URL with a host and without
    user information or fragment is refused before the network is touched.  For
    another, the connection is attempted at the first address of its host, from the
    IPv6 endpoint exactly when the address is IPv6 and there is one; and on
    connections that work the result is a session for exactly that URL when the
    server answers 200, and otherwise an error with the status and the connection
    is not returned. *)
Theorem quion_client_connect `{Platform} `{Quion} `{UrlLib} `{HttpLib} `{!HttpStatus} `{!UrlHost} `{!UrlLaws} `{!HttpLaws}
  `{!HashMapIter bytes bytes} `{!HashMapIter Setting VarInt} {N C Endpoint EP : Type}
  (nc : QuionConnection C Outgoing Incoming) `{!QuicConn C} `{!Driving C} `{!QuionNetwork N C Endpoint EP}
  (in_uni in_bi : C -> list Incoming) (Hworks : QuinnWorks (QuinnConnection0:=as_quinn nc) in_uni in_bi)
  (fuel : nat) (b : list bool) (self : Client Endpoint) (u : Url) (n : N) (Hfuel : (0 < fuel)%nat) :
  (~ connectable u -> exists message, Client_connect fuel b self u n = (Err (InvalidUrl message), n)) /\
  (forall host remote n1 e n2, connectable u -> resolve self u n = (Ok (host, remote), n1) ->
     nconnect (match ip remote, ipv6 self with V6 _, Some v6 => v6 | _, _ => endpoint self end) remote host n1 = (Err e, n2) ->
     Client_connect fuel b self u n = (Err (connect_error e), n2)) /\
  (forall host remote n1 k n2 c n3 st r1 r2 e,
     connectable u -> len (url_authority u) + len (path_and_query u) <= 64000 ->
     client_handshake_timeout self = None -> undropped (C:=C) ->
     resolve self u n = (Ok (host, remote), n1) ->
     nconnect (match ip remote, ipv6 self with V6 _, Some v6 => v6 | _, _ => endpoint self end) remote host n1 = (Ok k, n2) ->
     nconnecting_await k n2 = (Ok c, n3) -> is_bytes r1 -> is_bytes r2 ->
     in_uni c = [MkIncoming (settings_bytes offered ++ r1) e] -> in_bi c = [MkIncoming (response_bytes st ++ r2) e] ->
     exists c', Client_connect fuel b self u n =
       (if decide (st = STATUS_OK)
        then Ok (c', MkQSettings (MkOutgoing (settings_bytes offered) None) (MkIncoming r1 e),
                 MkConnect (MkConnectRequest u) (MkOutgoing (request_bytes u) None) (MkIncoming r2 e))
        else Err (CLHttpError (NCErrorStatus st)), n3)).
Proof.
  assert (Hep : forall remote, endpoint_for self remote =
    match ip remote, ipv6 self with V6 _, Some v6 => v6 | _, _ => endpoint self end).
  { intros [[|] p]; unfold endpoint_for; cbn; [done|]. by destruct (ipv6 self). }
  assert (Hval : (connectable u /\ validate_url (EP:=EP) u = Ok ()) \/
    (~ connectable u /\ exists message, validate_url (EP:=EP) u = Err (InvalidUrl message))).
  { pose proof (validate_url_cases (X:=EP) u) as Hv. revert Hv. unfold QuinnClient.validate_url, validate_url.
    repeat case_match; intros [[Hu E]|[Hu [m E]]]; try discriminate; (left; by split) || (right; split; [done|]; by eexists). }
  unfold Client_connect, bind, lift. destruct Hval as [[Hu ->]|[Hu (m & ->)]].
  2: { split; [eauto|]. split; intros; contradiction. }
  split; [intros; contradiction|]. split.
  - intros host remote n1 e n2 _ Hres Hc. rewrite Hres. unfold map_err. rewrite Hep, Hc. done.
  - intros host remote n1 k n2 c n3 st r1 r2 e _ Hlen Hlim Hdrive Hres Hk Hc R1 R2 Hcu Hcb.
    assert (Hs : session_url u) by (destruct Hu as (? & ? & ? & ? & _); by split_and!).
    destruct (session_exchange_response (EP:=EP) in_uni in_bi fuel b c u st r1 r2 e Hs R1 R2 Hfuel Hcu Hcb) as (c' & E).
    exists c'. rewrite Hres. unfold map_err at 1. rewrite Hep, Hk, Hlim. cbn [with_timeout].
    unfold establish, bind, map_err. rewrite Hc. unfold session_connect. rewrite guarded_undropped, E by done.
    by destruct (decide (st = STATUS_OK)).
Qed.

Definition quion_network (c : LinkedPending)
  : QuionNetwork (H:=sample_quion) (list (Z * bytes * SocketAddr)) LinkedPending Z unit :=
  @Build_QuionNetwork sample_quion (list (Z * bytes * SocketAddr)) LinkedPending Z unit unit
    (fun _ p => ret [MkSocketAddr (V6 [0x2001; 0xdb8; 0; 0; 0; 0; 0; 1]) p])
    (fun endpoint remote host log => (Ok (), log ++ [(endpoint, host, remote)]))
    (fun _ => ret c)
    (fun A _ f n => (Some (f n).1, (f n).2)).
(** The host has an IPv6 address: the connection is made from endpoint 6. *)
Lemma quion_client_connect_witness :
  let e := IoError UnexpectedEof [] in
  let order := hm_iter_rev bytes bytes in let settings_order := hm_iter_rev Setting VarInt in
  let offer := settings_bytes (HashMapIter0:=settings_order) offered in
  let c := MkLinkedPending (MkPending [MkIncoming (offer ++ []) e]
    [MkIncoming (response_bytes (H:=Platform64) (H1:=sample_url_lib) (H2:=sample_http_lib) (HashMapIter0:=order) status_200 ++ [1]) e]) None in
  exists session, Client_connect (H:=Platform64) (H0:=sample_quion) (H1:=sample_url_lib) (H2:=sample_http_lib) (H3:=sample_http_status)
    (H4:=sample_host) (HashMapIter0:=order) (HashMapIter1:=settings_order) (QuionConnection0:=linked_connection)
    (QuionNetwork0:=quion_network c) 1 [true] (MkClient 4 (Some 6) (Some 5) None) sample_chat []
  = (Ok session, [(6, lit "example.com", MkSocketAddr (V6 [0x2001; 0xdb8; 0; 0; 0; 0; 0; 1]) 4433)]).
Proof.
  intros e order settings_order offer c.
  destruct (quion_client_connect (H:=Platform64) (H0:=sample_quion) (H1:=sample_url_lib) (H2:=sample_http_lib) (H3:=sample_http_status)
    (H4:=sample_host) (H5:=sample_url_laws) (H6:=sample_http_laws) (HashMapIter0:=order) (HashMapIter1:=settings_order)
    linked_connection (QuionNetwork0:=quion_network c) (fun c => pd_uni (lp_pending c)) (fun c => pd_bi (lp_pending c)) linked_works
    1 [true] (MkClient 4 (Some 6) (Some 5) None) sample_chat [] ltac:(lia)) as (_ & _ & Hok).
  destruct (Hok (lit "example.com") (MkSocketAddr (V6 [0x2001; 0xdb8; 0; 0; 0; 0; 0; 1]) 4433) [] tt
    [(6, lit "example.com", MkSocketAddr (V6 [0x2001; 0xdb8; 0; 0; 0; 0; 0; 1]) 4433)] c
    [(6, lit "example.com", MkSocketAddr (V6 [0x2001; 0xdb8; 0; 0; 0; 0; 0; 1]) 4433)] status_200 [] [1] e) as (c' & Hc); try reflexivity.
  - do 5 (split; [reflexivity|]). by eexists.
  - by_eval.
  - intros E A m d. reflexivity.
  - constructor.
  - by_eval.
  - rewrite decide_True in Hc by reflexivity. eexists. exact Hc.
Defined.

(** The Quion server answers a request once, and admits handshakes like the
    Quinn server.  Exactly one response is written: 200 with the session handed the
    driver of the server, the caller's status, or 500 for a request dropped
    unanswered in a runtime; an answered request writes nothing more.  On the same
    events admission is in the same states as over Quinn, which never holds more
    handshakes than the bound, and a request that is returned has the driver. *)
Theorem quion_server `{Platform} `{Quion} `{UrlLib} `{HttpLib} `{!HttpStatus} `{!UrlLaws} `{!HttpLaws}
  `{!HashMapIter bytes bytes} `{!QuionSend Outgoing} {C D EP CF : Type}
  (Hfinish : forall s : Outgoing, ns_finish s = (Ok (), s))
  (Hstopped : forall s : Outgoing, completes (ns_stopped s).1 /\ (ns_stopped s).2 = s)
  (driver : option D) (conn : C) (settings : QSettings (SendS:=Outgoing) (RecvS:=Incoming)) (q : ConnectRequest) (recv : Incoming) (u : Url) :
  let connect out := MkConnect q (MkOutgoing out None) recv in
  let request := MkRequest driver (Some conn) (Some settings) (Some (connect [])) u in
  (let '(r, rest, sent) := Request_ok (EP:=EP) (CF:=CF) request in
   r = Ok (conn, settings, connect (response_bytes STATUS_OK), driver) /\
   sent = Some (connect (response_bytes STATUS_OK)) /\ rq_connect rest = None) /\
  (forall st, let '(r, rest, sent) := Request_close (EP:=EP) (CF:=CF) st request in
   r = Ok () /\ sent = Some (connect (response_bytes st)) /\ rq_connect rest = None) /\
  Request_drop true request = Some (connect (response_bytes STATUS_INTERNAL_SERVER_ERROR)) /\
  Request_drop false request = Some (connect []) /\
  (forall (r : Request (C:=C) (SendS:=Outgoing) (RecvS:=Incoming) (D:=D)) st in_runtime, rq_connect r = None ->
   Request_drop in_runtime r = None /\ Request_ok (EP:=EP) (CF:=CF) r = (Err RequestAlreadyCompleted, r, None) /\
   Request_close (EP:=EP) (CF:=CF) st r = (Err RequestAlreadyCompleted, r, None)) /\
  (forall K (events : list (ready (C:=C) (SendS:=Outgoing) (RecvS:=Incoming) (D:=D) (EP:=EP) (CF:=CF) K)) s,
   QuinnHandshake.bounded (quinn_server s) ->
   let '(r, s') := Server_accept events s in
   r <> Panic /\ QuinnHandshake.bounded (quinn_server s') /\ sv_driver s' = sv_driver s /\
   same_admission r (QuinnHandshake.Server_accept (quinn_ready <$> events) (quinn_server s)).1 /\
   (QuinnHandshake.Server_accept (quinn_ready <$> events) (quinn_server s)).2 = quinn_server s').
Proof.
  assert (Hreject : forall st, Connect_reject st (MkConnect q (MkOutgoing [] None) recv)
    = (Ok (), MkConnect q (MkOutgoing (response_bytes st) None) recv)).
  { intros st. unfold Connect_reject, bind, Connect_respond, Connect_on_send, map_err. cbn [connect_send].
    rewrite response_write_out. cbn [connect_send connect_recv connect_request app]. rewrite Hfinish.
    cbn [connect_send connect_recv connect_request].
    pose proof (Hstopped (MkOutgoing (response_bytes st) None)) as [Hc Hs].
    destruct (ns_stopped _) as [o s]. cbn [fst snd] in *. subst s. by destruct (completes_cases o Hc) as [[a ->]|[e ->]]. }
  intros connect request. subst connect request. split; [|split; [|split; [|split; [|split]]]].
  - unfold Request_ok, Connect_respond, Connect_on_send, map_err. cbn [rq_connect connect_send].
    by rewrite response_write_out.
  - intros st. unfold Request_close. cbn [rq_connect rq_conn rq_settings rq_url]. by rewrite Hreject.
  - unfold Request_drop. cbn [rq_connect]. by rewrite Hreject.
  - done.
  - intros r st b Hr. unfold Request_drop, Request_ok, Request_close. by rewrite Hr.
  - intros K events s Hs. pose proof (server_accept_agrees events s) as Ha.
    pose proof (server_accept_bounded (quinn_ready <$> events) (quinn_server s) Hs) as Hb.
    destruct (Server_accept events s) as [r s'], (QuinnHandshake.Server_accept _ _) as [r' s''].
    destruct Ha as (-> & Hd & Hsame), Hb as (Hp & Hb & _). split_and!; try done.
    intros ->. by destruct r' as [[?|]| | |].
Qed.
Lemma quion_server_witness :
  let order := hm_iter_rev bytes bytes in
  let incoming := MkIncoming [] (IoError UnexpectedEof []) in
  let send : QuionSend (H:=sample_quion) Outgoing := {|
    ns_reset _ := ret (); ns_reset_at _ _ := ret (); ns_stopped := ret None;
    ns_write l w := (Ok (len l), MkOutgoing (out_bytes w ++ l) (out_fail w));
    ns_write_all l w := (Ok (), MkOutgoing (out_bytes w ++ l) (out_fail w));
    ns_finish := ret (); ns_set_priority _ s := s; ns_id _ := Some 0 |} in
  let request := MkRequest (Some 9) (Some tt) (Some (MkQSettings (MkOutgoing [] None) incoming))
    (Some (MkConnect (MkConnectRequest (H:=sample_url_lib) sample_chat) (MkOutgoing [] None) incoming)) sample_chat in
  Request_drop (H:=Platform64) (H0:=sample_quion) (H1:=sample_url_lib) (H2:=sample_http_lib) (H3:=sample_http_status)
    (HashMapIter0:=order) (QuionSend0:=send) true request
  = Some (MkConnect (MkConnectRequest (H:=sample_url_lib) sample_chat) (MkOutgoing (response_bytes (H:=Platform64) (H1:=sample_url_lib)
      (H2:=sample_http_lib) (HashMapIter0:=order) (SampleStatus 400 eq_refl)) None) incoming).
Proof.
  intros order incoming send request.
  assert (Hfin : forall s : Outgoing, ns_finish (QuionSend:=send) s = (Ok (), s)) by reflexivity.
  assert (Hstop : forall s : Outgoing, completes (ns_stopped (QuionSend:=send) s).1 /\ (ns_stopped (QuionSend:=send) s).2 = s)
    by (intros s; split; [apply completes_Ok|reflexivity]).
  exact (proj1 (proj2 (proj2 (quion_server (EP:=unit) (CF:=unit) (H:=Platform64) (H0:=sample_quion) (H1:=sample_url_lib) (H2:=sample_http_lib)
    (H3:=sample_http_status) (H4:=sample_url_laws) (H5:=sample_http_laws) (HashMapIter0:=order) (QuionSend0:=send) Hfin Hstop
    (Some 9) tt (MkQSettings (MkOutgoing [] None) incoming) (MkConnectRequest (H:=sample_url_lib) sample_chat) incoming sample_chat)))).
Defined.
