(* ===== verification/QuionBuilders.v ===== *)
(** * The builders and certificates over Quion (webtrans-quion/src: crypto.rs,
    client.rs, server.rs, tls/, lib.rs)

    As over Quinn, with Quion's own: a client has a socket for each address family,
    a server the driver of its socket, and both the extensions WebTransport needs.
    The configurations of [tls] are for those who set up endpoints themselves. *)
From S2P Require Import Prelude Buf Varint Frame Settings PrefixInt Qpack Connect QuinnStreams QuinnCapsules QuinnSession QuinnHandshake.
From S2P Require Import QuinnClient QuinnBuilders Tls QuionStreams QuionTask QuionSession QuionHandshake.

Definition ALPN : bytes := lit "h3".

(** ** crypto.rs *)
Module crypto.
Section Crypto.
Context `{Rustls}.
Definition default_provider (installed ring aws_lc_rs : option CryptoProvider) : outcome Empty_set CryptoProvider :=
  match installed with
  | Some provider => Ok provider
  | None =>
      match ring with
      | Some provider => Ok provider
      | None => match aws_lc_rs with Some provider => Ok provider | None => Panic end
      end
  end.
Definition sha256 (provider : CryptoProvider) (cert : bytes) : outcome Empty_set bytes :=
  let hash_provider := find_map (fun suite =>
    match tls13_hash suite with
    | None => None
    | Some hash_provider => if decide (hash_algorithm hash_provider = SHA256) then Some hash_provider else None
    end) (cipher_suites provider) in
  match hash_provider with
  | Some hash_provider => Ok (hash hash_provider cert)
  | None => Panic
  end.
Fixpoint sha256_all (provider : CryptoProvider) (certs : list bytes) : outcome Empty_set (list bytes) :=
  match certs with
  | [] => Ok []
  | cert :: certs =>
      let? hash := sha256 provider cert in
      let? hashes := sha256_all provider certs in
      Ok (hash :: hashes)
  end.
End Crypto.
End crypto.

(** ** client.rs: the verifiers *)
Section Verifiers.
Context `{Rustls}.
Record ServerFingerprints := MkServerFingerprints { fp_provider : CryptoProvider; fingerprints : list bytes }.
Definition fingerprints_verify_server_cert (self : ServerFingerprints) (end_entity : bytes) (_intermediates : list bytes)
  (_server_name : ServerName) (_ocsp_response : bytes) (_now : UnixTime) : outcome rustls_Error unit :=
  let? cert_hash := never (crypto.sha256 (fp_provider self) end_entity) in
  if existsb (fun fingerprint => bool_decide (fingerprint = cert_hash)) (fingerprints self) then Ok ()
  else Err UnknownIssuer.
Definition fingerprints_verify_tls12_signature (self : ServerFingerprints) (message cert : bytes) (dss : DigitallySigned)
  : outcome rustls_Error unit := rustls_verify_tls12 message cert dss (signature_algorithms (fp_provider self)).
Definition fingerprints_verify_tls13_signature (self : ServerFingerprints) (message cert : bytes) (dss : DigitallySigned)
  : outcome rustls_Error unit := rustls_verify_tls13 message cert dss (signature_algorithms (fp_provider self)).
#[export] Instance QuionFingerprints_verifier : ServerCertVerifier ServerFingerprints := {|
  verify_server_cert := fingerprints_verify_server_cert;
  verify_tls12_signature := fingerprints_verify_tls12_signature;
  verify_tls13_signature := fingerprints_verify_tls13_signature;
  supported_verify_schemes self := supported_schemes (signature_algorithms (fp_provider self)) |}.

(** Of client.rs, and [SkipServerVerification] of tls/cert.rs. *)
Record NoCertificateVerification := MkNoCertificateVerification { noop_provider : CryptoProvider }.
Definition noop_verify_server_cert (self : NoCertificateVerification) (_end_entity : bytes) (_intermediates : list bytes)
  (_server_name : ServerName) (_ocsp : bytes) (_now : UnixTime) : outcome rustls_Error unit := Ok ().
Definition noop_verify_tls12_signature (self : NoCertificateVerification) (message cert : bytes) (dss : DigitallySigned)
  : outcome rustls_Error unit := rustls_verify_tls12 message cert dss (signature_algorithms (noop_provider self)).
Definition noop_verify_tls13_signature (self : NoCertificateVerification) (message cert : bytes) (dss : DigitallySigned)
  : outcome rustls_Error unit := rustls_verify_tls13 message cert dss (signature_algorithms (noop_provider self)).
#[export] Instance QuionNoVerification_verifier : ServerCertVerifier NoCertificateVerification := {|
  verify_server_cert := noop_verify_server_cert;
  verify_tls12_signature := noop_verify_tls12_signature;
  verify_tls13_signature := noop_verify_tls13_signature;
  supported_verify_schemes self := supported_schemes (signature_algorithms (noop_provider self)) |}.
Record SkipServerVerification := MkSkipServerVerification { skip_provider : CryptoProvider }.
Definition skip_verify_server_cert (self : SkipServerVerification) (_end_entity : bytes) (_intermediates : list bytes)
  (_server_name : ServerName) (_ocsp : bytes) (_now : UnixTime) : outcome rustls_Error unit := Ok ().
Definition skip_verify_tls12_signature (self : SkipServerVerification) (message cert : bytes) (dss : DigitallySigned)
  : outcome rustls_Error unit := rustls_verify_tls12 message cert dss (signature_algorithms (skip_provider self)).
Definition skip_verify_tls13_signature (self : SkipServerVerification) (message cert : bytes) (dss : DigitallySigned)
  : outcome rustls_Error unit := rustls_verify_tls13 message cert dss (signature_algorithms (skip_provider self)).
#[export] Instance SkipServerVerification_verifier : ServerCertVerifier SkipServerVerification := {|
  verify_server_cert := skip_verify_server_cert;
  verify_tls12_signature := skip_verify_tls12_signature;
  verify_tls13_signature := skip_verify_tls13_signature;
  supported_verify_schemes self := supported_schemes (signature_algorithms (skip_provider self)) |}.
End Verifiers.

(** ** Quion's configuration and endpoints *)
Class QuionConfig `{Quion} `{!Rustls} `{!RustlsConfig} `{UrlLib} `{HttpLib} (Net Endpoint EP CF D : Type) := {
  NTransportConfig : Type;
  ntransport_default : NTransportConfig;
  CongestionAlgorithm : Type;
  NNewReno : CongestionAlgorithm;
  NCubic : CongestionAlgorithm;
  set_congestion_algorithm : CongestionAlgorithm -> NTransportConfig -> NTransportConfig;
  set_reset_stream_at : bool -> NTransportConfig -> NTransportConfig;
  set_max_datagram_frame_size : option Z -> NTransportConfig -> NTransportConfig;
  NClientConfig : Type;
  (** [ClientConfig::builder().with_rustls_config(..).with_transport_config(..).build()] *)
  nclient_config : TlsClientConfig -> NTransportConfig -> NClientConfig;
  set_default_client_config : Endpoint -> NClientConfig -> Endpoint;
  NServerConfig : Type;
  nserver_config : TlsServerConfig -> NTransportConfig -> outcome CF NServerConfig;
  (** The world: the system's certificates, and sockets. *)
  nload_native_certs : Net -> list bytes * Net;
  client_with_config : NTransportConfig -> SocketAddr -> M Net EP Endpoint;
  nendpoint_server : NServerConfig -> SocketAddr -> M Net EP Endpoint;
  DriverError : Type;
  driver_error_from : DriverError -> QuionHandshake.ServerError EP CF;
  spawn_driver : Endpoint -> Z -> M Net DriverError D
}.
Class QuionConfigLaws `{Quion} `{!Rustls} `{!RustlsConfig} `{UrlLib} `{HttpLib} {Net Endpoint EP CF D} `{!QuionConfig Net Endpoint EP CF D} := {
  nconfig_tls : NClientConfig -> TlsClientConfig;
  nconfig_transport : NClientConfig -> NTransportConfig;
  nserver_tls : NServerConfig -> TlsServerConfig;
  nserver_transport : NServerConfig -> NTransportConfig;
  nclient_config_tls c t : nconfig_tls (nclient_config c t) = c;
  nclient_config_transport c t : nconfig_transport (nclient_config c t) = t;
  nserver_config_ok c t s : nserver_config c t = Ok s -> nserver_tls s = c /\ nserver_transport s = t
}.

Section Builders.
Context `{Platform} `{Quion} `{!Rustls} `{!RustlsConfig} `{UrlLib} `{HttpLib} {Net Endpoint EP CF D K : Type}.
Context `{!QuionConfig Net Endpoint EP CF D}.

(** ** lib.rs *)
Definition default_transport_config : NTransportConfig :=
  let transport := ntransport_default in
  set_max_datagram_frame_size (Some 65535) (set_reset_stream_at true transport).
Definition congestion_algorithm (algorithm : CongestionControl) : CongestionAlgorithm :=
  match algorithm with Default | LowLatency => NNewReno | Throughput => NCubic end.

(** ** client.rs: the builder *)
Abbreviation CError := (QuionHandshake.ClientError EP).
Abbreviation Client := (QuionHandshake.Client Endpoint).
Record ClientBuilder := MkClientBuilder {
  cb_provider : CryptoProvider; cb_transport : NTransportConfig; cb_dns_timeout : option Z; cb_handshake_timeout : option Z }.
Definition ClientBuilder_new (installed ring aws_lc_rs : option CryptoProvider) : outcome Empty_set ClientBuilder :=
  let? provider := crypto.default_provider installed ring aws_lc_rs in
  Ok (MkClientBuilder provider default_transport_config None None).
Definition with_congestion_control (algorithm : CongestionControl) (self : ClientBuilder) : ClientBuilder :=
  MkClientBuilder (cb_provider self) (set_congestion_algorithm (congestion_algorithm algorithm) (cb_transport self))
    (cb_dns_timeout self) (cb_handshake_timeout self).
Definition with_transport_config (transport : NTransportConfig) (self : ClientBuilder) : ClientBuilder :=
  MkClientBuilder (cb_provider self) transport (cb_dns_timeout self) (cb_handshake_timeout self).
Definition with_dns_timeout (timeout : Z) (self : ClientBuilder) : ClientBuilder :=
  MkClientBuilder (cb_provider self) (cb_transport self) (Some timeout) (cb_handshake_timeout self).
Definition with_handshake_timeout (timeout : Z) (self : ClientBuilder) : ClientBuilder :=
  MkClientBuilder (cb_provider self) (cb_transport self) (cb_dns_timeout self) (Some timeout).

Definition builder (self : ClientBuilder) : M Net CError ClientWantsVerifier :=
  map_err QuionHandshake.CLRustls (lift (client_builder (cb_provider self) [TLS13])).
(** [result.ok()] of an operation on the world. *)
Definition ok {E A} (m : M Net E A) : M Net CError (option A) := fun n =>
  match m n with
  | (Ok a, n) => (Ok (Some a), n)
  | (Err _, n) => (Ok None, n)
  | (Panic, n) => (Panic, n)
  | (OutOfFuel, n) => (OutOfFuel, n)
  end.
(** A socket for IPv4, and, where there is one, another for IPv6. *)
Definition build (self : ClientBuilder) (crypto : TlsClientConfig) : M Net CError Client :=
  let crypto := client_alpn [ALPN] crypto in
  let client_config := nclient_config crypto (cb_transport self) in
  let* client := map_err QuionHandshake.CLEndpoint (client_with_config (cb_transport self) (MkSocketAddr (V4 [0; 0; 0; 0]) 0)) in
  let client := set_default_client_config client client_config in
  let* ipv6 := ok (client_with_config (cb_transport self) (MkSocketAddr (V6 (replicate 8 0)) 0)) in
  let ipv6 := option_map (fun endpoint => set_default_client_config endpoint client_config) ipv6 in
  ret (QuionHandshake.MkClient client ipv6 (cb_dns_timeout self) (cb_handshake_timeout self)).
Definition with_system_roots (self : ClientBuilder) : M Net CError Client :=
  let* native := (fun n => let '(certs, n) := nload_native_certs n in (Ok certs, n)) in
  let '(r, roots) := add_roots native roots_empty in
  lift (never r) ;;;
  let* crypto := builder self in
  build self (client_no_auth (with_root_certificates roots crypto)).
Definition with_server_certificate_hashes (hashes : list bytes) (self : ClientBuilder) : M Net CError Client :=
  let fingerprints := MkServerFingerprints (cb_provider self) hashes in
  let* crypto := builder self in
  build self (client_no_auth (with_custom_certificate_verifier (as_dyn fingerprints) crypto)).
Definition with_server_certificates (certs : list bytes) (self : ClientBuilder) : M Net CError Client :=
  let* hashes := lift (never (crypto.sha256_all (cb_provider self) certs)) in
  with_server_certificate_hashes hashes self.
Definition with_no_certificate_verification (self : ClientBuilder) : M Net CError Client :=
  let noop := MkNoCertificateVerification (cb_provider self) in
  let* crypto := builder self in
  build self (client_no_auth (with_custom_certificate_verifier (as_dyn noop) crypto)).

(** ** server.rs: the builder *)
Abbreviation SError := (QuionHandshake.ServerError EP CF).
Abbreviation Server := (QuionHandshake.Server (D:=D) K).
Record ServerBuilder := MkServerBuilder {
  sb_provider : CryptoProvider; sb_addr : SocketAddr; sb_transport : NTransportConfig;
  sb_handshake_timeout : option Z; sb_max_pending_handshakes : Z }.
Definition ServerBuilder_new (installed ring aws_lc_rs : option CryptoProvider) : outcome Empty_set ServerBuilder :=
  let? provider := crypto.default_provider installed ring aws_lc_rs in
  Ok (MkServerBuilder provider (MkSocketAddr (V6 (replicate 8 0)) 443) default_transport_config None usize_max).
Definition with_addr (addr : SocketAddr) (self : ServerBuilder) : ServerBuilder :=
  MkServerBuilder (sb_provider self) addr (sb_transport self) (sb_handshake_timeout self) (sb_max_pending_handshakes self).
Definition server_congestion_control (algorithm : CongestionControl) (self : ServerBuilder) : ServerBuilder :=
  MkServerBuilder (sb_provider self) (sb_addr self) (set_congestion_algorithm (congestion_algorithm algorithm) (sb_transport self))
    (sb_handshake_timeout self) (sb_max_pending_handshakes self).
Definition server_transport_config (transport : NTransportConfig) (self : ServerBuilder) : ServerBuilder :=
  MkServerBuilder (sb_provider self) (sb_addr self) transport (sb_handshake_timeout self) (sb_max_pending_handshakes self).
Definition server_handshake_timeout (timeout : Z) (self : ServerBuilder) : ServerBuilder :=
  MkServerBuilder (sb_provider self) (sb_addr self) (sb_transport self) (Some timeout) (sb_max_pending_handshakes self).
Definition with_max_pending_handshakes (limit : Z) (self : ServerBuilder) : ServerBuilder :=
  MkServerBuilder (sb_provider self) (sb_addr self) (sb_transport self) (sb_handshake_timeout self) limit.

Definition serve (self : ServerBuilder) (config : TlsServerConfig) : M Net SError (Endpoint * Server) :=
  let config := server_alpn [ALPN] config in
  let* config := map_err QuionHandshake.SVConfiguration (lift (nserver_config config (sb_transport self))) in
  let* server := map_err QuionHandshake.SVEndpoint (nendpoint_server config (sb_addr self)) in
  let* driver := map_err driver_error_from (spawn_driver server 65535) in
  ret (server, QuionHandshake.Server_with_accept_limits driver (sb_handshake_timeout self) (sb_max_pending_handshakes self)).
Definition with_certificate (chain : list bytes) (key : PrivateKey) (self : ServerBuilder) : M Net SError (Endpoint * Server) :=
  let* config := map_err QuionHandshake.SVRustls (lift (
    let? config := server_builder (sb_provider self) [TLS13] in
    with_single_cert chain key (server_no_auth config))) in
  serve self config.
Fixpoint add_certificates (provider : CryptoProvider) (certificates : list (bytes * list bytes * PrivateKey))
  : M SniResolver rustls_Error unit :=
  match certificates with
  | [] => ret ()
  | (name, chain, key) :: certificates =>
      let* certified := lift (certified_from_der chain key provider) in
      sni_add name certified ;;;
      add_certificates provider certificates
  end.
Definition with_certificates (certificates : list (bytes * list bytes * PrivateKey)) (self : ServerBuilder)
  : M Net SError (Endpoint * Server) :=
  let '(r, resolver) := add_certificates (sb_provider self) certificates sni_empty in
  map_err QuionHandshake.SVRustls (lift r) ;;;
  let* config := map_err QuionHandshake.SVRustls (lift (server_builder (sb_provider self) [TLS13])) in
  serve self (with_cert_resolver resolver (server_no_auth config)).
End Builders.

(** ** tls: the text is that of the other backend *)
Module tls.
Section Tls.
Context `{RustlsConfig} {W : Type} `{!TlsLib W}.
Definition get_native_certs : M W ProtoError RootCertStore := fun w =>
  let '(certs, w) := system_certs w in
  let '(r, roots) := add_roots certs roots_empty in
  (let? _ := never r in Ok roots, w).
Definition load_certs (cert_path : bytes) : M W ProtoError (list bytes) :=
  let* cert_bytes := map_err (fun e => PEIo (io_to_string e)) (fs_read cert_path) in
  if is_der cert_path then ret [cert_bytes]
  else map_err (fun e => PETls (pem_to_string e)) (lift (collect (pem_slice_iter cert_bytes))).
Definition load_key (key_path : bytes) : M W ProtoError PrivateKey :=
  let* key := map_err (fun e => PEIo (io_to_string e)) (fs_read key_path) in
  if is_der key_path then ret (Pkcs8 key)
  else map_err (fun e => PETls (pem_to_string e)) (lift (from_pem_slice key)).
Definition load_cert (cert_path key_path : bytes) : M W ProtoError (list bytes * PrivateKey) :=
  let* cert_chain := load_certs cert_path in
  let* key := load_key key_path in
  ret (cert_chain, key).
Definition generate_self_signed_pair_der (subject_alt_names : list bytes) : M W ProtoError (list bytes * PrivateKey) :=
  let* cert := map_err (fun e => PETls (rcgen_to_string e)) (generate_simple_self_signed subject_alt_names) in
  ret ([cert_der cert], Pkcs8 (key_der cert)).
Definition generate_self_signed_pair_pem (subject_alt_names : list bytes) : M W ProtoError (list bytes * bytes) :=
  let* cert := map_err (fun e => PETls (rcgen_to_string e)) (generate_simple_self_signed subject_alt_names) in
  ret ([cert_pem cert], key_pem cert).

Definition tls_error {A} (o : outcome rustls_Error A) : M W ProtoError A := map_err (fun e => PETls (rustls_to_string e)) (lift o).
Definition provider_of_crate : M W ProtoError CryptoProvider := fun w =>
  let '(installed, ring, aws_lc_rs) := providers w in
  (never (crypto.default_provider installed ring aws_lc_rs), w).

(** *** Server configurations: a builder is the configuration it owns *)
Definition server_with_alpn_protocols (protocols : list bytes) (inner : TlsServerConfig) : TlsServerConfig :=
  server_alpn protocols inner.
Definition server_build (inner : TlsServerConfig) : TlsServerConfig := inner.
Definition server_with_pair (certs : list bytes) (key : PrivateKey) : M W ProtoError TlsServerConfig :=
  let* provider := provider_of_crate in
  let* w := tls_error (server_builder provider safe_default_versions) in
  tls_error (with_single_cert certs key (server_no_auth w)).
Definition server_new_insecure (subject_alt_names : list bytes) : M W ProtoError TlsServerConfig :=
  let* (certs, key) := generate_self_signed_pair_der subject_alt_names in
  server_with_pair certs key.
Definition server_new_with_cert (cert_path key_path : bytes) : M W ProtoError TlsServerConfig :=
  let* (certs, key) := load_cert cert_path key_path in
  server_with_pair certs key.
Definition server_new_with_self_signed_certs (subject_alt_names : list bytes) : M W ProtoError TlsServerConfig :=
  server_new_insecure subject_alt_names.

(** *** Client configurations *)
Definition client_with_alpn_protocols (protocols : list bytes) (inner : TlsClientConfig) : TlsClientConfig :=
  client_alpn protocols inner.
Definition client_build (inner : TlsClientConfig) : TlsClientConfig := inner.
(** The provider of the verifier is looked up after that of the configuration. *)
Definition client_new_insecure : M W ProtoError TlsClientConfig :=
  let* provider := provider_of_crate in
  let* w := tls_error (client_builder provider safe_default_versions) in
  let* skip := provider_of_crate in
  ret (client_no_auth (with_custom_certificate_verifier (as_dyn (MkSkipServerVerification skip)) w)).
Definition client_new_with_native_certs : M W ProtoError TlsClientConfig :=
  let* native_certs := get_native_certs in
  let* provider := provider_of_crate in
  let* w := tls_error (client_builder provider safe_default_versions) in
  ret (client_no_auth (with_root_certificates native_certs w)).
Definition client_new_with_webpki_verifier (verifier : WebPkiServerVerifier) : M W ProtoError TlsClientConfig :=
  let* provider := provider_of_crate in
  let* w := tls_error (client_builder provider safe_default_versions) in
  ret (client_no_auth (with_webpki_verifier verifier w)).

(** *** Both *)
Record TlsConfig := MkTlsConfig { client_config : TlsClientConfig; server_config : TlsServerConfig }.
Definition h3 : list bytes := [lit "h3"].
Definition both (client : M W ProtoError TlsClientConfig) (server : M W ProtoError TlsServerConfig) : M W ProtoError TlsConfig :=
  let* client_config := client in
  let client_config := client_build (client_with_alpn_protocols h3 client_config) in
  let* server_config := server in
  let server_config := server_build (server_with_alpn_protocols h3 server_config) in
  ret (MkTlsConfig client_config server_config).
Definition with_cert (cert_path key_path : bytes) : M W ProtoError TlsConfig :=
  both client_new_with_native_certs (server_new_with_cert cert_path key_path).
Definition with_self_signed_certs : M W ProtoError TlsConfig :=
  both client_new_with_native_certs (server_new_with_self_signed_certs [lit "localhost"]).
Definition new_native_config : M W ProtoError TlsConfig :=
  both client_new_with_native_certs (server_new_with_self_signed_certs [lit "localhost"]).
Definition new_insecure_config : M W ProtoError TlsConfig :=
  both client_new_insecure (server_new_with_self_signed_certs [lit "localhost"]).
End Tls.
End tls.

(** ** Lemmas *)
(** The hash of a certificate, and the order in which certificates are added, are
    those of the Quinn backend. *)
Lemma quion_sha256_same `{Rustls} : crypto.sha256 = QuinnBuilders.crypto.sha256.
Proof. reflexivity. Qed.
Lemma quion_sha256_all_same `{Rustls} : crypto.sha256_all = QuinnBuilders.crypto.sha256_all.
Proof. reflexivity. Qed.
Lemma quion_add_certificates_same `{Quion} `{!Rustls} `{!RustlsConfig} : add_certificates = QuinnBuilders.Server.add_certificates.
Proof. reflexivity. Qed.

Section Lemmas.
Context `{Platform} `{Quion} `{!Rustls} `{!RustlsConfig} `{UrlLib} `{HttpLib} {Net Endpoint EP CF D K : Type}.
Context `{!QuionConfig Net Endpoint EP CF D} `{!RustlsLaws} `{!QuionConfigLaws}.
Abbreviation Client := (QuionHandshake.Client Endpoint).

(** A client that offers HTTP/3 over TLS 1.3 with the provider, trusting [trust],
    with the transport and the limits of its builder: on a socket for IPv4, and on
    one for IPv6 exactly when that opens. *)
Definition nbuilt (b : ClientBuilder) (n n' : Net) (c : Client) (trust : RootCertStore + DynVerifier) : Prop :=
  exists config ipv4 n1,
    client_view (nconfig_tls config) = MkTlsView (cb_provider b) [TLS13] trust [ALPN] /\
    nconfig_transport config = cb_transport b /\
    client_with_config (cb_transport b) (MkSocketAddr (V4 [0; 0; 0; 0]) 0) n = (Ok ipv4, n1) /\
    QuionHandshake.endpoint c = set_default_client_config ipv4 config /\
    match client_with_config (cb_transport b) (MkSocketAddr (V6 (replicate 8 0)) 0) n1 with
    | (Ok endpoint, n2) => n' = n2 /\ ipv6 c = Some (set_default_client_config endpoint config)
    | (Err _, n2) => n' = n2 /\ ipv6 c = None
    | _ => False
    end /\
    QuionHandshake.dns_timeout c = cb_dns_timeout b /\ QuionHandshake.client_handshake_timeout c = cb_handshake_timeout b.
Lemma nbuild_built b tls trust n c n' :
  client_view tls = MkTlsView (cb_provider b) [TLS13] trust [] -> build b tls n = (Ok c, n') -> nbuilt b n n' c trust.
Proof.
  intros Hv Hb. unfold build in Hb. apply bind_Ok_inv in Hb as (ipv4 & n1 & Hv4 & Hb). apply map_err_Ok_inv in Hv4.
  apply bind_Ok_inv in Hb as (v6 & n2 & Hv6 & Hb). injection Hb as <- <-. eexists _, ipv4, n1.
  split; [by erewrite nclient_config_tls, view_client_alpn, Hv|]. split; [apply nclient_config_transport|].
  split; [done|]. split; [done|]. split; [|done]. unfold ok in Hv6.
  destruct (client_with_config _ (MkSocketAddr (V6 _) _) n1) as [[ep|e| |] n3]; simplify_eq; done.
Qed.
Lemma nwith_verifier_built v b n c n' :
  (let* crypto := builder b in build b (client_no_auth (with_custom_certificate_verifier v crypto))) n = (Ok c, n') ->
  nbuilt b n n' c (inr v).
Proof.
  intros Hb. apply bind_Ok_inv in Hb as (w & n1 & Hw & Hb). apply map_err_Ok_inv, lift_Ok_inv in Hw as [Hw ->].
  eapply nbuild_built; [|done]. by apply view_verifier.
Qed.

(** A server that listens at the address of its builder with [auth], and has the
    driver of its socket. *)
Definition nserving (b : ServerBuilder) (n n' : Net) (ep : Endpoint) (s : QuionHandshake.Server (D:=D) K)
  (auth : list bytes * PrivateKey + SniResolver) : Prop :=
  exists config driver n1,
    server_view (nserver_tls config) = MkTlsView (sb_provider b) [TLS13] auth [ALPN] /\
    nserver_transport config = sb_transport b /\
    nendpoint_server config (sb_addr b) n = (Ok ep, n1) /\ spawn_driver ep 65535 n1 = (Ok driver, n') /\
    s = QuionHandshake.MkServer (Some driver) [] (sb_handshake_timeout b) (sb_max_pending_handshakes b).
Lemma nserve_serving b tls auth n ep s n' :
  server_view tls = MkTlsView (sb_provider b) [TLS13] auth [] -> serve b tls n = (Ok (ep, s), n') -> nserving b n n' ep s auth.
Proof.
  intros Hv Hb. unfold serve in Hb. apply bind_Ok_inv in Hb as (config & n1 & Hc & Hb).
  apply map_err_Ok_inv, lift_Ok_inv in Hc as [Hc ->]. destruct (nserver_config_ok _ _ _ Hc) as [Ht Htr].
  apply bind_Ok_inv in Hb as (ep' & n1 & He & Hb). apply map_err_Ok_inv in He.
  apply bind_Ok_inv in Hb as (driver & n2 & Hd & Hb). apply map_err_Ok_inv in Hd. injection Hb as -> <- <-.
  exists config, driver, n1. split; [by rewrite Ht, view_server_alpn, Hv|]. done.
Qed.
End Lemmas.

Section TlsSame.
Context `{RustlsConfig} {W : Type} `{!TlsLib W}.
(** A configuration of this backend as one of the other. *)
Definition as_quinn (c : tls.TlsConfig) : Tls.tls.TlsConfig := Tls.tls.MkTlsConfig (tls.client_config c) (tls.server_config c).
Definition same_made (m : M W ProtoError tls.TlsConfig) (m' : M W ProtoError Tls.tls.TlsConfig) : Prop := forall w,
  m' w = (match (m w).1 with Ok c => Ok (as_quinn c) | Err e => Err e | Panic => Panic | OutOfFuel => OutOfFuel end, (m w).2).
Lemma both_same client server : same_made (tls.both client server) (Tls.tls.both client server).
Proof.
  intros w. unfold tls.both, Tls.tls.both, bind, ret. destruct (client w) as [[cl|e| |] w1]; try done.
  by destruct (server w1) as [[sv|e| |] w2].
Qed.
End TlsSame.

(** ** A sample of Quion's configuration: sockets are numbered, and the last number
    has none left for IPv6 *)
Definition sample_quion_config : @QuionConfig sample_quion sample_rustls sample_rustls_config sample_url_lib sample_http_lib
    Z (Z * option SampleClientTls) unit unit Z :=
  @Build_QuionConfig sample_quion sample_rustls sample_rustls_config sample_url_lib sample_http_lib
    Z (Z * option SampleClientTls) unit unit Z
    (list Z) [] Z 1 2 cons (fun b => cons (if b then 3 else 4)) (fun m => cons (default 0 m))
    (SampleClientTls * list Z) pair (fun ep c => (ep.1, Some c.1))
    (SampleServerTls * list Z) (fun c t => Ok (c, t)) (fun n => ([], n))
    (fun _ _ n => if n <? 9 then (Ok (n, None), n + 1) else (Err tt, n))
    (fun _ _ n => (Ok (n, None), n + 1))
    Empty_set (fun e => match e with end) (fun _ size n => (Ok size, n)).
#[global] Instance sample_quion_config_laws : QuionConfigLaws (QuionConfig0:=sample_quion_config).
Proof.
  refine (@Build_QuionConfigLaws sample_quion sample_rustls sample_rustls_config sample_url_lib sample_http_lib _ _ _ _ _ sample_quion_config
    fst snd fst snd _ _ _); try done; intros c t s Hs; by injection Hs as <-.
Defined.

(** ** Properties *)

(** Whom a client over Quion trusts.  As over Quinn it offers h3 over TLS 1.3
    alone, with the transport and the limits of its builder; built from certificates
    or hashes it accepts a server exactly when the SHA-256 of its certificate is one
    of them, with the system's roots it trusts those rustls takes, and only
    [dangerous] makes one that accepts every certificate; rustls always checks that
    the server holds the key.  The configuration is that of each of its sockets: the
    IPv4 one it cannot do without, and the IPv6 one exactly when that opens. *)
Theorem quion_client_trust `{Quion} `{!Rustls} `{!RustlsConfig} `{UrlLib} `{HttpLib} {Net Endpoint EP CF D : Type}
  `{!QuionConfig Net Endpoint EP CF D} `{!RustlsLaws} `{!QuionConfigLaws} (b : ClientBuilder) (n : Net) :
  let signed v := forall message cert dss,
    dyn_tls13 v message cert dss = rustls_verify_tls13 message cert dss (signature_algorithms (cb_provider b)) in
  (forall digest hashes c n', has_sha256 (cb_provider b) digest ->
     with_server_certificate_hashes hashes b n = (Ok c, n') ->
     exists v, nbuilt b n n' c (inr v) /\ signed v /\
       forall leaf inter name ocsp now, dyn_server_cert v leaf inter name ocsp now
         = if bool_decide (digest leaf ∈ hashes) then Ok () else Err UnknownIssuer) /\
  (forall certs,
     (exists digest, has_sha256 (cb_provider b) digest /\
        with_server_certificates certs b n = with_server_certificate_hashes (map digest certs) b n) \/
     (certs <> [] -> with_server_certificates certs b n = (Panic, n))) /\
  (forall c n', with_system_roots b n = (Ok c, n') ->
     exists certs n1 roots, nload_native_certs n = (certs, n1) /\ add_roots certs roots_empty = (Ok (), roots) /\
       nbuilt b n1 n' c (inl roots)) /\
  (forall c n', with_no_certificate_verification b n = (Ok c, n') ->
     exists v, nbuilt b n n' c (inr v) /\ signed v /\ forall leaf inter name ocsp now, dyn_server_cert v leaf inter name ocsp now = Ok ()).
Proof.
  intros signed. split; [|split; [|split]].
  - intros digest hashes c n' Hd Hb. eexists. split; [by eapply nwith_verifier_built|]. split; [done|].
    intros leaf inter name ocsp now. by apply (QuinnBuilders.fingerprints_verify (cb_provider b) digest hashes).
  - intros certs. destruct (sha256_cases (cb_provider b)) as [[digest Hd]|Hno]; [left; exists digest|right].
    + split; [done|]. unfold with_server_certificates. by rewrite quion_sha256_all_same, (sha256_all_map _ digest).
    + intros Hne. unfold with_server_certificates. destruct certs as [|cert certs]; [done|].
      cbn. by rewrite quion_sha256_same, Hno.
  - intros c n' Hb. unfold with_system_roots in Hb. apply bind_Ok_inv in Hb as (certs & n1 & Hn & Hb).
    destruct (nload_native_certs n) as [certs' n1'] eqn:El.
    injection Hn as -> ->. destruct (add_roots certs roots_empty) as [[[]|[]| |] roots] eqn:Er; try done.
    exists certs, n1, roots. split; [done|]. split; [done|].
    apply bind_Ok_inv in Hb as (? & n2 & Hr & Hb). apply lift_Ok_inv in Hr as [_ ->].
    apply bind_Ok_inv in Hb as (w & n3 & Hw & Hb). apply map_err_Ok_inv, lift_Ok_inv in Hw as [Hw ->].
    eapply nbuild_built; [|done]. by apply view_roots.
  - intros c n' Hb. eexists. split; [by eapply nwith_verifier_built|]. done.
Qed.
(** The second client of the two gets no socket for IPv6. *)
Lemma quion_client_trust_witness :
  let b := @MkClientBuilder sample_quion sample_rustls sample_rustls_config sample_url_lib sample_http_lib _ _ _ _ _ sample_quion_config [(true, true)] [] (Some 5) None in
  exists c v, nbuilt b 8 9 c (inr v) /\ ipv6 c = None /\
    dyn_server_cert v [7; 0; 0] [] tt [] 0 = Ok () /\ dyn_server_cert v [8; 0; 0] [] tt [] 0 = Err (tt : @rustls_Error sample_quinn).
Proof.
  intros b. assert (Hd : has_sha256 (cb_provider b) (fun cert => [len cert; nth 0 cert 0])) by (intros cert; reflexivity).
  destruct (proj1 (quion_client_trust (QuionConfig0:=sample_quion_config) (H4:=sample_rustls_laws) (H5:=sample_quion_config_laws) b 8) _ [[2; 9]; [3; 7]] _ _ Hd eq_refl) as (v & Hb & _ & Hv).
  match type of Hb with nbuilt _ _ _ ?client _ => exists client, v end. split; [exact Hb|]. split; [reflexivity|].
  split; [exact (Hv [7; 0; 0] [] tt [] 0)|exact (Hv [8; 0; 0] [] tt [] 0)].
Defined.

(** A server over Quion proves itself as one over Quinn, and has the driver of its
    socket. *)
Theorem quion_server_certificates `{Platform} `{Quion} `{!Rustls} `{!RustlsConfig} `{UrlLib} `{HttpLib} {Net Endpoint EP CF D K : Type}
  `{!QuionConfig Net Endpoint EP CF D} `{!RustlsLaws} `{!QuionConfigLaws} (same_host : bytes -> bytes -> bool) `{!SniLaws same_host}
  (b : ServerBuilder) (n : Net) :
  (forall chain key ep (s : QuionHandshake.Server (D:=D) K) n', with_certificate chain key b n = (Ok (ep, s), n') ->
     nserving b n n' ep s (inl (chain, key))) /\
  (forall certs ep (s : QuionHandshake.Server (D:=D) K) n', with_certificates certs b n = (Ok (ep, s), n') ->
     exists resolver named, nserving b n n' ep s (inr resolver) /\
       Forall2 (certified (sb_provider b)) certs named /\
       forall host, sni_resolve resolver host = last_for same_host host named None).
Proof.
  split.
  - intros chain key ep s n' Hb. unfold with_certificate in Hb. apply bind_Ok_inv in Hb as (c & n1 & Hc & Hb).
    apply map_err_Ok_inv, lift_Ok_inv in Hc as [Hc ->].
    destruct (server_builder (sb_provider b) [TLS13]) as [w|e| |] eqn:Ew; try done. cbn in Hc.
    eapply nserve_serving; [|done]. by eapply view_single.
  - intros certs ep s n' Hb. unfold with_certificates in Hb. rewrite quion_add_certificates_same in Hb.
    destruct (QuinnBuilders.Server.add_certificates _ certs sni_empty) as [[[]|e| |] resolver] eqn:Ea; try done.
    destruct (add_certificates_all same_host _ _ _ _ Ea) as (named & Hall & Hres).
    apply bind_Ok_inv in Hb as ([] & n1 & Hc & Hb). apply map_err_Ok_inv, lift_Ok_inv in Hc as [_ ->].
    apply bind_Ok_inv in Hb as (w & n1 & Hw & Hb). apply map_err_Ok_inv, lift_Ok_inv in Hw as [Hw ->].
    exists resolver, named. split; [eapply nserve_serving; [by apply view_resolver|done]|]. split; [done|].
    intros host. by rewrite Hres, resolve_empty.
Qed.

(** The two backends load the same certificates and keys and make the same
    configurations, with the same errors. *)
Theorem quion_tls_same `{RustlsConfig} {W : Type} `{!TlsLib W} :
  (forall path, tls.load_certs path = Tls.tls.load_certs path) /\
  (forall path, tls.load_key path = Tls.tls.load_key path) /\
  (forall sans, tls.generate_self_signed_pair_der sans = Tls.tls.generate_self_signed_pair_der sans) /\
  (forall sans, tls.generate_self_signed_pair_pem sans = Tls.tls.generate_self_signed_pair_pem sans) /\
  (forall cert_path key_path, same_made (tls.with_cert cert_path key_path) (Tls.tls.with_cert cert_path key_path)) /\
  same_made tls.with_self_signed_certs Tls.tls.with_self_signed_certs /\
  same_made tls.new_native_config Tls.tls.new_native_config /\
  same_made tls.new_insecure_config Tls.tls.new_insecure_config /\
  (forall verifier, tls.client_new_with_webpki_verifier verifier = Tls.tls.client_new_with_webpki_verifier verifier).
Proof.
  assert (Hs : forall (client client' : M W ProtoError TlsClientConfig) (server server' : M W ProtoError TlsServerConfig), client = client' -> server = server' ->
    same_made (tls.both client server) (Tls.tls.both client' server')) by (intros; subst; apply both_same).
  repeat split; try reflexivity; by intros; apply Hs.
Qed.
