(* ===== verification/WasmStreams.v ===== *)
(** * The streams of the browser backend (webtrans-wasm/src: error.rs, send.rs,
    recv.rs)

    Rust futures over the Web Streams of the browser.  The reader and the writer of
    [web_streams] are type classes of their operations: what one poll of the future
    of a write, a read or [closed] does.  A poll that is not ready is [None]. *)
From S2P Require Import Prelude Buf Streams.

(** ** error.rs *)
Inductive ErrorSource := SourceStream | SourceSession | SourceOther.
Class WebLib := {
  JsValue : Type;
  WebTransportError : Type;
  dyn_error : JsValue -> option WebTransportError;
  source : WebTransportError -> ErrorSource;
  stream_error_code : WebTransportError -> option Z;
  debug : WebTransportError -> bytes;
  js_str : bytes -> JsValue;
  web_streams_Error : Type
}.
Section Errors.
Context `{WebLib}.
Inductive Error :=
| SessionClosed (code : Z) (reason : bytes)
| ESession (e : WebTransportError)
| EStream (e : WebTransportError)
| Streams (e : web_streams_Error)
| Unknown (v : JsValue).
Definition error_code (e : Error) : option Z :=
  match e with
  | SessionClosed _ _ => None
  | ESession e | EStream e => stream_error_code e
  | _ => None
  end.
Definition error_from_js (v : JsValue) : Error :=
  match dyn_error v with
  | Some e =>
      match source e with
      | SourceStream => EStream e
      | SourceSession => ESession e
      | SourceOther => Unknown v
      end
  | None => Unknown v
  end.
(** [impl webtrans_trait::Error] *)
Definition error_session_error (e : Error) : option (Z * bytes) :=
  match e with
  | SessionClosed code reason => Some (code, reason)
  | ESession err => option_map (fun code => (code, debug err)) (stream_error_code err)
  | _ => None
  end.
Definition error_stream_error (e : Error) : option Z :=
  match e with
  | EStream err => stream_error_code err
  | _ => None
  end.
End Errors.

(** How an error prints, and the conversions of what [web_streams] fails with. *)
Class WebErrors `{WebLib} := {
  error_to_string : Error -> bytes;
  web_error : Type;
  error_from_web : web_error -> Error
}.
Definition Other : ErrorKind := OtherKind 0.
Definition WriteZero : ErrorKind := OtherKind 1.
Section IoErrors.
Context `{WebErrors}.
Definition to_io_error (e : Error) : io_error := IoError Other (error_to_string e).
Definition io_unknown (e : io_error) : Error := Unknown (js_str (io_message e)).
End IoErrors.

(** [u32::to_string] *)
Fixpoint decimal (fuel : nat) (n : Z) (tl : bytes) : bytes :=
  match fuel with
  | O => tl
  | S fuel => let tl := 48 + n mod 10 :: tl in if n <? 10 then tl else decimal fuel (n / 10) tl
  end.
Definition u32_to_string (n : Z) : bytes := decimal 10 n [].
Example decimal_max : u32_to_string (2 ^ 32 - 1) = lit "4294967295". Proof. reflexivity. Qed.

(** A future that is polled until it is ready; [fuel] bounds the polls. *)
Fixpoint poll_fn {S E A} (fuel : nat) (poll : M S E (option A)) : M S E A :=
  match fuel with
  | O => out_of_fuel
  | Datatypes.S fuel =>
      let* r := poll in
      match r with
      | Some a => ret a
      | None => poll_fn fuel poll
      end
  end.

(** [let _ = m] *)
Definition ignore {S E A} (m : M S E A) : M S Empty_set unit := fun s =>
  match m s with
  | (Ok _, s) | (Err _, s) => (Ok (), s)
  | (Panic, s) => (Panic, s)
  | (OutOfFuel, s) => (OutOfFuel, s)
  end.

(** ** send.rs *)

(** One poll of [writer.write(&payload)] ([started]: it was polled before) and of
    [writer.closed()]; the stream itself for an abort without the writer. *)
Class JsWriter `{WebErrors} (W R : Type) := {
  write_poll : bool -> bytes -> M W web_error (option unit);
  writer_closed : M W web_error unit;
  writer_close : W -> W;
  writer_abort : bytes -> W -> W;
  stream_abort : JsValue -> R -> R;
  stream_set : bytes -> Z -> R -> outcome JsValue unit * R
}.

(** The future owns the writer, the payload and, through it, its size. *)
Record WriteFuture (W : Type) := MkWriteFuture { wf_writer : W; wf_payload : bytes; wf_started : bool }.
Arguments MkWriteFuture {W}. Arguments wf_writer {W}. Arguments wf_payload {W}. Arguments wf_started {W}.
Inductive WriteState (W : Type) := Idle | Writing (fut : WriteFuture W).
Arguments Idle {W}. Arguments Writing {W}.
Record SendStream (W R : Type) := MkSendStream {
  stream : R; writer : option W; write_state : WriteState W; is_closed : bool }.
Arguments MkSendStream {W R}. Arguments stream {W R}. Arguments writer {W R}.
Arguments write_state {W R}. Arguments is_closed {W R}.

(** [futures::AsyncWriteExt]: its [write_all] and [write] over a [poll_write], and
    the polls of [flush]. *)
Class AsyncWriteExt := {
  ext_write_all {S} : (bytes -> M S io_error (option Z)) -> bytes -> M S io_error unit;
  ext_write {S} : (bytes -> M S io_error (option Z)) -> bytes -> M S io_error Z;
  ext_flush {S} : M S io_error (option unit) -> M S io_error unit
}.

Module Send.
Section Send.
Context `{WebErrors} {W R : Type} `{!JsWriter W R}.
Abbreviation Self := (SendStream W R).

(** [new_writer] is [Writer::new]. *)
Definition new (new_writer : R -> outcome Error W) (stream : R) : outcome Error Self :=
  let? writer := new_writer stream in
  Ok (MkSendStream stream (Some writer) Idle false).

Definition set_closed : M Self io_error unit := fun self =>
  (Ok (), MkSendStream (stream self) (writer self) (write_state self) true).

Definition poll_inflight_write : M Self io_error (option Z) := fun self =>
  match write_state self with
  | Idle => (Ok (Some 0), self)
  | Writing fut =>
      let '(r, w) := write_poll (wf_started fut) (wf_payload fut) (wf_writer fut) in
      let ready := MkSendStream (stream self) (Some w) Idle (is_closed self) in
      match r with
      | Ok None =>
          (Ok None, MkSendStream (stream self) (writer self) (Writing (MkWriteFuture w (wf_payload fut) true)) (is_closed self))
      | Ok (Some _) => (Ok (Some (len (wf_payload fut))), ready)
      | Err e => (Err (to_io_error (error_from_web e)), ready)
      | Panic => (Panic, self)
      | OutOfFuel => (OutOfFuel, self)
      end
  end.
(** [Poll::Ready(Err(error))] marks the stream closed. *)
Definition close_on_error {A} (m : M Self io_error A) : M Self io_error A := fun self =>
  match m self with
  | (Err e, self) => (set_closed ;;; throw e) self
  | r => r
  end.
Definition error_unavailable : io_error := IoError Other (lit "writer is unavailable").

Definition poll_write (buf : bytes) : M Self io_error (option Z) := fun self =>
  if bool_decide (buf = []) then (Ok (Some 0), self) else
  if is_closed self then (Err (IoError BrokenPipe (lit "stream is already closed")), self) else
  (let* r := close_on_error poll_inflight_write in
   match r with
   | None => ret None
   | Some _ => fun self =>
       match write_state self with
       | Idle =>
           match writer self with
           | None => (Err error_unavailable, self)
           | Some writer =>
               let payload := take (Z.to_nat (Z.min (len buf) (64 * 1024))) buf in
               let size := len payload in
               (Ok (Some size),
                MkSendStream (stream self) None (Writing (MkWriteFuture writer payload false)) (is_closed self))
           end
       | Writing _ => (Panic, self)
       end
   end) self.
Definition poll_flush : M Self io_error (option unit) :=
  let* r := close_on_error poll_inflight_write in
  ret (match r with None => None | Some _ => Some () end).
Definition poll_close : M Self io_error (option unit) :=
  let* r := close_on_error poll_flush in
  match r with
  | None => ret None
  | Some _ => fun self =>
      if is_closed self then (Ok (Some ()), self) else
      match writer self with
      | None => (Err error_unavailable, self)
      | Some writer => (Ok (Some ()), MkSendStream (stream self) (Some (writer_close writer)) (write_state self) true)
      end
  end.

Definition write `{!AsyncWriteExt} (buf : bytes) : M Self Error unit :=
  map_err io_unknown (ext_write_all poll_write buf) ;;;
  map_err io_unknown (ext_flush poll_flush).
Definition write_buf `{!AsyncWriteExt} {B} `{Buf B} `{!ChunkBuf B} : M (Self * B) Error Z :=
  let* chunk := (fun st => (Ok (chunk st.2), st)) in
  let* size := on_fst (map_err io_unknown (ext_write poll_write chunk)) in
  on_snd (advance size) ;;;
  ret size.

(** Without the writer the abort is spawned, its result dropped. *)
Definition reset (reason : bytes) (self : Self) : Self :=
  match writer self with
  | Some writer => MkSendStream (stream self) (Some (writer_abort reason writer)) Idle true
  | None => MkSendStream (stream_abort (js_str reason) (stream self)) None Idle true
  end.
Definition finish : M Self Error unit := fun self =>
  match write_state self with
  | Writing _ => (Err (Unknown (js_str (lit "flush pending writes before finish"))), self)
  | Idle => (Ok (), MkSendStream (stream self) (option_map writer_close (writer self)) Idle true)
  end.
Definition set_priority (priority : Z) : M Self Error unit := fun self =>
  let '(r, s) := stream_set (lit "sendOrder") priority (stream self) in
  (match r with Ok a => Ok a | Err v => Err (error_from_js v) | Panic => Panic | OutOfFuel => OutOfFuel end,
   MkSendStream s (writer self) (write_state self) (is_closed self)).
Definition closed : M Self Error (option Z) := fun self =>
  match writer self with
  | None => (Err (Unknown (js_str (lit "writer is unavailable"))), self)
  | Some writer =>
      let '(r, w) := writer_closed writer in
      (match r with
       | Ok _ => Ok None
       | Err e =>
           let err := error_from_web e in
           match err with
           | EStream e => match stream_error_code e with Some code => Ok (Some code) | None => Err err end
           | err => Err err
           end
       | Panic => Panic
       | OutOfFuel => OutOfFuel
       end, MkSendStream (stream self) (Some w) (write_state self) (is_closed self))
  end.
Definition drop (self : Self) : Self :=
  match write_state self with
  | Writing _ => reset (lit "dropped with pending write") self
  | Idle => MkSendStream (stream self) (option_map writer_close (writer self)) Idle (is_closed self)
  end.

(** [impl webtrans_trait::SendStream] *)
Definition trait_write `{!AsyncWriteExt} (buf : bytes) : M Self Error Z := write buf ;;; ret (len buf).
Definition trait_set_priority (order : Z) : M Self Empty_set unit := ignore (set_priority order).
Definition trait_reset (code : Z) : Self -> Self := reset (u32_to_string code).
Definition trait_closed : M Self Error unit :=
  let* r := closed in
  match r with
  | Some code => throw (Unknown (js_str (lit "stream closed with code " ++ u32_to_string code)))
  | None => ret ()
  end.
End Send.
End Send.

(** ** recv.rs *)

(** One poll of [reader.read()], with the bytes of a chunk, and of
    [reader.closed()]. *)
Class JsReader `{WebErrors} (Rd R : Type) := {
  read_poll : M Rd web_error (option (option bytes));
  reader_closed : M Rd web_error unit;
  reader_abort : bytes -> Rd -> Rd;
  stream_cancel : JsValue -> R -> R
}.
(** The future of a read owns the reader. *)
Inductive ReadState (Rd : Type) := RIdle | Reading (reader : Rd).
Arguments RIdle {Rd}. Arguments Reading {Rd}.
Record RecvStream (Rd R : Type) := MkRecvStream {
  rstream : R; eof : bool; reader : option Rd; buffer : bytes; read_state : ReadState Rd }.
Arguments MkRecvStream {Rd R}. Arguments rstream {Rd R}. Arguments eof {Rd R}. Arguments reader {Rd R}.
Arguments buffer {Rd R}. Arguments read_state {Rd R}.

Module Recv.
Section Recv.
Context `{WebErrors} {Rd R : Type} `{!JsReader Rd R}.
Abbreviation Self := (RecvStream Rd R).

Definition new (new_reader : R -> outcome Error Rd) (stream : R) : outcome Error Self :=
  let? reader := new_reader stream in
  Ok (MkRecvStream stream false (Some reader) [] RIdle).

Definition poll_inflight_read : M Self io_error (option (option bytes)) := fun self =>
  match read_state self with
  | RIdle => (Ok (Some None), self)
  | Reading rd =>
      let '(r, rd) := read_poll rd in
      let ready := MkRecvStream (rstream self) (eof self) (Some rd) (buffer self) RIdle in
      match r with
      | Ok None => (Ok None, MkRecvStream (rstream self) (eof self) (reader self) (buffer self) (Reading rd))
      | Ok (Some data) => (Ok (Some data), ready)
      | Err e => (Err (to_io_error (error_from_web e)), ready)
      | Panic => (Panic, self)
      | OutOfFuel => (OutOfFuel, self)
      end
  end.
Definition error_unavailable : io_error := IoError Other (lit "reader is unavailable").
Definition set_eof (self : Self) : Self := MkRecvStream (rstream self) true (reader self) (buffer self) (read_state self).

(** The read is started if there is none. *)
Definition start_read : M Self io_error unit := fun self =>
  match read_state self with
  | RIdle =>
      match reader self with
      | Some rd => (Ok (), MkRecvStream (rstream self) (eof self) None (buffer self) (Reading rd))
      | None => (Err error_unavailable, self)
      end
  | Reading _ => (Ok (), self)
  end.
Fixpoint poll_rounds (n : nat) (max : Z) : M Self io_error (option (option bytes)) :=
  match n with
  | O => ret None
  | S n => fun self =>
      if negb (bool_decide (buffer self = [])) then
        let size := Z.min max (len (buffer self)) in
        (Ok (Some (Some (take (Z.to_nat size) (buffer self)))),
         MkRecvStream (rstream self) (eof self) (reader self) (List.skipn (Z.to_nat size) (buffer self)) (read_state self))
      else if eof self then (Ok (Some None), self)
      else
        (start_read ;;;
         fun self =>
           match poll_inflight_read self with
           | (Ok None, self) => (Ok None, self)
           | (Err err, self) => (Err err, set_eof self)
           | (Ok (Some None), self) => (Ok (Some None), set_eof self)
           | (Ok (Some (Some chunk)), self) =>
               poll_rounds n max (MkRecvStream (rstream self) (eof self) (reader self) chunk (read_state self))
           | (Panic, self) => (Panic, self)
           | (OutOfFuel, self) => (OutOfFuel, self)
           end) self
  end.
Definition poll_chunk (max : Z) : M Self io_error (option (option bytes)) :=
  if max =? 0 then ret (Some (Some [])) else poll_rounds 16 max.

(** [poll_read], which fills the slice it is given. *)
Definition poll_read (buf : bytes) : M Self io_error (option (Z * bytes)) :=
  let* r := poll_chunk (len buf) in
  ret (match r with
       | None => None
       | Some None => Some (0, buf)
       | Some (Some chunk) => Some (len chunk, chunk ++ List.skipn (length chunk) buf)
       end).

Definition read (fuel : nat) (max : Z) : M Self Error (option bytes) :=
  map_err io_unknown (poll_fn fuel (poll_chunk max)).
Definition read_buf {B} `{BufMut B} `{!RoomMut B} (fuel : nat) : M (Self * B) Error (option Z) := fun st =>
  (let* chunk := on_fst (read fuel (remaining_mut st.2)) in
   match chunk with
   | None => ret None
   | Some chunk =>
       let size := len chunk in
       on_snd (put_slice chunk) ;;;
       ret (Some size)
   end) st.
Definition stop (reason : bytes) (self : Self) : Self :=
  match reader self with
  | Some rd => MkRecvStream (rstream self) true (Some (reader_abort reason rd)) [] RIdle
  | None => MkRecvStream (stream_cancel (js_str reason) (rstream self)) true None [] RIdle
  end.
Definition closed : M Self Error (option Z) := fun self =>
  match reader self with
  | None => (Err (Unknown (js_str (lit "reader is unavailable"))), self)
  | Some rd =>
      let '(r, rd) := reader_closed rd in
      (match r with
       | Ok _ => Ok None
       | Err e =>
           let err := error_from_web e in
           match err with
           | EStream e => match stream_error_code e with Some code => Ok (Some code) | None => Err err end
           | err => Err err
           end
       | Panic => Panic
       | OutOfFuel => OutOfFuel
       end, MkRecvStream (rstream self) (eof self) (Some rd) (buffer self) (read_state self))
  end.
Definition drop : Self -> Self := stop (lit "dropped").

(** [impl webtrans_trait::RecvStream] *)
Definition trait_read (fuel : nat) (dst : bytes) : M Self Error (option Z * bytes) :=
  let* chunk := read fuel (len dst) in
  ret (match chunk with
       | Some chunk => (Some (len chunk), chunk ++ List.skipn (length chunk) dst)
       | None => (None, dst)
       end).
Definition trait_stop (code : Z) : Self -> Self := stop (u32_to_string code).
Definition trait_closed : M Self Error unit :=
  let* r := closed in
  match r with
  | Some code => throw (Unknown (js_str (lit "stream closed with code " ++ u32_to_string code)))
  | None => ret ()
  end.
End Recv.
End Recv.

(** ** Documented behaviour of the browser's streams

    [delivered w]: the bytes of the writes whose promise was fulfilled; [rest rd]:
    the bytes the reader will still yield, in the chunks of its polls. *)
Class JsWriterLaws `{WebErrors} {W R} `{!JsWriter W R} (delivered : W -> bytes) : Prop := {
  write_polls started payload w : let '(r, w') := write_poll started payload w in
    completes r /\ delivered w' = delivered w ++ match r with Ok (Some _) => payload | _ => [] end;
  writer_closed_keeps w : completes (writer_closed w).1 /\ delivered (writer_closed w).2 = delivered w;
  writer_close_keeps w : delivered (writer_close w) = delivered w;
  stream_set_completes name v r : completes (stream_set name v r).1
}.
Class JsReaderLaws `{WebErrors} {Rd R} `{!JsReader Rd R} (rest : Rd -> bytes) : Prop := {
  read_polls rd : let '(r, rd') := read_poll rd in
    completes r /\
    match r with
    | Ok None => rest rd' = rest rd
    | Ok (Some (Some c)) => rest rd = c ++ rest rd'
    | Ok (Some None) => rest rd = []
    | _ => True
    end
}.

(** ** Sending *)
Section Sending.
Context `{WebErrors} {W R : Type} `{!JsWriter W R} (delivered : W -> bytes) `{!JsWriterLaws delivered}.
Abbreviation Stream := (SendStream W R).

(** The writer is in one place: with the stream, or in the one write under way. *)
Definition one_writer (s : Stream) : Prop :=
  match write_state s, writer s with
  | Idle, Some _ | Writing _, None => True
  | _, _ => False
  end.
Definition handed (s : Stream) : bytes :=
  match write_state s, writer s with
  | Writing fut, _ => delivered (wf_writer fut)
  | Idle, Some w => delivered w
  | Idle, None => []
  end.
Definition under_way (s : Stream) : bytes := match write_state s with Writing fut => wf_payload fut | Idle => [] end.
(** What the stream holds of the bytes it accepted ([acc]), but for what failed
    writes lost; after one the stream is closed, and a closed stream is idle. *)
Definition holds (s : Stream) (acc lost : bytes) : Prop :=
  one_writer s /\ acc = handed s ++ under_way s ++ lost /\ (lost <> [] -> is_closed s = true) /\
  (is_closed s = true -> write_state s = Idle).
(** A poll that fails with a write under way reports that the write failed; what a
    poll of a write accepts. *)
Definition lost_by {A} (o : outcome io_error A) (s : Stream) : bytes := match o with Err _ => under_way s | _ => [] end.
Definition accepted (o : outcome io_error (option Z)) (buf : bytes) : bytes :=
  match o with Ok (Some n) => take (Z.to_nat n) buf | _ => [] end.

Lemma holds_open s acc lost : holds s acc lost -> is_closed s = false -> lost = [].
Proof. intros (_ & _ & Hl & _) Hc. destruct lost; [done|]. by rewrite Hl in Hc. Qed.
Lemma poll_inflight_cases s acc lost :
  holds s acc lost -> let '(r, s') := Send.close_on_error Send.poll_inflight_write s in
  holds s' acc (lost_by r s ++ lost) /\
  match r with
  | Ok None => write_state s' <> Idle /\ is_closed s' = is_closed s
  | Ok (Some _) => write_state s' = Idle /\ is_closed s' = is_closed s
  | Err _ => write_state s' = Idle /\ is_closed s' = true
  | _ => False
  end.
Proof.
  intros (Hone & -> & Hlost & Hidle). unfold Send.close_on_error, Send.poll_inflight_write, holds.
  destruct s as [st w ws cl]. unfold one_writer, handed, under_way, lost_by in *. cbn [writer write_state is_closed stream] in *.
  destruct ws as [|[fw p started]]; [done|].
  destruct w; [done|]. destruct cl; [by specialize (Hidle eq_refl)|]. cbn [wf_started wf_payload wf_writer].
  pose proof (write_polls started p fw) as Hp. destruct (write_poll started p fw) as [r w']. destruct Hp as [Hc Hd].
  destruct (completes_cases r Hc) as [[[[]|] ->]|[e ->]]; unfold Send.set_closed, bind, throw; cbn; rewrite Hd, ?app_nil_r, <- ?app_assoc; done.
Qed.

Lemma poll_write_holds buf s acc lost :
  holds s acc lost -> let '(r, s') := Send.poll_write buf s in
  holds s' (acc ++ accepted r buf) (lost_by r s ++ lost) /\
  match r with
  | Ok (Some n) => n = Z.min (len buf) 65536
  | Ok None => True
  | Err _ => is_closed s' = true
  | _ => False
  end.
Proof.
  intros Hh. unfold Send.poll_write. case_bool_decide as Hb.
  { subst buf. cbn. by rewrite app_nil_r. }
  destruct (is_closed s) eqn:Hcl.
  { pose proof Hh as (_ & _ & _ & Hidle). cbn [accepted lost_by]. unfold under_way. by rewrite app_nil_r, Hidle. }
  pose proof (holds_open s acc lost Hh Hcl) as ->.
  unfold bind. pose proof (poll_inflight_cases s acc [] Hh) as Hp.
  destruct (Send.close_on_error Send.poll_inflight_write s) as [r s1]. destruct Hp as [Hh1 Hp].
  destruct r as [[n|]|e| |]; try done; unfold ret; cbn [accepted lost_by app] in *; rewrite ?app_nil_r in *; [|by split|by destruct Hp].
  destruct Hp as [Hi Hcl1]. rewrite Hcl in Hcl1. destruct Hh1 as (Hone & -> & _).
  destruct s1 as [st [w|] ws cl]; cbn in *; subst ws cl; [|done]. cbn.
  assert (Hlen : len (take (Z.to_nat (Z.min (len buf) (64 * 1024))) buf) = Z.min (len buf) 65536).
  { unfold len. rewrite length_take. lia. }
  rewrite Hlen. split; [|done]. split; [done|]. unfold handed. cbn. by rewrite !app_nil_r.
Qed.
Lemma poll_flush_holds s acc lost :
  holds s acc lost -> let '(r, s') := Send.poll_flush s in
  holds s' acc (lost_by r s ++ lost) /\
  match r with
  | Ok (Some _) => write_state s' = Idle /\ is_closed s' = is_closed s
  | Ok None => is_closed s' = is_closed s
  | Err _ => is_closed s' = true
  | _ => False
  end.
Proof.
  intros Hh. unfold Send.poll_flush, bind, ret. pose proof (poll_inflight_cases s acc lost Hh) as Hp.
  destruct (Send.close_on_error Send.poll_inflight_write s) as [[[n|]|e| |] s1]; destruct Hp as [Hh1 Hp]; try done; by destruct Hp.
Qed.
Lemma close_flag_holds s acc lost (f : W -> W) :
  (forall w, delivered (f w) = delivered w) -> holds s acc lost -> write_state s = Idle ->
  holds (MkSendStream (stream s) (option_map f (writer s)) Idle true) acc lost.
Proof.
  intros Hf (Hone & -> & _) Hi. destruct s as [st [w|] ws cl]; cbn in *; subst ws; [|done].
  split; [done|]. unfold handed, under_way. cbn. by rewrite Hf.
Qed.
Lemma poll_close_holds s acc lost :
  holds s acc lost -> let '(r, s') := Send.poll_close s in
  holds s' acc (lost_by r s ++ lost) /\
  match r with
  | Ok (Some _) => write_state s' = Idle /\ is_closed s' = true /\
      (is_closed s = false -> exists w, writer s' = Some (writer_close w) /\ delivered w = acc)
  | Ok None => is_closed s' = is_closed s
  | Err _ => is_closed s' = true
  | _ => False
  end.
Proof.
  intros Hh. unfold Send.poll_close, bind, Send.close_on_error. pose proof (poll_flush_holds s acc lost Hh) as Hp.
  destruct (Send.poll_flush s) as [[[[]|]|e| |] s1]; destruct Hp as [Hh1 Hp]; try done.
  - destruct Hp as [Hi Hcl]. destruct (is_closed s1) eqn:Hcl1; [by rewrite <- Hcl|].
    cbn [lost_by app] in *. pose proof (holds_open _ _ _ Hh1 Hcl1) as ->. pose proof Hh1 as (_ & Hacc & _).
    destruct s1 as [st [w|] ws cl] eqn:Es; cbn in Hi, Hcl1; subst ws cl; [|by destruct Hh1]. cbn.
    split; [|split; [done|]; split; [done|]].
    + change (Some (writer_close w)) with (option_map writer_close (Some w)).
      by apply (close_flag_holds (MkSendStream st (Some w) Idle false) acc [] writer_close writer_close_keeps).
    + intros _. exists w. split; [done|]. rewrite Hacc. unfold handed, under_way. cbn. by rewrite app_nil_r.
  - unfold Send.set_closed, bind, throw. cbn in *. destruct Hh1 as (Hone & Hacc & Hlost & Hidle). split; [|done].
    specialize (Hidle Hp). destruct s1. by split.
Qed.
Lemma finish_holds s acc lost :
  holds s acc lost -> let '(r, s') := Send.finish s in
  holds s' acc lost /\
  match r with
  | Ok _ => write_state s = Idle /\ is_closed s' = true /\ handed s' = handed s
  | Err _ => write_state s <> Idle /\ s' = s
  | _ => False
  end.
Proof.
  intros Hh. unfold Send.finish. destruct (write_state s) eqn:Hw.
  - split; [by apply close_flag_holds; [apply writer_close_keeps|..]|]. split; [done|]. split; [done|].
    unfold handed. rewrite Hw. destruct (writer s) as [w|]; [|done]. cbn. apply writer_close_keeps.
  - split; [done|]. by split.
Qed.
Lemma closed_holds s acc lost :
  holds s acc lost -> let '(r, s') := Send.closed s in
  holds s' acc lost /\ completes r /\
  (write_state s <> Idle -> s' = s /\ r = Err (Unknown (js_str (lit "writer is unavailable")))).
Proof.
  intros (Hone & -> & Hlost & Hidle). unfold Send.closed.
  destruct s as [st [w|] [|fut] cl] eqn:Es; try done; cbn [writer write_state].
  - destruct (writer_closed_keeps w) as [Hc Hk]. destruct (writer_closed w) as [r w']. cbn [fst snd] in *.
    split; [|split; [|done]].
    + split; [done|]. unfold handed, under_way. cbn. by rewrite Hk.
    + destruct (completes_cases r Hc) as [[[] ->]|[e ->]]; [done|]. destruct (error_from_web e); try done.
      by destruct (stream_error_code _).
Qed.
End Sending.

(** ** What a stream accepted in a run

    Any calls in any order, and their polls: a future that is dropped between two
    polls is not polled again. *)
Section Runs.
Context `{WebErrors} {W R : Type} `{!JsWriter W R} (delivered : W -> bytes) `{!JsWriterLaws delivered}.
Abbreviation Stream := (SendStream W R).

(** With the bytes the polls accepted, and those of the writes they found failed. *)
Inductive accepts : Stream -> bytes -> bytes -> Stream -> Prop :=
| accepts_start s : accepts s [] [] s
| accepts_write s acc lost s1 buf r s' : accepts s acc lost s1 -> Send.poll_write buf s1 = (r, s') ->
    accepts s (acc ++ accepted r buf) (lost_by r s1 ++ lost) s'
| accepts_flush s acc lost s1 r s' : accepts s acc lost s1 -> Send.poll_flush s1 = (r, s') -> accepts s acc (lost_by r s1 ++ lost) s'
| accepts_close s acc lost s1 r s' : accepts s acc lost s1 -> Send.poll_close s1 = (r, s') -> accepts s acc (lost_by r s1 ++ lost) s'
| accepts_finish s acc lost s1 r s' : accepts s acc lost s1 -> Send.finish s1 = (r, s') -> accepts s acc lost s'
| accepts_closed s acc lost s1 r s' : accepts s acc lost s1 -> Send.closed s1 = (r, s') -> accepts s acc lost s'.

Lemma accepts_holds s acc lost s' : accepts s acc lost s' -> holds delivered s [] [] -> holds delivered s' acc lost.
Proof.
  induction 1 as [s|s acc lost s1 buf r s' Ha IH E|s acc lost s1 r s' Ha IH E|s acc lost s1 r s' Ha IH E
    |s acc lost s1 r s' Ha IH E|s acc lost s1 r s' Ha IH E]; intros Hs0; [done|..]; specialize (IH Hs0).
  - pose proof (poll_write_holds delivered buf s1 _ _ IH) as Hw. rewrite E in Hw. by destruct Hw.
  - pose proof (poll_flush_holds delivered s1 _ _ IH) as Hw. rewrite E in Hw. by destruct Hw.
  - pose proof (poll_close_holds delivered s1 _ _ IH) as Hw. rewrite E in Hw. by destruct Hw.
  - pose proof (finish_holds delivered s1 _ _ IH) as Hw. rewrite E in Hw. by destruct Hw.
  - pose proof (closed_holds delivered s1 _ _ IH) as Hw. rewrite E in Hw. by destruct Hw as [Hw _].
Qed.
Lemma new_holds (w : W) (r : R) : delivered w = [] -> holds delivered (MkSendStream r (Some w) Idle false) [] [].
Proof. intros Hw. split; [done|]. unfold handed, under_way. cbn. by rewrite Hw. Qed.

(** [write_all] and [flush] of the futures library: polls of what is left. *)
Inductive writes_all {S} (poll : bytes -> M S io_error (option Z)) : bytes -> S -> outcome io_error unit -> S -> Prop :=
| wrote_all s : writes_all poll [] s (Ok ()) s
| wrote_pending l s s1 r s' : l <> [] -> poll l s = (Ok None, s1) -> writes_all poll l s1 r s' -> writes_all poll l s r s'
| wrote_some l s n s1 r s' : l <> [] -> poll l s = (Ok (Some n), s1) -> n <> 0 ->
    writes_all poll (List.skipn (Z.to_nat n) l) s1 r s' -> writes_all poll l s r s'
| wrote_zero l s s1 m : l <> [] -> poll l s = (Ok (Some 0), s1) -> writes_all poll l s (Err (IoError WriteZero m)) s1
| wrote_failed l s e s1 : l <> [] -> poll l s = (Err e, s1) -> writes_all poll l s (Err e) s1
| wrote_panic l s s1 : l <> [] -> poll l s = (Panic, s1) -> writes_all poll l s Panic s1
| wrote_never l s : writes_all poll l s OutOfFuel s.
Class AsyncWriteExtLaws `{!AsyncWriteExt} : Prop := {
  ext_write_all_polls {S} poll l (s : S) : writes_all poll l s (ext_write_all poll l s).1 (ext_write_all poll l s).2;
  ext_flush_polls {S} (poll : M S io_error (option unit)) (s : S) : exists fuel, ext_flush poll s = poll_fn fuel poll s
}.
Lemma poll_fn_ends {S E A} (Q : S -> Prop) (poll : M S E (option A)) fuel : forall s,
  (forall s, Q s -> let '(r, s') := poll s in r = Ok None -> Q s') -> Q s ->
  let '(r, s') := poll_fn fuel poll s in
  (r = OutOfFuel /\ Q s') \/ exists s1 r1, Q s1 /\ poll s1 = (r1, s') /\ r1 <> Ok None /\
    r = match r1 with Ok (Some a) => Ok a | Ok None => OutOfFuel | Err e => Err e | Panic => Panic | OutOfFuel => OutOfFuel end.
Proof.
  induction fuel as [|fuel IH]; intros s HQ Hs; [by left|]. cbn [poll_fn]. unfold bind.
  pose proof (HQ s Hs) as H1. destruct (poll s) as [r s1] eqn:Ep. destruct r as [[a|]|e| |]; [right; by exists s, (Ok (Some a))| |right..].
  - apply IH; [done|]. by apply H1.
  - by exists s, (Err e).
  - by exists s, Panic.
  - by exists s, OutOfFuel.
Qed.

Lemma writes_all_holds l s r s' :
  writes_all Send.poll_write l s r s' -> forall acc lost, holds delivered s acc lost ->
  r <> Panic /\ exists n lost', 0 <= n <= len l /\ holds delivered s' (acc ++ take (Z.to_nat n) l) lost' /\ (r = Ok () -> n = len l).
Proof.
  induction 1 as [s|l s s1 r s' Hl E Hw IH|l s n s1 r s' Hl E Hn Hw IH|l s s1 m Hl E|l s e s1 Hl E|l s s1 Hl E|l s];
    intros acc lost Hh; try (pose proof (poll_write_holds delivered l s acc lost Hh) as Hp; rewrite E in Hp;
      cbn [accepted] in Hp; rewrite ?app_nil_r in Hp; destruct Hp as [Hh1 Hp]).
  - split; [done|]. exists 0, lost. cbn. by rewrite app_nil_r.
  - by eapply IH.
  - subst n. destruct (IH _ _ Hh1) as (Hr & k & lost' & Hk & Hh' & Hall). split; [done|]. set (n := Z.min (len l) 65536) in *.
    assert (Hlen : len (List.skipn (Z.to_nat n) l) = len l - n) by (unfold len in *; rewrite length_drop; lia).
    exists (n + k), lost'. rewrite Hlen in *. pose_len. split; [lia|]. split; [|intros E'; specialize (Hall E'); lia].
    rewrite <- app_assoc, take_len_add in Hh' by lia. exact Hh'.
  - destruct l; [done|]. rewrite len_cons in Hp. pose_len. lia.
  - split; [done|]. eexists 0, _. pose_len. split; [lia|]. cbn [Z.to_nat take]. rewrite app_nil_r. by split.
  - done.
  - split; [done|]. exists 0, lost. pose_len. split; [lia|]. cbn. by rewrite app_nil_r.
Qed.
(** A buffer that is not empty is written only to an open stream. *)
Lemma poll_write_open buf (s : Stream) o s' :
  buf <> [] -> Send.poll_write buf s = (Ok o, s') -> is_closed s' = false.
Proof.
  intros Hb. unfold Send.poll_write. rewrite bool_decide_eq_false_2 by done. destruct (is_closed s) eqn:Hcl; [done|].
  unfold bind, Send.close_on_error, Send.poll_inflight_write.
  destruct s as [st w [|[fw p started]] cl]; cbn in *; subst cl.
  - destruct w; cbn; [|done]. by intros [= <- <-].
  - destruct (write_poll started p fw) as [[[[]|]|e| |] w']; cbn; try done; by intros [= <- <-].
Qed.
Lemma writes_all_open l s r s' :
  writes_all Send.poll_write l s r s' -> r = Ok () -> l <> [] \/ is_closed s = false -> is_closed s' = false.
Proof.
  induction 1 as [s|l s s1 r s' Hl E Hw IH|l s n s1 r s' Hl E Hn Hw IH|l s s1 m Hl E|l s e s1 Hl E|l s s1 Hl E|l s];
    intros Hr Hor; try done.
  - by destruct Hor.
  - apply (IH Hr). right. by apply (poll_write_open _ _ _ _ Hl E).
  - apply (IH Hr). right. by apply (poll_write_open _ _ _ _ Hl E).
Qed.
Lemma flush_ends `{!AsyncWriteExt} `{!AsyncWriteExtLaws} s acc lost :
  holds delivered s acc lost -> let '(r, s') := ext_flush Send.poll_flush s in
  r <> Panic /\ (exists lost', holds delivered s' acc lost') /\ (r = Ok () -> write_state s' = Idle /\ is_closed s' = is_closed s).
Proof.
  intros Hh. destruct (ext_flush_polls Send.poll_flush s) as [fuel ->].
  pose proof (poll_fn_ends (fun t => holds delivered t acc lost /\ is_closed t = is_closed s) Send.poll_flush fuel s) as Hp.
  destruct (poll_fn fuel Send.poll_flush s) as [r s'].
  destruct Hp as [[-> [Hh' _]]|(s1 & r1 & [Hh1 Hc1] & E & Hr1 & ->)]; [|done|by split; [|split; [by exists lost|]]|].
  - intros t [Ht Hct]. pose proof (poll_flush_holds delivered t acc lost Ht) as Hp. destruct (Send.poll_flush t) as [r1 t'].
    destruct Hp as [Hp Hc]. intros ->. split; [done|congruence].
  - pose proof (poll_flush_holds delivered s1 acc lost Hh1) as Hp. rewrite E in Hp. destruct Hp as [Hh' Hp].
    destruct r1 as [[[]|]|e| |]; try done; (split; [done|]); (split; [by eexists|]); [|done]. intros _. destruct Hp. split; [done|congruence].
Qed.
End Runs.

(** ** Receiving *)
Section Receiving.
Context `{WebErrors} {Rd R : Type} `{!JsReader Rd R} (rest : Rd -> bytes) `{!JsReaderLaws rest}.
Abbreviation Stream := (RecvStream Rd R).

Definition one_reader (s : Stream) : Prop :=
  match read_state s, reader s with
  | RIdle, Some _ | Reading _, None => True
  | _, _ => False
  end.
(** What the stream will still yield. *)
Definition content (s : Stream) : bytes :=
  buffer s ++ (if eof s then [] else
    match read_state s, reader s with
    | Reading rd, _ => rest rd
    | RIdle, Some rd => rest rd
    | RIdle, None => []
    end).
(** What a poll may answer, and what it leaves. *)
Definition polled (max : Z) (s : Stream) (r : outcome io_error (option (option bytes))) (s' : Stream) : Prop :=
  one_reader s' /\ (eof s = true -> eof s' = true) /\
  match r with
  | Ok None => content s' = content s
  | Ok (Some (Some c)) => content s = c ++ content s' /\ c <> [] /\ len c <= max
  | Ok (Some None) => content s = [] /\ content s' = [] /\ eof s' = true
  | Err _ => content s' = [] /\ eof s' = true
  | _ => False
  end.

Lemma polled_from max (t s : Stream) r s' :
  content t = content s -> eof t = eof s -> polled max t r s' -> polled max s r s'.
Proof. unfold polled. by intros -> ->. Qed.
Lemma start_read_content (s : Stream) :
  one_reader s -> eof s = false -> buffer s = [] ->
  exists rd, Recv.start_read s = (Ok (), MkRecvStream (rstream s) false None [] (Reading rd)) /\ content s = rest rd.
Proof.
  intros Hone He Hb. unfold Recv.start_read, content. destruct s as [st e [rd|] b [|rd']]; cbn in *; subst e b; try done; by eexists.
Qed.
Lemma poll_rounds_polled n max : 0 < max -> forall s : Stream,
  one_reader s -> let '(r, s') := Recv.poll_rounds n max s in polled max s r s'.
Proof.
  intros Hmax. induction n as [|n IH]; intros s Hone; [by split|]. cbn [Recv.poll_rounds].
  case_bool_decide as Hb; cbn [negb].
  - destruct (eof s) eqn:He.
    { split; [done|]. split; [done|]. unfold content. by rewrite Hb, He. }
    destruct (start_read_content s Hone He Hb) as (rd & Hs & Hc). unfold bind. rewrite Hs.
    unfold Recv.poll_inflight_read. cbn [read_state]. pose proof (read_polls rd) as Hp.
    destruct (read_poll rd) as [r rd']. destruct Hp as [Hcomp Hp]. cbn [rstream eof reader buffer].
    destruct (completes_cases r Hcomp) as [[[[c|]|] ->]|[e ->]].
    + match goal with |- context [Recv.poll_rounds n max ?t] => specialize (IH t) end. cbn [reader read_state one_reader] in IH.
      specialize (IH I). destruct (Recv.poll_rounds n max _) as [r s']. revert IH. apply polled_from; [|by rewrite He].
      by rewrite Hc, Hp.
    + split; [done|]. split; [by rewrite He|]. rewrite Hc, Hp. done.
    + split; [done|]. split; [by rewrite He|]. rewrite Hc, <- Hp. done.
    + split; [done|]. split; [done|]. done.
  - split; [done|]. split; [done|]. pose_len. set (size := Z.min max (len (buffer s))).
    assert (Hlb : 0 < len (buffer s)) by (destruct (buffer s); [done|rewrite len_cons; pose_len; lia]).
    split; [|split].
    + unfold content. cbn. rewrite app_assoc. f_equal. symmetry. apply take_drop.
    + intros E0. apply (f_equal length) in E0. rewrite length_take in E0. cbn [length] in E0. unfold size, len in *. lia.
    + unfold len, size in *. rewrite length_take. unfold len. lia.
Qed.
Lemma poll_chunk_polled max (s : Stream) :
  0 <= max -> one_reader s ->
  let '(r, s') := Recv.poll_chunk max s in
  if max =? 0 then r = Ok (Some (Some [])) /\ s' = s else polled max s r s'.
Proof.
  intros Hm Hone. unfold Recv.poll_chunk. destruct (Z.eqb_spec max 0); [done|].
  pose proof (poll_rounds_polled 16 max ltac:(lia) s Hone) as Hp. by destruct (Recv.poll_rounds 16 max s).
Qed.

(** Polls of any readers in any order, each with a maximum of its own: the chunks
    they were given. *)
Inductive yields : Stream -> bytes -> Stream -> Prop :=
| yields_start s : yields s [] s
| yields_chunk s acc s1 max c s' : yields s acc s1 -> 0 <= max -> Recv.poll_chunk max s1 = (Ok (Some (Some c)), s') -> yields s (acc ++ c) s'
| yields_pending s acc s1 max s' : yields s acc s1 -> 0 <= max -> Recv.poll_chunk max s1 = (Ok None, s') -> yields s acc s'
| yields_end s acc s1 max s' : yields s acc s1 -> 0 <= max -> Recv.poll_chunk max s1 = (Ok (Some None), s') -> yields s acc s'.

Lemma yields_content s acc s' :
  yields s acc s' -> one_reader s -> one_reader s' /\ content s = acc ++ content s'.
Proof.
  intros Hy Hone. induction Hy as [s|s acc s1 max c s' Hy IH Hm E|s acc s1 max s' Hy IH Hm E|s acc s1 max s' Hy IH Hm E]; [done|..];
    destruct (IH Hone) as [Hone1 Hc]; pose proof (poll_chunk_polled max s1 Hm Hone1) as Hp; rewrite E in Hp;
    (destruct (Z.eqb_spec max 0); [destruct Hp as [[= ?] ->]; subst; rewrite ?app_nil_r; by split|]);
    destruct Hp as (Hone' & _ & Hp).
  - destruct Hp as [Hcc _]. split; [done|]. by rewrite Hc, Hcc, app_assoc.
  - split; [done|]. by rewrite Hc, Hp.
  - destruct Hp as (Hcc & Hc' & _). split; [done|]. by rewrite Hc, Hcc, Hc'.
Qed.

(** A read that is awaited to its end. *)
Lemma read_ends fuel max s :
  0 < max -> one_reader s -> let '(r, s') := Recv.read fuel max s in
  one_reader s' /\
  match r with
  | Ok (Some c) => content s = c ++ content s' /\ c <> [] /\ len c <= max
  | Ok None => content s = [] /\ content s' = []
  | Err _ => content s' = []
  | Panic => False
  | OutOfFuel => content s' = content s
  end.
Proof.
  intros Hm Hone. unfold Recv.read, map_err.
  pose proof (poll_fn_ends (fun t => one_reader t /\ content t = content s) (Recv.poll_chunk max) fuel s) as Hp.
  destruct (poll_fn fuel (Recv.poll_chunk max) s) as [r s'].
  assert (Hstep : forall t, one_reader t -> let '(r, t') := Recv.poll_chunk max t in polled max t r t').
  { intros t Ht. pose proof (poll_chunk_polled max t ltac:(lia) Ht) as Hc. destruct (Recv.poll_chunk max t) as [r0 t'].
    by destruct (Z.eqb_spec max 0); [lia|]. }
  destruct Hp as [[-> [Hone' Hc]]|(s1 & r1 & [Hone1 Hc1] & E & Hr1 & ->)]; [|done|done|].
  - intros t [Ht Hct]. pose proof (Hstep t Ht) as Hc. destruct (Recv.poll_chunk max t) as [r1 t']. intros ->.
    destruct Hc as (? & _ & Hc). split; [done|congruence].
  - pose proof (Hstep s1 Hone1) as Hp. rewrite E in Hp. rewrite <- Hc1. destruct Hp as (Hone' & _ & Hp).
    destruct r1 as [[[c|]|]|e| |]; try done; (split; [done|]); [tauto|]. tauto.
Qed.
End Receiving.

(** ** Samples: a write is fulfilled, and a chunk arrives, at the second poll *)
Definition sample_web : WebLib := {|
  JsValue := bytes; WebTransportError := Z; dyn_error _ := None; source _ := SourceStream;
  stream_error_code e := Some e; debug _ := []; js_str s := s; web_streams_Error := unit |}.
Definition sample_web_errors : @WebErrors sample_web :=
  @Build_WebErrors sample_web (fun _ => lit "error") bytes (fun e => @Unknown sample_web e).
Definition sample_js_writer : JsWriter (H0:=sample_web_errors) bytes unit :=
  @Build_JsWriter sample_web sample_web_errors bytes unit
    (fun (started : bool) payload w => if started then (Ok (Some ()), w ++ payload) else (Ok None, w))
    (ret ()) (fun w => w) (fun _ w => w) (fun _ r => r) (fun _ _ r => (Ok (), r)).
Lemma sample_js_writer_laws : JsWriterLaws (JsWriter0:=sample_js_writer) id.
Proof.
  split.
  - intros [] payload w; (split; [apply completes_Ok|]); [done|]. cbn. by rewrite app_nil_r.
  - intros w. split; [apply completes_Ok|done].
  - done.
  - intros. apply completes_Ok.
Qed.
Record SampleReader := MkSampleReader { sr_waited : bool; sr_chunks : list bytes }.
Definition sample_js_reader : JsReader (H0:=sample_web_errors) SampleReader unit :=
  @Build_JsReader sample_web sample_web_errors SampleReader unit
    (fun rd => if sr_waited rd
      then match sr_chunks rd with
           | [] => (Ok (Some None), rd)
           | c :: cs => (Ok (Some (Some c)), MkSampleReader false cs)
           end
      else (Ok None, MkSampleReader true (sr_chunks rd)))
    (ret ()) (fun _ rd => rd) (fun _ r => r).
Lemma sample_js_reader_laws : JsReaderLaws (JsReader0:=sample_js_reader) (fun rd => concat (sr_chunks rd)).
Proof. split. intros [[] [|c cs]]; cbn; (split; [apply completes_Ok|done]). Qed.

(** ** Properties *)

(** C15: a browser stream accounts for the bytes it accepts.  In any run of writes,
    flushes, closes and finishes, awaited or dropped between any two polls, what
    was accepted is, in order and once, what the browser has fulfilled, then the
    one write under way, then what was lost: the bytes of writes that failed, each
    reported by the poll that failed, after which the stream is closed and idle.  A
    write accepts up to 65,536 bytes of the front of its buffer and never panics;
    when a flush or close is ready, the browser has fulfilled everything but what
    was lost before (which only the earlier error tells, not this answer), and all
    of it on a stream that was open, on which close closes the writer; [finish]
    refuses while a write is under way, changing nothing; and [closed], which is
    meant to wait, then fails at once. *)
Theorem wasm_send_accounts `{WebErrors} {W R} `{!JsWriter W R} (delivered : W -> bytes) `{!JsWriterLaws delivered}
  (w : W) (r : R) (acc lost : bytes) (s : SendStream W R) (Hw : delivered w = [])
  (Hrun : accepts (MkSendStream r (Some w) Idle false) acc lost s) :
  one_writer s /\
  acc = handed delivered s ++ under_way s ++ lost /\ (lost <> [] -> is_closed s = true /\ write_state s = Idle) /\
  (forall buf, match Send.poll_write buf s with
     | (Ok (Some n), s') => n = Z.min (len buf) 65536
     | (Ok None, s') => is_closed s = false
     | (Err _, s') => buf <> [] /\ is_closed s' = true
     | _ => False
     end) /\
  (match Send.poll_flush s with
   | (Ok (Some _), s') => under_way s' = [] /\ handed delivered s' ++ lost = acc /\ (is_closed s = false -> lost = [])
   | (Ok None, _) => True
   | (Err _, s') => is_closed s' = true /\ handed delivered s' ++ under_way s ++ lost = acc
   | _ => False
   end) /\
  (match Send.poll_close s with
   | (Ok (Some _), s') => is_closed s' = true /\ handed delivered s' ++ lost = acc /\
       (is_closed s = false -> exists w, writer s' = Some (writer_close w) /\ delivered w = acc)
   | (Ok None, _) => True
   | (Err _, s') => is_closed s' = true /\ handed delivered s' ++ under_way s ++ lost = acc
   | _ => False
   end) /\
  (write_state s <> Idle ->
     Send.finish s = (Err (Unknown (js_str (lit "flush pending writes before finish"))), s) /\
     Send.closed s = (Err (Unknown (js_str (lit "writer is unavailable"))), s)).
Proof.
  pose proof (accepts_holds delivered _ _ _ _ Hrun (new_holds delivered w r Hw)) as Hh.
  pose proof Hh as (Hone & Hacc & Hlost & Hidle).
  assert (Hsettled : forall (s' : SendStream W R) lost', holds delivered s' acc lost' -> write_state s' = Idle -> handed delivered s' ++ lost' = acc).
  { intros s' lost' (_ & E & _) Hi. rewrite E. unfold under_way. by rewrite Hi. }
  split; [done|]. split; [done|]. split; [by auto|]. split; [|split; [|split]].
  - intros buf. pose proof (poll_write_holds delivered buf s acc lost Hh) as Hp. unfold Send.poll_write in *.
    case_bool_decide as Hb; [by subst|]. destruct (is_closed s) eqn:Hcl; [by cbn|].
    destruct (bind _ _ s) as [[[n|]|e| |] s']; try done; by destruct Hp.
  - pose proof (poll_flush_holds delivered s acc lost Hh) as Hp. destruct (Send.poll_flush s) as [[[[]|]|e| |] s'];
      destruct Hp as [Hh' Hp]; try done; cbn [lost_by app] in Hh'.
    + destruct Hp as [Hi Hcl]. split; [unfold under_way; by rewrite Hi|]. split; [by apply Hsettled|].
      intros Ho. by apply (holds_open delivered s acc).
    + split; [done|]. apply Hsettled; [done|]. by apply Hh'.
  - pose proof (poll_close_holds delivered s acc lost Hh) as Hp. destruct (Send.poll_close s) as [[[[]|]|e| |] s'];
      destruct Hp as [Hh' Hp]; try done; cbn [lost_by app] in Hh'.
    + destruct Hp as (Hi & Hcl & Hw'). split; [done|]. split; [by apply Hsettled|done].
    + split; [done|]. apply Hsettled; [done|]. by apply Hh'.
  - intros Hw'. split; [unfold Send.finish; by destruct (write_state s)|].
    pose proof (closed_holds delivered s acc lost Hh) as Hc. destruct (Send.closed s) as [rc sc].
    destruct Hc as (_ & _ & Hc). by destruct (Hc Hw') as [-> ->].
Qed.
Lemma wasm_send_accounts_witness :
  let first := MkSendStream () (Some []) Idle false in
  let s := (Send.poll_write (JsWriter0:=sample_js_writer) [1; 2; 3] first).2 in
  one_writer s /\ (Send.finish (JsWriter0:=sample_js_writer) s).2 = s.
Proof.
  intros first s.
  assert (Hrun : accepts (JsWriter0:=sample_js_writer) first ([] ++ [1; 2; 3]) ([] ++ []) s)
    by (exact (accepts_write first [] [] first [1; 2; 3] (Ok (Some 3)) s (accepts_start first) eq_refl)).
  destruct (wasm_send_accounts (JsWriter0:=sample_js_writer) id (JsWriterLaws0:=sample_js_writer_laws) [] () _ _ s eq_refl Hrun)
    as (Hone & _ & _ & _ & _ & _ & Hfin).
  split; [exact Hone|]. rewrite (proj1 (Hfin ltac:(discriminate))). reflexivity.
Defined.

(** The [write] of the browser backend is a write of everything.  When it
    succeeds it reports the length of the buffer, and the browser has fulfilled all
    that the stream ever accepted, this buffer last; when it fails, the stream
    accepted a part of the buffer in front; it never panics. *)
Theorem wasm_write_fulfilled `{WebErrors} {W R} `{!JsWriter W R} `{!AsyncWriteExt} (delivered : W -> bytes)
  `{!JsWriterLaws delivered} `{!AsyncWriteExtLaws} (s : SendStream W R) (acc lost buf : bytes)
  (Hs : holds delivered s acc lost) (Hbuf : buf <> []) :
  let '(r, s') := Send.trait_write buf s in
  r <> Panic /\ (exists n lost', 0 <= n <= len buf /\ holds delivered s' (acc ++ take (Z.to_nat n) buf) lost') /\
  forall size, r = Ok size -> size = len buf /\ under_way s' = [] /\ handed delivered s' = acc ++ buf.
Proof.
  unfold Send.trait_write, Send.write, bind, map_err.
  pose proof (writes_all_holds delivered buf s _ _ (ext_write_all_polls Send.poll_write buf s) acc lost Hs) as Hw.
  pose proof (fun Hr => writes_all_open _ _ _ _ (ext_write_all_polls Send.poll_write buf s) Hr (or_introl Hbuf)) as Hopen.
  destruct (ext_write_all Send.poll_write buf s) as [r s1]. cbn [fst snd] in *. destruct Hw as (Hp & n & lost1 & Hn & Hh & Hall).
  destruct r as [[]|e| |]; try done; [|by split; [|split; [by exists n, lost1|]]..].
  specialize (Hall eq_refl). subst n. specialize (Hopen eq_refl).
  pose proof (flush_ends delivered s1 _ _ Hh) as Hf. destruct (ext_flush Send.poll_flush s1) as [r s2].
  destruct Hf as (Hp2 & [lost2 Hh2] & Hok). destruct r as [[]|e| |]; try done;
    (split; [done|]; split; [by exists (len buf), lost2; pose_len; split; [lia|]|]; try done).
  intros size [= <-]. destruct (Hok eq_refl) as [Hi Hc]. split; [done|]. rewrite take_len_all in Hh2.
  pose proof (holds_open _ _ _ _ Hh2 ltac:(congruence)) as ->. destruct Hh2 as (_ & Hacc & _).
  unfold under_way in *. rewrite Hi in *. split; [done|]. by rewrite Hacc, app_nil_r.
Qed.
Fixpoint sample_write_all {S} (fuel : nat) (poll : bytes -> M S io_error (option Z)) (l : bytes) (s : S) : outcome io_error unit * S :=
  match fuel with
  | O => (OutOfFuel, s)
  | Datatypes.S fuel =>
      if bool_decide (l = []) then (Ok (), s) else
      match poll l s with
      | (Ok None, s) => sample_write_all fuel poll l s
      | (Ok (Some n), s) => if n =? 0 then (Err (IoError WriteZero []), s) else sample_write_all fuel poll (List.skipn (Z.to_nat n) l) s
      | (Err e, s) => (Err e, s)
      | (Panic, s) => (Panic, s)
      | (OutOfFuel, _) => (OutOfFuel, s)
      end
  end.
Lemma sample_write_all_polls {S} (poll : bytes -> M S io_error (option Z)) fuel : forall l s,
  writes_all poll l s (sample_write_all fuel poll l s).1 (sample_write_all fuel poll l s).2.
Proof.
  induction fuel as [|fuel IH]; intros l s; [apply wrote_never|]. cbn [sample_write_all].
  case_bool_decide as Hl; [subst; apply wrote_all|]. destruct (poll l s) as [[[n|]|e| |] s1] eqn:E.
  - destruct (Z.eqb_spec n 0) as [->|Hn]; [by eapply wrote_zero|]. eapply wrote_some; [done..|]. apply IH.
  - eapply wrote_pending; [done..|]. apply IH.
  - by apply wrote_failed.
  - by apply wrote_panic.
  - apply wrote_never.
Qed.
Definition sample_ext : AsyncWriteExt := {|
  ext_write_all S poll l s := sample_write_all (3 + 3 * length l) poll l s;
  ext_write S poll l := poll_fn 10 (poll l);
  ext_flush S poll := poll_fn 10 poll |}.
Lemma sample_ext_laws : @AsyncWriteExtLaws sample_ext.
Proof. split; [intros; apply sample_write_all_polls|intros; by exists 10%nat]. Qed.
Lemma wasm_write_fulfilled_witness :
  let s := MkSendStream () (Some [9]) Idle false in
  let r := Send.trait_write (JsWriter0:=sample_js_writer) (H1:=sample_ext) [1; 2; 3] s in
  r.1 = Ok 3 /\ under_way r.2 = [] /\ handed id r.2 = [9] ++ [1; 2; 3].
Proof.
  intros s r. assert (Hs : holds id s [9] []) by (split; [exact I|]; split; [reflexivity|]; split; [done|discriminate]).
  pose proof (wasm_write_fulfilled (JsWriter0:=sample_js_writer) (H1:=sample_ext) id
    (JsWriterLaws0:=sample_js_writer_laws) (H2:=sample_ext_laws) s [9] [] [1; 2; 3] Hs ltac:(discriminate)) as Hw.
  assert (Hr : r.1 = Ok 3) by reflexivity. split; [exact Hr|]. change (Send.trait_write [1; 2; 3] s) with r in Hw.
  destruct r as [o s']. cbn [fst snd] in *. destruct Hw as (_ & _ & Hw). exact (proj2 (Hw 3 Hr)).
Defined.

(** C16: reading a browser stream loses and reorders nothing.  In any run of polls,
    with any maxima and by any readers, dropped between polls or not, the chunks
    given out are the front of what the stream holds, in order; what remains is
    what it will still yield.  A poll never panics; a maximum of zero yields an
    empty chunk and consumes nothing; any other chunk is neither empty nor above
    its maximum; the end is reported only when everything was given out, and again
    by every later poll; after an error nothing more comes. *)
Theorem wasm_recv_complete `{WebErrors} {Rd R} `{!JsReader Rd R} (rest : Rd -> bytes) `{!JsReaderLaws rest}
  (rd : Rd) (r : R) (acc : bytes) (s : RecvStream Rd R)
  (Hrun : yields (MkRecvStream r false (Some rd) [] RIdle) acc s) :
  rest rd = acc ++ content rest s /\
  (forall max, 0 <= max -> match Recv.poll_chunk max s with
     | (Ok None, s') => content rest s' = content rest s
     | (Ok (Some (Some c)), s') => content rest s = c ++ content rest s' /\ len c <= max /\ (c = [] <-> max = 0)
     | (Ok (Some None), s') => rest rd = acc /\ forall max', 0 < max' -> Recv.poll_chunk max' s' = (Ok (Some None), s')
     | (Err _, s') => forall max', 0 < max' -> Recv.poll_chunk max' s' = (Ok (Some None), s')
     | _ => False
     end) /\
  (forall fuel dst, dst <> [] -> match Recv.trait_read fuel dst s with
     | (Ok (Some n, dst'), s') => len dst' = len dst /\ 0 < n <= len dst /\ content rest s = take (Z.to_nat n) dst' ++ content rest s'
     | (Ok (None, dst'), s') => rest rd = acc /\ dst' = dst
     | (Err _, s') => content rest s' = []
     | (OutOfFuel, s') => content rest s' = content rest s
     | (Panic, _) => False
     end).
Proof.
  destruct (yields_content rest _ _ _ Hrun I) as [Hone Hc]. change (content rest (MkRecvStream r false (Some rd) [] RIdle)) with (rest rd) in Hc.
  assert (Hend : forall s' max', content rest s' = [] -> eof s' = true -> 0 < max' -> Recv.poll_chunk max' s' = (Ok (Some None), s')).
  { intros s' max' Hn He Hm. unfold Recv.poll_chunk. rewrite (proj2 (Z.eqb_neq _ _)) by lia. cbn [Recv.poll_rounds].
    unfold content in Hn. rewrite He, app_nil_r in Hn. rewrite bool_decide_eq_true_2 by done. cbn. by rewrite He. }
  split; [done|]. split.
  - intros max Hm. pose proof (poll_chunk_polled rest max s Hm Hone) as Hp. destruct (Recv.poll_chunk max s) as [o s'].
    destruct (Z.eqb_spec max 0) as [->|Hne].
    { destruct Hp as [-> ->]. split; [done|]. split; [by vm_compute|done]. }
    destruct Hp as (_ & _ & Hp). destruct o as [[[c|]|]|e| |]; try done.
    + destruct Hp as (? & ? & ?). by split_and!.
    + destruct Hp as (Hn & Hn' & He). split; [by rewrite Hc, Hn, app_nil_r|]. intros max'. by apply Hend.
    + destruct Hp as (Hn' & He). intros max'. by apply Hend.
  - intros fuel dst Hdst. assert (Hpos : 0 < len dst) by (destruct dst; [done|rewrite len_cons; pose_len; lia]).
    unfold Recv.trait_read, bind, ret. pose proof (read_ends rest fuel (len dst) s Hpos Hone) as Hr.
    destruct (Recv.read fuel (len dst) s) as [[[c|]|e| |] s']; destruct Hr as [_ Hr]; try done.
    + destruct Hr as (Hcc & Hne & Hl). pose_len. split; [|split].
      * rewrite len_app. unfold len in *. rewrite length_skipn. lia.
      * destruct c; [done|]. rewrite len_cons in *. pose_len. lia.
      * by rewrite take_len_app.
    + destruct Hr as [Hn _]. split; [by rewrite Hc, Hn, app_nil_r|done].
Qed.
Lemma wasm_recv_complete_witness :
  let rd := MkSampleReader false [[1; 2]; [3]] in
  let start := MkRecvStream () false (Some rd) [] RIdle in
  let s1 := (Recv.poll_chunk (JsReader0:=sample_js_reader) 9 start).2 in
  let s2 := (Recv.poll_chunk (JsReader0:=sample_js_reader) 1 s1).2 in
  concat (sr_chunks rd) = [1] ++ content (fun rd => concat (sr_chunks rd)) s2.
Proof.
  intros rd start s1 s2.
  assert (Hrun : yields (JsReader0:=sample_js_reader) start ([] ++ [1]) s2).
  { eapply (yields_chunk start [] s1 1); [|lia|reflexivity]. eapply (yields_pending start [] start 9); [apply yields_start|lia|reflexivity]. }
  exact (proj1 (wasm_recv_complete (JsReader0:=sample_js_reader) (fun rd => concat (sr_chunks rd)) (JsReaderLaws0:=sample_js_reader_laws)
    rd () _ s2 Hrun)).
Defined.
