(* ===== verification/WasmSession.v ===== *)
(** * Sessions of the browser backend (webtrans-wasm/src: session.rs, client.rs)

    Handles on one session share its readers and its datagram writer, each behind a
    lock that a call holds while it awaits.  The calls of all handles are the steps
    of a system; the browser's session is a type class of its operations. *)
From S2P Require Import Prelude Buf Streams WasmStreams.

(** ** SharedReader: one reader behind a lock *)

(** One poll of [reader.read()]; a read that is dropped while pending is resumed by
    the next. *)
Class ReaderOf `{WebErrors} (Rd T : Type) := { next_poll : M Rd web_error (option (option T)) }.

Section SharedReader.
Context `{WebErrors} {Rd T : Type} `{!ReaderOf Rd T}.

(** A call of [read]: it waits for the lock, holds it, or is over. *)
Inductive call := Locking | Holding | Returned (r : outcome web_error (option T)) | Dropped.
Record SharedReader := MkSharedReader { shared_reader : Rd; lock_holder : option nat; calls : list call }.
Definition SharedReader_new (new_reader : outcome web_error Rd) : outcome web_error SharedReader :=
  let? reader := new_reader in Ok (MkSharedReader reader None []).

(** What a poll of the [i]th call does; a call that is not over is polled whenever
    its task is woken.  [SharedReader_drop] is the drop of its future. *)
Definition SharedReader_poll (i : nat) (s : SharedReader) : SharedReader :=
  let read (s : SharedReader) :=
    match next_poll (shared_reader s) with
    | (Ok None, rd) => MkSharedReader rd (lock_holder s) (calls s)
    | (Ok (Some r), rd) => MkSharedReader rd None (<[i := Returned (Ok r)]> (calls s))
    | (Err e, rd) => MkSharedReader rd None (<[i := Returned (Err e)]> (calls s))
    | (Panic, rd) => MkSharedReader rd None (<[i := Returned Panic]> (calls s))
    | (OutOfFuel, rd) => MkSharedReader rd (lock_holder s) (calls s)
    end in
  match calls s !! i with
  | Some Locking =>
      match lock_holder s with
      | None => read (MkSharedReader (shared_reader s) (Some i) (<[i := Holding]> (calls s)))
      | Some _ => s
      end
  | Some Holding => read s
  | _ => s
  end.
Definition SharedReader_drop (i : nat) (s : SharedReader) : SharedReader :=
  match calls s !! i with
  | Some Locking => MkSharedReader (shared_reader s) (lock_holder s) (<[i := Dropped]> (calls s))
  | Some Holding => MkSharedReader (shared_reader s) None (<[i := Dropped]> (calls s))
  | _ => s
  end.
(** Any handle calls, polls or drops; [got] is what a step returns to its caller. *)
Inductive reader_step : option T -> SharedReader -> SharedReader -> Prop :=
| step_read s : reader_step None s (MkSharedReader (shared_reader s) (lock_holder s) (calls s ++ [Locking]))
| step_poll i s got :
    got = match calls (SharedReader_poll i s) !! i, calls s !! i with
          | Some (Returned (Ok (Some t))), Some (Locking | Holding) => Some t
          | _, _ => None
          end ->
    reader_step got s (SharedReader_poll i s)
| step_drop i s : reader_step None s (SharedReader_drop i s).
Inductive reader_steps : list T -> SharedReader -> SharedReader -> Prop :=
| reader_steps_nil s : reader_steps [] s s
| reader_steps_cons got s s1 s' l : reader_step got s s1 -> reader_steps l s1 s' -> reader_steps (from_option (fun x => [x]) [] got ++ l) s s'.
End SharedReader.
Arguments SharedReader {H H0} Rd T : rename.

(** ** The session *)

(** [incoming_*] and [datagram_read] are completed calls of the shared readers;
    [closed_promise] gives the close info, both parts of which may be missing. *)
Class Browser `{WebErrors} (J W Rd R : Type) := {
  writer_new : R -> outcome web_error W;
  reader_new : R -> outcome web_error Rd;
  incoming_uni : M J web_error (option R);
  incoming_bi : M J web_error (option (R * R));
  datagram_read : M J web_error (option bytes);
  datagram_write : bytes -> M J web_error unit;
  create_bidirectional_stream : M J JsValue (R * R);
  create_unidirectional_stream : M J JsValue R;
  close_with_close_info : Z -> bytes -> J -> J;
  closed_promise : M J JsValue (option Z * option bytes);
  datagrams_max_size : J -> Z
}.

Module Session.
Section Session.
Context `{WebErrors} {J W Rd R : Type} `{!Browser J W Rd R}.
Definition convert {A} (o : outcome web_error A) : outcome Error A :=
  match o with Ok a => Ok a | Err e => Err (error_from_web e) | Panic => Panic | OutOfFuel => OutOfFuel end.
Definition new_send (stream : R) : outcome Error (SendStream W R) := Send.new (fun s => convert (writer_new s)) stream.
Definition new_recv (stream : R) : outcome Error (RecvStream Rd R) := Recv.new (fun s => convert (reader_new s)) stream.

Definition closed : M J Empty_set Error := fun j =>
  match closed_promise j with
  | (Ok (code, reason), j) => (Ok (SessionClosed (default 0 code) (default [] reason)), j)
  | (Err error, j) => (Ok (error_from_js error), j)
  | (Panic, j) => (Panic, j)
  | (OutOfFuel, j) => (OutOfFuel, j)
  end.
(** [Err(self.closed().await)] *)
Definition closed_error {A} : M J Error A :=
  let* error := map_err (fun e : Empty_set => match e with end) closed in
  throw error.

Definition accept_uni : M J Error (RecvStream Rd R) :=
  let* stream := map_err error_from_web incoming_uni in
  match stream with
  | Some stream => lift (new_recv stream)
  | None => closed_error
  end.
Definition bidirectional (stream : R * R) : outcome Error (SendStream W R * RecvStream Rd R) :=
  let? send := new_send stream.1 in
  let? recv := new_recv stream.2 in
  Ok (send, recv).
Definition accept_bi : M J Error (SendStream W R * RecvStream Rd R) :=
  let* stream := map_err error_from_web incoming_bi in
  match stream with
  | Some stream => lift (bidirectional stream)
  | None => closed_error
  end.
Definition open_bi : M J Error (SendStream W R * RecvStream Rd R) :=
  let* stream := map_err error_from_js create_bidirectional_stream in
  lift (bidirectional stream).
Definition open_uni : M J Error (SendStream W R) :=
  let* stream := map_err error_from_js create_unidirectional_stream in
  lift (new_send stream).
Definition send_datagram (payload : bytes) : M J Error unit := map_err error_from_web (datagram_write payload).
Definition recv_datagram : M J Error bytes :=
  let* data := map_err error_from_web datagram_read in
  match data with
  | Some data => ret data
  | None => closed_error
  end.
Definition close (code : Z) (reason : bytes) : J -> J := close_with_close_info code reason.
(** [as usize] of an unsigned 32-bit size. *)
Definition max_datagram_size (j : J) : Z := datagrams_max_size j.
End Session.
End Session.

(** ** client.rs *)

(** The options are an object of the browser with the fields that were set; a hash is
    an object with an algorithm and a value. *)
Record Hash := MkHash { hash_algorithm : bytes; hash_value : bytes }.
Record WebTransportOptions (CongestionControl : Type) := MkOptions {
  allow_pooling : option bool; require_unreliable : option bool; congestion_control : option CongestionControl;
  server_certificate_hashes : option (list Hash) }.
Arguments MkOptions {CongestionControl}. Arguments allow_pooling {CongestionControl}. Arguments require_unreliable {CongestionControl}.
Arguments congestion_control {CongestionControl}. Arguments server_certificate_hashes {CongestionControl}.
Module Client.
Section Options.
Context {CongestionControl : Type}.
Abbreviation WebTransportOptions := (WebTransportOptions CongestionControl).
Definition ClientBuilder_new : WebTransportOptions := MkOptions None None None None.
Definition with_pooling (val : bool) (o : WebTransportOptions) : WebTransportOptions :=
  MkOptions (Some val) (require_unreliable o) (congestion_control o) (server_certificate_hashes o).
Definition with_unreliable (val : bool) (o : WebTransportOptions) : WebTransportOptions :=
  MkOptions (allow_pooling o) (Some val) (congestion_control o) (server_certificate_hashes o).
Definition with_congestion_control (control : CongestionControl) (o : WebTransportOptions) : WebTransportOptions :=
  MkOptions (allow_pooling o) (require_unreliable o) (Some control) (server_certificate_hashes o).
Definition with_server_certificate_hashes (hashes : list bytes) (o : WebTransportOptions) : WebTransportOptions :=
  let hashes := map (fun hash => MkHash (lit "sha-256") hash) hashes in
  MkOptions (allow_pooling o) (require_unreliable o) (congestion_control o) (Some hashes).
Definition with_system_roots (o : WebTransportOptions) : WebTransportOptions := o.
End Options.

(** What the browser does with a URL and options, and the streams of a session. *)
Class BrowserApi `{WebErrors} (CongestionControl World J Ru Rb Rg W : Type) := {
  new_with_options : bytes -> WebTransportOptions CongestionControl -> M World JsValue J;
  ready_promise : J -> M World JsValue unit;
  unidirectional_reader : J -> outcome web_error Ru;
  bidirectional_reader : J -> outcome web_error Rb;
  datagrams_reader : J -> outcome web_error Rg;
  datagrams_writer : J -> outcome web_error W
}.
Section Connect.
Context `{WebErrors} {CongestionControl World J Ru Rb Rg W Su Sb : Type} `{!BrowserApi CongestionControl World J Ru Rb Rg W}.
Record Session := MkSession {
  inner : J; url : bytes; incoming_uni : SharedReader Ru Su; incoming_bi : SharedReader Rb Sb;
  datagram_reader : SharedReader Rg bytes; datagram_writer : W }.
Definition Session_new (inner : J) (url : bytes) : outcome Error Session :=
  let? incoming_uni := Session.convert (SharedReader_new (unidirectional_reader inner)) in
  let? incoming_bi := Session.convert (SharedReader_new (bidirectional_reader inner)) in
  let? datagram_reader := Session.convert (SharedReader_new (datagrams_reader inner)) in
  let? datagram_writer := Session.convert (datagrams_writer inner) in
  Ok (MkSession inner url incoming_uni incoming_bi datagram_reader datagram_writer).
Definition connect (options : WebTransportOptions CongestionControl) (url : bytes) : M World Error Session :=
  let* inner := map_err error_from_js (new_with_options url options) in
  map_err error_from_js (ready_promise inner) ;;;
  lift (Session_new inner url).
End Connect.
End Client.

(** A session that connects is the browser's for the URL and the options, and no call
    has been made on its readers. *)
Lemma connect_fresh `{WebErrors} {CC World J Ru Rb Rg W Su Sb} `{!Client.BrowserApi CC World J Ru Rb Rg W} options url w0 session w' :
  Client.connect (Su:=Su) (Sb:=Sb) options url w0 = (Ok session, w') ->
  exists w1 ru rb rg, Client.new_with_options url options w0 = (Ok (Client.inner session), w1) /\
    Client.incoming_uni session = MkSharedReader ru None [] /\ Client.incoming_bi session = MkSharedReader rb None [] /\
    Client.datagram_reader session = MkSharedReader rg None [].
Proof.
  unfold Client.connect, bind, map_err, lift, Client.Session_new, SharedReader_new. intros Hc.
  destruct (Client.new_with_options url options w0) as [[inner|e| |] w1]; simplify_eq.
  destruct (Client.ready_promise inner w1) as [[[]|e| |] w2]; simplify_eq.
  destruct (Client.unidirectional_reader inner) as [ru|e| |]; simplify_eq/=.
  destruct (Client.bidirectional_reader inner) as [rb|e| |]; simplify_eq/=.
  destruct (Client.datagrams_reader inner) as [rg|e| |]; simplify_eq/=.
  destruct (Client.datagrams_writer inner) as [w|e| |]; simplify_eq/=. by eexists _, _, _, _.
Qed.

(** ** What the readers share *)
Class ReaderOfLaws `{WebErrors} {Rd T} `{!ReaderOf Rd T} (queue : Rd -> list T) : Prop := {
  next_polls rd : let '(r, rd') := next_poll rd in
    completes r /\
    match r with
    | Ok None => queue rd' = queue rd
    | Ok (Some (Some t)) => queue rd = t :: queue rd'
    | _ => queue rd = [] /\ queue rd' = []
    end
}.

Section Serial.
Context `{WebErrors} {Rd T : Type} `{!ReaderOf Rd T} (queue : Rd -> list T) `{!ReaderOfLaws queue}.
Abbreviation Sys := (SharedReader Rd T).

(** The lock is held by the call that says so, and by no other. *)
Definition lock_ok (s : Sys) : Prop := forall i, calls s !! i = Some Holding <-> lock_holder s = Some i.

Lemma lock_ok_insert (s : Sys) i c rd h :
  lock_ok s -> is_Some (calls s !! i) -> c <> Holding ->
  h = match calls s !! i with Some Holding => None | _ => lock_holder s end ->
  lock_ok (MkSharedReader rd h (<[i := c]> (calls s))).
Proof.
  intros Hok [c0 Hi] Hc -> j. cbn. pose proof (Hok i) as Hoi. pose proof (Hok j) as Hoj. rewrite Hi in *.
  destruct (decide (i = j)) as [<-|Hne].
  - rewrite list_lookup_insert_eq by by eapply lookup_lt_Some. split; [congruence|].
    destruct c0; try done; intros E; by apply Hoi in E.
  - rewrite list_lookup_insert_ne by done. rewrite Hoj. destruct c0; try done.
    assert (E : lock_holder s = Some i) by by apply Hoi. rewrite E. split; congruence.
Qed.
(** The holder of the lock is polled: it reads. *)
Lemma read_step i (s : Sys) :
  lock_ok s -> calls s !! i = Some Holding ->
  lock_ok (SharedReader_poll i s) /\
  queue (shared_reader s) = match calls (SharedReader_poll i s) !! i with Some (Returned (Ok (Some t))) => [t] | _ => [] end
    ++ queue (shared_reader (SharedReader_poll i s)).
Proof.
  intros Hok Hi. unfold SharedReader_poll. rewrite Hi. pose proof (next_polls (shared_reader s)) as Hp.
  destruct (next_poll (shared_reader s)) as [r rd]. destruct Hp as [Hc Hp].
  assert (Hend : forall c, c <> Holding -> lock_ok (MkSharedReader rd None (<[i := c]> (calls s)))).
  { intros c Hn. apply lock_ok_insert; [done|by eexists|done|]. by rewrite Hi. }
  assert (Hat : forall c, (<[i := c]> (calls s)) !! i = Some c).
  { intros c. apply list_lookup_insert_eq. by eapply lookup_lt_Some. }
  destruct (completes_cases r Hc) as [[[[t|]|] ->]|[e ->]]; cbn [shared_reader calls]; rewrite ?Hat.
  - split; [by apply Hend|done].
  - destruct Hp as [Hq Hq']. split; [by apply Hend|]. by rewrite Hq, Hq'.
  - rewrite Hi. split; [exact Hok|]. by rewrite Hp.
  - destruct Hp as [Hq Hq']. split; [by apply Hend|]. by rewrite Hq, Hq'.
Qed.
Lemma acquire_ok i (s : Sys) :
  lock_ok s -> calls s !! i = Some Locking -> lock_holder s = None ->
  lock_ok (MkSharedReader (shared_reader s) (Some i) (<[i := Holding]> (calls s))).
Proof.
  intros Hok Hi Hn j. cbn. destruct (decide (i = j)) as [<-|Hne].
  - rewrite list_lookup_insert_eq by by eapply lookup_lt_Some. split; done.
  - rewrite list_lookup_insert_ne by done. rewrite (Hok j), Hn. split; congruence.
Qed.
Lemma acquire_poll i (s : Sys) :
  calls s !! i = Some Locking -> lock_holder s = None ->
  SharedReader_poll i s = SharedReader_poll i (MkSharedReader (shared_reader s) (Some i) (<[i := Holding]> (calls s))).
Proof.
  intros Hi Hn. unfold SharedReader_poll. rewrite Hi, Hn. cbn [calls].
  by rewrite list_lookup_insert_eq by by eapply lookup_lt_Some.
Qed.
Lemma reader_step_serial got (s s' : Sys) :
  reader_step got s s' -> lock_ok s ->
  lock_ok s' /\ queue (shared_reader s) = from_option (fun x => [x]) [] got ++ queue (shared_reader s').
Proof.
  destruct 1 as [s|i s got ->|i s]; intros Hok.
  - split; [|done]. intros j. cbn. rewrite <- (Hok j). destruct (Nat.lt_ge_cases j (length (calls s))) as [Hlt|Hge].
    + by rewrite lookup_app_l.
    + rewrite lookup_app_r, (lookup_ge_None_2 (calls s)) by done. by destruct (j - length (calls s))%nat as [|[|k]].
  - assert (Hpoll : forall s1 : Sys, lock_ok s1 -> calls s1 !! i = Some Holding -> shared_reader s1 = shared_reader s ->
      SharedReader_poll i s = SharedReader_poll i s1 -> calls s !! i = Some Holding \/ calls s !! i = Some Locking ->
      lock_ok (SharedReader_poll i s) /\ queue (shared_reader s) =
        from_option (fun x => [x]) [] (match calls (SharedReader_poll i s) !! i, calls s !! i with
          | Some (Returned (Ok (Some t))), Some (Locking | Holding) => Some t | _, _ => None end)
        ++ queue (shared_reader (SharedReader_poll i s))).
    { intros s1 Hok1 Hi1 Hrd -> Hc. rewrite <- Hrd. destruct (read_step i s1 Hok1 Hi1) as [Hl Hq]. split; [done|]. rewrite Hq.
      destruct Hc as [-> | ->]; by destruct (calls (SharedReader_poll i s1) !! i) as [[| |[[t|]| | |]|]|]. }
    destruct (calls s !! i) as [[| |r|]|] eqn:Hi.
    + destruct (lock_holder s) as [h|] eqn:Hh.
      * unfold SharedReader_poll. rewrite Hi, Hh, Hi. done.
      * apply (Hpoll (MkSharedReader (shared_reader s) (Some i) (<[i := Holding]> (calls s)))); [by apply acquire_ok| |done|by apply acquire_poll|by right].
        cbn. apply list_lookup_insert_eq. by eapply lookup_lt_Some.
    + apply (Hpoll s); auto.
    + unfold SharedReader_poll. rewrite Hi, Hi. by destruct r as [[t|]| | |].
    + unfold SharedReader_poll. by rewrite Hi, Hi.
    + unfold SharedReader_poll. by rewrite Hi, Hi.
  - unfold SharedReader_drop. destruct (calls s !! i) as [[| |r|]|] eqn:Hi; try done.
    + split; [|done]. apply lock_ok_insert; [done|by eexists|done|]. by rewrite Hi.
    + split; [|done]. apply lock_ok_insert; [done|by eexists|done|]. by rewrite Hi.
Qed.
Lemma reader_steps_serial l (s s' : Sys) :
  reader_steps l s s' -> lock_ok s -> lock_ok s' /\ queue (shared_reader s) = l ++ queue (shared_reader s').
Proof.
  induction 1 as [s|got s s1 s' l Hstep Hs IH]; [done|]. intros Hok.
  destruct (reader_step_serial _ _ _ Hstep Hok) as [Hok1 Hq]. destruct (IH Hok1) as [Hok' Hq']. split; [done|].
  by rewrite Hq, Hq', app_assoc.
Qed.
End Serial.

(** ** A sample: streams are numbers, and a read is ready at its second poll *)
Record SampleQueue := MkSampleQueue { sq_ready : bool; sq_items : list Z }.
Definition sample_reader_of : ReaderOf (H0:=sample_web_errors) SampleQueue Z :=
  @Build_ReaderOf sample_web sample_web_errors SampleQueue Z
    (fun rd => if sq_ready rd
      then match sq_items rd with [] => (Ok (Some None), rd) | t :: ts => (Ok (Some (Some t)), MkSampleQueue false ts) end
      else (Ok None, MkSampleQueue true (sq_items rd))).
Lemma sample_reader_of_laws : ReaderOfLaws (ReaderOf0:=sample_reader_of) sq_items.
Proof. split. intros [[] [|t ts]]; cbn; (split; [apply completes_Ok|done]). Qed.

(** ** Properties *)

(** C29: the handles of a browser session share what arrives.  In any interleaving
    of the calls of any handles, polled and dropped in any order, at most one call
    reads at a time; each stream or datagram that arrives is returned to exactly one
    call, in order of arrival, and none is lost when a call is dropped; and a
    waiting call that is polled while no call holds the lock reads.  A session that
    has ended answers [accept_*] and [recv_datagram] with its close code and reason,
    0 and empty when the browser gives none.  A session that a client connects is
    the browser's for the URL and options, its readers free and without a call. *)
Theorem wasm_shared_reads `{WebErrors} {Rd T} `{!ReaderOf Rd T} (queue : Rd -> list T) `{!ReaderOfLaws queue}
  (rd : Rd) (l : list T) (s : SharedReader Rd T) (Hsteps : reader_steps l (MkSharedReader rd None []) s) :
  queue rd = l ++ queue (shared_reader s) /\
  (forall i j, calls s !! i = Some Holding -> calls s !! j = Some Holding -> i = j) /\
  (forall i, calls s !! i = Some Locking ->
     (exists h, h <> i /\ calls s !! h = Some Holding /\
        (calls (SharedReader_drop h s) !! i = Some Locking /\ lock_holder (SharedReader_drop h s) = None)) \/
     (lock_holder s = None /\ (calls (SharedReader_poll i s) !! i = Some Holding \/
        exists r, calls (SharedReader_poll i s) !! i = Some (Returned r)))) /\
  (forall J W Rr R (B : Browser J W Rr R) j j1 j2 code reason, closed_promise j1 = (Ok (code, reason), j2) ->
     let error := SessionClosed (default 0 code) (default [] reason) in
     error_session_error error = Some (default 0 code, default [] reason) /\
     (incoming_uni j = (Ok None, j1) -> Session.accept_uni j = (Err error, j2)) /\
     (incoming_bi j = (Ok None, j1) -> Session.accept_bi j = (Err error, j2)) /\
     (datagram_read j = (Ok None, j1) -> Session.recv_datagram j = (Err error, j2))) /\
  (forall CC World J Ru Rb Rg W Su Sb (A : Client.BrowserApi CC World J Ru Rb Rg W) options url w0 session w',
     Client.connect (Su:=Su) (Sb:=Sb) options url w0 = (Ok session, w') ->
     exists w1 ru rb rg, Client.new_with_options url options w0 = (Ok (Client.inner session), w1) /\
       Client.incoming_uni session = MkSharedReader ru None [] /\ Client.incoming_bi session = MkSharedReader rb None [] /\
       Client.datagram_reader session = MkSharedReader rg None []).
Proof.
  destruct (reader_steps_serial queue l _ s Hsteps) as [Hok Hq]; [by intros i|]. split; [exact Hq|]. split; [|split; [|split]].
  - intros i j Hi Hj. apply Hok in Hi, Hj. congruence.
  - intros i Hi. destruct (lock_holder s) as [h|] eqn:Hh.
    + left. exists h. assert (Hc : calls s !! h = Some Holding) by by apply Hok.
      assert (Hne : h <> i) by (intros ->; congruence). split; [done|]. split; [done|].
      unfold SharedReader_drop. rewrite Hc. cbn. by rewrite list_lookup_insert_ne.
    + right. split; [done|]. rewrite (acquire_poll i s Hi Hh). unfold SharedReader_poll. cbn [calls].
      assert (Hlt : (i < length (calls s))%nat) by by eapply lookup_lt_Some.
      rewrite list_lookup_insert_eq by done. destruct (next_poll _) as [[[r|]|e| |] rd']; cbn [calls];
        rewrite list_lookup_insert_eq by (rewrite ?length_insert; done); eauto.
  - intros J W Rr R B j j1 j2 code reason Hc error. split; [done|].
    assert (Hend : forall A, Session.closed_error (A:=A) j1 = (Err error, j2)).
    { intros A. unfold Session.closed_error, bind, map_err, Session.closed, throw. by rewrite Hc. }
    split; [|split]; intros Hr.
    + unfold Session.accept_uni, bind, map_err. by rewrite Hr, Hend.
    + unfold Session.accept_bi, bind, map_err. by rewrite Hr, Hend.
    + unfold Session.recv_datagram, bind, map_err. by rewrite Hr, Hend.
  - intros CC World J Ru Rb Rg W Su Sb A options url w0 session w'. by apply connect_fresh.
Qed.
(** The first call takes the lock and is dropped; the second gets the stream. *)
Lemma wasm_shared_reads_witness :
  let rd := MkSampleQueue false [5; 6] in
  exists s : SharedReader (H0:=sample_web_errors) SampleQueue Z, calls s = [Dropped; Returned (Ok (Some 5))] /\ [5; 6] = [5] ++ sq_items (shared_reader s).
Proof.
  intros rd.
  set (s := MkSharedReader (MkSampleQueue false [6]) None [Dropped; Returned (Ok (Some 5))] : SharedReader (H0:=sample_web_errors) SampleQueue Z).
  exists s. split; [reflexivity|].
  assert (Hs : reader_steps (ReaderOf0:=sample_reader_of) [5] (MkSharedReader rd None []) s).
  { eapply (reader_steps_cons None); [apply step_read|]. eapply (reader_steps_cons None); [apply (step_poll 0); reflexivity|].
    eapply (reader_steps_cons None); [apply step_read|]. eapply (reader_steps_cons None); [apply (step_drop 0)|].
    change [5] with (from_option (fun x => [x]) [] (Some 5) ++ []).
    eapply (reader_steps_cons (Some 5)); [apply (step_poll 1); reflexivity|]. apply reader_steps_nil. }
  exact (proj1 (wasm_shared_reads (ReaderOf0:=sample_reader_of) sq_items (ReaderOfLaws0:=sample_reader_of_laws) rd [5] s Hs)).
Defined.
