(* ===== verification/Sessions.v ===== *)
(** * The Session trait (webtrans-trait/src/lib.rs) and its implementations

    What [webtrans_trait::Session] asks of a backend as a type class, implemented by
    the sessions over Quinn, over Quion and in the browser (session.rs of
    webtrans-quinn, webtrans-quion and webtrans-wasm), and what [closed] tells each
    about the close. *)
From S2P Require Import Prelude Buf Utf8 Varint ErrorCode Frame Capsule Streams QuinnStreams QuinnCapsules QuinnSession.
From S2P Require Import QuionStreams QuionTask QuionSession Accepting WasmStreams WasmSession.

(** ** The trait *)
Class TraitSession (S W SendS RecvS E : Type) := {
  accept_uni : S -> M W E RecvS;
  accept_bi : S -> M W E (SendS * RecvS);
  open_bi : S -> M W E (SendS * RecvS);
  open_uni : S -> M W E SendS;
  send_datagram : S -> bytes -> M W E unit;
  recv_datagram : S -> M W E bytes;
  max_datagram_size : S -> W -> Z;
  close : S -> Z -> bytes -> M W Empty_set unit;
  closed : S -> M W Empty_set E
}.

(** A part of the world an operation works on. *)
Definition zoom {W V E A} (get : W -> V) (set : V -> W -> W) (m : M V E A) : M W E A := fun w =>
  let '(r, v) := m (get w) in (r, set v w).

(** ** Over Quinn *)
Module Quinn.
Class QuinnClosed `{Quinn} (C : Type) := {
  conn_closed : M C Empty_set ConnectionError;
  conn_close_reason : C -> option ConnectionError
}.
Section Session.
Context `{Platform} `{Quinn} {C SendS RecvS U Q : Type} `{!QuinnSend SendS} `{!QuinnConnection C SendS RecvS}
  `{!QuicConn C} `{!QuinnClosed C} `{!CloseQueue Q} `{AsyncRead RecvS}.
Abbreviation Accepting := (QuinnSession.SessionAccept.State (SendS:=SendS) (RecvS:=RecvS)).

(** The connection, the queue of close commands, the accept state, and what the
    polls of the next accept calls find. *)
Record World := MkWorld {
  conn : C; close_tx : option Q; accepting : option Accepting;
  polls_uni : list (list (SessionAccept.answer RecvS)); polls_bi : list (list (SessionAccept.answer (SendS * RecvS))) }.
Definition set_conn (c : C) (w : World) : World := MkWorld c (close_tx w) (accepting w) (polls_uni w) (polls_bi w).
Definition set_accept (ac : option Accepting * C) (w : World) : World :=
  MkWorld ac.2 (close_tx w) ac.1 (polls_uni w) (polls_bi w).
Definition set_close (cq : C * option Q) (w : World) : World := MkWorld cq.1 cq.2 (accepting w) (polls_uni w) (polls_bi w).

Definition session_closed : M C Empty_set QuinnStreams.SessionError :=
  let* e := conn_closed in ret (QuinnStreams.session_error_from e).
Definition session_close_reason (c : C) : option QuinnStreams.SessionError :=
  option_map QuinnStreams.session_error_from (conn_close_reason c).
Definition session_url (s : QuinnSession.Session U) : U := QuinnSession.url s.

Definition trait_session : TraitSession (QuinnSession.Session U) World SendS RecvS QuinnStreams.SessionError := {|
  accept_uni _ := fun w => zoom (fun w => (accepting w, conn w)) set_accept (Accepting.Session.accept_uni (polls_uni w)) w;
  accept_bi _ := fun w => zoom (fun w => (accepting w, conn w)) set_accept (Accepting.Session.accept_bi (polls_bi w)) w;
  open_bi s := zoom conn set_conn (QuinnSession.Session.open_bi s);
  open_uni s := zoom conn set_conn (QuinnSession.Session.open_uni s);
  send_datagram s data := zoom conn set_conn (QuinnSession.Session.send_datagram s data);
  recv_datagram s := zoom conn set_conn (QuinnSession.Session.read_datagram s);
  max_datagram_size s w := QuinnSession.Session.max_datagram_size s (conn w);
  close s code reason := zoom (fun w => (conn w, close_tx w)) set_close (QuinnSession.Session.close s code reason);
  closed _ := zoom conn set_conn session_closed |}.
End Session.
End Quinn.

(** ** Over Quion *)
Module Quion.
Section Session.
Context `{Platform} `{Quion} {C SendS RecvS U D Q : Type} `{!QuionSend SendS} `{!QuionConnection C SendS RecvS}
  `{!QuionConn C} `{!CloseQueue Q} `{AsyncRead RecvS}.
Abbreviation Accepting := (QuinnSession.SessionAccept.State (SendS:=SendS) (RecvS:=RecvS)).

(** As over Quinn, with what the task has published; [later] is what the session
    shares at each notification to come. *)
Record World := MkWorld {
  shared : Shared C SessionError; later : list (Shared C SessionError); close_tx : option Q; accepting : option Accepting;
  polls_uni : list (list (QuinnSession.SessionAccept.answer RecvS));
  polls_bi : list (list (QuinnSession.SessionAccept.answer (SendS * RecvS))) }.
Definition conn (w : World) : C := sh_conn (shared w).
Definition set_conn (c : C) (w : World) : World :=
  MkWorld (MkShared c (close_error (shared w))) (later w) (close_tx w) (accepting w) (polls_uni w) (polls_bi w).
Definition set_accept (ac : option Accepting * C) (w : World) : World :=
  let w := set_conn ac.2 w in MkWorld (shared w) (later w) (close_tx w) ac.1 (polls_uni w) (polls_bi w).
Definition set_close (cq : C * option Q) (w : World) : World :=
  let w := set_conn cq.1 w in MkWorld (shared w) (later w) cq.2 (accepting w) (polls_uni w) (polls_bi w).

(** The loop of [closed]: the reason is looked up, or the next notification is
    awaited. *)
Fixpoint closed_loop (now : Shared C SessionError) (later : list (Shared C SessionError))
  : outcome Empty_set SessionError * (Shared C SessionError * list (Shared C SessionError)) :=
  match close_reason now with
  | Some error => (Ok error, (now, later))
  | None =>
      match later with
      | [] => (OutOfFuel, (now, []))
      | next :: later => closed_loop next later
      end
  end.
Definition session_closed : M World Empty_set SessionError := fun w =>
  let '(r, (now, later)) := closed_loop (shared w) (later w) in
  (r, MkWorld now later (close_tx w) (accepting w) (polls_uni w) (polls_bi w)).
Definition session_url (s : Session U D) : U := url s.

Definition trait_session : TraitSession (Session U D) World (QuionStreams.SendStream SendS D) (QuionStreams.RecvStream RecvS D) SessionError := {|
  accept_uni s := fun w => zoom (fun w => (accepting w, conn w)) set_accept (QuionSession.Session.accept_uni s (polls_uni w)) w;
  accept_bi s := fun w => zoom (fun w => (accepting w, conn w)) set_accept (QuionSession.Session.accept_bi s (polls_bi w)) w;
  open_bi s := zoom conn set_conn (QuionSession.Session.open_bi s);
  open_uni s := zoom conn set_conn (QuionSession.Session.open_uni s);
  send_datagram s data := zoom conn set_conn (QuionSession.Session.send_datagram s data);
  recv_datagram s := zoom conn set_conn (QuionSession.Session.read_datagram s);
  max_datagram_size s w := QuionSession.Session.max_datagram_size s (conn w);
  close s code reason := zoom (fun w => (conn w, close_tx w)) set_close (QuionSession.Session.close s code reason);
  closed _ := session_closed |}.
End Session.
End Quion.

(** ** In the browser *)
Module Wasm.
Section Session.
Context `{WebErrors} {J W Rd R U : Type} `{!Browser J W Rd R}.
(** A handle is the browser's session, which is the world; a URL is kept with it. *)
Definition session_url (s : U) : U := s.
Definition trait_session : TraitSession U J (SendStream W R) (RecvStream Rd R) Error := {|
  accept_uni _ := WasmSession.Session.accept_uni;
  accept_bi _ := WasmSession.Session.accept_bi;
  open_bi _ := WasmSession.Session.open_bi;
  open_uni _ := WasmSession.Session.open_uni;
  send_datagram _ := WasmSession.Session.send_datagram;
  recv_datagram _ := WasmSession.Session.recv_datagram;
  max_datagram_size _ := WasmSession.Session.max_datagram_size;
  close _ code reason := fun j => (Ok (), WasmSession.Session.close code reason j);
  closed _ := WasmSession.Session.closed |}.
End Session.
End Wasm.

(** ** What [closed] tells about the close *)

(** Documented behaviour of Quinn: a connection that was open when it was closed
    here ends with an error that carries no code of the peer; one that is closed
    keeps its error. *)
Class QuinnClosedLaws `{Quinn} {C} `{!QuicConn C} `{!Quinn.QuinnClosed C} : Prop := {
  locally_closed code reason (c : C) : conn_is_closed c = false ->
    exists e c', Quinn.conn_closed (conn_close code reason c) = (Ok e, c') /\ application_closed e = None;
  stays_closed (c : C) e : Quinn.conn_close_reason c = Some e ->
    conn_is_closed c = true /\ exists c', Quinn.conn_closed c = (Ok e, c')
}.

(** The contract: once the peer has closed the session with a code and a reason,
    [closed] returns an error that carries them. *)
Definition reports_close {S W SendS RecvS E} (T : TraitSession S W SendS RecvS E) (session_error : E -> option (Z * bytes))
    (peer_closed : Z -> bytes -> W -> Prop) : Prop :=
  forall s code reason w, peer_closed code reason w ->
    exists e w', closed s w = (Ok e, w') /\ session_error e = Some (code, reason).

(** The task has read the close capsule and is past the first of the steps of its
    end, at the call or at one of the notifications after it; before that [closed]
    has looked, at the call and at any number of notifications, and seen nothing. *)
Section QuionClosed.
Context `{Platform} `{Quion} {C SendS RecvS U D Q : Type} `{!QuionSend SendS} `{!QuionConnection C SendS RecvS}
  `{!QuionConn C} `{!CloseQueue Q} `{AsyncRead RecvS}.
Definition ending (n : nat) (code : Z) (reason : bytes) (sh : Shared C SessionError) : Shared C SessionError :=
  fold_left (fun sh act => act sh) (take n (task_end (inl (Some (code, reason))))) sh.
Definition quion_peer_closed (code : Z) (reason : bytes) (w : Quion.World (C:=C) (SendS:=SendS) (RecvS:=RecvS) (Q:=Q)) : Prop :=
  exists seen before n more, Quion.shared w :: Quion.later w = seen ++ ending n code reason before :: more /\
    Forall (fun sh => close_reason sh = None) seen /\ (0 < n)%nat.

Lemma ending_reason n code reason sh :
  (0 < n)%nat -> close_error (ending n code reason sh) = Some (SEWebTransportError (Closed code reason)).
Proof.
  intros Hn. destruct n as [|n]; [lia|]. unfold ending, task_end. cbn [app].
  destruct n as [|[|[|n]]]; cbn [take fold_left]; rewrite ?take_nil; cbn [fold_left];
    unfold fill_error, ensure_closed, close_if_open, set_close_error; cbn; by repeat case_match.
Qed.
Lemma closed_loop_sees e sh more seen : forall now later,
  now :: later = seen ++ sh :: more -> Forall (fun sh => close_reason sh = None) seen -> close_reason sh = Some e ->
  Quion.closed_loop now later = (Ok e, (sh, more)).
Proof.
  induction seen as [|sh' seen IH]; cbn [app]; intros now later [= -> E] Hseen Hsh.
  - subst later. destruct more; cbn; by rewrite Hsh.
  - apply Forall_cons in Hseen as [Hnone Hseen]. destruct later as [|next later]; [by destruct seen|].
    cbn [Quion.closed_loop]. rewrite Hnone. by apply IH.
Qed.
Lemma quion_reports_close : reports_close (Quion.trait_session (U:=U) (D:=D) (Q:=Q)) session_session_error quion_peer_closed.
Proof.
  intros s code reason w (seen & before & n & more & E & Hseen & Hn).
  cbn [closed Quion.trait_session]. unfold Quion.session_closed.
  rewrite (closed_loop_sees _ _ _ _ _ _ E Hseen (close_reason_some _ _ (ending_reason n code reason before Hn))).
  by eexists _, _.
Qed.
End QuionClosed.

Section WasmClosed.
Context `{WebErrors} {J W Rd R U : Type} `{!Browser J W Rd R}.
(** The browser resolves the promise with the code and reason it was sent. *)
Definition wasm_peer_closed (code : Z) (reason : bytes) (j : J) : Prop :=
  exists j', closed_promise j = (Ok (Some code, Some reason), j').
Lemma wasm_reports_close : reports_close (Wasm.trait_session (U:=U)) error_session_error wasm_peer_closed.
Proof.
  intros s code reason j [j' Hj]. cbn [closed Wasm.trait_session]. unfold WasmSession.Session.closed. rewrite Hj. by eexists _, _.
Qed.
End WasmClosed.

Section QuinnClosed.
Context `{Platform} `{Quinn} {C SendS RecvS U Q : Type} `{!QuinnSend SendS} `{!QuinnConnection C SendS RecvS}
  `{!QuicConn C} `{!Quinn.QuinnClosed C} `{!CloseQueue Q} `{AsyncRead RecvS} `{!QuinnClosedLaws}.
Abbreviation World := (Quinn.World (C:=C) (SendS:=SendS) (RecvS:=RecvS) (Q:=Q)).
Abbreviation Trait := (Quinn.trait_session (C:=C) (SendS:=SendS) (RecvS:=RecvS) (U:=U) (Q:=Q)).

(** The task has read the close capsule on a connection that was open, and ended. *)
Definition quinn_peer_closed (code : Z) (reason : bytes) (w : World) : Prop :=
  exists before, conn_is_closed before = false /\ Quinn.conn w = after_closed (Ok (Some (code, reason))) before.

Lemma quinn_close_lost s code reason w : quinn_peer_closed code reason w ->
  exists e w', closed (TraitSession:=Trait) s w = (Ok e, w') /\ QuinnStreams.session_session_error e = None.
Proof.
  intros (before & Ho & Hw). cbn [closed Quinn.trait_session]. unfold zoom, Quinn.session_closed, bind, ret. rewrite Hw.
  cbn [after_closed]. rewrite Ho. unfold close_connection. cbv zeta.
  match goal with |- context [conn_close ?code ?reason ?c] => destruct (locally_closed code reason c Ho) as (e & c' & -> & He) end.
  eexists _, _. split; [done|]. unfold QuinnStreams.session_error_from. by rewrite He.
Qed.
(** The peer's close of the connection was there before the capsule was read. *)
Lemma quinn_close_first s code reason http3 e w : application_closed e = Some (http3, reason) -> error_from_http3 http3 = Some code ->
  (exists before result, Quinn.conn_close_reason before = Some e /\ Quinn.conn w = after_closed (Ok (Some result)) before) ->
  exists e' w', closed (TraitSession:=Trait) s w = (Ok e', w') /\
    QuinnStreams.session_session_error e' = Some (code, from_utf8_lossy reason).
Proof.
  intros Ha Hc (before & [code' reason'] & Hb & Hw). destruct (stays_closed before e Hb) as [Hcl [c' Hcc]].
  cbn [closed Quinn.trait_session]. unfold zoom, Quinn.session_closed, bind, ret. rewrite Hw. cbn [after_closed]. rewrite Hcl, Hcc.
  eexists _, _. split; [done|]. unfold QuinnStreams.session_error_from. by rewrite Ha, Hc.
Qed.
End QuinnClosed.

(** ** A sample: a connection that is open or has its error, and no streams *)
Definition sample_link : QuicConn (option (option (Z * bytes))) := {|
  conn_is_closed c := bool_decide (is_Some c);
  conn_close _ _ c := match c with Some e => Some e | None => Some None end |}.
Definition sample_link_closed : Quinn.QuinnClosed (H:=sample_quinn) (option (option (Z * bytes))) :=
  @Quinn.Build_QuinnClosed sample_quinn _
    (fun c => match c with Some e => (Ok e, c) | None => (OutOfFuel, c) end) (fun c => c).
Definition sample_link_connection : QuinnConnection (H:=sample_quinn) (option (option (Z * bytes))) WStream Incoming :=
  @Build_QuinnConnection sample_quinn _ WStream Incoming
    out_of_fuel out_of_fuel out_of_fuel out_of_fuel out_of_fuel (fun _ => out_of_fuel) (fun _ => None).
Definition sample_link_laws : @QuinnClosedLaws sample_quinn _ sample_link sample_link_closed.
Proof.
  split.
  - intros code reason [e|] Ho; [done|]. by exists None, (Some None).
  - intros [e'|] e He; [|done]. injection He as ->. split; [done|]. by exists (Some e).
Defined.
Definition sample_queue : CloseQueue unit := {| try_send _ q := (Sent, q) |}.

(** C8: the error [closed] returns tells why the peer closed.  Over Quion, whether
    the task has read the close when [closed] is called or reads it later, from the
    first step of its end on, and however many notifications that carry no reason
    come before, and in the browser, a session that the peer has closed with a code
    and a reason gives an error whose [session_error] is that code and that
    reason. *)
Theorem closed_reports `{Quion} `{WebErrors} {C SendS RecvS U D Q J W Rd R : Type}
  `{!QuionSend SendS} `{!QuionConnection C SendS RecvS} `{!QuionConn C} `{!CloseQueue Q} `{AsyncRead RecvS} `{!Browser J W Rd R} :
  reports_close (Quion.trait_session (C:=C) (SendS:=SendS) (RecvS:=RecvS) (U:=U) (D:=D) (Q:=Q)) session_session_error quion_peer_closed /\
  reports_close (Wasm.trait_session (U:=U) (J:=J) (W:=W) (Rd:=Rd) (R:=R)) error_session_error wasm_peer_closed.
Proof. split; [apply quion_reports_close|apply wasm_reports_close]. Qed.

(** C9: over Quinn the reason of the peer is lost.  When the close capsule is what
    ends the session, the task closes the connection itself, and [closed] returns an
    error whose [session_error] is nothing; only when the peer's close of the
    connection came before the capsule was read does it carry the code, with the
    reason as text. *)
Theorem quinn_close_unreported `{Quinn} {C SendS RecvS U Q : Type} `{!QuinnSend SendS} `{!QuinnConnection C SendS RecvS}
  `{!QuicConn C} `{!Quinn.QuinnClosed C} `{!CloseQueue Q} `{AsyncRead RecvS} `{!QuinnClosedLaws} (s : QuinnSession.Session U) :
  let closed := closed (TraitSession:=Quinn.trait_session (C:=C) (SendS:=SendS) (RecvS:=RecvS) (U:=U) (Q:=Q)) s in
  (forall code reason w, quinn_peer_closed code reason w ->
     exists e w', closed w = (Ok e, w') /\ QuinnStreams.session_session_error e = None) /\
  (forall code reason http3 e w, application_closed e = Some (http3, reason) -> error_from_http3 http3 = Some code ->
     (exists before result, Quinn.conn_close_reason before = Some e /\ Quinn.conn w = after_closed (Ok (Some result)) before) ->
     exists e' w', closed w = (Ok e', w') /\ QuinnStreams.session_session_error e' = Some (code, from_utf8_lossy reason)).
Proof.
  split.
  - intros code reason w. by apply quinn_close_lost.
  - intros code reason http3 e w. by apply quinn_close_first.
Qed.
(** A raw handle stands for the session; the peer closed with code 7. *)
Lemma quinn_close_unreported_witness :
  let s := QuinnSession.Session.raw (lit "https://a/") in
  let w := @Quinn.MkWorld sample_quinn _ WStream Incoming unit (after_closed (H:=sample_link) (Ok (Some (7, lit "bye"))) None) None None [] [] in
  exists e w', closed (TraitSession:=Quinn.trait_session (H0:=sample_quinn) (QuinnSend0:=sample_send)
      (QuinnConnection0:=sample_link_connection) (QuicConn0:=sample_link) (QuinnClosed0:=sample_link_closed) (CloseQueue0:=sample_queue)) s w = (Ok e, w') /\
    QuinnStreams.session_session_error e = None.
Proof.
  intros s w. refine (proj1 (quinn_close_unreported (H:=sample_quinn) (QuinnSend0:=sample_send)
    (QuinnConnection0:=sample_link_connection) (QuicConn0:=sample_link) (H0:=sample_link_closed) (CloseQueue0:=sample_queue)
    (H2:=sample_link_laws) s) 7 (lit "bye") w _). exists None. split; reflexivity.
Defined.
