(* ===== verification/Examples.v ===== *)
(** * The examples (webtrans/examples: echo-server.rs, echo-client.rs; interop/src/bin/
    chromium_server.rs)

    Programs over the facade, which re-exports one backend: what they do with a
    session is a function of the session trait and of the methods of its streams
    that they call.  [anyhow] is a sum of the errors it wraps; logging is left out. *)
From S2P Require Import Prelude Buf Utf8 Varint Frame Streams QuinnStreams QuinnCapsules QuinnSession.
From S2P Require Import QuionStreams QuionTask QuionSession Accepting Interop Sessions.

(** ** The facade *)

(** The inherent methods of a backend's streams. *)
Class FacadeStreams (SendS RecvS ES ER EF : Type) := {
  read_to_end : Z -> M RecvS ER bytes;
  write_all : bytes -> M SendS ES unit;
  finish : M SendS EF unit
}.
Inductive anyhow (E ES ER EF : Type) :=
| SessionFailed (e : E)
| WriteFailed (e : ES)
| ReadFailed (e : ER)
| FinishFailed (e : EF)
| Message (text : bytes).
#[global] Arguments SessionFailed {E ES ER EF}. #[global] Arguments WriteFailed {E ES ER EF}. #[global] Arguments ReadFailed {E ES ER EF}.
#[global] Arguments FinishFailed {E ES ER EF}. #[global] Arguments Message {E ES ER EF}.

Definition quinn_facade `{Quinn} {S T} `{!QuinnSend S} `{!QuinnRecv T}
  : FacadeStreams S T QuinnStreams.WriteError QuinnStreams.ReadToEndError QuinnStreams.ClosedStream := {|
  read_to_end := QuinnStreams.RecvStream.read_to_end;
  write_all := QuinnStreams.SendStream.write_all;
  finish := QuinnStreams.SendStream.finish |}.
Definition quion_facade `{Quion} {S T D} `{!QuionSend S} `{!QuionRecv T}
  : FacadeStreams (QuionStreams.SendStream S D) (QuionStreams.RecvStream T D) QuionStreams.WriteError QuionStreams.ReadError QuionStreams.WriteError := {|
  read_to_end := QuionStreams.Recv.read_to_end;
  write_all := QuionStreams.Send.write_all;
  finish := QuionStreams.Send.finish |}.

Section Programs.
Context {S W SendS RecvS E ES ER EF : Type} `{!TraitSession S W SendS RecvS E} `{!FacadeStreams SendS RecvS ES ER EF}.
Abbreviation Failure := (anyhow E ES ER EF).

(** ** echo-server.rs *)

(** What [select!] finds ready first; the other future is dropped. *)
Inductive ready := StreamReady | DatagramReady.

(** The branch of a stream, and the stream as it is dropped. *)
Definition echo_stream : M (SendS * RecvS) Failure unit :=
  let* msg := on_snd (map_err ReadFailed (read_to_end 1024)) in
  on_fst (map_err WriteFailed (write_all msg)).
Definition echo_datagram (session : S) : M W Failure unit :=
  let* msg := map_err SessionFailed (recv_datagram session) in
  map_err SessionFailed (send_datagram session msg).
(** The state is the world and the streams that were dropped. *)
Fixpoint run_session (session : S) (schedule : list ready) : M (W * list (SendS * RecvS)) Failure unit :=
  match schedule with
  | [] => out_of_fuel
  | StreamReady :: schedule =>
      let* streams := on_fst (map_err SessionFailed (accept_bi session)) in
      (fun st => let '(r, streams) := echo_stream streams in (r, (st.1, st.2 ++ [streams]))) ;;;
      run_session session schedule
  | DatagramReady :: schedule =>
      on_fst (echo_datagram session) ;;;
      run_session session schedule
  end.

(** ** echo-client.rs: up to the end of the request, and the response *)
Definition hello : bytes := lit "hello world".
Definition client_request (session : S) : M W Failure (SendS * RecvS) :=
  let* (send, recv) := map_err SessionFailed (open_bi session) in
  let '(r, send) := (map_err WriteFailed (write_all hello) ;;; map_err FinishFailed finish) send in
  lift r ;;;
  ret (send, recv).
Definition client_response : M RecvS Failure bytes := map_err ReadFailed (read_to_end 1024).
Definition never_err {W A} (m : M W Empty_set A) : M W Failure A := map_err (fun e : Empty_set => match e with end) m.
Definition client_end (session : S) : M W Failure unit :=
  never_err (close session 42069 (lit "bye")) ;;;
  never_err (closed session) ;;;
  ret ().

(** ** chromium_server.rs: the sessions of its two kinds, once accepted *)
Definition echo_session (session : S) : M W Failure unit :=
  let* (bi_send, bi_recv) := map_err SessionFailed (accept_bi session) in
  let '(r, _) := map_err ReadFailed (read_to_end 1024) bi_recv in
  let* payload := lift r in
  let '(r, _) := (map_err WriteFailed (write_all payload) ;;; map_err FinishFailed finish) bi_send in
  lift r ;;;
  let* uni_recv := map_err SessionFailed (accept_uni session) in
  let '(r, _) := map_err ReadFailed (read_to_end 1024) uni_recv in
  let* payload := lift r in
  let* uni_send := map_err SessionFailed (open_uni session) in
  let '(r, _) := (map_err WriteFailed (write_all payload) ;;; map_err FinishFailed finish) uni_send in
  lift r ;;;
  let* datagram := map_err SessionFailed (recv_datagram session) in
  map_err SessionFailed (send_datagram session datagram) ;;;
  never_err (closed session) ;;;
  ret ().
Definition close_session (session : S) : M W Failure unit := never_err (close session 0xfedcba98 (lit "native close")).
End Programs.

(** ** What the examples rely on *)

(** [sent] is what was written to a stream; [ends r l] that [l] and the end of the
    stream are still to be read from [r]. *)
Class FacadeLaws {SendS RecvS ES ER EF} (F : FacadeStreams SendS RecvS ES ER EF) (sent : SendS -> bytes) (ends : RecvS -> bytes -> Prop) : Prop := {
  write_all_sent l s : match write_all l s with (Ok _, s') => sent s' = sent s ++ l | (r, _) => exists e, r = Err e end;
  finish_sent s : match finish s with (Ok _, s') => sent s' = sent s | (r, _) => exists e, r = Err e end;
  read_to_end_reads limit l r : ends r l -> len l <= limit -> exists r', read_to_end limit r = (Ok l, r')
}.
(** Documented behaviour of the libraries, and no 0-RTT. *)
Class QuinnWhole `{Quinn} {S T} `{!QuinnSend S} `{!QuinnRecv T} (sent : S -> bytes) (ends : T -> bytes -> Prop) : Prop := {
  qs_write_all_sent l s : match qs_write_all l s with (Ok _, s') => sent s' = sent s ++ l | (r, _) => exists e, r = Err e /\ e <> QWZeroRttRejected end;
  qs_finish_sent s : match qs_finish s with (Ok _, s') => sent s' = sent s | (r, _) => exists e, r = Err e end;
  qr_read_to_end_reads limit l r : ends r l -> len l <= limit -> exists r', qr_read_to_end limit r = (Ok l, r')
}.
Class QuionWhole `{Quion} {S T} `{!QuionSend S} `{!QuionRecv T} (sent : S -> bytes) (ends : T -> bytes -> Prop) : Prop := {
  ns_write_all_sent l s : match ns_write_all l s with (Ok _, s') => sent s' = sent s ++ l | (r, _) => exists e, r = Err e end;
  ns_finish_sent s : match ns_finish s with (Ok _, s') => sent s' = sent s | (r, _) => exists e, r = Err e end;
  nr_read_to_end_reads limit l r : ends r l -> len l <= limit -> exists r', nr_read_to_end limit r = (Ok l, r')
}.

#[export] Instance quinn_facade_laws `{Quinn} {S T} `{!QuinnSend S} `{!QuinnRecv T} (sent : S -> bytes) (ends : T -> bytes -> Prop) `{!QuinnWhole sent ends} :
  FacadeLaws quinn_facade sent ends.
Proof.
  split.
  - intros l s. cbn [write_all quinn_facade]. unfold QuinnStreams.SendStream.write_all, convert_err. pose proof (qs_write_all_sent l s) as Hw.
    destruct (qs_write_all l s) as [[[]|e| |] s']; try done; destruct Hw as (e' & He & Hz); try done. injection He as ->.
    destruct (write_error_total e') as [e ->]; [done|]. by eexists.
  - exact qs_finish_sent.
  - intros limit l r Hr Hl. cbn [read_to_end quinn_facade]. unfold QuinnStreams.RecvStream.read_to_end, convert_err.
    destruct (qr_read_to_end_reads limit l r Hr Hl) as [r' ->]. by eexists.
Qed.
#[export] Instance quion_facade_laws `{Quion} {S T D} `{!QuionSend S} `{!QuionRecv T} (sent : S -> bytes) (ends : T -> bytes -> Prop) `{!QuionWhole sent ends} :
  FacadeLaws (quion_facade (D:=D)) (fun s => sent (stream s)) (fun r => ends (inner r)).
Proof.
  split.
  - intros l s. cbn [write_all quion_facade]. unfold Send.write_all, map_err, Send.on_stream. pose proof (ns_write_all_sent l (stream s)) as Hw.
    destruct (ns_write_all l (stream s)) as [[[]|e| |] s']; try done; destruct Hw as (e' & He); try done. by eexists.
  - intros s. cbn [finish quion_facade]. unfold Send.finish, map_err, Send.on_stream. pose proof (ns_finish_sent (stream s)) as Hw.
    destruct (ns_finish (stream s)) as [[[]|e| |] s']; try done; destruct Hw as (e' & He); try done. by eexists.
  - intros limit l r Hr Hl. cbn [read_to_end quion_facade]. unfold Recv.read_to_end, map_err, Recv.on_inner.
    destruct (nr_read_to_end_reads limit l (inner r) Hr Hl) as [r' ->]. by eexists.
Qed.

(** ** The programs *)
Section Echo.
Context {S W SendS RecvS E ES ER EF : Type} `{!TraitSession S W SendS RecvS E} {F : FacadeStreams SendS RecvS ES ER EF}
  {sent : SendS -> bytes} {ends : RecvS -> bytes -> Prop} `{!FacadeLaws F sent ends}.
Abbreviation Failure := (anyhow E ES ER EF).

(** The stream came back with its message, which is a short one, echoed in full. *)
Definition echoed (accepted dropped : SendS * RecvS) : Prop := forall msg,
  ends accepted.2 msg -> len msg <= 1024 -> sent dropped.1 = sent accepted.1 ++ msg.
Lemma echo_stream_echoes accepted r dropped msg :
  echo_stream (E:=E) accepted = (r, dropped) -> ends accepted.2 msg -> len msg <= 1024 ->
  (r = Ok () /\ sent dropped.1 = sent accepted.1 ++ msg) \/ exists e, r = Err (WriteFailed e).
Proof.
  destruct accepted as [send recv]. unfold echo_stream, bind, on_fst, on_snd, map_err. intros He Hr Hl. cbn in *.
  destruct (read_to_end_reads 1024 msg recv Hr Hl) as [recv' Hm]. rewrite Hm in He. cbn in He.
  pose proof (write_all_sent msg send) as Hw. destruct (write_all msg send) as [[[]|e| |] send1] eqn:Hwr; cbv beta iota zeta in He; injection He as <- <-.
  - by left.
  - right. by eexists.
  - by destruct Hw as [e Hw].
  - by destruct Hw as [e Hw].
Qed.

(** A call that did not succeed, and what the program makes of it. *)
Definition failed {X A} (f : X -> Failure) (o : outcome X A) (r : outcome Failure unit) : Prop :=
  match o with Ok _ => False | Err e => r = Err (f e) | Panic => r = Panic | OutOfFuel => r = OutOfFuel end.
(** The stream was read to its end, what was read was written back, and so it was
    dropped; or one of the two calls failed. *)
Definition echoes (a d : SendS * RecvS) : Prop :=
  exists msg, read_to_end 1024 a.2 = (Ok msg, d.2) /\ write_all msg a.1 = (Ok (), d.1).
Definition echo_fails (a : SendS * RecvS) (r : outcome Failure unit) (d : SendS * RecvS) : Prop :=
  (exists o, read_to_end 1024 a.2 = (o, d.2) /\ failed ReadFailed o r /\ d.1 = a.1) \/
  (exists msg o, read_to_end 1024 a.2 = (Ok msg, d.2) /\ write_all msg a.1 = (o, d.1) /\ failed WriteFailed o r).
Lemma echo_stream_cases a r d : echo_stream a = (r, d) -> (r = Ok () /\ echoes a d) \/ echo_fails a r d.
Proof.
  destruct a as [send recv]. unfold echo_stream, echo_fails, echoes, bind, on_fst, on_snd, map_err. cbn [fst snd].
  destruct (read_to_end 1024 recv) as [[msg|e| |] recv'] eqn:Hr; cbn [fst snd].
  2-4: intros [= <- <-]; right; left; eexists; by split.
  destruct (write_all msg send) as [[[]|e| |] send'] eqn:Hw; intros [= <- <-]; cbn [fst snd].
  1: left; split; [done|]; by exists msg.
  all: right; right; exists msg; eexists; by split.
Qed.

(** Turns of the loop whose calls on the session succeed, with the streams that were
    accepted in them. *)
Inductive turns (session : S) : list ready -> W -> list (SendS * RecvS) -> W -> Prop :=
| turns_none w : turns session [] w [] w
| turns_stream w a w1 schedule accepted w2 :
    accept_bi session w = (Ok a, w1) -> turns session schedule w1 accepted w2 ->
    turns session (StreamReady :: schedule) w (a :: accepted) w2
| turns_datagram w msg w1 w2 schedule accepted w3 :
    recv_datagram session w = (Ok msg, w1) -> send_datagram session msg w1 = (Ok (), w2) ->
    turns session schedule w2 accepted w3 -> turns session (DatagramReady :: schedule) w accepted w3.
(** The turn in which a call does not succeed; [dropped] is its stream, if it has one. *)
Definition last_turn (session : S) (turn : ready) (w : W) (r : outcome Failure unit) (w' : W) (dropped : list (SendS * RecvS)) : Prop :=
  match turn with
  | StreamReady =>
      (exists o, accept_bi session w = (o, w') /\ failed SessionFailed o r /\ dropped = []) \/
      (exists a d, accept_bi session w = (Ok a, w') /\ echo_fails a r d /\ dropped = [d])
  | DatagramReady => dropped = [] /\
      ((exists o, recv_datagram session w = (o, w') /\ failed SessionFailed o r) \/
       (exists msg w1 o, recv_datagram session w = (Ok msg, w1) /\ send_datagram session msg w1 = (o, w') /\ failed SessionFailed o r))
  end.
(** What the loop has served: every stream that was accepted was echoed, until the
    schedule is used up, or a call does not succeed and ends the loop. *)
Definition served (session : S) (schedule : list ready) (w : W) (before : list (SendS * RecvS)) (r : outcome Failure unit)
    (w' : W) (after : list (SendS * RecvS)) : Prop :=
  exists done w1 accepted dropped, turns session done w accepted w1 /\ Forall2 echoes accepted dropped /\
    ((schedule = done /\ r = OutOfFuel /\ w' = w1 /\ after = before ++ dropped) \/
     exists turn rest dropped', schedule = done ++ turn :: rest /\ last_turn session turn w1 r w' dropped' /\
       after = before ++ dropped ++ dropped').
Lemma served_last session turn schedule w before r w' dropped :
  last_turn session turn w r w' dropped -> served session (turn :: schedule) w before r w' (before ++ dropped).
Proof.
  intros Hl. exists [], w, [], []. split; [constructor|]. split; [constructor|]. right. by exists turn, schedule, dropped.
Qed.
Lemma served_stream session schedule w a d w1 before r w' after :
  accept_bi session w = (Ok a, w1) -> echoes a d -> served session schedule w1 (before ++ [d]) r w' after ->
  served session (StreamReady :: schedule) w before r w' after.
Proof.
  intros Ha Hd (don & w2 & accepted & dropped & Ht & Hall & Hcase).
  exists (StreamReady :: don), w2, (a :: accepted), (d :: dropped).
  split; [by econstructor|]. split; [by constructor|].
  destruct Hcase as [(-> & -> & -> & ->)|(turn & rest & dropped' & -> & Hl & ->)]; [left|right].
  - split_and!; try done. by rewrite <- app_assoc.
  - exists turn, rest, dropped'. split; [done|]. split; [done|]. by rewrite <- app_assoc.
Qed.
Lemma served_datagram session schedule w msg w1 w2 before r w' after :
  recv_datagram session w = (Ok msg, w1) -> send_datagram session msg w1 = (Ok (), w2) ->
  served session schedule w2 before r w' after -> served session (DatagramReady :: schedule) w before r w' after.
Proof.
  intros Hm Hs (don & w3 & accepted & dropped & Ht & Hall & Hcase). exists (DatagramReady :: don), w3, accepted, dropped.
  split; [by econstructor|]. split; [done|].
  destruct Hcase as [(-> & -> & -> & ->)|(turn & rest & dropped' & -> & Hl & ->)]; [by left|right].
  by exists turn, rest, dropped'.
Qed.
Lemma run_session_serves (session : S) schedule : forall w before r w' after,
  run_session session schedule (w, before) = (r, (w', after)) -> served session schedule w before r w' after.
Proof.
  induction schedule as [|turn schedule IH]; intros w before r w' after.
  { intros [= <- <- <-]. exists [], w, [], []. split; [constructor|]. split; [constructor|]. left. by rewrite app_nil_r. }
  assert (Hstop : forall r, last_turn session turn w r w' [] -> served session (turn :: schedule) w before r w' before).
  { intros r1 Hl. rewrite <- (app_nil_r before) at 2. by apply served_last. }
  destruct turn; cbn [run_session]; unfold bind at 1, on_fst at 1; cbn [fst snd].
  - unfold map_err. destruct (accept_bi session w) as [[a|e| |] w1] eqn:Ha.
    2-4: intros [= <- <- <-]; apply Hstop; left; eexists; by split.
    unfold bind at 1. cbn [fst snd]. destruct (echo_stream a) as [r1 d] eqn:Hd.
    destruct (echo_stream_cases a r1 d Hd) as [[-> He]|He].
    + intros Hr. eapply served_stream; eauto.
    + destruct r1 as [[]|e| |]; [|intros [= <- <- <-]; apply served_last; right; by exists a, d..].
      destruct He as [(o & _ & He & _)|(msg & o & _ & _ & He)]; by destruct o.
  - unfold echo_datagram, bind at 1, map_err. destruct (recv_datagram session w) as [[msg|e| |] w1] eqn:Hm.
    2-4: intros [= <- <- <-]; apply Hstop; split; [done|]; left; eexists; by split.
    destruct (send_datagram session msg w1) as [[[]|e| |] w2] eqn:Hs.
    2-4: intros [= <- <- <-]; apply Hstop; split; [done|]; right; exists msg, w1; eexists; by split.
    intros Hr. eapply served_datagram; eauto.
Qed.
(** The loop never ends well, and with calls that do not panic it ends with an error. *)
Lemma served_ends session schedule w before r w' after :
  (forall w, completes (accept_bi session w).1) -> (forall w, completes (recv_datagram session w).1) ->
  (forall msg w, completes (send_datagram session msg w).1) ->
  (forall recv, completes (read_to_end 1024 recv).1) -> (forall msg send, completes (write_all msg send).1) ->
  served session schedule w before r w' after ->
  (exists e, r = Err e) \/ (r = OutOfFuel /\ exists accepted w1, turns session schedule w accepted w1).
Proof.
  intros Hc1 Hc2 Hc3 Hc4 Hc5 (don & w1 & accepted & dropped & Ht & _ & Hcase).
  assert (Hf : forall X A (f : X -> Failure) (o : outcome X A), completes o -> failed f o r -> exists e, r = Err e).
  { intros X A f o Hc Ho. destruct o as [|e| |]; try done; [by eexists|exfalso; apply Hc; red; auto..]. }
  destruct Hcase as [(-> & -> & _ & _)|(turn & rest & dropped' & _ & Hl & _)]; [right; eauto|left].
  destruct turn; cbn [last_turn] in Hl.
  - destruct Hl as [(o & Ho & Hr & _)|(a & d & _ & [(o & Ho & Hr & _)|(msg & o & _ & Ho & Hr)] & _)];
      (eapply Hf; [|exact Hr]); apply (f_equal fst) in Ho; cbn in Ho; subst o; auto.
  - destruct Hl as [_ [(o & Ho & Hr)|(msg & w2 & o & _ & Ho & Hr)]];
      (eapply Hf; [|exact Hr]); apply (f_equal fst) in Ho; cbn in Ho; subst o; auto.
Qed.

(** The request of the client is on its stream, and an answer is read in full. *)
Lemma client_request_sent (session : S) w send recv w' :
  client_request (SendS:=SendS) (ES:=ES) (ER:=ER) (EF:=EF) session w = (Ok (send, recv), w') ->
  exists send0, open_bi session w = (Ok (send0, recv), w') /\ sent send = sent send0 ++ hello.
Proof.
  unfold client_request, bind, map_err, lift, ret. destruct (open_bi session w) as [[[send0 recv0]| | |] w1]; try done.
  pose proof (write_all_sent hello send0) as Hw. destruct (write_all hello send0) as [[[]| | |] send1]; try done.
  pose proof (finish_sent send1) as Hf. destruct (finish send1) as [[[]| | |] send2]; try done.
  intros [= <- <- <-]. exists send0. by rewrite Hf, Hw.
Qed.
Lemma client_response_read recv msg : ends recv msg -> len msg <= 1024 ->
  exists recv', client_response (E:=E) (ES:=ES) (EF:=EF) recv = (Ok msg, recv').
Proof. intros Hr Hl. unfold client_response, map_err. destruct (read_to_end_reads 1024 msg recv Hr Hl) as [recv' ->]. by eexists. Qed.
End Echo.

(** ** The client and the server together *)

(** A bidirectional stream that the session opens has its header in it. *)
Definition opens_bi {S W SendS RecvS E} (T : TraitSession S W SendS RecvS E) (sent : SendS -> bytes) (session : S) (sid : VarInt) : Prop :=
  forall w send recv w', open_bi session w = (Ok (send, recv), w') -> sent send = bi_header sid.
Lemma quinn_opens_bi `{Quinn} {C SendS RecvS U Q : Type} `{!QuinnSend SendS} `{!QuinnConnection C SendS RecvS}
  `{!QuicConn C} `{!Quinn.QuinnClosed C} `{!CloseQueue Q} `{AsyncRead RecvS} (sent : SendS -> bytes) `{!QuinnOpenLaws sent} sid (url : U) s :
  varint_ok sid -> QuinnSession.Session.new sid url = Ok s ->
  opens_bi (Quinn.trait_session (C:=C) (SendS:=SendS) (RecvS:=RecvS) (Q:=Q)) sent s sid.
Proof.
  intros Hs Hn w send recv w'. rewrite new_session in Hn by done. injection Hn as <-. cbn [open_bi Quinn.trait_session]. unfold zoom.
  destruct (QuinnSession.Session.open_bi _ _) as [r c] eqn:Ho. intros [= -> _]. exact (QuinnSession.open_bi_sends sent _ _ _ _ _ Ho).
Qed.
Lemma quion_opens_bi `{Quion} {C SendS RecvS U D Q : Type} `{!QuionSend SendS} `{!QuionConnection C SendS RecvS}
  `{!QuionConn C} `{!CloseQueue Q} `{AsyncRead RecvS} (sent : SendS -> bytes) `{!QuionOpenLaws sent} sid (url : U) (d : option D) s :
  varint_ok sid -> QuionSession.Session.new sid url d = Ok s ->
  opens_bi (Quion.trait_session (C:=C) (SendS:=SendS) (RecvS:=RecvS) (Q:=Q)) (fun s => sent (stream s)) s sid.
Proof.
  intros Hs Hn w send recv w'. rewrite quion_new_session in Hn by done. injection Hn as <-. cbn [open_bi Quion.trait_session]. unfold zoom.
  destruct (QuionSession.Session.open_bi _ _) as [r c] eqn:Ho. intros [= -> _]. by destruct (open_bi_opened sent _ _ _ _ _ Ho) as [(? & _) _].
Qed.

(** The server, given the stream, writes the message back and nothing else, or its
    write fails. *)
Definition writes_back {SendS RecvS ES ER EF} (E : Type) (F : FacadeStreams SendS RecvS ES ER EF) (sent : SendS -> bytes)
    (accepted : SendS * RecvS) (msg : bytes) : Prop := forall r dropped, echo_stream (E:=E) accepted = (r, dropped) ->
  (r = Ok () /\ sent dropped.1 = sent accepted.1 ++ msg) \/ exists e, r = Err (WriteFailed e).
Definition received (r : Incoming) (l : bytes) : Prop := r = MkIncoming l (IoError UnexpectedEof []).

(** C30: what the echo client says comes back.  Over a session that opens its streams
    with their header, as those over Quinn and Quion do, a request that succeeds has
    put the header and the greeting on the wire; the server's session, over Quinn or
    Quion, hands exactly the greeting to one of its accept calls.  The server's loop
    ([served]) calls the session in the order in which it is ready, and echoes every
    stream that an accept call gave it: it reads up to 1024 bytes to the end and
    writes them back; it goes on until one of these calls does not succeed, whose
    failure it ends with, so that with calls that return without a panic, and turns
    enough, it ends with an error and not otherwise.  The echo of the client's stream is the greeting, or its write
    fails; and when the client has the server's bytes and the end, it returns the
    greeting. *)
Theorem echo_end_to_end `{Quion} {S W SendS RecvS E ES ER EF SQ SN D EQ EN : Type}
  {T : TraitSession S W SendS RecvS E} {F : FacadeStreams SendS RecvS ES ER EF} {sent ends} `{!FacadeLaws F sent ends}
  `{!QuinnSend SQ} `{!QuinnRecv Incoming} {sentq} `{!QuinnWhole sentq received}
  `{!QuionSend SN} `{!QuionRecv Incoming} {sentn} `{!QuionWhole sentn received}
  session sid (Hsid : varint_ok sid) (Ho : opens_bi T sent session sid) w send recv w'
  (Hc : client_request (FacadeStreams0:=F) session w = (Ok (send, recv), w')) :
  let fin := IoError UnexpectedEof [] in
  sent send = bi_header sid ++ hello /\
  reaches_bi (SendS:=SQ) (D:=D) sid (sent send) hello fin /\ reaches_bi (SendS:=SN) (D:=D) sid (sent send) hello fin /\
  (forall back, writes_back EQ quinn_facade sentq (back, MkIncoming hello fin) hello) /\
  (forall back, writes_back EN quion_facade (fun s => sentn (stream s)) (Send.new (D:=D) back, Recv.new (D:=D) (MkIncoming hello fin)) hello) /\
  (forall S' W' SendS' RecvS' E' ES' ER' EF' (T' : TraitSession S' W' SendS' RecvS' E') (F' : FacadeStreams SendS' RecvS' ES' ER' EF')
     session' schedule w1 before r w2 after,
     run_session session' schedule (w1, before) = (r, (w2, after)) ->
     served session' schedule w1 before r w2 after /\
     ((forall w, completes (accept_bi session' w).1) -> (forall w, completes (recv_datagram session' w).1) ->
      (forall msg w, completes (send_datagram session' msg w).1) ->
      (forall recv, completes (read_to_end 1024 recv).1) -> (forall msg send, completes (write_all msg send).1) ->
      (exists e, r = Err e) \/ (r = OutOfFuel /\ exists accepted w3, turns session' schedule w1 accepted w3))) /\
  (forall recv', ends recv' hello -> exists recv'', client_response (E:=E) (FacadeStreams0:=F) recv' = (Ok hello, recv'')).
Proof.
  intros fin. destruct (client_request_sent session w send recv w' Hc) as (send0 & Hs0 & Hs). rewrite (Ho _ _ _ _ Hs0) in Hs.
  split; [done|]. rewrite Hs. split; [by apply bi_reaches|]. split; [by apply bi_reaches|]. split; [|split; [|split]].
  - intros back r dropped He. by apply (echo_stream_echoes (ends:=received) _ _ _ _ He).
  - intros back r dropped He. by apply (echo_stream_echoes (sent:=fun s => sentn (stream s)) (ends:=fun r => received (inner r)) _ _ _ _ He).
  - intros S' W' SendS' RecvS' E' ES' ER' EF' T' F' session' schedule w1 before r w2 after Hr. apply run_session_serves in Hr.
    split; [exact Hr|]. intros. by eapply served_ends.
  - intros recv' Hr. by apply client_response_read.
Qed.

(** ** A sample client over Quinn, whose streams take what they are given *)
Definition whole_recv : QuinnRecv (H:=sample_quinn) Incoming := {|
  QuinnStreams.Chunk := bytes; QuinnStreams.chunk_bytes c := c; qr_stop _ := ret (); qr_read dst := ret (None, dst);
  qr_read_exact dst := throw (QEReadError QRClosedStream); qr_read_chunk _ _ := ret None; qr_read_chunks _ := ret (None, []);
  qr_read_to_end limit r := if len (in_bytes r) <=? limit then (Ok (in_bytes r), MkIncoming [] (in_end r)) else (Err QTTooLong, r);
  qr_received_reset := ret None; qr_id _ := 0 |}.
Definition whole_quion_recv : QuionRecv (H:=sample_quion) Incoming := {|
  NChunk := bytes; nchunk_bytes c := c; nr_stop _ := ret (); nr_read dst := ret (None, dst);
  nr_read_exact dst := throw NRIllegalOrderedState; nr_read_chunk _ _ := ret None;
  nr_read_to_end limit r := (Ok (in_bytes r), MkIncoming [] (in_end r)); nr_received_reset := ret None; nr_id _ := Some 0 |}.
Lemma whole_quinn : QuinnWhole (QuinnSend0:=sample_send) (QuinnRecv0:=whole_recv) ws_sent received.
Proof.
  split; [done|done|]. intros limit l r -> Hl. cbn. destruct (Z.leb_spec (len l) limit); [|lia]. by eexists.
Qed.
Lemma whole_quion : QuionWhole (QuionSend0:=sample_quion_send) (QuionRecv0:=whole_quion_recv) (fun s => ws_sent (qs_out s)) received.
Proof. split; [done|done|]. intros limit l r -> Hl. by eexists. Qed.
Definition whole_connection : QuinnConnection (H:=sample_quinn) unit WStream Incoming :=
  @Build_QuinnConnection sample_quinn _ WStream Incoming
    (ret (MkWStream [] 3)) (ret (MkWStream [] 3, MkIncoming [] (IoError UnexpectedEof []))) out_of_fuel out_of_fuel out_of_fuel (fun _ => ret ()) (fun _ => None).
Lemma whole_open : QuinnOpenLaws (QuinnSend0:=sample_send) (QuinnConnection0:=whole_connection) ws_sent.
Proof. by split. Qed.
Definition whole_link : QuicConn unit := {| conn_is_closed _ := false; conn_close _ _ c := c |}.
Definition whole_closed : Quinn.QuinnClosed (H:=sample_quinn) unit := @Quinn.Build_QuinnClosed sample_quinn _ (fun c => (OutOfFuel, c)) (fun _ => None).
Definition whole_session := Quinn.trait_session (H0:=sample_quinn) (QuinnSend0:=sample_send) (QuinnConnection0:=whole_connection)
  (QuicConn0:=whole_link) (QuinnClosed0:=whole_closed) (CloseQueue0:=sample_queue) (U:=bytes).

Definition whole_world : Quinn.World (H0:=sample_quinn) (C:=unit) (SendS:=WStream) (RecvS:=Incoming) (Q:=unit) :=
  @Quinn.MkWorld sample_quinn unit WStream Incoming unit tt None None [] [].
Lemma echo_end_to_end_witness :
  let sid := MkVarInt 4 in
  exists s send recv, QuinnSession.Session.new sid (lit "https://a/") = Ok s /\
    client_request (TraitSession0:=whole_session) (FacadeStreams0:=quinn_facade (QuinnSend0:=sample_send) (QuinnRecv0:=whole_recv)) s whole_world
      = (Ok (send, recv), whole_world) /\ ws_sent send = bi_header sid ++ hello.
Proof.
  intros sid. eexists _, _, _. split; [reflexivity|]. split; [reflexivity|].
  refine (proj1 (echo_end_to_end (H:=sample_quion) (T:=whole_session) (FacadeLaws0:=quinn_facade_laws _ _ (QuinnWhole0:=whole_quinn))
    (EQ:=unit) (EN:=unit) (D:=unit) (QuinnWhole0:=whole_quinn) (QuionWhole0:=whole_quion) _ sid _ _ whole_world _ _ whole_world eq_refl)).
  - by_eval.
  - apply (quinn_opens_bi (QuinnOpenLaws0:=whole_open) ws_sent sid (lit "https://a/")); [by_eval|reflexivity].
Defined.
