(* ===== verification/Servers.v ===== *)
(** * The example servers, from the endpoint to the session (webtrans/examples/
    echo-server.rs, interop/src/bin/chromium_server.rs, over Quinn)

    The loop that takes requests, the request paths the test server answers, and
    what a request that was accepted becomes: the session of [Session::new] and its
    world, on which the programs of [Examples] run. *)
From S2P Require Import Prelude Buf Varint Frame Settings PrefixInt Qpack Connect Streams QuinnStreams QuinnCapsules QuinnSession QuinnHandshake.
From S2P Require Import Accepting Interop Sessions Examples.

(** [StatusCode::FORBIDDEN], and the queue a channel of one is made with. *)
Class Forbidden `{HttpLib} := { FORBIDDEN : StatusCode }.
Class NewQueue (Q : Type) := { channel : Q }.

Section Servers.
Context `{Platform} `{Quinn} `{UrlLib} `{HttpLib} `{!HttpStatus} `{!Forbidden} `{!HashMapIter bytes bytes} `{!HashMapIter Setting VarInt}.
Context {C SendS RecvS Q K : Type} `{!QuinnSend SendS} `{!QuinnRecv RecvS} `{!QuinnConnection C SendS RecvS} `{AsyncRead RecvS} `{AsyncWrite SendS}.
Context `{!QuicConn C} `{!Quinn.QuinnClosed C} `{!CloseQueue Q} `{!NewQueue Q}.
Abbreviation Connection := (Connect SendS RecvS).
Abbreviation QSettings := (QSettings (SendS:=SendS) (RecvS:=RecvS)).
Abbreviation Request := (Request (C:=C) (SendS:=SendS) (RecvS:=RecvS)).
Abbreviation World := (Quinn.World (C:=C) (SendS:=SendS) (RecvS:=RecvS) (Q:=Q)).
Abbreviation Ready := (QuinnHandshake.ready (C:=C) (SendS:=SendS) (RecvS:=RecvS) K).
Abbreviation Failure := (anyhow QuinnStreams.SessionError QuinnStreams.WriteError QuinnStreams.ReadToEndError QuinnStreams.ClosedStream).
Abbreviation trait := (Quinn.trait_session (C:=C) (SendS:=SendS) (RecvS:=RecvS) (U:=Url) (Q:=Q)).
Abbreviation facade := (quinn_facade (S:=SendS) (T:=RecvS)).

(** What the polls of a session's accept calls will find. *)
Record Polls := MkPolls {
  polls_uni : list (list (SessionAccept.answer RecvS)); polls_bi : list (list (SessionAccept.answer (SendS * RecvS))) }.
(** [Session::new]: the session, and the part of the world its handles share. *)
Definition session_new (parts : C * QSettings * Connection) (polls : Polls) : outcome Empty_set (QuinnSession.Session Url * World) :=
  let '(conn, settings, connect) := parts in
  let? session_id := QuinnSession.Session.connect_session_id (connect_send connect) in
  let? session := QuinnSession.Session.new session_id (Connect_url connect) in
  Ok (session, Quinn.MkWorld conn (Some channel) (Some (SessionAccept.new session_id)) (polls_uni polls) (polls_bi polls)).

Inductive server_failure :=
| EndpointClosed
| HandshakeFailed (e : ServerError)
| Expected (path : bytes) (url : Url)
| SessionError (e : Failure).

(** ** echo-server.rs *)

(** The loop of [main]; the requests it spawned a task for are kept, in order. *)
Fixpoint main_loop (accepts : list (list Ready)) : M (Server K * list Request) Empty_set unit :=
  match accepts with
  | [] => out_of_fuel
  | events :: accepts =>
      let* result := on_fst (Server_accept events) in
      match result with
      | None => ret ()
      | Some (Ok conn) => (fun st => (Ok (), (st.1, st.2 ++ [conn]))) ;;; main_loop accepts
      | Some (Err error) => main_loop accepts
      | Some Panic => panic
      | Some OutOfFuel => out_of_fuel
      end
  end.
(** The answer to the request, and how the session was left: its world and the
    streams it dropped.  An error of the session is logged. *)
Definition run_conn (polls : Polls) (schedule : list (Examples.ready)) (request : Request)
  : outcome server_failure unit * option Connection * option (World * list (SendS * RecvS)) :=
  let '(r, _, sent) := Request_ok request in
  match r with
  | Err e => (Err (HandshakeFailed e), sent, None)
  | Panic => (Panic, sent, None)
  | OutOfFuel => (OutOfFuel, sent, None)
  | Ok parts =>
      match session_new parts polls with
      | Ok (session, w) =>
          let '(r, after) := run_session (TraitSession0:=trait) (FacadeStreams0:=facade) session schedule (w, []) in
          (match r with Ok _ | Err _ => Ok () | Panic => Panic | OutOfFuel => OutOfFuel end, sent, Some after)
      | _ => (Panic, sent, None)
      end
  end.

(** ** chromium_server.rs: the state is the server, and the CONNECT streams of the
    requests it took, as they were left *)
Definition State : Type := Server K * list Connection.
Definition next_request (events : list Ready) : M State server_failure Request :=
  let* result := on_fst (map_err (fun e : Empty_set => match e with end) (Server_accept events)) in
  match result with
  | None => throw EndpointClosed
  | Some r => map_err HandshakeFailed (lift r)
  end.
Definition answered (sent : option Connection) : M State server_failure unit := fun st =>
  (Ok (), (st.1, st.2 ++ match sent with Some connect => [connect] | None => [] end)).
(** The request is dropped when its path is another. *)
Definition expect_path (path : bytes) (request : Request) : M State server_failure unit :=
  if bool_decide (url_path (rq_url request) = path) then ret () else
  answered (Request_drop true request) ;;;
  throw (Expected path (rq_url request)).
Definition serve_session (path : bytes) (program : QuinnSession.Session Url -> M World Failure unit) (events : list Ready) (polls : Polls)
  : M State server_failure unit :=
  let* request := next_request events in
  expect_path path request ;;;
  let '(r, _, sent) := Request_ok request in
  answered sent ;;;
  let* parts := map_err HandshakeFailed (lift r) in
  let* (session, w) := map_err (fun e : Empty_set => match e with end) (lift (session_new parts polls)) in
  map_err SessionError (lift (program session w).1).
Definition serve_echo : list Ready -> Polls -> M State server_failure unit :=
  serve_session (lit "/echo") (echo_session (TraitSession0:=trait) (FacadeStreams0:=facade)).
Definition serve_close : list Ready -> Polls -> M State server_failure unit :=
  serve_session (lit "/server-close") (close_session (TraitSession0:=trait)).
Definition serve_rejection (events : list Ready) : M State server_failure unit :=
  let* request := next_request events in
  expect_path (lit "/reject") request ;;;
  let '(r, _, sent) := Request_close FORBIDDEN request in
  answered sent ;;;
  map_err HandshakeFailed (lift r).
Definition serve_all (e1 e2 e3 e4 : list Ready) (p1 p2 p4 : Polls) : M State server_failure unit :=
  serve_echo e1 p1 ;;;
  serve_close e2 p2 ;;;
  serve_rejection e3 ;;;
  serve_echo e4 p4 ;;;
  ret ().
End Servers.

(** ** What a request becomes *)
Section Sessions.
Context `{Platform} `{Quinn} `{UrlLib} {C SendS RecvS Q : Type} `{!QuinnSend SendS} `{!QuinnConnection C SendS RecvS} `{AsyncRead RecvS} `{!NewQueue Q}
  `{!QuicConn C} `{!Quinn.QuinnClosed C} `{!CloseQueue Q}.
(** A session is that of the identifier of its CONNECT stream: what it opens has the
    header, and what it accepts are the streams that begin with it. *)
Lemma session_new_ok (parts : C * QSettings (SendS:=SendS) (RecvS:=RecvS) * Connect SendS RecvS) polls s (w : Quinn.World (Q:=Q)) :
  session_new parts polls = Ok (s, w) -> 0 <= qs_id (connect_send parts.2) -> exists sid, VarInt.try_from_u64 (qs_id (connect_send parts.2)) = Ok sid /\ varint_ok sid /\
    QuinnSession.Session.new sid (Connect_url parts.2) = Ok s /\ Quinn.conn w = parts.1.1 /\ Quinn.accepting w = Some (SessionAccept.new sid).
Proof.
  destruct parts as [[conn settings] connect]. unfold session_new, QuinnSession.Session.connect_session_id.
  destruct (VarInt.try_from_u64 (qs_id (connect_send connect))) as [sid|e| |] eqn:Hid; try done. cbn [obind].
  destruct (QuinnSession.Session.new sid (Connect_url connect)) as [s'|e| |] eqn:Hs; try done. cbn [obind]. intros [= <- <-] Hpos. cbn [snd] in Hpos.
  exists sid. cbn [snd fst]. split_and!; try done. revert Hid. unfold VarInt.try_from_u64, VarInt.from_u64.
  destruct (Z.leb_spec (qs_id (connect_send connect)) (into_inner VarInt.MAX)); [|done]. intros [= <-]. by split.
Qed.
Lemma session_new_opens (sent : SendS -> bytes) `{!QuinnOpenLaws sent} (parts : C * QSettings (SendS:=SendS) (RecvS:=RecvS) * Connect SendS RecvS) polls s
    (w : Quinn.World (C:=C) (SendS:=SendS) (RecvS:=RecvS) (Q:=Q)) :
  session_new parts polls = Ok (s, w) -> 0 <= qs_id (connect_send parts.2) -> exists sid, varint_ok sid /\
    opens_bi (Quinn.trait_session (C:=C) (SendS:=SendS) (RecvS:=RecvS) (Q:=Q)) sent s sid /\ Quinn.accepting w = Some (SessionAccept.new sid).
Proof.
  intros Hn Hpos. destruct (session_new_ok parts polls s w Hn Hpos) as (sid & _ & Hok & Hs & _ & Ha).
  exists sid. split; [done|]. split; [|done]. by eapply quinn_opens_bi.
Qed.
End Sessions.

Section Loop.
Context `{Quinn} `{UrlLib} `{HttpLib} {C SendS RecvS K : Type}.
Abbreviation Ready := (QuinnHandshake.ready (C:=C) (SendS:=SendS) (RecvS:=RecvS) K).
(** A task is spawned for each request that [accept] gives, in order, and for
    nothing else; errors are passed over; the bound on handshakes stays.  Only a
    handshake that panicked makes the loop panic. *)
Inductive taken : list (list Ready) -> Server K -> list Request -> Prop :=
| taken_nil accepts s : taken accepts s []
| taken_request events accepts s s' request l :
    Server_accept events s = (Ok (Some (Ok request)), s') -> taken accepts s' l -> taken (events :: accepts) s (request :: l)
| taken_error events accepts s s' e l :
    Server_accept events s = (Ok (Some (Err e)), s') -> taken accepts s' l -> taken (events :: accepts) s l.
Lemma main_loop_takes (accepts : list (list Ready)) : forall s before r s' after,
  main_loop accepts (s, before) = (r, (s', after)) -> bounded s ->
  bounded s' /\ exists requests, after = before ++ requests /\ taken accepts s requests /\
    (r = Panic -> exists events s1, bounded s1 /\ events ∈ accepts /\ (Server_accept events s1).1 = Ok (Some Panic)).
Proof.
  induction accepts as [|events accepts IH]; intros s before r s' after.
  { intros [= <- <- <-] Hb. split; [done|]. exists []. rewrite app_nil_r. split_and!; [done|constructor|done]. }
  intros Hm Hb. pose proof (server_accept_bounded events s Hb) as Ha.
  assert (Hstop : forall r1 s1, (r1, (s1, before)) = (r, (s', after)) -> bounded s1 ->
    (r1 = Panic -> (Server_accept events s).1 = Ok (Some Panic)) ->
    bounded s' /\ exists requests, after = before ++ requests /\ taken (events :: accepts) s requests /\
      (r = Panic -> exists events' s1, bounded s1 /\ events' ∈ events :: accepts /\ (Server_accept events' s1).1 = Ok (Some Panic))).
  { intros r1 s1 [= <- <- <-] Hb1 Hp. split; [done|]. exists []. rewrite app_nil_r. split; [done|]. split; [constructor|].
    intros Hr. exists events, s. split; [done|]. split; [left|by apply Hp]. }
  assert (Hmore : (exists events' s1, bounded s1 /\ events' ∈ accepts /\ (Server_accept events' s1).1 = Ok (Some Panic)) ->
    exists events' s1, bounded s1 /\ events' ∈ events :: accepts /\ (Server_accept events' s1).1 = Ok (Some Panic)).
  { intros (ev & s2 & ? & ? & ?). exists ev, s2. split_and!; try done. by right. }
  revert Hm. cbn [main_loop]. unfold bind at 1, on_fst at 1. cbn [fst snd].
  destruct (Server_accept events s) as [[[[request|e| |]|]|[]| |] s1] eqn:E; destruct Ha as (Hp & Hb1 & _); cbn [fst snd] in *;
    cbv beta iota zeta; intros Hm.
  - apply IH in Hm as (Hb' & l & -> & Ht & Hr); [|done]. split; [done|]. exists (request :: l). rewrite <- app_assoc.
    split; [done|]. split; [by econstructor|]. intros Hpan. apply Hmore. by apply Hr.
  - apply IH in Hm as (Hb' & l & -> & Ht & Hr); [|done]. split; [done|]. exists l.
    split; [done|]. split; [by eapply taken_error|]. intros Hpan. apply Hmore. by apply Hr.
  - by apply (Hstop _ _ Hm).
  - by apply (Hstop _ _ Hm).
  - by apply (Hstop _ _ Hm).
  - by destruct Hp.
  - by apply (Hstop _ _ Hm).
Qed.
End Loop.

(** Each request that the test server takes is answered, once, whatever its path: with
    200 on the path it waits for (403 on the one it rejects), after which its session
    runs, and with 500 on any other, which is an error of the server.  The echo
    server spawns a task for each request that its accept gives, in order, passes
    over handshakes that failed, and never has more of them pending than its bound. *)
Theorem servers_answer `{Platform} `{Quinn} `{UrlLib} `{HttpLib} `{!HttpStatus} `{!Forbidden} `{!UrlLaws} `{!HttpLaws}
  `{!HashMapIter bytes bytes} `{!HashMapIter Setting VarInt} `{!QuinnSend Outgoing} `{!QuinnFinishes} `{!QuinnRecv Incoming}
  {C Q K : Type} `{!QuinnConnection C Outgoing Incoming} `{!QuicConn C} `{!Quinn.QuinnClosed C} `{!CloseQueue Q} `{!NewQueue Q}
  (conn : C) (settings : QSettings (SendS:=Outgoing) (RecvS:=Incoming)) (q : ConnectRequest) (recv : Incoming)
  (events : list (QuinnHandshake.ready K)) (polls : Polls) (s s' : Server K) (before : list (Connect Outgoing Incoming)) :
  let connect out := MkConnect q (MkOutgoing out None) recv in
  let request u := MkRequest (Some conn) (Some settings) (Some (connect [])) u in
  let with_answer st := (s', before ++ [connect (response_bytes st)]) in
  (forall u, Server_accept events s = (Ok (Some (Ok (request u))), s') ->
     (forall serve path, (serve = serve_echo (Q:=Q) events polls /\ path = lit "/echo") \/
         (serve = serve_close (Q:=Q) events polls /\ path = lit "/server-close") ->
       if bool_decide (url_path u = path) then (serve (s, before)).2 = with_answer STATUS_OK
       else serve (s, before) = (Err (Expected path u), with_answer STATUS_INTERNAL_SERVER_ERROR)) /\
     (if bool_decide (url_path u = lit "/reject") then serve_rejection events (s, before) = (Ok (), with_answer FORBIDDEN)
      else serve_rejection events (s, before) = (Err (Expected (lit "/reject") u), with_answer STATUS_INTERNAL_SERVER_ERROR))) /\
  (forall accepts before r s' after, main_loop (C:=C) (SendS:=Outgoing) (RecvS:=Incoming) accepts (s, before) = (r, (s', after)) -> bounded s ->
     bounded s' /\ exists requests, after = before ++ requests /\ taken accepts s requests).
Proof.
  intros connect request with_answer. split.
  - intros u Ha.
    assert (Hother : forall path, url_path u <> path ->
      expect_path (K:=K) path (request u) (s', before) = (Err (Expected path u), with_answer STATUS_INTERNAL_SERVER_ERROR)).
    { intros path Hp. unfold expect_path. cbn [rq_url request]. rewrite bool_decide_false by done.
      unfold Request_drop, request, connect. cbn [rq_connect]. rewrite reject_out. done. }
    assert (Hnext : next_request events (s, before) = (Ok (request u), (s', before))).
    { unfold next_request, bind, on_fst, map_err. cbn [fst snd]. by rewrite Ha. }
    assert (Hok : Request_ok (request u) = (Ok (conn, settings, connect (response_bytes STATUS_OK)), MkRequest None None None u, Some (connect (response_bytes STATUS_OK)))).
    { unfold Request_ok, request, connect. cbn [rq_connect Request_without_connect rq_conn rq_settings rq_url]. by rewrite respond_out. }
    split.
    + assert (Hserve : forall path program, let r := serve_session (Q:=Q) path program events polls (s, before) in
        if bool_decide (url_path u = path) then r.2 = with_answer STATUS_OK
        else r = (Err (Expected path u), with_answer STATUS_INTERNAL_SERVER_ERROR)).
      { intros path program r. subst r. case_bool_decide as Hp; unfold serve_session; unfold bind at 1; rewrite Hnext; cbv beta iota; unfold bind at 1; [|by rewrite (Hother path Hp)].
        unfold expect_path at 1. cbn [rq_url request]. rewrite bool_decide_true by done. unfold ret at 1. rewrite Hok.
        unfold bind, answered, map_err, lift. cbn [fst snd].
        destruct (session_new _ polls) as [[session w]|[]| |]; [|done..]. by destruct (program session w).1. }
      intros serve path [[-> ->]|[-> ->]]; apply Hserve.
    + case_bool_decide as Hp; unfold serve_rejection; unfold bind at 1; rewrite Hnext; cbv beta iota; unfold bind at 1; [|by rewrite (Hother _ Hp)].
      unfold expect_path at 1. cbn [rq_url request]. rewrite bool_decide_true by done. unfold ret at 1.
      unfold Request_close, request, connect. cbn [rq_connect Request_without_connect rq_conn rq_settings rq_url]. by rewrite reject_out.
  - intros accepts b r s1 after Hm Hb. destruct (main_loop_takes accepts s b r s1 after Hm Hb) as (? & l & ? & ? & _). split; [done|]. by exists l.
Qed.
