(* ===== verification/Setup.v ===== *)
(** * Setting the examples up (webtrans/examples: echo-server.rs, echo-client.rs)

    Which certificates the echo server proves itself with, whom the echo client
    trusts, and the fingerprint the server prints.  Log output is left out. *)
From S2P Require Import Prelude Buf Utf8 Varint Frame Settings PrefixInt Qpack Connect QuinnStreams QuinnCapsules QuinnSession QuinnHandshake.
From S2P Require Import QuinnClient QuinnBuilders Tls Fuzz.

(** ** echo-client.rs *)

(** [Ipv4Addr::is_loopback], [Ipv6Addr::is_loopback] *)
Definition ipv4_is_loopback (octets : list Z) : bool := bool_decide (head octets = Some 127).
Definition ipv6_is_loopback (segments : list Z) : bool := bool_decide (segments = [0; 0; 0; 0; 0; 0; 0; 1]).
Definition is_localhost_url `{UrlLib} `{!UrlHost} (url : Url) : bool :=
  match url_host url with
  | Some (Domain d) => eq_ignore_ascii_case d (lit "localhost")
  | Some (Ipv4 ip) => ipv4_is_loopback ip
  | Some (Ipv6 ip) => ipv6_is_loopback ip
  | None => false
  end.

(** [anyhow::Error], as what it wraps. *)
Inductive setup_error (Pem Tls : Type) :=
| ReadFailed (e : io_error)
| LoadFailed (e : Pem)
| TlsFailed (e : Tls)
| Message (text : bytes).
Arguments ReadFailed {Pem Tls}. Arguments LoadFailed {Pem Tls}. Arguments TlsFailed {Pem Tls}. Arguments Message {Pem Tls}.

Section Setup.
Context `{RustlsConfig} `{UrlLib} `{HttpLib} `{!UrlHost} {Net Endpoint ClientConfig X : Type}
  `{!QuinnConfig Net Endpoint ClientConfig} `{!TlsLib Net}.
Abbreviation ClientFailure := (setup_error PemError (ClientError X)).
Abbreviation ServerFailure := (setup_error PemError ProtoError).

Definition load_pem_certs {E} (path : bytes) : M Net (setup_error PemError E) (list bytes) :=
  let* pem := map_err ReadFailed (fs_read path) in
  map_err LoadFailed (lift (collect (pem_slice_iter pem))).
Record ClientArgs := MkClientArgs { url : Url; client_tls_cert : option bytes; tls_disable_verify : bool }.
Definition new_builder : M Net ClientFailure ClientBuilder := fun n =>
  let '(installed, ring, aws_lc_rs) := providers n in (never (ClientBuilder_new installed ring aws_lc_rs), n).
(** The client that [main] makes. *)
Definition make_client (args : ClientArgs) : M Net ClientFailure (Client Endpoint ClientConfig) :=
  let is_local := is_localhost_url (url args) in
  if tls_disable_verify args then
    let* b := new_builder in map_err TlsFailed (with_no_certificate_verification b)
  else match client_tls_cert args with
  | Some path =>
      let* chain := load_pem_certs path in
      if bool_decide (chain = []) then throw (Message (lit "could not find certificate")) else
      let* b := new_builder in map_err TlsFailed (with_server_certificates chain b)
  | None =>
      if is_local then let* b := new_builder in map_err TlsFailed (with_no_certificate_verification b)
      else let* b := new_builder in map_err TlsFailed (with_system_roots b)
  end.

(** ** echo-server.rs *)
Record ServerArgs := MkServerArgs { tls_cert : option bytes; tls_key : option bytes }.
Definition load_or_generate_certs (args : ServerArgs) : M Net ServerFailure (list bytes * PrivateKey) :=
  match tls_cert args, tls_key args with
  | Some cert_path, Some key_path =>
      let* chain := load_pem_certs cert_path in
      if bool_decide (chain = []) then throw (Message (lit "could not find certificate")) else
      let* key_pem := map_err ReadFailed (fs_read key_path) in
      let* key := map_err LoadFailed (lift (from_pem_slice key_pem)) in
      let* _ := ok_or (Message (lit "certificate chain is empty")) (head chain) in
      ret (chain, key)
  | None, None =>
      let sans := [lit "localhost"; lit "127.0.0.1"; lit "::1"] in
      let* (chain, key) := map_err TlsFailed (tls.generate_self_signed_pair_der sans) in
      let* _ := ok_or (Message (lit "certificate chain is empty")) (head chain) in
      ret (chain, key)
  | _, _ => throw (Message (lit "both --tls-cert and --tls-key must be provided together, or neither"))
  end.
End Setup.

(** The fingerprint of a certificate: two digits for each byte of its SHA-256. *)
Definition fp (digest : bytes -> bytes) (der : bytes) : bytes := hex_of (digest der).

(** ** What they come to *)
Section Lemmas.
Context `{RustlsConfig} `{UrlLib} `{HttpLib} `{!UrlHost} {Net Endpoint ClientConfig X : Type}
  `{!QuinnConfig Net Endpoint ClientConfig} `{!TlsLib Net} `{!RustlsLaws} `{!QuinnConfigLaws}.
Abbreviation Client := (QuinnClient.Client Endpoint ClientConfig).

(** The client takes any certificate; or that of a server whose SHA-256 is that of
    one of [chain]; or what the system's roots vouch for. *)
Definition trusts_anyone (c : Client) : Prop := exists b v, built b c (inr v) /\
  forall leaf inter name ocsp now, dyn_server_cert v leaf inter name ocsp now = Ok ().
Definition trusts_only (chain : list bytes) (c : Client) : Prop := exists b v digest, built b c (inr v) /\ has_sha256 (cb_provider b) digest /\
  forall leaf inter name ocsp now, dyn_server_cert v leaf inter name ocsp now =
    if bool_decide (digest leaf ∈ map digest chain) then Ok () else Err UnknownIssuer.
Definition trusts_system (c : Client) : Prop := exists b certs roots, built b c (inl roots) /\ add_roots certs roots_empty = (Ok (), roots).

Lemma no_verification_trusts (b : ClientBuilder) n c n' : with_no_certificate_verification (X:=X) b n = (Ok c, n') -> trusts_anyone c.
Proof. intros Hb. eexists b, _. split; [by eapply with_verifier_built|]. done. Qed.
Lemma certificates_trust chain (b : ClientBuilder) n c n' : chain <> [] ->
  with_server_certificates (X:=X) chain b n = (Ok c, n') -> trusts_only chain c.
Proof.
  intros Hne. unfold with_server_certificates. destruct (sha256_cases (cb_provider b)) as [[digest Hd]|Hno].
  - rewrite (sha256_all_map _ digest) by done. intros Hb.
    change (with_server_certificate_hashes (X:=X) (map digest chain) b n = (Ok c, n')) in Hb. eexists b, _, digest.
    split; [by eapply with_verifier_built|]. split; [done|]. intros leaf inter name ocsp now. by apply fingerprints_verify.
  - destruct chain as [|cert chain]; [congruence|]. unfold bind, lift. cbn. by rewrite Hno.
Qed.
Lemma system_roots_trust (b : ClientBuilder) n c n' : with_system_roots (X:=X) b n = (Ok c, n') -> trusts_system c.
Proof.
  unfold with_system_roots. intros Hb. apply bind_Ok_inv in Hb as (certs & n1 & _ & Hb).
  destruct (add_roots certs roots_empty) as [[[]|[]| |] roots] eqn:Er; try done.
  exists b, certs, roots. split; [|done]. apply bind_Ok_inv in Hb as (? & n2 & Hr & Hb). apply lift_Ok_inv in Hr as [_ ->].
  apply bind_Ok_inv in Hb as (w & n3 & Hw & Hb). apply map_err_Ok_inv, lift_Ok_inv in Hw as [Hw ->].
  eapply build_built; [|done]. by apply view_roots.
Qed.
Lemma load_pem_certs_ok {E} path n chain n' : load_pem_certs (E:=E) path n = (Ok chain, n') ->
  exists pem, fs_read path n = (Ok pem, n') /\ collect (pem_slice_iter pem) = Ok chain.
Proof.
  intros Hl. apply bind_Ok_inv in Hl as (pem & n1 & Hr & Hl). apply map_err_Ok_inv in Hr.
  apply map_err_Ok_inv, lift_Ok_inv in Hl as [Hc ->]. by exists pem.
Qed.
End Lemmas.

(** Whom the echo client trusts, and what the echo server shows.  A client that
    starts takes any certificate only when it was told so, or when it was given no
    certificate and the URL's host is localhost or a loopback address; given a file
    (and not told otherwise) it takes exactly the certificates in it, of which there
    is one at least; else it relies on the roots of the system.  A server that
    starts has a chain and key from the two files, the chain not being empty, or,
    given neither, the certificate made for the three local names; one file without
    the other is an error before anything is read. *)
Theorem examples_trust `{RustlsConfig} `{UrlLib} `{HttpLib} `{!UrlHost} {Net Endpoint ClientConfig X : Type}
  `{!QuinnConfig Net Endpoint ClientConfig} `{!TlsLib Net} `{!RustlsLaws} `{!QuinnConfigLaws} (n : Net) :
  (forall args c n', make_client (X:=X) args n = (Ok c, n') ->
     match tls_disable_verify args, client_tls_cert args with
     | true, _ => trusts_anyone c
     | false, Some path => exists pem chain n1, fs_read path n = (Ok pem, n1) /\ collect (pem_slice_iter pem) = Ok chain /\
         chain <> [] /\ trusts_only chain c
     | false, None => if is_localhost_url (url args) then trusts_anyone c else trusts_system c
     end) /\
  (forall args chain key n', load_or_generate_certs args n = (Ok (chain, key), n') -> chain <> [] /\
     match tls_cert args, tls_key args with
     | Some cert_path, Some key_path => exists pem key_pem n1, fs_read cert_path n = (Ok pem, n1) /\ collect (pem_slice_iter pem) = Ok chain /\
         fs_read key_path n1 = (Ok key_pem, n') /\ from_pem_slice key_pem = Ok key
     | None, None => exists cert, generate_simple_self_signed [lit "localhost"; lit "127.0.0.1"; lit "::1"] n = (Ok cert, n') /\
         chain = [cert_der cert] /\ key = Pkcs8 (key_der cert)
     | _, _ => False
     end) /\
  (forall path, exists text, load_or_generate_certs (MkServerArgs (Some path) None) n = (Err (Message text), n) /\
     load_or_generate_certs (MkServerArgs None (Some path)) n = (Err (Message text), n)).
Proof.
  split; [|split].
  - intros args c n'. unfold make_client. destruct (tls_disable_verify args); [|destruct (client_tls_cert args) as [path|]; [|destruct (is_localhost_url _)]].
    + intros Hb. apply bind_Ok_inv in Hb as (b & n1 & _ & Hb). apply map_err_Ok_inv in Hb. by eapply no_verification_trusts.
    + intros Hb. apply bind_Ok_inv in Hb as (chain & n1 & Hl & Hb). apply load_pem_certs_ok in Hl as (pem & Hr & Hc).
      destruct (bool_decide_reflect (chain = [])) as [|Hne]; [done|].
      apply bind_Ok_inv in Hb as (b & n2 & _ & Hb). apply map_err_Ok_inv in Hb.
      exists pem, chain, n1. split_and!; try done. by eapply certificates_trust.
    + intros Hb. apply bind_Ok_inv in Hb as (b & n1 & _ & Hb). apply map_err_Ok_inv in Hb. by eapply no_verification_trusts.
    + intros Hb. apply bind_Ok_inv in Hb as (b & n1 & _ & Hb). apply map_err_Ok_inv in Hb. by eapply system_roots_trust.
  - intros args chain key n'. unfold load_or_generate_certs. destruct (tls_cert args) as [cert_path|], (tls_key args) as [key_path|]; try done; intros Hb.
    + apply bind_Ok_inv in Hb as (chain' & n1 & Hl & Hb). apply load_pem_certs_ok in Hl as (pem & Hr & Hc).
      destruct (bool_decide_reflect (chain' = [])) as [|Hne]; [done|].
      apply bind_Ok_inv in Hb as (key_pem & n2 & Hk & Hb). apply map_err_Ok_inv in Hk.
      apply bind_Ok_inv in Hb as (key' & n3 & Hk' & Hb). apply map_err_Ok_inv, lift_Ok_inv in Hk' as [Hk' ->].
      apply bind_Ok_inv in Hb as (leaf & n4 & Hf & Hb). apply ok_or_Ok_inv in Hf as [_ ->]. injection Hb as <- <- <-.
      split; [done|]. by exists pem, key_pem, n1.
    + apply bind_Ok_inv in Hb as ([chain' key'] & n1 & Hg & Hb). apply map_err_Ok_inv in Hg.
      apply bind_Ok_inv in Hg as (cert & n2 & Hg & Hp). apply map_err_Ok_inv in Hg. injection Hp as <- <- <-.
      apply bind_Ok_inv in Hb as (leaf & n4 & Hf & Hb). apply ok_or_Ok_inv in Hf as [_ ->]. injection Hb as <- <- <-.
      split; [done|]. by exists cert.
  - intros path. by eexists.
Qed.
