(* ===== verification/Demo.v ===== *)
(** * The browser demo (webtrans-wasm-demo/src/lib.rs)

    What its buttons do: connecting, to the system's roots or to a certificate whose
    fingerprint was pasted, closing, and the two echoes.  The page itself (elements,
    closures, the log) is left out, and so is the drop of the streams.  A message of the browser is a [JsValue]. *)
From S2P Require Import Prelude Buf Utf8 Varint Streams Fuzz WasmStreams WasmSession Sessions Setup.

(** ** Fingerprints *)

(** [char::is_ascii_hexdigit] of one character of a string. *)
Definition is_ascii_hexdigit (c : bytes) : bool :=
  match c with
  | [b] => in_range 48 57 b || in_range 65 70 b || in_range 97 102 b
  | _ => false
  end.
Section Hex.
Context `{WebLib}.
(** The loop over the indices, two by two, of an even number of digits; a [u8] of
    the sum of two digits. *)
Fixpoint hex_pairs (s : bytes) : outcome JsValue bytes :=
  match s with
  | [] => Ok []
  | [_] => Panic
  | a :: b :: s =>
      match common.to_digit16 a, common.to_digit16 b with
      | Some hi, Some lo => let? out := hex_pairs s in Ok (Z.lor (Z.shiftl hi 4) lo mod 2 ^ 8 :: out)
      | _, _ => Panic
      end
  end.
Definition hex_digits (input : bytes) : bytes := concat (filter (fun c => is_ascii_hexdigit c = true) (chars input)).
Definition parse_hex_bytes (input : bytes) : outcome JsValue bytes :=
  let s := hex_digits input in
  if negb (len s mod 2 =? 0) then Err (js_str (lit "hex length must be even")) else hex_pairs s.
End Hex.

(** ** The page *)
Section Demo.
Context `{WebErrors} {CongestionControl World Handle Ru Rb Rg W Su Sb Rd R : Type}
  `{!Client.BrowserApi CongestionControl World Handle Ru Rb Rg W} `{!Browser World W Rd R} `{!JsWriter W R} `{!JsReader Rd R} `{!AsyncWriteExt}.
Abbreviation Session := (Client.Session (J:=Handle) (Ru:=Ru) (Rb:=Rb) (Rg:=Rg) (W:=W) (Su:=Su) (Sb:=Sb)).

(** The thread's [STATE], and the browser. *)
Record Page := MkPage { STATE : option Session; browser : World }.
Definition in_browser {A} (m : M World Error A) : M Page JsValue A := fun p =>
  let '(r, w) := map_err (fun e => js_str (error_to_string e)) m (browser p) in (r, MkPage (STATE p) w).
Definition set_session (session : Session) : M Page JsValue unit := fun p => (Ok (), MkPage (Some session) (browser p)).
Definition get_session : M Page JsValue Session := fun p =>
  match STATE p with Some session => (Ok session, p) | None => (Err (js_str (lit "not connected")), p) end.

(** [Url::parse], with the text of its errors; a URL is its text. *)
Context (parse_url : bytes -> outcome bytes bytes).
Definition invalid_url (e : bytes) : JsValue := js_str (lit "invalid url: " ++ e).
Definition connect_system (url : bytes) : M Page JsValue unit :=
  let* url := map_err invalid_url (lift (parse_url url)) in
  let client := Client.with_system_roots (Client.ClientBuilder_new (CongestionControl:=CongestionControl)) in
  let* session := in_browser (Client.connect client url) in
  set_session session.
Definition connect_pin (url sha256_hex : bytes) : M Page JsValue unit :=
  let* url := map_err invalid_url (lift (parse_url url)) in
  let* fp := lift (parse_hex_bytes sha256_hex) in
  if negb (len fp =? 32) then throw (js_str (lit "sha256 fingerprint must be 32 bytes (64 hex chars)")) else
  let client := Client.with_server_certificate_hashes [fp] (Client.ClientBuilder_new (CongestionControl:=CongestionControl)) in
  let* session := in_browser (Client.connect client url) in
  set_session session.
Abbreviation trait_session := (Wasm.trait_session (J:=World) (W:=W) (Rd:=Rd) (R:=R) (U:=Session)).
Definition close : M Page Empty_set unit := fun p =>
  match STATE p with
  | Some session =>
      let '(r, w) := Sessions.close (TraitSession:=trait_session) session 0 (lit "bye") (browser p) in (r, MkPage None w)
  | None => (Ok (), MkPage None (browser p))
  end.
(** The message that comes back, of which one chunk is read. *)
Definition bi_echo (fuel : nat) : M Page JsValue bytes :=
  let* session := get_session in
  let* (send, recv) := in_browser (open_bi (TraitSession:=trait_session) session) in
  let msg := lit "hello world" in
  let text e := js_str (error_to_string e) in
  let '(r, _) := (map_err text (Send.write msg) ;;; map_err text Send.finish) send in
  lift r ;;;
  let '(r, _) := map_err text (Recv.read fuel 1024) recv in
  let* data_opt := lift r in
  ok_or (js_str (lit "stream closed")) data_opt.
Definition datagram_echo : M Page JsValue bytes :=
  let* session := get_session in
  in_browser (send_datagram (TraitSession:=trait_session) session (lit "hello datagram")) ;;;
  in_browser (recv_datagram (TraitSession:=trait_session) session).
End Demo.

(** ** Fingerprints are read as they are written *)
Section HexLemmas.
Context `{WebLib}.
Definition hexadecimal (b : Z) : bool := in_range 48 57 b || in_range 65 70 b || in_range 97 102 b.
Lemma hex_digits_hexadecimal input : Forall (fun b => hexadecimal b = true) (hex_digits input).
Proof.
  unfold hex_digits. induction (chars input) as [|c cs IH]; [constructor|]. rewrite filter_cons.
  destruct (decide (is_ascii_hexdigit c = true)) as [Hc|]; [|done]. cbn [concat]. apply Forall_app. split; [|done].
  destruct c as [|b [|b' c]]; try done. by constructor.
Qed.
Definition pair_check (a b : Z) : bool :=
  negb (hexadecimal a && hexadecimal b) ||
  match common.to_digit16 a, common.to_digit16 b with
  | Some hi, Some lo => let v := Z.lor (Z.shiftl hi 4) lo in
      (0 <=? v) && (v <? 256) && bool_decide (hex_byte v = to_ascii_lowercase [a; b])
  | _, _ => false
  end.
Lemma pair_checks : forallb (fun a => forallb (pair_check a) (seqZ 48 55)) (seqZ 48 55) = true.
Proof. vm_compute. reflexivity. Qed.
(** Two digits are a byte, which is written with the same digits. *)
Lemma pair_byte a b : hexadecimal a = true -> hexadecimal b = true -> exists hi lo,
  common.to_digit16 a = Some hi /\ common.to_digit16 b = Some lo /\ 0 <= Z.lor (Z.shiftl hi 4) lo < 256 /\
  hex_byte (Z.lor (Z.shiftl hi 4) lo) = to_ascii_lowercase [a; b].
Proof.
  intros Ha Hb. assert (Hr : forall c, hexadecimal c = true -> In c (seqZ 48 55)).
  { intros c. rewrite <- list_elem_of_In, elem_of_seqZ. unfold hexadecimal, in_range. lia. }
  pose proof (proj1 (forallb_forall _ _) pair_checks a (Hr a Ha)) as Hall. pose proof (proj1 (forallb_forall _ _) Hall b (Hr b Hb)) as Hp.
  unfold pair_check in Hp. rewrite Ha, Hb in Hp. cbn [andb negb orb] in Hp.
  destruct (common.to_digit16 a) as [hi|], (common.to_digit16 b) as [lo|]; try done.
  apply andb_prop in Hp as [Hp Hw]. apply bool_decide_eq_true in Hw. exists hi, lo. split_and!; try done; lia.
Qed.
Lemma hex_pairs_reads n : forall s, (length s <= n)%nat -> Forall (fun b => hexadecimal b = true) s -> len s mod 2 = 0 ->
  exists l, hex_pairs s = Ok l /\ is_bytes l /\ hex_of l = to_ascii_lowercase s.
Proof.
  induction n as [|n IH]; intros [|a [|b s]] Hn Hs He; cbn [length] in Hn; try lia; try done.
  1, 2: by exists [].
  apply Forall_cons in Hs as [Ha Hs]. apply Forall_cons in Hs as [Hb Hs].
  rewrite !len_cons in He. replace (1 + (1 + len s)) with (len s + 1 * 2) in He by lia. rewrite Z_mod_plus_full in He.
  destruct (IH s ltac:(lia) Hs He) as (l & Hl & Hok & Hx). destruct (pair_byte a b Ha Hb) as (hi & lo & Hhi & Hlo & Hr & Hw).
  cbn [hex_pairs]. rewrite Hhi, Hlo, Hl. cbn [obind]. change (2 ^ 8) with 256. rewrite Z.mod_small by done.
  eexists. split; [done|]. split; [by constructor|].
  change (hex_of (Z.lor (Z.shiftl hi 4) lo :: l)) with (hex_byte (Z.lor (Z.shiftl hi 4) lo) ++ hex_of l). rewrite Hw, Hx. done.
Qed.
(** What the text says: the digits in it, in either case, are those of the bytes;
    an odd number of them is an error. *)
Lemma parse_hex_exact input :
  (exists l, parse_hex_bytes input = Ok l /\ is_bytes l /\ hex_of l = to_ascii_lowercase (hex_digits input)) \/
  (parse_hex_bytes input = Err (js_str (lit "hex length must be even")) /\ len (hex_digits input) mod 2 = 1).
Proof.
  unfold parse_hex_bytes. cbv zeta. destruct (Z.eqb_spec (len (hex_digits input) mod 2) 0) as [He|Ho]; cbn [negb].
  - left. by apply (hex_pairs_reads (length (hex_digits input))); [|apply hex_digits_hexadecimal|].
  - right. split; [done|]. pose proof (Z.mod_pos_bound (len (hex_digits input)) 2). lia.
Qed.
Lemma parse_hex_written input l : is_bytes l -> to_ascii_lowercase (hex_digits input) = hex_of l -> parse_hex_bytes input = Ok l.
Proof.
  intros Hl Hx. assert (Hlen : len (hex_digits input) = 2 * len l).
  { rewrite <- len_hex_of, <- Hx. unfold len, to_ascii_lowercase. by rewrite length_map. }
  destruct (parse_hex_exact input) as [(l' & -> & Hl' & Hx')|[_ Ho]].
  - f_equal. rewrite Hx in Hx'. apply (f_equal common.decode_pairs) in Hx'. rewrite !decode_hex_of in Hx' by done. congruence.
  - rewrite Hlen, Z.mul_comm, Z_mod_mult in Ho. lia.
Qed.
Lemma lower_hex_byte b : is_u 8 b -> to_ascii_lowercase (hex_byte b) = hex_byte b.
Proof.
  assert (Hall : Forall (fun b => to_ascii_lowercase (hex_byte b) = hex_byte b) (seqZ 0 256)) by (apply (bool_decide_unpack _); vm_compute; exact I).
  intros Hb. rewrite Forall_forall in Hall. apply Hall. rewrite elem_of_seqZ. unfold is_u in Hb. lia.
Qed.
End HexLemmas.


(** ** What the buttons do *)
Section Buttons.
Context `{WebErrors} {CongestionControl World Handle Ru Rb Rg W Su Sb Rd R : Type}
  `{!Client.BrowserApi CongestionControl World Handle Ru Rb Rg W} `{!Browser World W Rd R} `{!JsWriter W R} `{!JsReader Rd R} `{!AsyncWriteExt}.
Abbreviation Page := (Page (World:=World) (Handle:=Handle) (Ru:=Ru) (Rb:=Rb) (Rg:=Rg) (W:=W) (Su:=Su) (Sb:=Sb)).

(** A connection with the options and the URL: its session is the page's when it
    succeeds, which keeps the one it has when it fails. *)
Definition connects (options : WebTransportOptions CongestionControl) (url : bytes) (p : Page) (r : outcome JsValue unit) (p' : Page) : Prop :=
  match Client.connect options url (browser p) with
  | (Ok session, w) => r = Ok () /\ p' = MkPage (Some session) w
  | (Err e, w) => r = Err (js_str (error_to_string e)) /\ p' = MkPage (STATE p) w
  | (_, w) => panics r /\ p' = MkPage (STATE p) w
  end.
Definition pinned (fp : bytes) : WebTransportOptions CongestionControl := MkOptions None None None (Some [MkHash (lit "sha-256") fp]).
Lemma connects_runs options url (p : Page) :
  let '(r, p') := (let* session := in_browser (Client.connect options url) in set_session session) p in connects options url p r p'.
Proof.
  unfold connects, bind, in_browser, map_err, set_session. destruct (Client.connect options url (browser p)) as [[session|e| |] w]; cbn;
    unfold panics; auto.
Qed.

(** Whom the page talks to.  Pressing "connect" with a fingerprint connects with
    exactly that one, the bytes whose digits, in either case and whatever else the
    text has, are those pasted; so the fingerprint that the echo server prints, with
    or without separators, names the server's certificate.  A text of any other
    length changes nothing and does not reach the browser, like a URL that does not
    parse.  After "close" the page has no session, and the echoes are errors. *)
Theorem demo_pins (parse_url : bytes -> outcome bytes bytes) (url hash url' : bytes) (Hu : parse_url url = Ok url') (p : Page) :
  (forall fp, is_bytes fp -> len fp = 32 -> to_ascii_lowercase (hex_digits hash) = hex_of fp ->
     let '(r, p') := connect_pin parse_url url hash p in connects (pinned fp) url' p r p') /\
  (forall digest der, is_bytes (digest der) -> len (digest der) = 32 -> hex_digits hash = Setup.fp digest der ->
     let '(r, p') := connect_pin parse_url url hash p in connects (pinned (digest der)) url' p r p') /\
  (len (hex_digits hash) <> 64 -> exists text, connect_pin parse_url url hash p = (Err (js_str text), p)) /\
  (let '(r, p') := connect_system parse_url url p in connects (MkOptions None None None None) url' p r p') /\
  (forall r p', close p = (r, p') -> STATE p' = None /\
     (forall fuel, bi_echo fuel p' = (Err (js_str (lit "not connected")), p')) /\ datagram_echo p' = (Err (js_str (lit "not connected")), p')).
Proof.
  assert (Hpin : forall fp, is_bytes fp -> len fp = 32 -> to_ascii_lowercase (hex_digits hash) = hex_of fp ->
    let '(r, p') := connect_pin parse_url url hash p in connects (pinned fp) url' p r p').
  { intros fp Hb Hl Hx. unfold connect_pin. cbv zeta. unfold bind at 1, map_err at 1, lift at 1. rewrite Hu. unfold bind at 1, lift at 1.
    rewrite (parse_hex_written _ _ Hb Hx), Hl. exact (connects_runs (pinned fp) url' p). }
  assert (Hlower : forall l, is_bytes l -> to_ascii_lowercase (hex_of l) = hex_of l).
  { induction 1 as [|b l Hb _ IH]; [done|]. change (hex_of (b :: l)) with (hex_byte b ++ hex_of l).
    unfold to_ascii_lowercase in *. rewrite map_app, IH. f_equal. by apply lower_hex_byte. }
  split; [done|]. split; [|split; [|split]].
  - intros digest der Hb Hl Hx. apply Hpin; [done..|]. rewrite Hx. by apply Hlower.
  - intros Hl. unfold connect_pin. cbv zeta. unfold bind at 1, map_err at 1, lift at 1. rewrite Hu. unfold bind at 1, lift at 1.
    destruct (parse_hex_exact hash) as [(l & -> & Hb & Hx)|[-> _]]; [|by eexists].
    destruct (Z.eqb_spec (len l) 32) as [He|]; [|by eexists].
    exfalso. apply Hl. apply (f_equal len) in Hx. rewrite len_hex_of, He in Hx. unfold to_ascii_lowercase, len in *. rewrite length_map in Hx. done.
  - unfold connect_system, bind at 1, map_err at 1, lift at 1. rewrite Hu. exact (connects_runs (MkOptions None None None None) url' p).
  - intros r p'. unfold close, Sessions.close, Wasm.trait_session. destruct (STATE p); intros [= <- <-]; split; done.
Qed.
End Buttons.
