(* ===== verification/ProtoTests.v ===== *)
(** * The tests of webtrans-proto, run on the model

    The unit tests and the benchmarks of webtrans-proto (the [tests] modules of
    capsule.rs, settings.rs, qpack.rs and connect.rs, and benches/), in the order of
    the source: each is a computation that panics where the test would, and each is
    run here on the definitions of this development.  They compare the model with
    the values the authors expect, byte for byte. *)
From S2P Require Import Prelude Buf Utf8 Varint Frame Settings Capsule PrefixInt Qpack Connect Fuzz.

(** ** Assertions *)
Definition test : Type := outcome Empty_set unit.
Definition assert (b : bool) : test := if b then Ok () else Panic.
Definition assert_eq {A} `{EqDecision A} (a b : A) : test := assert (bool_decide (a = b)).
(** [o.unwrap()], [o.unwrap_err()] *)
Definition unwrap {E A} (o : outcome E A) : outcome Empty_set A :=
  match o with Ok a => Ok a | OutOfFuel => OutOfFuel | _ => Panic end.
Definition unwrap_err {E A} (o : outcome E A) : outcome Empty_set E :=
  match o with Err e => Ok e | OutOfFuel => OutOfFuel | _ => Panic end.
Definition unwrap_some {A} (o : option A) : outcome Empty_set A := match o with Some a => Ok a | None => Panic end.
(** [for x in l { .. }] *)
Fixpoint for_each {A} (l : list A) (body : A -> test) : test :=
  match l with [] => Ok () | x :: l => let? _ := body x in for_each l body end.
(** What is written to [Vec::new()]; and what is decoded from a slice, with what is
    left of it. *)
Definition written {E} (m : M bytes E unit) : outcome Empty_set bytes := let? _ := unwrap (m []).1 in Ok (m []).2.
Definition from_slice {E A} (m : M bytes E A) (src : bytes) : outcome Empty_set (A * bytes) := let? a := unwrap (m src).1 in Ok (a, (m src).2).
Definition slice_err {E A} (m : M bytes E A) (src : bytes) : outcome Empty_set E := unwrap_err (m src).1.


(** ** capsule.rs *)
Module CapsuleTests.
Section Tests.
Context `{Platform}.
Abbreviation decode := (Capsule.decode (B:=bytes) (T:=Take bytes)).
Abbreviation encode c := (written (Capsule.encode (W:=bytes) c)).
Definition from_u64 (x : Z) : outcome Empty_set VarInt := unwrap (VarInt.from_u64 x).
Definition u32_bytes (x : Z) : outcome Empty_set bytes := written (VarInt.encode (E:=Empty_set) (VarInt.from_u32 x)).

Definition unknown_capsule_consumes_exactly_one_payload_even_for_grease_values : test :=
  for_each [0x21; 0x17; 0x29 + 0x17] (fun typ =>
    let? typ := from_u64 typ in
    let unknown := Unknown typ [0xff; 0xff; 0xff] in
    let close := CloseWebTransportSession 42 (lit "done") in
    let? bytes := written (Capsule.encode unknown ;;; Capsule.encode close) in
    let? (c, remaining) := from_slice decode bytes in
    let? _ := assert_eq c unknown in
    let? (c, remaining) := from_slice decode remaining in
    let? _ := assert_eq c close in
    assert (bool_decide (remaining = []))).
Definition oversized_capsule_lengths_are_rejected_before_platform_conversion : test :=
  let? bytes := written (VarInt.encode (E:=Empty_set) (VarInt.from_u32 0x17) ;;; VarInt.encode VarInt.MAX) in
  let? e := slice_err decode bytes in
  assert (match e with CEMessageTooLong => true | _ => false end).
Definition test_close_webtransport_session_decode : test :=
  let? typ := from_u64 0x2843 in
  let? data := written (VarInt.encode (E:=Empty_set) typ ;;; VarInt.encode (VarInt.from_u32 8)) in
  let data := data ++ [0; 0; 1; 0xa4] ++ lit "test" in
  let? (capsule, buf) := from_slice decode data in
  let? _ := match capsule with
    | CloseWebTransportSession error_code error_message =>
        let? _ := assert_eq error_code 420 in assert_eq error_message (lit "test")
    | _ => Panic
    end in
  assert_eq (len buf) 0.
Definition test_close_webtransport_session_encode : test :=
  let? buf := encode (CloseWebTransportSession 420 (lit "test")) in
  assert_eq buf ([0x68; 0x43; 8; 0; 0; 1; 0xa4] ++ lit "test").
Definition test_close_webtransport_session_roundtrip : test :=
  let original := CloseWebTransportSession 12345 (lit "Connection closed by application") in
  let? buf := encode original in
  let? (decoded, read_buf) := from_slice decode buf in
  let? _ := assert_eq original decoded in
  assert_eq (len read_buf) 0.
Definition test_empty_error_message : test :=
  let capsule := CloseWebTransportSession 0 [] in
  let? buf := encode capsule in
  let? _ := assert_eq buf [0x68; 0x43; 4; 0; 0; 0; 0] in
  let? (decoded, _) := from_slice decode buf in
  assert_eq capsule decoded.
Definition test_invalid_utf8 : test :=
  let? typ := from_u64 0x2843 in
  let? data := written (VarInt.encode (E:=Empty_set) typ ;;; VarInt.encode (VarInt.from_u32 5)) in
  let? e := slice_err decode (data ++ [0; 0; 0; 0] ++ [0xff]) in
  assert (match e with CEInvalidUtf8 => true | _ => false end).
Definition test_truncated_error_code : test :=
  let? typ := from_u64 0x2843 in
  let? data := written (VarInt.encode (E:=Empty_set) typ ;;; VarInt.encode (VarInt.from_u32 3)) in
  let? e := slice_err decode (data ++ [0; 0; 0]) in
  assert (match e with CEUnexpectedEnd => true | _ => false end).
Definition test_unknown_capsule : test :=
  let unknown_type := 0x1234 in
  let payload_data := lit "unknown payload" in
  let? typ := from_u64 unknown_type in
  let? data := written (VarInt.encode (E:=Empty_set) typ ;;; VarInt.encode (VarInt.from_u32 (as_u32 (len payload_data)))) in
  let? (capsule, _) := from_slice decode (data ++ payload_data) in
  match capsule with
  | Unknown typ payload => let? _ := assert_eq (into_inner typ) unknown_type in assert_eq payload payload_data
  | _ => Panic
  end.
Definition test_unknown_capsule_roundtrip : test :=
  let? typ := from_u64 0x9999 in
  let capsule := Unknown typ (lit "test payload") in
  let? buf := encode capsule in
  let? (decoded, read_buf) := from_slice decode buf in
  let? _ := assert_eq capsule decoded in
  assert_eq (len read_buf) 0.
Definition test_oversized_close_reason_is_rejected_when_encoding : test :=
  let capsule := CloseWebTransportSession 0 (repeat 120 (Z.to_nat (MAX_MESSAGE_SIZE + 1))) in
  let? e := slice_err (Capsule.encode capsule) [] in
  assert (match e with CEMessageTooLong => true | _ => false end).
Definition tests : list test :=
  [unknown_capsule_consumes_exactly_one_payload_even_for_grease_values; oversized_capsule_lengths_are_rejected_before_platform_conversion;
   test_close_webtransport_session_decode; test_close_webtransport_session_encode; test_close_webtransport_session_roundtrip;
   test_empty_error_message; test_invalid_utf8; test_truncated_error_code; test_unknown_capsule; test_unknown_capsule_roundtrip;
   test_oversized_close_reason_is_rejected_when_encoding].
End Tests.
End CapsuleTests.

(** ** settings.rs *)
Module SettingsTests.
Section Tests.
Context `{Platform}.
Abbreviation decode := (Settings.decode (B:=bytes) (T:=Take bytes)).

Definition latest_settings_enable_webtransport : test :=
  let settings := Settings.enable_webtransport_latest 1 ∅ in
  let? _ := assert_eq (Settings.supports_webtransport settings) 1 in
  assert_eq (settings !! Setting.WT_ENABLED) (Some (VarInt.from_u32 1)).
Definition rejects_duplicate_settings : test :=
  let? data := written (E:=Empty_set) (
    UniStream.encode UniStream.CONTROL ;;; Frame.encode Frame.SETTINGS ;;; VarInt.encode (VarInt.from_u32 4) ;;;
    Setting.encode Setting.ENABLE_DATAGRAM ;;; VarInt.encode (VarInt.from_u32 1) ;;;
    Setting.encode Setting.ENABLE_DATAGRAM ;;; VarInt.encode (VarInt.from_u32 1)) in
  let? error := slice_err decode data in
  assert (match error with SEDuplicateSetting id => bool_decide (id = Setting.ENABLE_DATAGRAM) | _ => false end).
Definition rejects_non_boolean_enabled_value : test :=
  let? data := written (E:=Empty_set) (
    UniStream.encode UniStream.CONTROL ;;; Frame.encode Frame.SETTINGS ;;; VarInt.encode (VarInt.from_u32 5) ;;;
    Setting.encode Setting.WT_ENABLED ;;; VarInt.encode (VarInt.from_u32 2)) in
  let? error := slice_err decode data in
  assert (match error with SEInvalidValue id _ => bool_decide (id = Setting.WT_ENABLED) | _ => false end).
Definition server_settings_require_extended_connect : test :=
  let settings := <[Setting.WT_ENABLED := VarInt.from_u32 1]> ∅ in
  let settings := <[Setting.ENABLE_DATAGRAM := VarInt.from_u32 1]> settings in
  let? _ := assert (Settings.supports_webtransport_client settings) in
  let? _ := assert (negb (Settings.supports_webtransport_server settings)) in
  let settings := <[Setting.ENABLE_CONNECT_PROTOCOL := VarInt.from_u32 1]> settings in
  assert (Settings.supports_webtransport_server settings).
Definition tests : list test :=
  [latest_settings_enable_webtransport; rejects_duplicate_settings; rejects_non_boolean_enabled_value;
   server_settings_require_extended_connect].
End Tests.
End SettingsTests.

(** ** qpack.rs *)
Module QpackTests.
Section Tests.
Context `{Platform} `{!HashMapIter bytes bytes}.
Abbreviation decode := (Headers.decode (B:=bytes) (C:=Chain bytes)).

Definition oversized_prefix_returns_error_without_panicking : test :=
  let? e := slice_err (decode_prefix 7) (replicate 16 0xff) in
  assert_eq e DEBoundsExceeded.
Fixpoint encode_literals (fields : list (bytes * bytes)) : M bytes Empty_set unit :=
  match fields with
  | [] => ret ()
  | (name, value) :: fields => Headers.encode_literal name value ;;; encode_literals fields
  end.
Definition encoded_literal_fields (fields : list (bytes * bytes)) : outcome Empty_set bytes :=
  let '(r, encoded) := encode_literals fields [0; 0] in let? _ := r in Ok encoded.

Definition rejects_dynamic_table_prefix : test :=
  for_each [[1; 0]; [0; 1]; [0; 0x80]] (fun input => let? e := slice_err decode input in assert_eq e DEDynamicEntry).
Definition rejects_invalid_field_names_and_values : test :=
  let? uppercase := encoded_literal_fields [(lit "Content-Type", lit "text/plain")] in
  let? e := slice_err decode uppercase in
  let? _ := assert_eq e DEInvalidFieldName in
  let? newline := encoded_literal_fields [(lit "x-test", lit "one" ++ [10] ++ lit "two")] in
  let? e := slice_err decode newline in
  assert_eq e DEInvalidFieldValue.
Definition rejects_invalid_pseudo_header_order_and_duplicates : test :=
  let? out_of_order := encoded_literal_fields [(lit "x-test", lit "1"); (lit ":path", lit "/")] in
  let? e := slice_err decode out_of_order in
  let? _ := assert_eq e DEPseudoHeaderAfterRegularField in
  let? duplicate := encoded_literal_fields [(lit ":path", lit "/one"); (lit ":path", lit "/two")] in
  let? e := slice_err decode duplicate in
  assert_eq e (DEDuplicatePseudoHeader (lit ":path")).
Definition rejects_http3_connection_specific_fields : test :=
  let? _ := for_each [(lit "connection", lit "close"); (lit "proxy-connection", lit "close"); (lit "keep-alive", lit "timeout=5");
      (lit "transfer-encoding", lit "chunked"); (lit "upgrade", lit "websocket"); (lit "te", lit "gzip")] (fun field =>
    let? encoded := encoded_literal_fields [field] in
    let? e := slice_err decode encoded in
    assert (match e with DEConnectionSpecificField _ => true | _ => false end)) in
  let? trailers := encoded_literal_fields [(lit "te", lit "trailers")] in
  assert (match (decode trailers).1 with Ok _ => true | _ => false end).
Definition validates_message_specific_pseudo_headers : test :=
  let? encoded := encoded_literal_fields [(lit ":status", lit "200")] in
  let? (headers, _) := from_slice decode encoded in
  let? _ := unwrap (Headers.validate_pseudo_headers [lit ":status"] headers) in
  let? e := unwrap_err (Headers.validate_pseudo_headers [lit ":method"] headers) in
  assert_eq e (DEInvalidPseudoHeader (lit ":status")).
Definition tests : list test :=
  [oversized_prefix_returns_error_without_panicking; rejects_dynamic_table_prefix; rejects_invalid_field_names_and_values;
   rejects_invalid_pseudo_header_order_and_duplicates; rejects_http3_connection_specific_fields;
   validates_message_specific_pseudo_headers].
End Tests.
End QpackTests.

(** ** connect.rs *)
Module ConnectTests.
Section Tests.
Context `{Platform} `{UrlLib} `{HttpLib} `{!HashMapIter bytes bytes}.
Definition parse_url (s : bytes) : outcome Empty_set Url := match url_parse s with inl u => Ok u | inr _ => Panic end.

Definition request_uses_current_upgrade_token : test :=
  let? url := parse_url (lit "https://example.com/chat") in
  let? encoded := written (E:=Empty_set) (request_encode (MkConnectRequest url)) in
  let? ((typ, size), source) := from_slice Frame.read encoded in
  let? _ := assert_eq typ Frame.HEADERS in
  let? headers := unwrap (Headers.decode (B:=Take bytes) (C:=Chain (Take bytes)) (MkTake source size)).1 in
  assert_eq (Headers.get (lit ":protocol") headers) (Some (lit "webtransport-h3")).
Definition request_roundtrips `{!EqDecision Url} : test :=
  let? url := parse_url (lit "https://example.com:4433/chat?room=alpha") in
  let? encoded := written (E:=Empty_set) (request_encode (MkConnectRequest url)) in
  let? (decoded, _) := from_slice (request_decode (T:=Take bytes) (C:=Chain (Take bytes))) encoded in
  assert_eq (request_url decoded) url.
Definition response_preserves_rejection_status `{!EqDecision StatusCode} (FORBIDDEN : StatusCode) : test :=
  let? encoded := written (E:=Empty_set) (response_encode (MkConnectResponse FORBIDDEN)) in
  let? (decoded, _) := from_slice (response_decode (T:=Take bytes) (C:=Chain (Take bytes))) encoded in
  assert_eq (response_status decoded) FORBIDDEN.
Definition tests `{!EqDecision Url} `{!EqDecision StatusCode} (FORBIDDEN : StatusCode) : list test :=
  [request_uses_current_upgrade_token; request_roundtrips; response_preserves_rejection_status FORBIDDEN].
End Tests.
End ConnectTests.

(** ** benches/: what the benchmarks repeat *)
Module Benches.
Section Benches.
Context `{Platform} `{UrlLib} `{HttpLib} `{!HashMapIter bytes bytes} `{!HashMapIter Setting VarInt}.

Definition bench_connect_request : test :=
  let? url := ConnectTests.parse_url (lit "https://example.com:4433/wt/chat?room=alpha&v=1") in
  let? encoded := written (E:=Empty_set) (request_encode (MkConnectRequest url)) in
  let? _ := from_slice (request_decode (T:=Take bytes) (C:=Chain (Take bytes))) encoded in Ok ().
Definition bench_connect_response (OK : StatusCode) : test :=
  let? encoded := written (E:=Empty_set) (response_encode (MkConnectResponse OK)) in
  let? _ := from_slice (response_decode (T:=Take bytes) (C:=Chain (Take bytes))) encoded in Ok ().
Definition bench_settings : test :=
  let settings := Settings.enable_webtransport 32 ∅ in
  let? encoded := written (E:=Empty_set) (Settings.encode settings) in
  let? _ := from_slice (Settings.decode (T:=Take bytes)) encoded in Ok ().
Definition bench_capsule : test :=
  let? encoded := written (Capsule.encode (CloseWebTransportSession 420 (lit "benchmark reason"))) in
  let? _ := from_slice (Capsule.decode (T:=Take bytes)) encoded in Ok ().

Definition values : list Z := [63; 16383; 1073741823; Z.shiftl 1 62 - 1].
(** Encoding into a slice of eight bytes, which gives what is left of it. *)
Definition bench_varint_encode : test :=
  for_each values (fun value =>
    let? varint := unwrap (VarInt.from_u64 value) in
    unwrap (VarInt.encode (E:=Empty_set) varint (MkSliceMut [] 8)).1).
Definition bench_varint_decode : test :=
  for_each values (fun value =>
    let? varint := unwrap (VarInt.from_u64 value) in
    let '(r, dst) := VarInt.encode (E:=Empty_set) varint (MkSliceMut [] 8) in
    let? _ := r in
    let size := 8 - sm_left dst in
    let? _ := from_slice VarInt.decode (take (Z.to_nat size) (sm_written dst)) in Ok ()).
Definition benches (OK : StatusCode) : list test :=
  [bench_connect_request; bench_connect_response OK; bench_settings; bench_capsule; bench_varint_encode; bench_varint_decode].
End Benches.
End Benches.

(** ** The run *)

(** URLs by their parts, for those that the tests name. *)
Record test_url := MkTestUrl {
  tu_scheme : bytes; tu_user : bytes; tu_authority : bytes; tu_path : bytes; tu_query : option bytes; tu_fragment : option bytes }.
#[export] Instance test_url_eq_dec : EqDecision test_url.
Proof. solve_decision. Defined.
Definition test_urls : list (bytes * test_url) :=
  let https := lit "https" in let host := lit "example.com" in
  [(lit "https://example.com/chat", MkTestUrl https [] host (lit "/chat") None None);
   (lit "https://example.com:4433/chat?room=alpha", MkTestUrl https [] (lit "example.com:4433") (lit "/chat") (Some (lit "room=alpha")) None);
   (lit "https://example.com:4433/wt/chat?room=alpha&v=1",
    MkTestUrl https [] (lit "example.com:4433") (lit "/wt/chat") (Some (lit "room=alpha&v=1")) None);
   (lit "http://example.com/chat", MkTestUrl (lit "http") [] host (lit "/chat") None None);
   (lit "https://user@example.com/chat", MkTestUrl https (lit "user") (lit "user@example.com") (lit "/chat") None None);
   (lit "https://example.com/chat#fragment", MkTestUrl https [] host (lit "/chat") None (Some (lit "fragment")))].
Definition test_url_lib : UrlLib := {|
  Url := test_url; ParseError := unit;
  url_parse s := match find (fun su => bool_decide (su.1 = s)) test_urls with Some su => inl su.2 | None => inr () end;
  url_scheme := tu_scheme; url_username := tu_user; url_password _ := None; url_authority := tu_authority;
  url_path := tu_path; url_query := tu_query; url_fragment := tu_fragment |}.
#[export] Instance sample_status_eq_dec : EqDecision sample_status.
Proof.
  intros [i Hi] [j Hj]. destruct (decide (i = j)) as [->|Hn]; [left; f_equal; apply proof_irrel|right; congruence].
Defined.
Definition status_403 : @StatusCode sample_http_lib := SampleStatus 303 eq_refl.

Definition all_tests (P : Platform) (headers_order : HashMapIter bytes bytes) (settings_order : HashMapIter Setting VarInt) : list test :=
  CapsuleTests.tests ++ SettingsTests.tests ++ QpackTests.tests ++
  ConnectTests.tests (H0:=test_url_lib) (H1:=sample_http_lib) status_403 ++
  Benches.benches (H0:=test_url_lib) (H1:=sample_http_lib) status_200.

(** Every test and every benchmark runs to its end, on both widths and with the maps
    iterated in either direction. *)
Theorem proto_tests_pass :
  Forall (fun P => Forall (fun order => Forall (fun settings_order => Forall (eq (Ok ())) (all_tests P order settings_order))
    [hm_iter_list Setting VarInt; hm_iter_rev Setting VarInt]) [hm_iter_list bytes bytes; hm_iter_rev bytes bytes]) [Platform64; Platform32].
Proof. repeat constructor. Qed.

(** ** fuzz/corpus: what the decoders make of the inputs kept for the fuzzer *)
Definition seed {E A} (m : M bytes E A) (file : bytes) : outcome E A := (m (common.corpus_bytes file)).1.
Lemma corpus_outcomes :
  let _ := Platform64 in
  let settings := Settings.decode (B:=bytes) (T:=Take bytes) in
  let capsule := Capsule.decode (B:=bytes) (T:=Take bytes) in
  let line s := lit s ++ [10] in
  seed VarInt.decode (line "hex:4000") = Ok (MkVarInt 0) /\ seed VarInt.decode (line "hex:40") = Err MkVarIntUnexpectedEnd /\
  seed settings (line "hex:00040408010801") = Err (SEDuplicateSetting Setting.ENABLE_CONNECT_PROTOCOL) /\
  seed settings (line "hex:0004040801") = Err SEUnexpectedEnd /\ seed settings (line "hex:000480004001") = Err SEUnexpectedEnd /\
  seed capsule (line "hex:68430500000000") = Err CEUnexpectedEnd /\ seed capsule (line "hex:68434405") = Err CEMessageTooLong /\
  seed Frame.read (line "hex:0140") = Err MkVarIntUnexpectedEnd /\ seed Frame.read (line "hex:0180004001") = Err MkVarIntUnexpectedEnd /\
  seed (Headers.decode (B:=bytes) (C:=Chain bytes)) (line "hex:0000ff") = Err DEUnexpectedEnd /\
  seed (Headers.decode (B:=bytes) (C:=Chain bytes)) (line "hex:0000ff80808080") = Err DEUnexpectedEnd.
Proof. cbv zeta. repeat split; vm_compute; reflexivity. Qed.
