(* ===== verification/BackendTests.v ===== *)
(** * The tests of the traits and the backends, run on the model

    The unit tests of webtrans-trait (lib.rs), of the builders and of [validate_url]
    over Quinn and Quion (client.rs, server.rs), and of the browser streams and
    readers (webtrans-wasm: send.rs, session.rs), with the test doubles they use. *)
From S2P Require Import Prelude Buf Utf8 Varint Frame Streams PrefixInt Qpack Connect QuinnStreams QuinnCapsules QuinnSession QuinnHandshake QuinnClient QuinnBuilders.
From S2P Require Import QuionStreams QuionTask QuionSession QuionHandshake QuionBuilders WasmStreams WasmSession ProtoTests.

(** ** webtrans-trait *)
Module TraitTests.
Inductive TestError := MkTestError.
Record TestRecvStream := MkTestRecvStream { data : bytes; pos : Z }.
Definition new (data : bytes) : TestRecvStream := MkTestRecvStream data 0.
Definition read (dst : bytes) : M TestRecvStream TestError (option Z * bytes) := fun self =>
  let available := Z.max 0 (len (data self) - pos self) in
  if available =? 0 then (Ok (None, dst), self) else
  let size := Z.min available (len dst) in
  let end_ := pos self + size in
  let copied := drop (Z.to_nat (pos self)) (take (Z.to_nat end_) (data self)) in
  (Ok (Some size, copied ++ drop (Z.to_nat size) dst), MkTestRecvStream (data self) end_).
#[export] Instance test_recv : Streams.RecvStream TestRecvStream TestError := {| Streams.read := read |}.
Record PartialSendStream := MkPartialSendStream { sent : bytes; max_write : Z }.
Definition write (buf : bytes) : M PartialSendStream TestError Z := fun self =>
  let size := Z.min (len buf) (max_write self) in
  (Ok size, MkPartialSendStream (sent self ++ take (Z.to_nat size) buf) (max_write self)).
#[export] Instance test_send : Streams.SendStream PartialSendStream TestError := {|
  Streams.write := write; Streams.write_buf B _ _ := Streams.SendStream.default_write_buf write |}.

Section Tests.
Context `{Platform}.
Abbreviation read_chunk := (Streams.RecvStream.read_chunk (W:=VecMut)).
Definition read_chunk_respects_max_and_eof : test :=
  let stream := new (lit "hello world") in
  let '(r, stream) := read_chunk 5 stream in
  let? first := unwrap r in
  let? _ := assert_eq first (Some (lit "hello")) in
  let '(r, stream) := read_chunk 1024 stream in
  let? second := unwrap r in
  let? _ := assert_eq second (Some (lit " world")) in
  let? end_ := unwrap (read_chunk 1 stream).1 in
  assert_eq end_ None.
Definition read_buf_advances_buffer : test :=
  let '(r, (_, buf)) := Streams.RecvStream.read_buf (new (lit "test"), with_capacity 4) in
  let? size := unwrap r in
  let? size := unwrap_some size in
  let? _ := assert_eq size 4 in
  assert_eq (vm_bytes buf) (lit "test").
Definition write_chunk_retries_partial_writes : test :=
  let '(r, stream) := Streams.SendStream.write_chunk (lit "hello") (MkPartialSendStream [] 2) in
  let? _ := unwrap r in
  assert_eq (sent stream) (lit "hello").
Definition tests : list test := [read_chunk_respects_max_and_eof; read_buf_advances_buffer; write_chunk_retries_partial_writes].
End Tests.
End TraitTests.

(** ** webtrans-quinn and webtrans-quion *)

(** Both backends have these tests in the same words; [validate] is theirs. *)
Definition is_ok {E A} (o : outcome E A) : bool := match o with Ok _ => true | _ => false end.
Definition is_err {E A} (o : outcome E A) : bool := match o with Err _ => true | _ => false end.
Definition url_test `{UrlLib} {E} (validate : Url -> outcome E unit) : test :=
  let? url := ConnectTests.parse_url (lit "https://example.com/chat") in
  let? _ := assert (is_ok (validate url)) in
  for_each [lit "http://example.com/chat"; lit "https://user@example.com/chat"; lit "https://example.com/chat#fragment"] (fun text =>
    let? url := ConnectTests.parse_url text in
    assert (is_err (validate url))).
Module QuinnTests.
Section Tests.
Context `{Platform} `{RustlsConfig} `{UrlLib} `{HttpLib} `{!UrlHost} {Net Endpoint ClientConfig : Type}
  `{!QuinnConfig Net Endpoint ClientConfig} (installed ring aws_lc_rs : option CryptoProvider).
Definition validates_webtransport_urls : test := url_test (QuinnClient.validate_url (X:=unit)).
Definition builder_records_operation_timeouts : test :=
  let? builder := QuinnBuilders.ClientBuilder_new installed ring aws_lc_rs in
  let builder := QuinnBuilders.with_handshake_timeout 7000 (QuinnBuilders.with_dns_timeout 2000 builder) in
  let? _ := assert_eq (QuinnBuilders.cb_dns_timeout builder) (Some 2000) in
  assert_eq (QuinnBuilders.cb_handshake_timeout builder) (Some 7000).
Definition builder_records_handshake_admission_limits : test :=
  let limit := 17 in
  let? builder := QuinnBuilders.Server.ServerBuilder_new installed ring aws_lc_rs in
  let builder := QuinnBuilders.Server.with_max_pending_handshakes limit (QuinnBuilders.Server.with_handshake_timeout 9000 builder) in
  let? _ := assert_eq (QuinnBuilders.Server.sb_handshake_timeout builder) (Some 9000) in
  assert_eq (QuinnBuilders.Server.sb_max_pending_handshakes builder) limit.
End Tests.
End QuinnTests.

Module QuionTests.
Section Tests.
Context `{Platform} `{Quion} `{!Rustls} `{!RustlsConfig} `{UrlLib} `{HttpLib} `{!UrlHost} {Net Endpoint EP CF D : Type}
  `{!QuionConfig Net Endpoint EP CF D} (installed ring aws_lc_rs : option CryptoProvider).
Definition validates_webtransport_urls : test := url_test (QuionHandshake.validate_url (EP:=EP)).
Definition builder_records_operation_timeouts : test :=
  let? builder := QuionBuilders.ClientBuilder_new installed ring aws_lc_rs in
  let builder := QuionBuilders.with_handshake_timeout 7000 (QuionBuilders.with_dns_timeout 2000 builder) in
  let? _ := assert_eq (QuionBuilders.cb_dns_timeout builder) (Some 2000) in
  assert_eq (QuionBuilders.cb_handshake_timeout builder) (Some 7000).
Definition builder_records_handshake_admission_limits : test :=
  let limit := 17 in
  let? builder := QuionBuilders.ServerBuilder_new installed ring aws_lc_rs in
  let builder := QuionBuilders.with_max_pending_handshakes limit (QuionBuilders.server_handshake_timeout 9000 builder) in
  let? _ := assert_eq (QuionBuilders.sb_handshake_timeout builder) (Some 9000) in
  assert_eq (QuionBuilders.sb_max_pending_handshakes builder) limit.
End Tests.
End QuionTests.

(** ** webtrans-wasm: send.rs *)
Module WasmSendTests.
(** The stream of [controlledWriter]: its sink keeps the chunks, and the first is
    not fulfilled before the gate is released. *)
Record Sink := MkSink { released : bool; chunks : list bytes }.
Definition sink_writer : JsWriter (H0:=sample_web_errors) Sink unit :=
  @Build_JsWriter sample_web sample_web_errors Sink unit
    (fun (started : bool) payload w =>
       if started then (Ok (if released w || (1 <? len (chunks w)) then Some () else None), w)
       else (Ok None, MkSink (released w) (chunks w ++ [payload])))
    (ret ()) (fun w => w) (fun _ w => w) (fun _ r => r) (fun _ _ r => (Ok (), r)).
#[local] Existing Instance sink_writer.
#[local] Existing Instance sample_web_errors.
#[local] Existing Instance sample_web.
Abbreviation Stream := (SendStream Sink unit).
Definition on_sink (f : Sink -> Sink) (s : Stream) : Stream :=
  MkSendStream (stream s) (option_map f (writer s))
    (match write_state s with Idle => Idle | Writing fut => Writing (MkWriteFuture (f (wf_writer fut)) (wf_payload fut) (wf_started fut)) end)
    (is_closed s).
Definition releaseWriter : Stream -> Stream := on_sink (fun w => MkSink true (chunks w)).
Definition writtenBytes (s : Stream) : bytes :=
  match writer s, write_state s with
  | Some w, _ => concat (chunks w)
  | None, Writing fut => concat (chunks (wf_writer fut))
  | None, Idle => []
  end.
Definition await {A} (poll : M Stream io_error (option A)) (s : Stream) : outcome Empty_set (A * Stream) :=
  let '(r, s) := poll_fn 3 poll s in let? a := unwrap r in Ok (a, s).

Definition buffered_write_reports_acceptance_before_waiting_for_js : test :=
  let? stream := unwrap (Send.new (fun _ => Ok (MkSink false [])) tt : outcome Error Stream) in
  let '(first, stream) := Send.poll_write (lit "first") stream in
  let? first := unwrap first in
  let? _ := assert_eq first (Some 5) in
  let '(next, stream) := Send.poll_write (lit "discarded") stream in
  let? next := unwrap next in
  let? _ := assert_eq next None in
  let '(finished, stream) := Send.finish stream in
  let? _ := unwrap_err finished in
  let stream := releaseWriter stream in
  let? (n, stream) := await (Send.poll_write (lit "x")) stream in
  let? _ := assert_eq n 1 in
  let? (_, stream) := await Send.poll_flush stream in
  let? _ := assert_eq (writtenBytes stream) (lit "firstx") in
  let? _ := await Send.poll_close stream in
  Ok ().
End WasmSendTests.

(** ** webtrans-wasm: session.rs *)
Module WasmReaderTests.
(** A controlled stream: what was enqueued is there to be read. *)
Definition queue_reader : ReaderOf (H0:=sample_web_errors) (list bytes) bytes :=
  @Build_ReaderOf sample_web sample_web_errors (list bytes) bytes
    (fun rd => match rd with [] => (Ok None, []) | x :: rd => (Ok (Some (Some x)), rd) end).
#[local] Existing Instance queue_reader.
#[local] Existing Instance sample_web_errors.
#[local] Existing Instance sample_web.
Abbreviation Reader := (SharedReader (list bytes) bytes).
Definition read (s : Reader) : nat * Reader :=
  (length (calls s), MkSharedReader (shared_reader s) (lock_holder s) (calls s ++ [Locking])).
Definition enqueue (x : bytes) (s : Reader) : Reader := MkSharedReader (shared_reader s ++ [x]) (lock_holder s) (calls s).
Definition returned (i : nat) (s : Reader) : outcome Empty_set bytes :=
  match calls s !! i with Some (Returned r) => let? x := unwrap r in unwrap_some x | _ => Panic end.

Definition cancelled_read_is_resumed_by_the_next_caller : test :=
  let? reader := unwrap (SharedReader_new (Ok []) : outcome web_error Reader) in
  let '(pending, reader) := read reader in
  let reader := SharedReader_poll pending reader in
  let? _ := assert (match calls reader !! pending with Some Holding => true | _ => false end) in
  let reader := SharedReader_drop pending reader in
  let reader := enqueue (lit "resumed") reader in
  let '(i, reader) := read reader in
  let? value := returned i (SharedReader_poll i reader) in
  assert_eq value (lit "resumed").
(** [join!] polls the first read, then the second. *)
Definition cloned_readers_serialize_without_losing_values : test :=
  let? reader := unwrap (SharedReader_new (Ok []) : outcome web_error Reader) in
  let reader := enqueue (lit "two") (enqueue (lit "one") reader) in
  let '(first, reader) := read reader in
  let '(second, reader) := read reader in
  let reader := SharedReader_poll second (SharedReader_poll first reader) in
  let? one := returned first reader in
  let? _ := assert_eq one (lit "one") in
  let? two := returned second reader in
  assert_eq two (lit "two").
End WasmReaderTests.

(** ** The run *)
Definition test_host : UrlHost (H:=test_url_lib) := {|
  url_port _ := None; url_host _ := Some (Domain (lit "example.com")); url_cannot_be_a_base _ := false |}.
(** A process whose provider is the one of ring. *)
Definition provider : option (list (bool * bool)) := Some [(true, true)].
Definition all_tests (P : Platform) : list test :=
  TraitTests.tests ++
  [QuinnTests.validates_webtransport_urls (H0:=sample_quinn) (H3:=test_url_lib) (H4:=sample_http_lib) (H5:=test_host);
   QuinnTests.builder_records_operation_timeouts (QuinnConfig0:=sample_quinn_config) None provider None;
   QuinnTests.builder_records_handshake_admission_limits (QuinnConfig0:=sample_quinn_config) None provider None;
   QuionTests.validates_webtransport_urls (H0:=sample_quion) (H3:=test_url_lib) (H4:=sample_http_lib) (H5:=test_host) (EP:=unit);
   QuionTests.builder_records_operation_timeouts (QuionConfig0:=sample_quion_config) None provider None;
   QuionTests.builder_records_handshake_admission_limits (QuionConfig0:=sample_quion_config) None provider None;
   WasmSendTests.buffered_write_reports_acceptance_before_waiting_for_js;
   WasmReaderTests.cancelled_read_is_resumed_by_the_next_caller;
   WasmReaderTests.cloned_readers_serialize_without_losing_values].
(** Every test runs to its end, on both widths. *)
Theorem backend_tests_pass : Forall (fun P => Forall (eq (Ok ())) (all_tests P)) [Platform64; Platform32].
Proof. repeat constructor. Qed.
